(** * blocks: in-place conversion of block devices (C++ port)

    A shallow embedding of the conversion pipelines of [blocks] and the
    properties its specification states about them.  The program talks to the
    outside world all the time (external tools, sysfs, raw device I/O), so the
    embedding is monadic: every function runs over a state made of the bytes
    visible through each device path and of a log of the effects requested so
    far, and it ends like the C++ does, by returning, by throwing, by a failed
    [assert] or by [exit].  What the outside world answers is read from an
    environment record, one field per probe.

    Left out: what the program prints on standard output; the exception
    thrown where a [popen] cannot start its shell (the answer of the tool
    stands for the whole exchange; where the code returns without the
    stream, in [lv_to_bcache] and in the rotate command, that return is
    followed); and, in to-lvm, the contents of the extent that is moved, of
    which the offsets and the lengths are followed. *)

From Stdlib Require Import ZArith List String Ascii Lia Bool DecimalString DecimalN DecimalPos.
From Stdlib.Strings Require Import Byte.
Import ListNotations.
Open Scope string_scope.
Open Scope list_scope.
Open Scope Z_scope.

Set Implicit Arguments.

Infix "+++" := String.append (right associativity, at level 60).

(** ** Run-time model *)

Module Rt.

(** How a C++ call ends. *)
Inductive outcome (A : Type) : Type :=
| Ok (a : A)                (* normal return *)
| Throw (what : string)     (* an exception leaves the function *)
| Abort (what : string)     (* a failed assert, or a trap such as a division by zero *)
| Exit (code : Z).          (* exit(code), as in CLIProgressHandler::bail *)

Arguments Ok {A} a.
Arguments Throw {A} what.
Arguments Abort {A} what.
Arguments Exit {A} code.

(** Effects a run asks of the outside world, in program order. *)
Inductive event : Type :=
| Call (argv : list string) (input : string)  (* quiet_call(argv, input) *)
| Query (what : string)
    (* a question to the system: popen(cmdline, "r"), system("which ..."), open, stat,
       unlink of a scratch file, a sysfs read *)
| System (cmdline : string)                   (* system(cmdline) *)
| Pwrite (path : string) (off len : Z)        (* pwrite(fd, buf, len, off), fd open on path *)
| FileWrite (path : string) (text : string)   (* an ofstream is written and closed *)
| Remove (path : string)                      (* std::filesystem::remove / remove_all, rmdir *)
| Stderr (text : string)                      (* written to std::cerr, its last end of line left out *)
| Notify (text : string)                      (* ProgressListener::notify *)
| Reserve (layer : nat) (pos : Z)             (* reserve_end_area_nonrec entered on stack[layer] *)
| Grow (layer : nat) (upper_bound : Z).       (* grow_nonrec entered on stack[layer] *)


(** The state of a run. *)
Record sys : Type := Sys {
  disks : string -> list byte;   (* bytes visible through each device path *)
  log : list event               (* effects requested so far, oldest first *)
}.

Definition M (A : Type) : Type := sys -> sys * outcome A.

Definition ret {A} (a : A) : M A := fun s => (s, Ok a).

Definition bind {A B} (m : M A) (k : A -> M B) : M B :=
  fun s =>
    match m s with
    | (s', Ok a) => k a s'
    | (s', Throw w) => (s', Throw w)
    | (s', Abort w) => (s', Abort w)
    | (s', Exit c) => (s', Exit c)
    end.

Definition throw {A} (what : string) : M A := fun s => (s, Throw what).
Definition abort {A} (what : string) : M A := fun s => (s, Abort what).
Definition exit {A} (code : Z) : M A := fun s => (s, Exit code).

(** [assert(cond)], assertions enabled: nothing in the sources defines
    [NDEBUG]. *)
Definition assert (cond : bool) (what : string) : M unit :=
  if cond then ret tt else abort what.

(** [try { m } catch (const std::exception& e) { handler(e.what()) }] *)
Definition catch {A} (m : M A) (handler : string -> M A) : M A :=
  fun s =>
    match m s with
    | (s', Throw w) => handler w s'
    | r => r
    end.

(** A destructor that runs when the scope is left, by a return or by an
    exception on its way out (not by [abort] or [exit]); the destructors
    modelled with it catch what they throw themselves. *)
Definition finally {A} (m : M A) (destructor : M unit) : M A :=
  fun s =>
    match m s with
    | (s', Ok a) =>
        match destructor s' with
        | (s'', Ok _) => (s'', Ok a)
        | (s'', Throw w) => (s'', Abort ("terminate: " +++ w))
        | (s'', Abort w) => (s'', Abort w)
        | (s'', Exit c) => (s'', Exit c)
        end
    | (s', Throw w) =>
        match destructor s' with
        | (s'', Ok _) => (s'', Throw w)
        | (s'', Throw w') => (s'', Abort ("terminate: " +++ w'))
        | (s'', Abort w') => (s'', Abort w')
        | (s'', Exit c) => (s'', Exit c)
        end
    | r => r
    end.

Definition emit (e : event) : M unit :=
  fun s => (Sys (disks s) (log s ++ [e]), Ok tt).

Definition when (b : bool) (m : M unit) : M unit := if b then m else ret tt.

(** A [for] loop over a list, stopping at the first call that does not return. *)
Fixpoint for_each {A} (l : list A) (body : A -> M unit) : M unit :=
  match l with
  | [] => ret tt
  | x :: l' => bind (body x) (fun _ => for_each l' body)
  end.

Fixpoint fold_m {A B} (l : list A) (acc : B) (body : B -> A -> M B) : M B :=
  match l with
  | [] => ret acc
  | x :: l' => bind (body acc x) (fun acc' => fold_m l' acc' body)
  end.

End Rt.
Import Rt.

Declare Scope run_scope.
Delimit Scope run_scope with run.
Notation "x <- m ;; k" := (bind m (fun x => k))
  (at level 100, m at next level, right associativity) : run_scope.
Notation "m ;; k" := (bind m (fun _ => k))
  (at level 100, right associativity) : run_scope.
Open Scope run_scope.

(** ** blocks_types.h *)

Module Types.

Definition two64 : Z := 2 ^ 64.
Definition two32 : Z := 2 ^ 32.

(** Arithmetic of [uint64_t] and [uint32_t]: results are reduced. *)
Definition u64 (z : Z) : Z := z mod two64.
Definition u32 (z : Z) : Z := z mod two32.

(** A [uint64_t] passed where an [off_t] is expected. *)
Definition to_off_t (z : Z) : Z := if z <? 2 ^ 63 then z else z - two64.

(** 4MiB PE, for vgmerge compatibility *)
Definition LVM_PE_SIZE : Z := 4 * 1024 * 1024.

Definition ASCII_ALNUM_WHITELIST : string :=
  "abcdefghijklmnopqrstuvwxyzABCDEFGHIJKLMNOPQRSTUVWXYZ0123456789.".

Definition BCACHE_MAGIC : list byte :=
  [xc6; x85; x73; xf6; x4e; x1a; x45; xca;
   x82; x65; xf5; x7f; x48; xba; x6d; x81].

(** [std::to_string] on an unsigned value. *)
Definition to_string (z : Z) : string :=
  NilZero.string_of_uint (N.to_uint (Z.to_N z)).

(** [operator<<] on an [int]. *)
Definition to_string_int (z : Z) : string :=
  if z <? 0 then "-" +++ to_string (- z) else to_string z.

(** [bytes_to_sector]: the division comes first, then the assert. *)
Definition bytes_to_sector (by_ : Z) : M Z :=
  let sectors := by_ / 512 in
  assert (by_ mod 512 =? 0) "by % 512 == 0" ;;
  ret sectors.

Definition intdiv_up (num denom : Z) : Z := u64 (u64 (num - 1) / denom + 1).
Definition align_up (size align : Z) : Z := u64 (intdiv_up size align * align).
Definition align (size align : Z) : Z := u64 ((size / align) * align).

Fixpoint mem_ascii (c : ascii) (s : string) : bool :=
  match s with
  | EmptyString => false
  | String c' s' => Ascii.eqb c c' || mem_ascii c s'
  end.

(** [ASCII_ALNUM_WHITELIST.find(c) != npos] for every character of [s]. *)
Fixpoint all_whitelisted (s : string) : bool :=
  match s with
  | EmptyString => true
  | String c s' => mem_ascii c ASCII_ALNUM_WHITELIST && all_whitelisted s'
  end.

Definition string_empty (s : string) : bool :=
  match s with EmptyString => true | _ => false end.

(** The double quote, for the texts the program assembles. *)
Definition dq : string := String (Ascii.Ascii false true false false false true false false) EmptyString.
Definition quoted (s : string) : string := dq +++ s +++ dq.
Definition nl : string := String (Ascii.Ascii false true false true false false false false) EmptyString.

(** [join_cmd]: the words of a command line, blank separated. *)
Fixpoint join_cmd (cmd : list string) : string :=
  match cmd with
  | [] => ""
  | [w] => w
  | w :: rest => w +++ " " +++ join_cmd rest
  end.

End Types.
Import Types.

(** ** Raw device I/O *)

Module IO.

(** A file descriptor: [None] is the -1 of a failed [open]. *)
Definition fd : Type := option string.

Definition nat_of (z : Z) : nat := Z.to_nat z.

(** Bytes [off, off+len) of a device, as far as it reaches. *)
Definition slice (d : list byte) (off len : Z) : list byte :=
  firstn (nat_of len) (skipn (nat_of off) d).

(** [pread(fd, buf, len, off)]: the count returned and the bytes read. *)
Definition pread (f : fd) (len off : Z) : M (Z * list byte) :=
  fun s =>
    match f with
    | None => (s, Ok (-1, []))
    | Some p =>
        if to_off_t off <? 0 then (s, Ok (-1, []))
        else let b := slice (disks s p) off len in
             (s, Ok (Z.of_nat (List.length b), b))
    end.

(** Overwrite [d] from [off] with [data], not growing the device. *)
Definition splice (d : list byte) (off : Z) (data : list byte) : list byte :=
  let room := (List.length d - nat_of off)%nat in
  let n := Nat.min (List.length data) room in
  firstn (nat_of off) d ++ firstn n data ++ skipn (nat_of off + n) d.

Definition update_disk (ds : string -> list byte) (p : string) (d : list byte)
  : string -> list byte :=
  fun q => if String.eqb q p then d else ds q.

(** [pwrite(fd, data, len, off)] on a block device: the request is logged,
    the bytes that fit are stored, the count stored is returned (-1 when
    nothing could be written). *)
Definition pwrite (f : fd) (data : list byte) (off : Z) : M Z :=
  fun s =>
    match f with
    | None => (s, Ok (-1))
    | Some p =>
        let s1 := Sys (disks s) (log s ++ [Pwrite p off (Z.of_nat (List.length data))]) in
        if to_off_t off <? 0 then (s1, Ok (-1))
        else
          let d := disks s p in
          let room := (List.length d - nat_of off)%nat in
          let n := Nat.min (List.length data) room in
          if (n =? 0)%nat && negb (List.length data =? 0)%nat then (s1, Ok (-1))
          else (Sys (update_disk (disks s) p (splice d off data))
                    (log s ++ [Pwrite p off (Z.of_nat (List.length data))]),
                Ok (Z.of_nat n))
    end.

End IO.
Import IO.

(** ** Big-endian fields *)

Module Endian.

Definition byte_val (b : byte) : Z := Z.of_N (Byte.to_N b).

Definition byte_of_Z (z : Z) : byte :=
  match Byte.of_N (Z.to_N (z mod 256)) with
  | Some b => b
  | None => x00
  end.

(** [be16toh] / [be32toh] of the bytes as they lie on disk. *)
Fixpoint be_decode (bs : list byte) (acc : Z) : Z :=
  match bs with
  | [] => acc
  | b :: bs' => be_decode bs' (acc * 256 + byte_val b)
  end.

Definition be16 (bs : list byte) : Z := be_decode (firstn 2 bs) 0.
Definition be32 (bs : list byte) : Z := be_decode (firstn 4 bs) 0.

(** [htobe32] followed by [memcpy] of the four bytes. *)
Definition be32_bytes (z : Z) : list byte :=
  [byte_of_Z (z / 16777216); byte_of_Z (z / 65536); byte_of_Z (z / 256); byte_of_Z z].

(** [memcpy(buf + at, src, |src|)]. *)
Definition poke (buf : list byte) (at_ : nat) (src : list byte) : list byte :=
  firstn at_ buf ++ src ++ skipn (at_ + List.length src) buf.

End Endian.
Import Endian.

(** ** The outside world

    One field per question the program asks.  Every answer may depend on the
    effects requested so far (a superblock probed after a tool has run need not
    be the one probed before).  Where the program parses a number out of what
    a tool prints, the field holds the number, and [None] when the parse
    ([std::stoull], [std::stoul]) throws. *)

(** What [stat] finds at a path. *)
Inductive stat_result : Type :=
| StatFailed
| NotBlockDevice
| BlockDev (major minor : Z).

(** What the tool of a filesystem prints, as far as [read_superblock] keeps
    it; a field whose line is missing is 0 (the empty text for the state). *)
Record fs_report : Type := Report {
  r_block_size : Z;
  r_block_count : Z;
  r_size_bytes : Z;
  r_devid : Z;
  r_state : string;
  r_mount_tm : Z;
  r_check_tm : Z
}.

Record Env : Type := {
  path_exists : list event -> string -> bool;             (* std::filesystem::exists *)
  stat_dev : list event -> string -> stat_result;         (* stat(path) and S_ISBLK *)
  dir_entries : list event -> string -> list string;      (* directory_iterator: the file names *)
  first_line : list event -> string -> string;            (* std::getline on the file; "" when unreadable *)
  file_number : list event -> string -> option Z;         (* stoull of the first line of the file *)
  uevent_devname : list event -> string -> option string; (* the DEVNAME= line of <dir>/uevent *)
  mountinfo_has : list event -> Z -> Z -> bool;
      (* /proc/self/mountinfo has a line whose third word is major:minor *)
  blockdev_getsize64 : list event -> string -> option Z;  (* blockdev --getsize64 *)
  blkid_type : list event -> string -> Z -> string;       (* blkid -p -o value -s TYPE -O off *)
  open_ok : list event -> string -> bool;                 (* open(path, ...) >= 0, an ofstream opens *)
  call_status : list event -> list string -> Z;           (* quiet_call: what pclose returns *)
  which_ok : list event -> string -> bool;                (* system("which cmd ...") == 0 *)
  luks_dump_offset : list event -> string -> option Z;
      (* "Payload offset:" of cryptsetup luksDump, 0 if absent; None when stoull throws *)
  dm_crypt_offset : list event -> string -> option Z;
      (* dmsetup table -- dev: the offset group, when the table matches dm_crypt_re *)
  bcache_show : list event -> string -> option (option Z * Z);
      (* bcache-super-show: sb.version if present, dev.data.first_sector (0 if absent);
         None when a parse throws *)
  fs_tool : list event -> string -> option fs_report;     (* the command line of the tool *)
  fs_label : list event -> string -> string;              (* blkid -s LABEL *)
  fs_uuid : list event -> string -> string;               (* blkid -s UUID *)
  uuid_generate : list event -> string;                   (* uuid_generate + uuid_unparse *)
  vgs_join : list event -> string -> string * string * option Z;
      (* lvm vgs -o vg_name,vg_uuid,vg_extent_size: the three words; the
         extent size is None when stoul throws *)
  popen_number : list event -> string -> option Z;
      (* stoull of what the command line prints; None when it throws *)
  popen_ok : list event -> string -> bool;
      (* popen(cmdline, "r") gave a stream; asked where the code returns without one *)
  lvs_info : list event -> string -> string * string * string;
      (* what the command line prints, read as the words of
         lvm lvs -o vg_name,vg_uuid,lv_name,lv_uuid,lv_attr: vg name, lv name, lv_attr *)
  io_count : list event -> string -> Z -> Z -> Z;
      (* what pread / pwrite (path, off, len) returns, where contents are not followed *)
  is_lv_probe : list event -> string -> bool;             (* lvm lvs succeeds and prints a number *)
  mkdtemp : list event -> string -> option string;        (* mkdtemp(template); None when it fails *)
  temp_directory_path : list event -> string;
  getpid : Z;
  exec_out : list event -> string -> string;              (* exec_command: what the shell line prints *)
  random_hex : list event -> string;                      (* eight random hex digits *)
  losetup_show : list event -> string -> Z * string;
      (* losetup -f --show: what pclose returns and the line printed *)
  unlink_ok : list event -> string -> bool;               (* unlink(path) == 0 *)
  strerror : list event -> string;                        (* strerror(errno) *)
  system_ok : list event -> string -> bool                (* system(cmdline) == 0 *)
}.

Module Probe.

(** Ask the outside world; the question is logged, the answer is the one
    the environment gives after the effects so far. *)
Definition ask {A} (what : string) (answer : list event -> A) : M A :=
  fun s => let l := log s ++ [Query what] in (Sys (disks s) l, Ok (answer l)).

(** [quiet_call(cmd, table)]: run the command line, feed it [table], and on
    a non-zero status report the tail of dmesg and throw. *)
Definition quiet_call (E : Env) (cmd : list string) (table : string) : M unit :=
  let full_cmd := join_cmd cmd in
  emit (Call cmd table) ;;
  status <- (fun s => (s, Ok (call_status E (log s) cmd))) ;;
  if status =? 0 then ret tt
  else
    stderr_output <- ask "dmesg | tail -n 5" (fun l => exec_out E l "dmesg | tail -n 5") ;;
    emit (Stderr ("Command failed with status " +++ to_string_int status +++ nl +++
                  "Stderr:" +++ nl +++ stderr_output)) ;;
    throw ("Command failed: " +++ full_cmd).

(** [strerror(errno)] *)
Definition errno_text (E : Env) : M string :=
  fun s => (s, Ok (strerror E (log s))).

(** [unlink(path) == 0] *)
Definition unlink (E : Env) (path : string) : M bool :=
  ask ("unlink " +++ path) (fun l => unlink_ok E l path).

End Probe.
Import Probe.

(** ** block_device.cpp *)

Module BlockDevice.

(** The constructor: [assert(std::filesystem::exists(devpath))]; the empty
    path never exists. *)
Definition make (E : Env) (devpath : string) : M string :=
  ex <- ask ("exists " +++ devpath)
            (fun l => negb (string_empty devpath) && path_exists E l devpath) ;;
  assert ex "std::filesystem::exists(devpath)" ;;
  ret devpath.

Definition size (E : Env) (devpath : string) : M Z :=
  r <- ask ("blockdev --getsize64 " +++ devpath) (fun l => blockdev_getsize64 E l devpath) ;;
  match r with
  | None => throw "stoull"
  | Some size_value =>
      assert (size_value mod 512 =? 0) "size_value % 512 == 0" ;;
      ret size_value
  end.

Definition superblock_at (E : Env) (devpath : string) (offset : Z) : M string :=
  ask ("blkid -p -o value -s TYPE -O " +++ to_string offset +++ " -- " +++ devpath)
      (fun l => blkid_type E l devpath offset).

Definition superblock_type (E : Env) (devpath : string) : M string :=
  superblock_at E devpath 0.

(** [open(devpath, flags)]: the descriptor, or -1. *)
Definition open_ (E : Env) (devpath : string) (flags : string) : M fd :=
  ok <- ask ("open " +++ flags +++ " " +++ devpath) (fun l => open_ok E l devpath) ;;
  ret (if ok then Some devpath else None).

Definition open_excl (E : Env) (devpath : string) : M fd :=
  open_ E devpath "O_SYNC|O_RDWR|O_EXCL".

Definition open_excl_ctx (E : Env) (devpath : string) : M fd :=
  f <- open_excl E devpath ;;
  match f with
  | None =>
      err <- errno_text E ;;
      throw ("Failed to open device " +++ devpath +++ " exclusively: " +++ err)
  | Some _ => ret f
  end.

Definition bytes_eqb (a b : list byte) : bool :=
  if list_eq_dec Byte.byte_eq_dec a b then true else false.

(** blkid doesn't detect bcache, so special-case it. *)
Definition has_bcache_superblock (E : Env) (devpath : string) : M bool :=
  sz <- size E devpath ;;
  if sz <=? 8192 then ret false
  else
    sbfd <- open_ E devpath "O_RDONLY" ;;
    match sbfd with
    | None => throw "Failed to open device for bcache detection"
    | Some _ =>
        r <- pread sbfd 16 (4096 + 24) ;;
        let '(bytes_read, magic) := r in
        if negb (bytes_read =? 16) then ret false
        else ret (bytes_eqb magic BCACHE_MAGIC)
    end.

(** [devnum]: stat the node. *)
Definition devnum (E : Env) (devpath : string) : M (Z * Z) :=
  st <- ask ("stat " +++ devpath) (fun l => stat_dev E l devpath) ;;
  match st with
  | StatFailed => throw ("Failed to stat device " +++ devpath)
  | NotBlockDevice => throw (devpath +++ " is not a block device")
  | BlockDev major minor => ret (major, minor)
  end.

(** [sysfspath]: the same checks, then [devnum] once more. *)
Definition sysfspath (E : Env) (devpath : string) : M string :=
  _ <- devnum E devpath ;;
  mm <- devnum E devpath ;;
  let '(major, minor) := mm in
  ret ("/sys/dev/block/" +++ to_string_int major +++ ":" +++ to_string_int minor).

Definition exists_ (E : Env) (path : string) : M bool :=
  ask ("exists " +++ path) (fun l => path_exists E l path).

(** [devpath_from_sysdir]: "/dev/" and the DEVNAME of the uevent file, or "". *)
Definition devpath_from_sysdir (E : Env) (sd : string) : M string :=
  name <- ask ("read " +++ sd +++ "/uevent") (fun l => uevent_devname E l sd) ;;
  match name with
  | Some n => ret ("/dev/" +++ n)
  | None => ret ""
  end.

Definition iter_holders (E : Env) (devpath : string) : M (list string) :=
  sp <- sysfspath E devpath ;;
  let holders_path := sp +++ "/holders" in
  ex <- exists_ E holders_path ;;
  if negb ex then ret []
  else
    names <- ask ("ls " +++ holders_path) (fun l => dir_entries E l holders_path) ;;
    fold_m names [] (fun holders name => hld <- make E ("/dev/" +++ name) ;;
                                         ret (holders ++ [hld])).

Definition is_dm (E : Env) (devpath : string) : M bool :=
  sp <- sysfspath E devpath ;;
  exists_ E (sp +++ "/dm").

(** [is_lv]: what happens inside the try block is the environment's; a
    throw of [is_dm] is not caught. *)
Definition is_lv (E : Env) (devpath : string) : M bool :=
  dm <- is_dm E devpath ;;
  if negb dm then ret false
  else ask ("lvm lvs --noheadings --rows --units=b --nosuffix -o vg_extent_size -- " +++ devpath)
           (fun l => is_lv_probe E l devpath).

Definition is_partition (E : Env) (devpath : string) : M bool :=
  sp <- sysfspath E devpath ;;
  let partition_path := sp +++ "/partition" in
  ex <- exists_ E partition_path ;;
  if negb ex then ret false
  else
    content <- ask ("read " +++ partition_path) (fun l => first_line E l partition_path) ;;
    ret (negb (string_empty content) && negb (content =? "0")%string).

(** [ptable_context]: the outer partition table and our offset within it. *)
Definition ptable_context (E : Env) (devpath : string) : M (string * Z) :=
  part <- is_partition E devpath ;;
  assert part "is_partition()" ;;
  sp <- sysfspath E devpath ;;
  parent <- devpath_from_sysdir E (sp +++ "/..") ;;
  ptable_device <- make E parent ;;
  sp <- sysfspath E devpath ;;
  start <- ask ("read " +++ sp +++ "/start") (fun l => file_number E l (sp +++ "/start")) ;;
  match start with
  | None => throw "stoull"
  | Some v => ret (ptable_device, u64 (v * 512))
  end.

(** [dev_resize]: be explicit about the intended direction; shrink is more
    dangerous.  [PartitionTable::part_resize] is a placeholder, and
    [reset_size] forgets a value that [size] never stores. *)
Definition dev_resize (E : Env) (devpath : string) (newsize : Z) (shrink : bool) : M unit :=
  let newsize := align_up newsize 512 in
  part <- is_partition E devpath ;;
  if part then
    _ <- ptable_context E devpath ;;
    ret tt
  else
    lv <- is_lv E devpath ;;
    if lv then
      (* Alloc policy / dest PVs might be useful here,
         but difficult to expose cleanly. *)
      quiet_call E ((if shrink then ["lvm"; "lvreduce"; "-f"] else ["lvm"; "lvextend"])
                    ++ ["--size=" +++ to_string newsize +++ "b"; "--"; devpath]) ""
    else throw "Only partitions and LVs can be resized".

End BlockDevice.
Import BlockDevice.

(** ** container.cpp *)

Module LUKS.

Record t : Type := Make {
  device : string;
  offset : Z;              (* SimpleContainer::offset, bytes *)
  sb_end : Z;
  _superblock_read : bool
}.

Definition create (device : string) : t := Make device 0 0 false.
Definition with_sb_end (this : t) (v : Z) : t :=
  Make (device this) (offset this) v (_superblock_read this).

(** "LUKS\xBA\xBE" *)
Definition LUKS_MAGIC : list byte := [x4c; x55; x4b; x53; xba; xbe].

(** read the cyphertext's luks superblock *)
Definition read_superblock (E : Env) (this : t) : M t :=
  r <- ask ("cryptsetup luksDump -- " +++ device this)
           (fun l => luks_dump_offset E l (device this)) ;;
  match r with
  | None => throw "stoull"
  | Some v =>
      let offset := u64 (v * 512) in
      if offset =? 0 then throw "Failed to determine LUKS offset"
      else ret (Make (device this) offset (sb_end this) true)
  end.

(** One turn of the key-slot loop of [read_superblock_ll]; the products and
    [key_offset * 512] are computed on [uint32_t] operands. *)
Definition key_slot_step (f : fd) (key_bytes : Z) (sb_end_tmp : Z) (key_slot : Z) : M Z :=
  r <- pread f 8 (208 + 48 * key_slot + 40) ;;
  let '(n, buffer) := r in
  if negb (n =? 8) then throw "Failed to read LUKS key slot info"
  else
    let key_offset := be32 buffer in
    let key_stripes := be32 (skipn 4 buffer) in
    if negb (key_stripes =? 4000) then throw "Unexpected LUKS key stripes value"
    else
      let key_size := u32 (key_stripes * key_bytes) in
      let key_end := u64 (u32 (key_offset * 512) + key_size) in
      ret (if key_end >? sb_end_tmp then key_end else sb_end_tmp).

(** Low-level.  A call that throws leaves [sb_end] at 0 in the object; the
    object is only handed on when the call returns. *)
Definition read_superblock_ll (this : t) (f : fd) : M t :=
  let this := with_sb_end this 0 in
  r <- pread f 8 0 ;;
  let '(n, buffer) := r in
  if negb (n =? 8) then throw "Failed to read LUKS header magic"
  else
    let magic := firstn 6 buffer in
    let version := be16 (skipn 6 buffer) in
    if negb (bytes_eqb magic LUKS_MAGIC) then throw "Invalid LUKS magic"
    else if negb (version =? 1) then throw "Unsupported LUKS version"
    else
      r <- pread f 8 104 ;;
      let '(n, buffer) := r in
      if negb (n =? 8) then throw "Failed to read LUKS payload info"
      else
        let payload_start_sectors := be32 buffer in
        let key_bytes := be32 (skipn 4 buffer) in
        sb_end_tmp <- fold_m [0; 1; 2; 3; 4; 5; 6; 7] 592 (key_slot_step f key_bytes) ;;
        let ll_offset := u32 (payload_start_sectors * 512) in
        if negb (ll_offset =? offset this)
        then throw "LUKS offset mismatch between high-level and low-level reads"
        else if ll_offset <? sb_end_tmp
        then throw "LUKS payload offset is less than superblock end"
        else ret (with_sb_end this sb_end_tmp).

Definition zeros (n : Z) : list byte := repeat x00 (nat_of n).

Definition shift_sb (this : t) (f : fd) (shift_by : Z) : M t :=
  if (shift_by =? 0) || negb (shift_by mod 512 =? 0) || negb (offset this mod 512 =? 0)
  then throw "Invalid LUKS shift parameters"
  else if u64 (sb_end this + shift_by) >? offset this
  then throw "Not enough space to shift LUKS superblock"
  else
    (* Read the superblock *)
    r <- pread f (sb_end this) 0 ;;
    let '(n, sb) := r in
    if negb (n =? sb_end this) then throw "Failed to read LUKS superblock for shifting"
    else
      (* Edit the sb *)
      let offset_sectors := u32 (offset this / 512) in
      let new_offset_sectors := u32 (offset_sectors - shift_by / 512) in
      (* memcpy(sb.data() + 104, ..., 4) needs the four bytes to be there *)
      if sb_end this <? 108 then abort "memcpy past the end of sb"
      else
        let sb := poke sb 104 (be32_bytes new_offset_sectors) in
        let combined := zeros shift_by ++ sb in
        (* Write the shifted, edited superblock *)
        wr_len <- pwrite f combined 0 ;;
        if negb (wr_len =? Z.of_nat (List.length combined))
        then throw "Failed to write shifted LUKS superblock"
        else
          (* Wipe the results of read_superblock_ll; keep offset for now *)
          ret (with_sb_end this 0).

End LUKS.

Module BCacheBacking.

Record t : Type := Make {
  device : string;
  offset : Z;
  version : option Z
}.

Definition create (device : string) : t := Make device 0 None.

Definition read_superblock (E : Env) (this : t) : M t :=
  r <- ask ("bcache-super-show -- " +++ device this)
           (fun l => bcache_show E l (device this)) ;;
  match r with
  | None => throw "stoi"
  | Some (version, first_sector) =>
      let offset := u64 (first_sector * 512) in
      if offset =? 0 then throw "Failed to determine bcache offset"
      else ret (Make (device this) offset version)
  end.

(** Whitelist versions, just in case newer backing devices are too different *)
Definition is_backing (this : t) : bool :=
  match version this with
  | Some v => (v =? 1) || (v =? 4)
  | None => false
  end.

Definition is_activated (E : Env) (this : t) : M bool :=
  sp <- sysfspath E (device this) ;;
  exists_ E (sp +++ "/bcache").

End BCacheBacking.

(** ** synthetic_device.cpp *)

Module SyntheticDevice.

Record t : Type := Make {
  devpath : string;
  data : list byte;
  writable_hdr_size : Z;
  rz_size : Z;
  writable_end_size : Z
}.

(** [copy_to_physical(dev_fd, shift_by, reserved_area, other_device)].  The
    parameter [shift_by] is a [uint64_t]: whatever the caller writes is
    reduced on the way in.  The counts of [pwrite] and [pread] are compared
    with the sizes cast to [ssize_t]. *)
Definition copy_to_physical (E : Env) (this : t) (dev_fd : fd)
           (shift_by_arg reserved_area : Z) (other_device : bool) : M unit :=
  let shift_by := u64 shift_by_arg in
  let hdr := writable_hdr_size this in
  let wend := writable_end_size this in
  assert (Z.of_nat (List.length (data this)) =? u64 (hdr + wend))
         "data.size() == writable_hdr_size + writable_end_size" ;;
  let start_data := firstn (nat_of hdr) (data this) in
  let end_data := skipn (nat_of hdr) (data this) in
  let wrend_offset := u64 (hdr + rz_size this + shift_by) in
  let size := u64 (hdr + rz_size this + wend) in
  shift_by <- (if shift_by <? 0
               then assert (negb other_device) "!other_device" ;; ret (u64 (shift_by + size))
               else ret shift_by) ;;
  (* Only enforce shift_by >= reserved_area if reserved_area > 0 *)
  when (negb (reserved_area =? 0))
       (assert (shift_by >=? reserved_area) "shift_by >= reserved_area" ;;
        assert (wrend_offset >=? reserved_area) "wrend_offset >= reserved_area") ;;
  when (negb other_device)
       (assert ((0 <=? shift_by) && (u64 (shift_by + hdr) <=? size))
               "0 <= shift_by && shift_by + writable_hdr_size <= size" ;;
        when (negb (wend =? 0))
             (assert ((0 <=? wrend_offset) && (u64 (wrend_offset + wend) <=? size))
                     "0 <= wrend_offset && wrend_offset + writable_end_size <= size")) ;;
  written <- pwrite dev_fd start_data shift_by ;;
  if negb (written =? to_off_t hdr) then
    err <- errno_text E ;;
    emit (Stderr ("Failed to write to physical device: expected " +++ to_string hdr +++
                  " bytes, wrote " +++ to_string_int written +++ " bytes, errno: " +++ err)) ;;
    throw "Write to physical device failed"
  else
    r <- pread dev_fd hdr shift_by ;;
    let '(read_bytes, read_back) := r in
    if negb (read_bytes =? to_off_t hdr) then
      emit (Stderr ("Failed to read back from physical device: expected " +++ to_string hdr +++
                    " bytes, read " +++ to_string_int read_bytes +++ " bytes")) ;;
      throw "Read back from physical device failed"
    else
      assert (bytes_eqb start_data read_back) "memcmp(start_data, read_back) == 0" ;;
      if wend =? 0 then ret tt
      else
        written <- pwrite dev_fd end_data wrend_offset ;;
        if negb (written =? to_off_t wend) then
          err <- errno_text E ;;
          emit (Stderr ("Failed to write end data to physical device: expected " +++
                        to_string wend +++ " bytes, wrote " +++ to_string_int written +++
                        " bytes, errno: " +++ err)) ;;
          throw "Write end data to physical device failed"
        else
          r <- pread dev_fd wend wrend_offset ;;
          let '(read_bytes, read_back) := r in
          if negb (read_bytes =? to_off_t wend) then
            emit (Stderr ("Failed to read back end data: expected " +++ to_string wend +++
                          " bytes, read " +++ to_string_int read_bytes +++ " bytes")) ;;
            throw "Read back end data failed"
          else assert (bytes_eqb end_data read_back) "memcmp(end_data, read_back) == 0".

End SyntheticDevice.

(** ** Device-mapper tables

    The program writes its tables as text.  Here a table is the list of its
    lines, [render] gives the text handed to dmsetup, and [resolve] is what
    device-mapper makes of it: where a sector of the mapped device lives. *)

Module DM.

Inductive target : Type :=
| Linear (dev : string) (start : Z)   (* "linear <dev> <start>" *)
| Error.                              (* "error" *)

Record line : Type := Line {
  l_start : Z;       (* first sector *)
  l_len : Z;         (* sectors *)
  l_target : target
}.

Definition table : Type := list line.

Definition render_line (l : line) : string :=
  to_string (l_start l) +++ " " +++ to_string (l_len l) +++
  match l_target l with
  | Linear dev start => " linear " +++ dev +++ " " +++ to_string start +++ nl
  | Error => " error" +++ nl
  end.

Definition render (t : table) : string :=
  fold_right (fun l acc => render_line l +++ acc) "" t.

(** The backing device and sector behind [sector], [None] where the table
    has an error target or no target at all. *)
Fixpoint resolve (t : table) (sector : Z) : option (string * Z) :=
  match t with
  | [] => None
  | l :: t' =>
      if (l_start l <=? sector) && (sector <? l_start l + l_len l)
      then match l_target l with
           | Linear dev start => Some (dev, start + (sector - l_start l))
           | Error => None
           end
      else resolve t' sector
  end.

Definition sectors (t : table) : Z :=
  fold_right (fun l acc => Z.max (l_start l + l_len l) acc) 0 t.

(** [mk_dm]: create the node, falling back to --verifyudev; the command
    that removes it again is handed back as the exit callback. *)
Definition mk_dm (E : Env) (devname : string) (t : table) (readonly : bool)
  : M (list string) :=
  let cmd opt := ["dmsetup"; "create"] ++ (if readonly then ["--readonly"] else [])
                 ++ [opt; "--"; devname] in
  needs_udev_fallback <-
    catch (quiet_call E (cmd "--noudevsync") (render t) ;; ret false)
          (fun what =>
             emit (Stderr ("Initial dmsetup failed: " +++ what +++ nl +++ "Trying fallback...")) ;;
             quiet_call E (cmd "--verifyudev") (render t) ;;   (* This must succeed or throw *)
             ret true) ;;
  ret ["dmsetup"; "remove"; if needs_udev_fallback : bool then "--verifyudev" else "--noudevsync";
       "--"; devname].

(** The exit callback: failures are reported, not propagated. *)
Definition run_exit_callback (E : Env) (remove_cmd : list string) : M unit :=
  catch (quiet_call E remove_cmd "")
        (fun what => emit (Stderr ("Warning: Failed to remove device: " +++ what))).

End DM.

Module SyntheticDeviceContext.

Import SyntheticDevice.

Record t : Type := Make {
  device : SyntheticDevice.t;
  temp_file_path : string;
  lo_dev_path : string;
  rozeros_exit : list string;
  synth_exit : list string
}.

Definition starts_with_slash (s : string) : bool :=
  match s with
  | String c _ => Ascii.eqb c "/"%char
  | EmptyString => false
  end.

Definition rozeros_table (rz_sectors : Z) : DM.table :=
  [DM.Line 0 rz_sectors DM.Error].

Definition synth_table (lo_dev_path rozeros_devname : string)
           (writable_sectors rz_sectors wrend_sectors : Z) (with_end : bool) : DM.table :=
  [DM.Line 0 writable_sectors (DM.Linear lo_dev_path 0);
   DM.Line writable_sectors rz_sectors (DM.Linear ("/dev/mapper/" +++ rozeros_devname) 0)]
  ++ (if with_end
      then [DM.Line (u64 (writable_sectors + rz_sectors)) wrend_sectors
                    (DM.Linear lo_dev_path writable_sectors)]
      else []).

(** The constructor; [ftruncate] on the file just created is taken to
    succeed. *)
Definition create (E : Env) (writable_hdr_size rz_size writable_end_size : Z) : M t :=
  hex <- ask "random_device" (random_hex E) ;;
  let temp_file_path := "/tmp/blocks_temp_" +++ hex +++ ".img" in
  f <- open_ E temp_file_path "O_RDWR|O_CREAT|O_TRUNC" ;;
  match f with
  | None => throw ("Failed to create temporary file: " +++ temp_file_path)
  | Some _ =>
      emit (FileWrite temp_file_path
                      ("ftruncate " +++ to_string (u64 (writable_hdr_size + writable_end_size)))) ;;
      (* Set up loopback device *)
      lo <- ask ("losetup -f --show -- " +++ temp_file_path)
                (fun l => losetup_show E l temp_file_path) ;;
      let '(status, lo_dev_path) := lo in
      if negb (status =? 0)
      then _ <- unlink E temp_file_path ;;
           throw ("losetup command failed with status " +++ to_string_int status)
      else if negb (starts_with_slash lo_dev_path)
      then _ <- unlink E temp_file_path ;;
           throw ("Invalid loopback device path: " +++ lo_dev_path)
      else
        (* Generate unique device names *)
        u1 <- ask "uuid_generate" (uuid_generate E) ;;
        let rozeros_devname := "rozeros-" +++ u1 in
        u2 <- ask "uuid_generate" (uuid_generate E) ;;
        let synth_devname := "synthetic-" +++ u2 in
        let synth_devpath := "/dev/mapper/" +++ synth_devname in
        (* Calculate sectors *)
        writable_sectors <- bytes_to_sector writable_hdr_size ;;
        wrend_sectors <- bytes_to_sector writable_end_size ;;
        rz_sectors <- bytes_to_sector rz_size ;;
        (* Create the device mapper devices *)
        rozeros_exit <- DM.mk_dm E rozeros_devname (rozeros_table rz_sectors) true ;;
        synth_exit <- DM.mk_dm E synth_devname
                        (synth_table lo_dev_path rozeros_devname writable_sectors
                                     rz_sectors wrend_sectors
                                     (negb (writable_end_size =? 0)))
                        false ;;
        (* Create the synthetic device *)
        p <- BlockDevice.make E synth_devpath ;;
        ret (Make (SyntheticDevice.Make p [] writable_hdr_size rz_size writable_end_size)
                  temp_file_path lo_dev_path rozeros_exit synth_exit)
  end.

(** [cleanup], run by the destructor: the exit callback tears everything
    down, then the scratch file, unlinked a moment ago, is looked for. *)
Definition cleanup (E : Env) (this : t) : M t :=
  DM.run_exit_callback E (synth_exit this) ;;
  DM.run_exit_callback E (rozeros_exit this) ;;
  (* Detach the loopback device *)
  catch (quiet_call E ["losetup"; "-d"; lo_dev_path this] "")
        (fun what => emit (Stderr ("Warning: Failed to detach loopback device: " +++ what))) ;;
  (* Remove the temporary file *)
  gone <- unlink E (temp_file_path this) ;;
  when (negb gone)
       (emit (Stderr ("Warning: Failed to remove temporary file: " +++ temp_file_path this))) ;;
  (* Read the data from the temporary file before it's deleted *)
  there <- exists_ E (temp_file_path this) ;;
  if negb there then ret this
  else
    file <- open_ E (temp_file_path this) "ifstream" ;;
    match file with
    | None => ret this
    | Some _ =>
        fun s =>
          let d := device this in
          let n := nat_of (u64 (writable_hdr_size d + writable_end_size d)) in
          let bytes := firstn n (disks s (temp_file_path this)) in
          let bytes := bytes ++ repeat x00 (n - List.length bytes) in
          (s, Ok (Make (SyntheticDevice.Make (devpath d) bytes (writable_hdr_size d)
                                             (rz_size d) (writable_end_size d))
                       (temp_file_path this) (lo_dev_path this)
                       (rozeros_exit this) (synth_exit this)))
    end.

End SyntheticDeviceContext.

(** ** Progress listeners (blocks_types.h) *)

Module Progress.

Inductive ProgressListener : Type := CLIProgressHandler | DefaultProgressHandler.

Definition notify (p : ProgressListener) (msg : string) : M unit :=
  match p with
  | CLIProgressHandler => emit (Notify msg)
  | DefaultProgressHandler => emit (Notify ("[INFO] " +++ msg))
  end.

(** Neither handler returns: one exits with status 2, the other throws a
    copy of its [std::exception] argument. *)
Definition bail {A} (p : ProgressListener) (msg : string) : M A :=
  match p with
  | CLIProgressHandler => emit (Stderr msg) ;; exit 2
  | DefaultProgressHandler => emit (Stderr ("[ERROR] " +++ msg)) ;; throw "std::exception"
  end.

(** [Requirement::require] *)
Definition require (E : Env) (p : ProgressListener) (cmd pkg : string) : M unit :=
  if mem_ascii "/"%char cmd
  then bail p ("Command '" +++ cmd +++ "' should not contain a slash")
  else
    (* Check if the command exists using 'which' *)
    let check_cmd := "which " +++ cmd +++ " > /dev/null 2>&1" in
    ok <- ask check_cmd (fun l => which_ok E l cmd) ;;
    if ok then ret tt
    else bail p ("Command '" +++ cmd +++ "' not found, please install the " +++ pkg +++ " package").

Definition LVMReq_require (E : Env) (p : ProgressListener) : M unit := require E p "lvm" "lvm2".
Definition BCacheReq_require (E : Env) (p : ProgressListener) : M unit :=
  require E p "make-bcache" "bcache-tools".

End Progress.
Import Progress.

(** ** The layers as the block stack drives them

    Methods of container.cpp and filesystem.cpp that run external tools.  In
    [reserve_end_area_nonrec] and [grow_nonrec] the argument [i] is the
    position of the object in the stack: entering the method is logged under
    it. *)

Module LuksLayer.

Import LUKS.

(** The loop of [snoop_activated] over the holders: the first one whose
    table is a dm-crypt table at our payload offset. *)
Fixpoint find_holder (E : Env) (this : t) (holders : list string) : M (option string) :=
  match holders with
  | [] => ret None
  | hld :: rest =>
      table <- ask ("dmsetup table -- " +++ hld) (fun l => dm_crypt_offset E l hld) ;;
      match table with
      | Some table_offset =>
          sectors <- bytes_to_sector (offset this) ;;
          if table_offset =? sectors then ret (Some hld) else find_holder E this rest
      | None => find_holder E this rest
      end
  end.

(** [snoop_activated].  With no such holder the C++ builds
    [BlockDevice("")], whose constructor asserts that the path exists. *)
Definition snoop_activated (E : Env) (this : t) : M (t * string) :=
  this <- (if _superblock_read this then ret this else read_superblock E this) ;;
  holders <- iter_holders E (device this) ;;
  found <- find_holder E this holders ;;
  match found with
  | Some hld => ret (this, hld)
  | None => p <- BlockDevice.make E "" ;; ret (this, p)
  end.

Definition activate (E : Env) (this : t) (dmname : string) : M unit :=
  quiet_call E ["cryptsetup"; "luksOpen"; "--"; device this; dmname] "".

Definition cleartext_device (E : Env) (this : t) : M (t * string) :=
  (* If the device is already activated we won't have
     to prompt for a passphrase. *)
  r <- snoop_activated E this ;;
  let '(this, dev) := r in
  if string_empty dev
  then
    u <- ask "uuid_generate" (uuid_generate E) ;;
    let dmname := "cleartext-" +++ u in
    activate E this dmname ;;
    p <- BlockDevice.make E ("/dev/mapper/" +++ dmname) ;;
    ret (this, p)
  else ret (this, dev).

(** [deactivate]: the loop ends when [snoop_activated] finds nothing, that
    is, inside the constructor of [BlockDevice("")].  [patience] bounds the
    number of mappings removed. *)
Fixpoint deactivate_loop (E : Env) (patience : nat) (this : t) : M t :=
  match patience with
  | O => abort "deactivate: still looping"
  | S n =>
      r <- snoop_activated E this ;;
      let '(this, dev) := r in
      if string_empty dev then ret this
      else quiet_call E ["cryptsetup"; "remove"; "--"; dev] "" ;;
           deactivate_loop E n this
  end.

Definition deactivate (E : Env) (this : t) : M t := deactivate_loop E 64 this.

(** The object is handed back with the position: [snoop_activated] may
    have read its superblock on the way. *)
Definition reserve_end_area_nonrec (E : Env) (i : nat) (this : t) (pos : Z) : M (t * Z) :=
  emit (Reserve i pos) ;;
  (* cryptsetup uses the inner size *)
  let inner_size := u64 (pos - offset this) in
  sectors <- bytes_to_sector inner_size ;;
  r <- cleartext_device E this ;;
  let '(this, clear) := r in
  quiet_call E ["cryptsetup"; "resize"; "--size=" +++ to_string sectors; "--"; clear] "" ;;
  r <- snoop_activated E this ;;
  let '(this, activated) := r in
  if string_empty activated then ret (this, pos)
  else
    sz <- BlockDevice.size E activated ;;
    if negb (sz =? inner_size)
    then throw "LUKS resize failed: cleartext device size != inner_size"
    else ret (this, pos).

Definition grow_nonrec (E : Env) (i : nat) (this : t) (upper_bound : Z) : M (t * Z) :=
  emit (Grow i upper_bound) ;;
  reserve_end_area_nonrec E i this upper_bound.

End LuksLayer.

Module BCacheLayer.

Import BCacheBacking.

(** An [ofstream] is opened, written and closed. *)
Definition write_file (E : Env) (path text what : string) : M unit :=
  ok <- ask ("open for writing " +++ path) (fun l => open_ok E l path) ;;
  if negb ok then throw what
  else emit (FileWrite path text).

Definition cached_device (E : Env) (this : t) : M string :=
  act <- is_activated E this ;;
  when (negb act)
       (* XXX How synchronous is this? *)
       (write_file E "/sys/fs/bcache/register" (device this +++ nl)
                   "Failed to open bcache register file") ;;
  sp <- sysfspath E (device this) ;;
  p <- devpath_from_sysdir E (sp +++ "/bcache/dev") ;;
  BlockDevice.make E p.

Definition deactivate (E : Env) (this : t) : M unit :=
  sp <- sysfspath E (device this) ;;
  (* XXX Asynchronous *)
  write_file E (sp +++ "/bcache/stop") ("stop" +++ nl) "Failed to open bcache stop file" ;;
  act <- is_activated E this ;;
  if act then throw "Failed to deactivate bcache device" else ret tt.

Definition grow_nonrec (E : Env) (i : nat) (this : t) (upper_bound : Z) : M Z :=
  emit (Grow i upper_bound) ;;
  sz <- BlockDevice.size E (device this) ;;
  if negb (upper_bound =? sz)
  then throw "Not implemented: bcache resize to size other than device size"
  else
    act <- is_activated E this ;;
    if negb act then ret upper_bound   (* bcache will pick up the size on activation *)
    else
      sp <- sysfspath E (device this) ;;
      (* XXX How synchronous is this? *)
      write_file E (sp +++ "/bcache/resize") ("max" +++ nl) "Failed to open bcache resize file" ;;
      cached <- cached_device E this ;;
      csz <- BlockDevice.size E cached ;;
      if negb (u64 (csz + offset this) =? upper_bound)
      then throw "Bcache resize failed: cached device size + offset != upper_bound"
      else ret upper_bound.

End BCacheLayer.

(** ** filesystem.cpp *)

Module Filesystem.

Inductive kind : Type := ExtFS | XFS | BtrFS | NilFS | ReiserFS | Swap.

Record t : Type := Make {
  device : string;
  fskind : kind;
  block_size : Z;
  block_count : Z;
  size_bytes : Z;
  devid : Z;              (* BtrFS *)
  state : string;         (* ExtFS *)
  mount_tm : Z;           (* ExtFS *)
  check_tm : Z;           (* ExtFS *)
  big_endian : bool;      (* Swap *)
  version : Z             (* Swap *)
}.

(** The constructors set [vfstype] and the two flags and leave the numbers
    uninitialised; they are taken as 0 here. *)
Definition create (device : string) (k : kind) : t :=
  Make device k 0 0 0 0 "" 0 0 false 0.

Definition sb_size_in_bytes (this : t) : bool :=
  match fskind this with NilFS | BtrFS => true | _ => false end.

Definition resize_needs_mpoint (this : t) : bool :=
  match fskind this with XFS | NilFS => true | _ => false end.

Definition can_shrink (this : t) : bool :=
  match fskind this with XFS => false | _ => true end.

Definition vfstype (this : t) : string :=
  match fskind this with
  | ExtFS => "ext4" | XFS => "xfs" | BtrFS => "btrfs"
  | NilFS => "nilfs2" | ReiserFS => "reiserfs" | Swap => "swap"
  end.

Definition fssize (this : t) : M Z :=
  if sb_size_in_bytes this then
    if block_size this =? 0 then abort "size_bytes % block_size: division by zero"
    else assert (size_bytes this mod block_size this =? 0) "size_bytes % block_size == 0" ;;
         ret (size_bytes this)
  else ret (u64 (block_size this * block_count this)).

(** [static_cast<uint32_t>(c)] of a [char], a signed type here. *)
Definition char_u32 (b : byte) : Z :=
  if byte_val b <? 128 then byte_val b else u32 (byte_val b - 256).

(** [(b0 << 24) | (b1 << 16) | (b2 << 8) | b3] on [uint32_t]. *)
Definition word_of (b0 b1 b2 b3 : byte) : Z :=
  Z.lor (Z.lor (Z.lor (u32 (Z.shiftl (char_u32 b0) 24)) (u32 (Z.shiftl (char_u32 b1) 16)))
               (u32 (Z.shiftl (char_u32 b2) 8)))
        (char_u32 b3).

Definition SWAP_MAGIC : list byte := [x53; x57; x41; x50; x53; x50; x41; x43; x45; x32].

(** [Swap::__read_sb]: big endian, version, last page.  Assume 4k pages. *)
Definition swap_read_sb (this : t) (dev_fd : fd) : M (bool * Z * Z) :=
  r <- pread dev_fd 10 (4096 - 10) ;;
  let '(n, magic_buf) := r in
  if negb (n =? 10) then throw "Failed to read swap magic"
  else if negb (bytes_eqb magic_buf SWAP_MAGIC)
  then (* Might be suspend data *)
       throw ("UnsupportedSuperblock: device=" +++ device this +++
              ", magic=" +++ string_of_list_byte magic_buf)
  else
    r <- pread dev_fd 8 1024 ;;
    let '(n, version_buf) := r in
    if negb (n =? 8) then throw "Failed to read swap version"
    else
      let b k := nth k version_buf x00 in
      (* Try big endian first *)
      let version := word_of (b 0%nat) (b 1%nat) (b 2%nat) (b 3%nat) in
      let last_page := word_of (b 4%nat) (b 5%nat) (b 6%nat) (b 7%nat) in
      let no_last_page := "UnsupportedSuperblock: device=" +++ device this +++ ", last_page=0" in
      if version =? 1 then
        if last_page =? 0 then throw no_last_page
        else ret (true, version, last_page)
      else
        let version0 := version in
        (* Try little endian: the same four terms, or-ed in the other order *)
        let version := word_of (b 0%nat) (b 1%nat) (b 2%nat) (b 3%nat) in
        let last_page := word_of (b 4%nat) (b 5%nat) (b 6%nat) (b 7%nat) in
        if negb (version =? 1)
        then throw ("UnsupportedSuperblock: device=" +++ device this +++
                    ", version=" +++ to_string (Z.min version version0))
        else if last_page =? 0 then throw no_last_page
        else ret (false, version, last_page).

(** The command line each kind runs to read its superblock. *)
Definition tool_line (this : t) : string :=
  match fskind this with
  | XFS => "xfs_db -c 'sb 0' -c 'p dblocks blocksize' -- " +++ device this
  | NilFS => "nilfs-tune -l -- " +++ device this
  | BtrFS => "btrfs-show-super -- " +++ device this
  | ReiserFS => "reiserfstune -- " +++ device this
  | ExtFS => "tune2fs -l -- " +++ device this
  | Swap => ""
  end.

(** [read_superblock]: each kind keeps its own lines of what its tool prints;
    Swap reads the signature page itself. *)
Definition read_superblock (E : Env) (this : t) : M t :=
  match fskind this with
  | Swap =>
      dev_fd <- open_excl E (device this) ;;
      r <- swap_read_sb this dev_fd ;;
      let '(big_endian_val, version_val, last_page) := r in
      ret (Make (device this) Swap 4096 (u32 (last_page + 1)) (size_bytes this) (devid this)
                (state this) (mount_tm this) (check_tm this) big_endian_val version_val)
  | k =>
      r <- ask (tool_line this) (fun l => fs_tool E l (tool_line this)) ;;
      match r with
      | None => throw "stoull"
      | Some rep =>
          let this :=
            match k with
            | XFS | ReiserFS =>
                Make (device this) k (r_block_size rep) (r_block_count rep) (size_bytes this)
                     (devid this) (state this) (mount_tm this) (check_tm this)
                     (big_endian this) (version this)
            | NilFS =>
                Make (device this) k (r_block_size rep) (block_count this) (r_size_bytes rep)
                     (devid this) (state this) (mount_tm this) (check_tm this)
                     (big_endian this) (version this)
            | BtrFS =>
                Make (device this) k (r_block_size rep) (block_count this) (r_size_bytes rep)
                     (r_devid rep) (state this) (mount_tm this) (check_tm this)
                     (big_endian this) (version this)
            | _ =>
                Make (device this) k (r_block_size rep) (r_block_count rep) (size_bytes this)
                     (devid this) (r_state rep) (r_mount_tm rep) (r_check_tm rep)
                     (big_endian this) (version this)
            end in
          assert (negb (block_size this =? 0)) "block_size != 0" ;;
          ret this
      end
  end.

(** [is_mounted]: a line of /proc/self/mountinfo names our device number. *)
Definition is_mounted (E : Env) (this : t) : M bool :=
  match fskind this with
  | Swap => throw "Not implemented"   (* parse /proc/swaps, see tab_parse.c *)
  | _ =>
      mm <- devnum E (device this) ;;
      let '(major, minor) := mm in
      ask "read /proc/self/mountinfo" (fun l => mountinfo_has E l major minor)
  end.

(** [TempMount]: the constructor, and the destructor, which reports what
    goes wrong in it and lets nothing out. *)
Definition temp_mount (E : Env) (this : t) : M string :=
  td <- ask "mkdtemp /tmp/privmnt-XXXXXX" (fun l => mkdtemp E l "/tmp/privmnt-XXXXXX") ;;
  match td with
  | None => throw "Failed to create temporary directory"
  | Some mpoint =>
      quiet_call E ["mount"; "-t"; vfstype this; "-o"; "noatime,noexec,nodev";
                    "--"; device this; mpoint] "" ;;
      ret mpoint
  end.

Definition unmount (E : Env) (mpoint : string) : M unit :=
  catch (quiet_call E ["umount"; "--"; mpoint] "" ;; emit (Remove mpoint))
        (fun what => emit (Stderr ("Error during unmount: " +++ what))).

(** [_resize], per kind.  The object comes back: ExtFS notes the check it
    has run. *)
Definition _resize (E : Env) (this : t) (target_size : Z) : M t :=
  if block_size this =? 0 then abort "division by zero"
  else
    match fskind this with
    | XFS =>
        assert (target_size mod block_size this =? 0) "target_size % block_size == 0" ;;
        let target_blocks := target_size / block_size this in
        quiet_call E ["xfs_growfs"; "-D"; to_string target_blocks; "--"; device this] "" ;;
        ret this
    | NilFS =>
        assert (target_size mod block_size this =? 0) "target_size % block_size == 0" ;;
        quiet_call E ["nilfs-resize"; "--yes"; "--"; device this; to_string target_size] "" ;;
        ret this
    | BtrFS =>
        assert (target_size mod block_size this =? 0) "target_size % block_size == 0" ;;
        mpoint <- temp_mount E this ;;
        finally (quiet_call E ["btrfs"; "filesystem"; "resize";
                               to_string (devid this) +++ ":" +++ to_string target_size;
                               mpoint] "")
                (unmount E mpoint) ;;
        ret this
    | ReiserFS =>
        assert (target_size mod block_size this =? 0) "target_size % block_size == 0" ;;
        quiet_call E ["resize_reiserfs"; "-q"; "-s"; to_string target_size;
                      "--"; device this] "" ;;
        ret this
    | ExtFS =>
        let new_block_count := target_size / block_size this in
        assert (target_size mod block_size this =? 0) "target_size % block_size == 0" ;;
        (* resize2fs requires that the filesystem was checked *)
        mounted <- is_mounted E this ;;
        this <- (if negb mounted &&
                    (negb (state this =? "clean")%string || (check_tm this <? mount_tm this))
                 then
                   quiet_call E ["e2fsck"; "-f"; "--"; device this] "" ;;
                   ret (Make (device this) (fskind this) (block_size this) (block_count this)
                             (size_bytes this) (devid this) (state this) (mount_tm this)
                             (mount_tm this) (big_endian this) (version this))
                 else ret this) ;;
        quiet_call E ["resize2fs"; "--"; device this; to_string new_block_count] "" ;;
        ret this
    | Swap =>
        (* using mkswap+swaplabel like GParted would drop some metadata *)
        let last_page := u32 (target_size / block_size this - 1) in
        let word v := if big_endian this then be32_bytes v else rev (be32_bytes v) in
        let buf := word (version this) ++ word last_page in
        dev_fd <- open_excl E (device this) ;;
        n <- pwrite dev_fd buf 1024 ;;
        if negb (n =? 8) then throw "Failed to write swap header" else ret this
    end.

(** [_mount_and_resize]: resize, under a temporary mount where the kind
    needs one and has none, then measure again. *)
Definition _mount_and_resize (E : Env) (this : t) (pos : Z) : M t :=
  this <- (if resize_needs_mpoint this then
             mounted <- is_mounted E this ;;
             if negb mounted then
               mpoint <- temp_mount E this ;;
               finally (_resize E this pos) (unmount E mpoint)
             else _resize E this pos
           else _resize E this pos) ;;
  (* measure size again *)
  this <- read_superblock E this ;;
  sz <- fssize this ;;
  assert (sz =? pos) "fssize() == pos" ;;
  ret this.

Definition reserve_end_area_nonrec (E : Env) (i : nat) (this : t) (pos : Z) : M Z :=
  emit (Reserve i pos) ;;
  (* align to a block boundary that doesn't encroach *)
  if block_size this =? 0 then abort "align: division by zero"
  else
    let pos := align pos (block_size this) in
    sz <- fssize this ;;
    if sz <=? pos then ret pos
    else if negb (can_shrink this) then throw "CantShrink"
    else _ <- _mount_and_resize E this pos ;; ret pos.

Definition grow_nonrec (E : Env) (i : nat) (this : t) (upper_bound : Z) : M Z :=
  emit (Grow i upper_bound) ;;
  if block_size this =? 0 then abort "align: division by zero"
  else
    let newsize := align upper_bound (block_size this) in
    sz <- fssize this ;;
    assert (sz <=? newsize) "fssize() <= newsize" ;;
    if sz =? newsize then ret newsize
    else _ <- _mount_and_resize E this newsize ;; ret newsize.

Definition fslabel (E : Env) (this : t) : M string :=
  ask ("blkid -o value -s LABEL -- " +++ device this) (fun l => fs_label E l (device this)).

Definition fsuuid (E : Env) (this : t) : M string :=
  ask ("blkid -o value -s UUID -- " +++ device this) (fun l => fs_uuid E l (device this)).

End Filesystem.

(** ** block_stack.cpp *)

Module BlockStack.

(** What a [shared_ptr<BlockData>] of the stack points to: the dynamic
    casts of the C++ are matches on this type. *)
Inductive BlockData : Type :=
| L (luks : LUKS.t)                 (* a SimpleContainer *)
| B (bcache : BCacheBacking.t)      (* a SimpleContainer *)
| F (fs : Filesystem.t).

Definition t : Type := list BlockData.

(** [dynamic_pointer_cast<SimpleContainer>] and its [offset]. *)
Definition container_offset (bd : BlockData) : option Z :=
  match bd with
  | L luks => Some (LUKS.offset luks)
  | B bcache => Some (BCacheBacking.offset bcache)
  | F _ => None
  end.

Definition wrappers (stack : t) : list BlockData := removelast stack.

Definition topmost (stack : t) : option BlockData :=
  match stack with
  | [] => None
  | bd :: rest => Some (last rest bd)
  end.

Definition overhead (stack : t) : Z :=
  fold_left (fun total_offset wrapper =>
               match container_offset wrapper with
               | Some o => u64 (total_offset + o)
               | None => total_offset
               end)
            (wrappers stack) 0.

(** The loop of [iter_pos] over the wrappers, from layer [i] on: the pairs
    produced and the position left for the topmost layer. *)
Fixpoint iter_wrappers (ws : list BlockData) (i : nat) (pos : Z)
  : list (Z * (nat * BlockData)) * Z :=
  match ws with
  | [] => ([], pos)
  | block_data :: ws' =>
      let pos' := match container_offset block_data with
                  | Some o => u64 (pos - o)
                  | None => pos
                  end in
      let '(result, p) := iter_wrappers ws' (S i) pos' in
      ((pos, (i, block_data)) :: result, p)
  end.

Definition iter_pos (stack : t) (pos : Z) : list (Z * (nat * BlockData)) :=
  let '(result, p) := iter_wrappers (wrappers stack) 0 pos in
  match topmost stack with
  | Some top => result ++ [(p, (List.length (wrappers stack), top))]
  | None => result
  end.

Definition total_data_size (stack : t) : M Z :=
  fs_size <- match topmost stack with
             | Some (F fs) => Filesystem.fssize fs
             | _ => ret 0
             end ;;
  ret (u64 (fs_size + overhead stack)).

(** The loop of [stack_grow] over the wrappers, from layer [i] on. *)
Fixpoint grow_wrappers (E : Env) (ws : list BlockData) (i : nat) (current_size : Z) : M Z :=
  match ws with
  | [] => ret current_size
  | block_data :: ws' =>
      current_size <-
        match block_data with
        | L luks =>
            r <- LuksLayer.grow_nonrec E i luks current_size ;;
            let '(luks, c) := r in
            ret (u64 (c - LUKS.offset luks))
        | B bcache =>
            c <- BCacheLayer.grow_nonrec E i bcache current_size ;;
            ret (u64 (c - BCacheBacking.offset bcache))
        | F _ => ret current_size
        end ;;
      grow_wrappers E ws' (S i) current_size
  end.

Definition stack_grow (E : Env) (stack : t) (newsize : Z) : M unit :=
  current_size <- grow_wrappers E (wrappers stack) 0 newsize ;;
  match topmost stack with
  | Some (F fs) =>
      _ <- Filesystem.grow_nonrec E (List.length (wrappers stack)) fs current_size ;; ret tt
  | _ => ret tt
  end.

(** The body of the last loop of [stack_reserve_end_area]. *)
Definition reserve_layer (E : Env) (p : Z * (nat * BlockData)) : M unit :=
  let '(inner_pos, (i, block_data)) := p in
  match block_data with
  | F fs_ptr => _ <- Filesystem.reserve_end_area_nonrec E i fs_ptr inner_pos ;; ret tt
  | L luks => _ <- LuksLayer.reserve_end_area_nonrec E i luks inner_pos ;; ret tt
  | B _ => ret tt
  end.

Definition stack_reserve_end_area (E : Env) (progress : ProgressListener)
           (stack : t) (pos : Z) : M unit :=
  match topmost stack with
  | Some (F fs) =>
      if Filesystem.block_size fs =? 0 then abort "align: division by zero"
      else
        let inner_pos := align (u64 (pos - overhead stack)) (Filesystem.block_size fs) in
        sz <- Filesystem.fssize fs ;;
        let shrink_size := u64 (sz - inner_pos) in
        fstype <- superblock_type E (Filesystem.device fs) ;;
        (if sz >? inner_pos then
           if Filesystem.can_shrink fs
           then notify progress ("Will shrink the filesystem (" +++ fstype +++ ") by " +++
                                 to_string shrink_size +++ " bytes")
           else bail progress ("Can't shrink filesystem (" +++ fstype +++
                               "), but need another " +++ to_string shrink_size +++
                               " bytes at the end")
         else notify progress ("The filesystem (" +++ fstype +++
                               ") leaves enough room, no need to shrink it")) ;;
        (* While there may be no need to shrink the topmost fs,
           the wrapper stack needs to be updated for the new size *)
        for_each (rev (iter_pos stack pos)) (reserve_layer E)
  | _ => bail progress "Topmost layer is not a filesystem"
  end.

Definition stack_resize (E : Env) (progress : ProgressListener)
           (stack : t) (pos : Z) (shrink : bool) : M unit :=
  if shrink then stack_reserve_end_area E progress stack pos
  else stack_grow E stack pos.

(** The loop of [read_superblocks] over the wrappers. *)
Fixpoint read_wrappers (E : Env) (ws : list BlockData) : M (list BlockData) :=
  match ws with
  | [] => ret []
  | wrapper :: ws' =>
      w <- match wrapper with
           | L luks => l <- LUKS.read_superblock E luks ;; ret (L l)
           | B bcache => b <- BCacheBacking.read_superblock E bcache ;; ret (B b)
           | F fs => ret (F fs)
           end ;;
      rest <- read_wrappers E ws' ;;
      ret (w :: rest)
  end.

Definition read_superblocks (E : Env) (stack : t) : M t :=
  ws <- read_wrappers E (wrappers stack) ;;
  match topmost stack with
  | Some (F fs) => fs' <- Filesystem.read_superblock E fs ;; ret (ws ++ [F fs'])
  | Some top => ret (ws ++ [top])
  | None => ret ws
  end.

(** Deactivate in reverse order; our devpaths are obsolete afterwards. *)
Fixpoint deactivate_layers (E : Env) (layers : list BlockData) : M unit :=
  match layers with
  | [] => ret tt
  | L luks :: rest => _ <- LuksLayer.deactivate E luks ;; deactivate_layers E rest
  | B bcache :: rest => BCacheLayer.deactivate E bcache ;; deactivate_layers E rest
  | F _ :: rest => deactivate_layers E rest
  end.

Definition deactivate (E : Env) (stack : t) : M unit :=
  deactivate_layers E (rev stack).

Definition fsuuid (E : Env) (stack : t) : M string :=
  match topmost stack with
  | Some (F fs) => Filesystem.fsuuid E fs
  | _ => ret ""
  end.

Definition fslabel (E : Env) (stack : t) : M string :=
  match topmost stack with
  | Some (F fs) => Filesystem.fslabel E fs
  | _ => ret ""
  end.

(** [get_block_stack]: one turn of the loop per container found.  [depth]
    bounds the nesting followed. *)
Definition fs_of_type (superblock_type : string) : option Filesystem.kind :=
  if (superblock_type =? "ext2")%string || (superblock_type =? "ext3")%string
     || (superblock_type =? "ext4")%string then Some Filesystem.ExtFS
  else if (superblock_type =? "reiserfs")%string then Some Filesystem.ReiserFS
  else if (superblock_type =? "btrfs")%string then Some Filesystem.BtrFS
  else if (superblock_type =? "nilfs2")%string then Some Filesystem.NilFS
  else if (superblock_type =? "xfs")%string then Some Filesystem.XFS
  else if (superblock_type =? "swap")%string then Some Filesystem.Swap
  else None.

Fixpoint get_block_stack_loop (E : Env) (progress : ProgressListener) (depth : nat)
         (device : string) (stack : t) : M t :=
  match depth with
  | O => abort "get_block_stack: still looping"
  | S depth' =>
      superblock_type <- BlockDevice.superblock_type E device ;;
      if (superblock_type =? "crypto_LUKS")%string then
        r <- LuksLayer.cleartext_device E (LUKS.create device) ;;
        let '(wrapper, clear) := r in
        get_block_stack_loop E progress depth' clear (stack ++ [L wrapper])
      else
        has <- has_bcache_superblock E device ;;
        if has then
          wrapper <- BCacheBacking.read_superblock E (BCacheBacking.create device) ;;
          (if BCacheBacking.is_backing wrapper then ret tt
           else bail progress "BCache device isn't a backing device") ;;
          cached <- BCacheLayer.cached_device E wrapper ;;
          get_block_stack_loop E progress depth' cached (stack ++ [B wrapper])
        else
          match fs_of_type superblock_type with
          | Some k => ret (stack ++ [F (Filesystem.create device k)])
          | None =>
              if string_empty superblock_type
              then bail progress "Unrecognised superblock"
              else bail progress ("Unsupported superblock type: " +++ superblock_type)
          end
  end.

Definition get_block_stack (E : Env) (progress : ProgressListener) (device : string) : M t :=
  get_block_stack_loop E progress 64 device [].

End BlockStack.

(** ** lvm_operations.cpp: the Augeas handle and the rotation *)

Module Augeas.

(** The interface of [class Augeas].  A handle of type [A] stands for the
    tree held behind it; the editing methods hand back the handle after the
    edit. *)
Class Ops (A : Type) : Type := {
  get_int : A -> string -> Z;
  set_int : A -> string -> Z -> A;
  get : A -> string -> string;
  set : A -> string -> string -> A;
  defvar : A -> string -> string -> A;
  insert : A -> string -> string -> bool -> A;   (* path, label, before *)
  remove : A -> string -> A;
  rename : A -> string -> string -> A
}.

Definition incr {A} `{Ops A} (aug : A) (key : string) (by_ : Z) : A :=
  let val := get_int aug key in
  set_int aug key (val + by_).

Definition decr {A} `{Ops A} (aug : A) (key : string) : A := incr aug key (-1).

(** The class as lvm_operations.cpp implements it: every method is a stub,
    there is no tree behind the handle. *)
#[export] Instance Stub : Ops unit := {
  get_int := fun _ _ => 0;
  set_int := fun _ _ _ => tt;
  get := fun _ _ => "";
  set := fun _ _ _ => tt;
  defvar := fun _ _ _ => tt;
  insert := fun _ _ _ _ => tt;
  remove := fun _ _ => tt;
  rename := fun _ _ _ => tt
}.

End Augeas.

Module LvmRotate.

Import Augeas.

(** [a, a+1, ..., b] *)
Definition range (a b : Z) : list Z :=
  map (fun k => a + Z.of_nat k) (seq 0 (Z.to_nat (b - a + 1))).

Definition seg (i : Z) (rest : string) : string :=
  "$lv/segment" +++ to_string i +++ rest.

Section Rotate.
Context {A : Type} `{Ops A}.

(** checking all segments are linear *)
Definition check_segment (aug : A) (extent_total : Z) (i : Z) : M Z :=
  assert (get aug (seg i "/dict/type/str") =? "striped")%string
         "segment type is striped" ;;
  assert (get_int aug (seg i "/dict/stripe_count") =? 1) "stripe_count == 1" ;;
  ret (extent_total + get_int aug (seg i "/dict/extent_count")).

Definition rotate_forward (aug : A) (segment_count extent_total : Z) : A :=
  (* Those definitions can't be factored out,
     because we move nodes and the vars would follow *)
  let aug := defvar aug "first" "$lv/segment1/dict" in
  (* shifting segments *)
  let aug := fold_left (fun aug i => decr aug (seg i "/dict/start_extent"))
                       (range 2 segment_count) aug in
  (* shrinking first segment by one PE *)
  let aug := decr aug "$first/extent_count" in
  (* inserting new segment at the end *)
  let aug := insert aug (seg segment_count "")
                    ("segment" +++ to_string (segment_count + 1)) false in
  let aug := set_int aug (seg (segment_count + 1) "/dict/start_extent") (extent_total - 1) in
  let aug := defvar aug "last" (seg (segment_count + 1) "/dict") in
  let aug := set_int aug "$last/extent_count" 1 in
  let aug := set aug "$last/type/str" "striped" in
  let aug := set_int aug "$last/stripe_count" 1 in
  (* repossessing the first segment's first PE *)
  let aug := set aug "$last/stripes/list/1/str" (get aug "$first/stripes/list/1/str") in
  let aug := set_int aug "$last/stripes/list/2" (get_int aug "$first/stripes/list/2") in
  let aug := incr aug "$first/stripes/list/2" 1 in
  (* Cleaning up an empty first PE *)
  if get_int aug "$first/extent_count" =? 0 then
    let aug := remove aug "$lv/segment1" in
    let aug := fold_left (fun aug i => rename aug (seg i "")
                                              ("segment" +++ to_string (i - 1)))
                         (range 2 (segment_count + 1)) aug in
    decr aug "$lv/segment_count"
  else aug.

Definition rotate_backward (aug : A) (segment_count : Z) : A :=
  (* shifting segments *)
  let aug := fold_left (fun aug i =>
                          let aug := incr aug (seg i "/dict/start_extent") 1 in
                          rename aug (seg i "") ("segment" +++ to_string (i + 1)))
                       (rev (range 1 segment_count)) aug in
  let aug := defvar aug "last" (seg (segment_count + 1) "/dict") in
  (* shrinking last segment by one PE *)
  let aug := decr aug "$last/extent_count" in
  let last_count := get_int aug "$last/extent_count" in
  (* inserting new segment at the beginning *)
  let aug := insert aug "$lv/segment2" "segment1" true in
  let aug := set_int aug "$lv/segment1/dict/start_extent" 0 in
  let aug := defvar aug "first" "$lv/segment1/dict" in
  let aug := set_int aug "$first/extent_count" 1 in
  let aug := set aug "$first/type/str" "striped" in
  let aug := set_int aug "$first/stripe_count" 1 in
  (* repossessing the last segment's last PE *)
  let aug := set aug "$first/stripes/list/1/str" (get aug "$last/stripes/list/1/str") in
  let aug := set_int aug "$first/stripes/list/2"
                     (get_int aug "$last/stripes/list/2" + last_count) in
  (* Cleaning up an empty last PE *)
  if last_count =? 0 then
    let aug := remove aug (seg (segment_count + 1) "") in
    decr aug "$lv/segment_count"
  else aug.

Definition rotate_aug (aug : A) (forward : bool) (size : Z) : M A :=
  let segment_count := get_int aug "$lv/segment_count" in
  let pe_sectors := get_int aug "$vg/extent_size" in
  let aug := incr aug "$lv/segment_count" 1 in
  extent_total <- fold_m (range 1 segment_count) 0 (check_segment aug) ;;
  sectors <- bytes_to_sector size ;;
  assert (u64 (extent_total * pe_sectors) =? sectors)
         "extent_total * pe_sectors == bytes_to_sector(size)" ;;
  assert (extent_total >? 1) "extent_total > 1" ;;
  ret (if forward then rotate_forward aug segment_count extent_total
       else rotate_backward aug segment_count).

End Rotate.

(** [lv_attr.size() > 4 && lv_attr[4] == 'a'] *)
Definition attr_active (lv_attr : string) : bool :=
  match String.get 4 lv_attr with
  | Some c => Ascii.eqb c "a"%char
  | None => false
  end.

(** Rotate a logical volume by a single PE, then poke LVM to refresh the
    mapping.  The Augeas handle is the class of this file. *)
Definition rotate_lv (E : Env) (device : string) (size : Z) (debug forward : bool) : M unit :=
  let lv_info_cmd := "lvm lvs --noheadings --rows --units=b --nosuffix " +++
                     "-o vg_name,vg_uuid,lv_name,lv_uuid,lv_attr -- " +++ device in
  info <- ask lv_info_cmd (fun l => lvs_info E l lv_info_cmd) ;;
  let '(vgname, lvname, lv_attr) := info in
  let active := attr_active lv_attr in
  (* Make sure the volume isn't in use by unmapping it *)
  quiet_call E ["lvm"; "lvchange"; "-an"; "--"; vgname +++ "/" +++ lvname] "" ;;
  td <- ask "mkdtemp /tmp/blocks.XXXXXX" (fun l => mkdtemp E l "/tmp/blocks.XXXXXX") ;;
  match td with
  | None => throw "Failed to create temporary directory"
  | Some tdname =>
      let vgcfgname := tdname +++ "/vg.cfg" in
      quiet_call E ["lvm"; "vgcfgbackup"; "--file"; vgcfgname; "--"; vgname] "" ;;
      (* the configuration is read into a string that is not used again *)
      let aug := tt in
      assert (all_whitelisted vgname) "vgname within ASCII_ALNUM_WHITELIST" ;;
      assert (all_whitelisted lvname) "lvname within ASCII_ALNUM_WHITELIST" ;;
      aug <- rotate_aug aug forward size ;;
      emit (FileWrite (vgcfgname +++ ".new") ("Simulated modified configuration" +++ nl)) ;;
      (* Simulate reverting the changes to verify stability *)
      aug <- rotate_aug aug (negb forward) size ;;
      emit (FileWrite (vgcfgname +++ ".backagain")
                      ("Simulated reverted configuration" +++ nl)) ;;
      when debug
           (emit (System ("git --no-pager diff --no-index --patience --color-words -- " +++
                          vgcfgname +++ " " +++ vgcfgname +++ ".backagain")) ;;
            emit (System ("git --no-pager diff --no-index --patience --color-words -- " +++
                          vgcfgname +++ " " +++ vgcfgname +++ ".new"))) ;;
      quiet_call E ["lvm"; "vgcfgrestore"; "--file"; vgcfgname +++ ".new"; "--"; vgname] "" ;;
      (* Make sure LVM updates the mapping *)
      quiet_call E ["lvm"; "lvchange"; "--refresh"; "--"; vgname +++ "/" +++ lvname] "" ;;
      when active
           (quiet_call E ["lvm"; "lvchange"; "-ay"; "--"; vgname +++ "/" +++ lvname] "") ;;
      emit (Remove tdname)
  end.

End LvmRotate.

(** ** lvm_operations.cpp: to-lvm *)

Module LvmOps.

Record CommandArgs : Type := Args {
  command : string;
  device : string;
  vgname : string;
  join : string;
  debug : bool;
  maintboot : bool;
  resize_device : bool;
  newsize : Z
}.

(** [std::filesystem::path(p).filename()]: what follows the last slash. *)
Fixpoint filename_from (p : string) (acc : string) : string :=
  match p with
  | EmptyString => acc
  | String c p' =>
      if Ascii.eqb c "/"%char then filename_from p' ""
      else filename_from p' (acc +++ String c EmptyString)
  end.

Definition filename (p : string) : string := filename_from p "".

(** The lines of a text, as [std::getline] hands them out. *)
Fixpoint lines_from (s : string) (cur : string) : list string :=
  match s with
  | EmptyString => if string_empty cur then [] else [cur]
  | String c s' =>
      if Ascii.eqb c (Ascii.Ascii false true false true false false false false)
      then cur :: lines_from s' ""
      else lines_from s' (cur +++ String c EmptyString)
  end.

Definition lines (s : string) : list string := lines_from s "".

Definition unlines (ls : list string) : string :=
  fold_right (fun l acc => l +++ nl +++ acc) "" ls.

(** The text written to the restore file. *)
Definition vg_config (vgname vg_uuid pv_uuid lv_uuid lvname : string)
           (pe_sectors pe_count ba_start ba_size : Z) : string :=
  unlines
    [ "contents = " +++ quoted "Text Format Volume Group";
      "version = 1";
      "";
      vgname +++ " {";
      "    id = " +++ quoted vg_uuid;
      "    seqno = 0";
      "    status = [" +++ quoted "RESIZEABLE" +++ ", " +++ quoted "READ" +++ ", " +++
        quoted "WRITE" +++ "]";
      "    extent_size = " +++ to_string pe_sectors;
      "    max_lv = 0";
      "    max_pv = 0";
      "";
      "    physical_volumes {";
      "        pv0 {";
      "            id = " +++ quoted pv_uuid;
      "            status = [" +++ quoted "ALLOCATABLE" +++ "]";
      "";
      "            pe_start = " +++ to_string pe_sectors;
      "            pe_count = " +++ to_string pe_count;
      "            ba_start = " +++ to_string ba_start;
      "            ba_size = " +++ to_string ba_size;
      "        }";
      "    }";
      "    logical_volumes {";
      "        " +++ lvname +++ " {";
      "            id = " +++ quoted lv_uuid;
      "            status = [" +++ quoted "READ" +++ ", " +++ quoted "WRITE" +++ ", " +++
        quoted "VISIBLE" +++ "]";
      "            segment_count = 2";
      "";
      "            segment1 {";
      "                start_extent = 0";
      "                extent_count = 1";
      "                type = " +++ quoted "striped";
      "                stripe_count = 1 # linear";
      "                stripes = [";
      "                    " +++ quoted "pv0" +++ ", " +++ to_string (u64 (pe_count - 1));
      "                ]";
      "            }";
      "            segment2 {";
      "                start_extent = 1";
      "                extent_count = " +++ to_string (u64 (pe_count - 1));
      "                type = " +++ quoted "striped";
      "                stripe_count = 1 # linear";
      "                stripes = [";
      "                    " +++ quoted "pv0" +++ ", 0";
      "                ]";
      "            }";
      "        }";
      "    }";
      "}" ].

(** The two tables [cmd_to_lvm] writes by hand. *)
Definition rozeros_table (rz_sectors : Z) : DM.table :=
  [DM.Line 0 rz_sectors DM.Error].

Definition synth_table (device rozeros_name : string) (pe_sectors rz_sectors : Z) : DM.table :=
  [DM.Line 0 pe_sectors (DM.Linear device 0);
   DM.Line pe_sectors rz_sectors (DM.Linear ("/dev/mapper/" +++ rozeros_name) 0)].

Definition lvm_config (synth_full_name : string) : string :=
  "devices{filter=[" +++ quoted ("a|^" +++ synth_full_name +++ "$|") +++ "," +++
  quoted "r|.*|" +++ "]}activation{verify_udev_operations=1}".

(** [pread] and [pwrite] where the bytes are not followed: whole extents
    move in this pipeline and external tools write to the device, so only
    the requests and the counts returned are kept. *)
Definition pread_count (E : Env) (f : fd) (len off : Z) : M Z :=
  match f with
  | None => ret (-1)
  | Some p => ask ("pread " +++ p) (fun l => io_count E l p off len)
  end.

Definition pwrite_count (E : Env) (f : fd) (len off : Z) : M Z :=
  match f with
  | None => ret (-1)
  | Some p => emit (Pwrite p off len) ;;
              (fun s => (s, Ok (io_count E (log s) p off len)))
  end.

(** High-level cleanup of stale devices: one [system] call per line. *)
Definition system (E : Env) (cmdline : string) : M bool :=
  emit (System cmdline) ;;
  (fun s => (s, Ok (system_ok E (log s) cmdline))).

Definition remove_stale (E : Env) (dm_devices : string) : M unit :=
  for_each (lines dm_devices)
           (fun dev =>
              ok <- system E ("dmsetup remove " +++ dev +++ " 2>/dev/null") ;;
              when (negb ok)
                   (emit (Stderr ("Failed to remove " +++ dev +++ ": Device or resource busy")))).

(** Step 2 of the pipeline: which VG name and PE size. *)
Definition choose_vg (E : Env) (args : CommandArgs) (devpath : string)
  : M (string * Z * string) :=
  if negb (string_empty (join args)) then
    let vg_info_cmd := "lvm vgs --noheadings --rows --units=b --nosuffix " +++
                       "-o vg_name,vg_uuid,vg_extent_size -- " +++ join args in
    r <- ask vg_info_cmd (fun l => vgs_join E l (join args)) ;;
    let '(join_name, join_uuid, pe_size_str) := r in
    u <- ask "uuid_generate" (uuid_generate E) ;;
    match pe_size_str with
    | None => throw "stoul"
    | Some pe_size => ret (u, pe_size, join_name)
    end
  else if negb (string_empty (vgname args)) then ret (vgname args, LVM_PE_SIZE, "")
  else ret ("vg." +++ filename devpath, LVM_PE_SIZE, "").

Definition cmd_to_lvm (E : Env) (args : CommandArgs) : M Z :=
  device <- BlockDevice.make E (device args) ;;
  let progress := CLIProgressHandler in
  sbt <- superblock_type E device ;;
  when (sbt =? "LVM2_member")%string
       (emit (Stderr "Already a physical volume, removing existing LVM metadata...") ;;
        quiet_call E ["pvremove"; "-ff"; "--"; LvmOps.device args] "") ;;
  LVMReq_require E progress ;;
  r <- choose_vg E args device ;;
  let '(vgname, pe_size, join_name) := r in
  assert (negb (string_empty vgname)) "!vgname.empty()" ;;
  assert (all_whitelisted vgname) "vgname within ASCII_ALNUM_WHITELIST" ;;
  dsize0 <- size E device ;;
  assert (dsize0 mod 512 =? 0) "device.size() % 512 == 0" ;;
  block_stack <- BlockStack.get_block_stack E progress device ;;
  label <- BlockStack.fslabel E block_stack ;;
  lvname <- (if negb (string_empty label) then BlockStack.fslabel E block_stack
             else ret (filename device)) ;;
  let lvname := if all_whitelisted lvname then lvname else "lv1" in
  pe_sectors <- bytes_to_sector pe_size ;;
  dsize <- size E device ;;
  (if pe_size =? 0 then abort "device.size() / pe_size: division by zero" else ret tt) ;;
  let pe_count := u64 (dsize / pe_size - 1) in
  let pe_newpos := u64 (pe_count * pe_size) in
  assert (pe_size >=? 4096) "pe_size >= 4096" ;;
  let ba_start := 2048 in
  let ba_size := 2048 in
  when (debug args) (_ <- size E device ;; ret tt) ;;   (* printed: pe, pe_newpos, devsize *)
  block_stack <- BlockStack.read_superblocks E block_stack ;;
  (* Single filesystem check with -y *)
  catch (quiet_call E ["e2fsck"; "-f"; "-y"; "--"; LvmOps.device args] "")
        (fun what =>
           emit (Stderr ("Filesystem check failed: " +++ what)) ;;
           throw ("Filesystem check failed, please repair manually with 'e2fsck -f " +++
                  LvmOps.device args +++ "'")) ;;
  _ <- size E device ;;                            (* printed: device.size() - pe_newpos *)
  BlockStack.stack_reserve_end_area E progress block_stack pe_newpos ;;
  fsuuid <- BlockStack.fsuuid E block_stack ;;
  BlockStack.deactivate E block_stack ;;
  dev_fd <- open_excl E device ;;
  (match dev_fd with
   | None => err <- errno_text E ;;
             emit (Stderr ("Failed to initially open physical device " +++ device +++
                           ": " +++ err)) ;;
             throw "Failed to open physical device"
   | Some _ => ret tt
   end) ;;
  read_len <- pread_count E dev_fd pe_size 0 ;;
  assert (read_len =? to_off_t pe_size) "read_len == static_cast<ssize_t>(pe_size)" ;;
  wr_len <- pwrite_count E dev_fd pe_size pe_newpos ;;
  assert (wr_len =? to_off_t pe_size) "wr_len == static_cast<ssize_t>(pe_size)" ;;
  (* Close dev_fd to release exclusive lock before dmsetup *)
  (* Clean up stale rozeros and synthetic devices *)
  dm_devices <- ask "dmsetup ls | grep -E 'rozeros|synthetic' | awk '{print $1}'"
                    (fun l => exec_out E l "dmsetup ls | grep -E 'rozeros|synthetic' | awk '{print $1}'") ;;
  remove_stale E dm_devices ;;
  (* Check and log device state *)
  holders <- ask ("lsblk -o NAME -n -l " +++ LvmOps.device args +++ " | grep -v " +++
                  LvmOps.device args)
                 (fun l => exec_out E l ("lsblk " +++ LvmOps.device args)) ;;
  when (negb (string_empty holders))
       (emit (Stderr ("Warning: " +++ LvmOps.device args +++ " has existing mappings:" +++ nl +++
                      holders))) ;;
  dm_table <- ask ("dmsetup table " +++ LvmOps.device args +++ " 2>/dev/null")
                  (fun l => exec_out E l ("dmsetup table " +++ LvmOps.device args)) ;;
  when (negb (string_empty dm_table))
       (emit (Stderr ("Existing dmsetup table for " +++ LvmOps.device args +++ ":" +++ nl +++
                      dm_table))) ;;
  (* Create rozeros device *)
  uuid_str <- ask "uuid_generate" (uuid_generate E) ;;
  let rozeros_name := "rozeros-" +++ uuid_str in
  dsize1 <- size E device ;;
  rz_sectors <- bytes_to_sector (u64 (dsize1 - pe_size)) ;;
  quiet_call E ["dmsetup"; "create"; "--readonly"; "--"; rozeros_name]
             (DM.render (rozeros_table rz_sectors)) ;;
  (* Create synthetic device *)
  let synth_name := "synthetic-" +++ uuid_str in
  let synth_full_name := "/dev/mapper/" +++ synth_name in
  pe_sectors1 <- bytes_to_sector pe_size ;;
  dsize2 <- size E device ;;
  rz_sectors2 <- bytes_to_sector (u64 (dsize2 - pe_size)) ;;
  quiet_call E ["dmsetup"; "create"; "--"; synth_name]
             (DM.render (synth_table (LvmOps.device args) rozeros_name pe_sectors1 rz_sectors2)) ;;
  ex <- ask ("exists " +++ synth_full_name) (fun l => path_exists E l synth_full_name) ;;
  (if ex then ret tt
   else emit (Stderr ("Synthetic device " +++ synth_full_name +++
                      " does not exist after creation")) ;;
        throw "Synthetic device creation failed") ;;
  synth_pv <- BlockDevice.make E synth_full_name ;;
  tmp <- ask "temp_directory_path" (temp_directory_path E) ;;
  let cfgf_path := tmp +++ "/vgcfg_" +++ to_string (getpid E) +++ ".vgcfg" in
  pv_uuid <- ask "uuid_generate" (uuid_generate E) ;;
  vg_uuid <- ask "uuid_generate" (uuid_generate E) ;;
  lv_uuid <- ask "uuid_generate" (uuid_generate E) ;;
  emit (FileWrite cfgf_path
                  (vg_config vgname vg_uuid pv_uuid lv_uuid lvname
                             pe_sectors pe_count ba_start ba_size)) ;;
  let lvm_cfg := "--config='" +++ lvm_config synth_full_name +++ "'" in
  quiet_call E ["lvm"; "pvcreate"; lvm_cfg; "--restorefile"; cfgf_path;
                "--uuid"; pv_uuid; "--zero"; "y"; "--"; synth_full_name] "" ;;
  quiet_call E ["lvm"; "vgcfgrestore"; lvm_cfg; "--file"; cfgf_path; "--"; vgname] "" ;;
  (* Read metadata from synthetic device before removal *)
  synth_fd <- open_ E synth_full_name "O_RDONLY" ;;
  (match synth_fd with
   | None => err <- errno_text E ;;
             emit (Stderr ("Failed to open synthetic device " +++ synth_full_name +++
                           " for reading: " +++ err)) ;;
             throw "Failed to open synthetic device for metadata read"
   | Some _ => ret tt
   end) ;;
  metadata_read <- pread_count E synth_fd pe_size 0 ;;
  (if metadata_read =? to_off_t pe_size then ret tt
   else emit (Stderr ("Failed to read metadata from " +++ synth_full_name +++ ": expected " +++
                      to_string pe_size +++ " bytes, read " +++ to_string_int metadata_read +++
                      " bytes")) ;;
        throw "Failed to read metadata from synthetic device") ;;
  (* Remove synthetic devices *)
  quiet_call E ["dmsetup"; "remove"; synth_name] "" ;;
  quiet_call E ["dmsetup"; "remove"; rozeros_name] "" ;;
  dev_fd <- open_excl E device ;;
  (match dev_fd with
   | None => err <- errno_text E ;;
             emit (Stderr ("Failed to reopen physical device " +++ device +++ ": " +++ err)) ;;
             throw "Failed to reopen physical device for metadata copy"
   | Some _ => ret tt
   end) ;;
  metadata_written <- pwrite_count E dev_fd pe_size 0 ;;
  (if metadata_written =? to_off_t pe_size then ret tt
   else err <- errno_text E ;;
        emit (Stderr ("Failed to write metadata to " +++ device +++ ": expected " +++
                      to_string pe_size +++ " bytes, wrote " +++ to_string_int metadata_written +++
                      " bytes, errno: " +++ err)) ;;
        throw "Failed to write metadata to physical device") ;;
  catch (quiet_call E ["vgchange"; "-ay"; "--"; vgname] "")
        (fun what =>
           emit (Stderr ("Failed to activate volume group " +++ vgname +++ ": " +++ what)) ;;
           throw "Volume group activation failed") ;;
  when (negb (string_empty (join args)))
       (quiet_call E ["lvm"; "vgmerge"; "--"; join_name; vgname] "") ;;
  emit (Remove cfgf_path) ;;
  ret 0.

End LvmOps.

(** ** bcache_operations.cpp *)

Module BcacheOps.

(** [make_bcache_sb]: let make-bcache format a synthetic device.  The copy
    handed back is taken while the context lives, and only the destructor of
    the context ever fills [data]. *)
Definition make_bcache_sb (E : Env) (bsb_size data_size : Z) (join : string)
  : M SyntheticDevice.t :=
  synth_device_ctx <- SyntheticDeviceContext.create E bsb_size data_size 0 ;;
  let dev := SyntheticDeviceContext.device synth_device_ctx in
  finally
    (sectors <- bytes_to_sector bsb_size ;;
     let cmd := ["make-bcache"]
                ++ (if string_empty join then [] else ["--cset-uuid"; join])
                ++ ["--bdev"; "--data_offset"; to_string sectors; SyntheticDevice.devpath dev] in
     quiet_call E cmd "" ;;
     p <- BlockDevice.make E (SyntheticDevice.devpath dev) ;;
     bcache_backing <- BCacheBacking.read_superblock E (BCacheBacking.create p) ;;
     assert (BCacheBacking.offset bcache_backing =? bsb_size) "bcache_backing.offset == bsb_size" ;;
     (* Create a copy of the synthetic device to return *)
     p <- BlockDevice.make E (SyntheticDevice.devpath dev) ;;
     ret (SyntheticDevice.Make p (SyntheticDevice.data dev)
            (SyntheticDevice.writable_hdr_size dev) (SyntheticDevice.rz_size dev)
            (SyntheticDevice.writable_end_size dev)))
    (_ <- SyntheticDeviceContext.cleanup E synth_device_ctx ;; ret tt).

Definition lv_to_bcache (E : Env) (device : string) (debug : bool)
           (progress : ProgressListener) (join : string) : M Z :=
  (* Get PE size from LVM: popen(cmd[0]) runs the first word only *)
  r <- ask "lvm" (fun l => (popen_ok E l "lvm", popen_number E l "lvm")) ;;
  let '(pipe, out) := r in
  if negb pipe then emit (Stderr "Error executing command") ;; ret 1
  else
  match out with
  | None => throw "stoull"
  | Some pe_size =>
      dsize <- size E device ;;
      (if pe_size =? 0 then abort "device.size() % pe_size: division by zero" else ret tt) ;;
      assert (dsize mod pe_size =? 0) "device.size() % pe_size == 0" ;;
      dsize <- size E device ;;
      let data_size := u64 (dsize - pe_size) in
      block_stack <- BlockStack.get_block_stack E progress device ;;
      block_stack <- BlockStack.read_superblocks E block_stack ;;
      BlockStack.stack_reserve_end_area E progress block_stack data_size ;;
      BlockStack.deactivate E block_stack ;;
      fd_ <- open_excl_ctx E device ;;
      synth_bdev <- make_bcache_sb E pe_size data_size join ;;
      SyntheticDevice.copy_to_physical E synth_bdev fd_ (- pe_size) 0 false ;;
      (* Rotate LV *)
      r <- ask "lvm" (fun l => (popen_ok E l "lvm", lvs_info E l "lvm")) ;;
      let '(pipe, info) := r in
      if negb pipe then emit (Stderr "Error executing command") ;; ret 1
      else
      let '(vgname, lvname, lv_attr) := info in
      (* lv_attr[4] == 'a': no look at the size here, a text of four characters
         gives its final zero *)
      let active := LvmRotate.attr_active lv_attr in
      quiet_call E ["lvm"; "lvchange"; "-an"; "--"; vgname +++ "/" +++ lvname] "" ;;
      td <- ask "mkdtemp /tmp/blocks.XXXXXX" (fun l => mkdtemp E l "/tmp/blocks.XXXXXX") ;;
      match td with
      | None => emit (Stderr "Failed to create temporary directory") ;; ret 1
      | Some temp_dir_path =>
          let vgcfgname := temp_dir_path +++ "/vg.cfg" in
          quiet_call E ["lvm"; "vgcfgbackup"; "--file"; vgcfgname; "--"; vgname] "" ;;
          quiet_call E ["lvm"; "lvchange"; "--refresh"; "--"; vgname +++ "/" +++ lvname] "" ;;
          when active
               (quiet_call E ["lvm"; "lvchange"; "-ay"; "--"; vgname +++ "/" +++ lvname] "") ;;
          emit (Remove temp_dir_path) ;;
          ret 0
      end
  end.

Definition luks_to_bcache (E : Env) (device : string) (debug : bool)
           (progress : ProgressListener) (join : string) : M Z :=
  luks <- LuksLayer.deactivate E (LUKS.create device) ;;
  dev_fd <- open_excl E device ;;
  luks <- LUKS.read_superblock E luks ;;
  luks <- LUKS.read_superblock_ll luks dev_fd ;;
  (* The smallest and most compatible bcache offset *)
  let shift_by := 512 * 16 in
  assert (u64 (LUKS.sb_end luks + shift_by) <=? LUKS.offset luks)
         "luks.sb_end + shift_by <= luks.offset" ;;
  dsize <- size E device ;;
  let data_size := u64 (dsize - shift_by) in
  synth_bdev <- make_bcache_sb E shift_by data_size join ;;
  (* XXX not atomic *)
  luks <- LUKS.shift_sb luks dev_fd shift_by ;;
  SyntheticDevice.copy_to_physical E synth_bdev dev_fd 0 0 false ;;
  ret 0.

(** [PartitionTable::_iter_range] is a placeholder that finds nothing, so
    the first lookup of the partition already fails. *)
Definition part_to_bcache (E : Env) (device : string) (debug : bool)
           (progress : ProgressListener) (join : string) : M Z :=
  data_size <- size E device ;;
  r <- ptable_context E device ;;
  let '(ptable, part_start) := r in
  (* Get partition type *)
  _ <- bytes_to_sector part_start ;;
  _ <- bytes_to_sector part_start ;;
  emit (Stderr "Failed to get partition information") ;;
  ret 1.

(** The option loop of [cmd_to_bcache] over argv[1..]. *)
Definition not_dash (arg : string) : bool :=
  match arg with
  | String c _ => negb (Ascii.eqb c "-"%char)
  | EmptyString => true
  end.

Fixpoint parse_args (argv : list string) (acc : string * bool * string * bool)
  : string * bool * string * bool :=
  let '(device_path, debug, join, maintboot) := acc in
  match argv with
  | [] => acc
  | arg :: rest =>
      if (arg =? "--debug")%string then parse_args rest (device_path, true, join, maintboot)
      else if (arg =? "--join")%string then
        match rest with
        | v :: rest' => parse_args rest' (device_path, debug, v, maintboot)
        | [] => acc
        end
      else if (arg =? "--maintboot")%string
      then parse_args rest (device_path, debug, join, true)
      else if not_dash arg then parse_args rest (arg, debug, join, maintboot)
      else parse_args rest acc
  end.

(** The selection of the conversion variant, shared by [cmd_to_bcache] and
    by the to-bcache branch of [main]. *)
Definition select_variant (E : Env) (device : string) (debug : bool)
           (progress : ProgressListener) (join : string) : M Z :=
  part <- is_partition E device ;;
  if part then part_to_bcache E device debug progress join
  else
    lv <- is_lv E device ;;
    if lv then lv_to_bcache E device debug progress join
    else
      sbt <- superblock_type E device ;;
      if (sbt =? "crypto_LUKS")%string then luks_to_bcache E device debug progress join
      else emit (Stderr ("Device " +++ device +++
                         " is not a partition, a logical volume, or a LUKS volume")) ;;
           ret 1.

Definition cmd_to_bcache (E : Env) (argv : list string) : M Z :=
  match argv with
  | [] => abort "argv[0]"
  | [prog] =>
      emit (Stderr ("Usage: " +++ prog +++ " to-bcache [options] device")) ;; ret 1
  | _ :: rest =>
      let '(device_path, debug, join, maintboot) := parse_args rest ("", false, "", false) in
      if string_empty device_path then emit (Stderr "No device specified") ;; ret 1
      else
        device <- BlockDevice.make E device_path ;;
        let progress := CLIProgressHandler in
        has <- has_bcache_superblock E device ;;
        if has then
          emit (Stderr ("Device " +++ device_path +++ " already has a bcache super block.")) ;;
          ret 1
        else
          BCacheReq_require E progress ;;
          select_variant E device debug progress join
  end.

End BcacheOps.

(** ** resize_operations.cpp *)

Module ResizeOps.

Import BlockStack.

(** [cmd_resize] measures the stack again after [stack_resize], so the stack
    operations are followed here with the objects they work on: each hands
    back the stack as the call leaves it.  A filesystem that was resized has
    been read again; a LUKS layer may have had its superblock read. *)

Definition fs_reserve_end_area_nonrec (E : Env) (i : nat) (this : Filesystem.t) (pos : Z)
  : M (Filesystem.t * Z) :=
  emit (Reserve i pos) ;;
  (* align to a block boundary that doesn't encroach *)
  if Filesystem.block_size this =? 0 then abort "align: division by zero"
  else
    let pos := align pos (Filesystem.block_size this) in
    sz <- Filesystem.fssize this ;;
    if sz <=? pos then ret (this, pos)
    else if negb (Filesystem.can_shrink this) then throw "CantShrink"
    else this <- Filesystem._mount_and_resize E this pos ;; ret (this, pos).

Definition fs_grow_nonrec (E : Env) (i : nat) (this : Filesystem.t) (upper_bound : Z)
  : M (Filesystem.t * Z) :=
  emit (Grow i upper_bound) ;;
  if Filesystem.block_size this =? 0 then abort "align: division by zero"
  else
    let newsize := align upper_bound (Filesystem.block_size this) in
    sz <- Filesystem.fssize this ;;
    assert (sz <=? newsize) "fssize() <= newsize" ;;
    if sz =? newsize then ret (this, newsize)
    else this <- Filesystem._mount_and_resize E this newsize ;; ret (this, newsize).

(** The body of the last loop of [stack_reserve_end_area]. *)
Definition reserve_layer (E : Env) (p : Z * (nat * BlockData)) : M BlockData :=
  let '(inner_pos, (i, block_data)) := p in
  match block_data with
  | F fs_ptr => r <- fs_reserve_end_area_nonrec E i fs_ptr inner_pos ;; ret (F (fst r))
  | L luks => r <- LuksLayer.reserve_end_area_nonrec E i luks inner_pos ;; ret (L (fst r))
  | B bcache => ret (B bcache)
  end.

(** The layers are taken innermost first; the stack keeps its order. *)
Definition stack_reserve_end_area (E : Env) (progress : ProgressListener)
           (stack : t) (pos : Z) : M t :=
  match topmost stack with
  | Some (F fs) =>
      if Filesystem.block_size fs =? 0 then abort "align: division by zero"
      else
        let inner_pos := align (u64 (pos - overhead stack)) (Filesystem.block_size fs) in
        sz <- Filesystem.fssize fs ;;
        let shrink_size := u64 (sz - inner_pos) in
        fstype <- superblock_type E (Filesystem.device fs) ;;
        (if sz >? inner_pos then
           if Filesystem.can_shrink fs
           then notify progress ("Will shrink the filesystem (" +++ fstype +++ ") by " +++
                                 to_string shrink_size +++ " bytes")
           else bail progress ("Can't shrink filesystem (" +++ fstype +++
                               "), but need another " +++ to_string shrink_size +++
                               " bytes at the end")
         else notify progress ("The filesystem (" +++ fstype +++
                               ") leaves enough room, no need to shrink it")) ;;
        fold_m (rev (iter_pos stack pos)) []
               (fun done p => block_data <- reserve_layer E p ;; ret (block_data :: done))
  | _ => bail progress "Topmost layer is not a filesystem"
  end.

(** The loop of [stack_grow] over the wrappers, from layer [i] on. *)
Fixpoint grow_wrappers (E : Env) (ws : list BlockData) (i : nat) (current_size : Z)
  : M (list BlockData * Z) :=
  match ws with
  | [] => ret ([], current_size)
  | block_data :: ws' =>
      r <- match block_data with
           | L luks =>
               r <- LuksLayer.grow_nonrec E i luks current_size ;;
               let '(luks, c) := r in
               ret (L luks, u64 (c - LUKS.offset luks))
           | B bcache =>
               c <- BCacheLayer.grow_nonrec E i bcache current_size ;;
               ret (B bcache, u64 (c - BCacheBacking.offset bcache))
           | F fs => ret (F fs, current_size)
           end ;;
      let '(block_data, current_size) := r in
      r <- grow_wrappers E ws' (S i) current_size ;;
      let '(rest, current_size) := r in
      ret (block_data :: rest, current_size)
  end.

Definition stack_grow (E : Env) (stack : t) (newsize : Z) : M t :=
  r <- grow_wrappers E (wrappers stack) 0 newsize ;;
  let '(ws, current_size) := r in
  match topmost stack with
  | Some (F fs) =>
      r <- fs_grow_nonrec E (List.length (wrappers stack)) fs current_size ;;
      ret (ws ++ [F (fst r)])
  | Some top => ret (ws ++ [top])
  | None => ret ws
  end.

Definition stack_resize (E : Env) (progress : ProgressListener)
           (stack : t) (pos : Z) (shrink : bool) : M t :=
  if shrink then stack_reserve_end_area E progress stack pos
  else stack_grow E stack pos.

(** [cmd_resize].  The two deltas are [int64_t]: the sizes are cast as for an
    [off_t], and the differences are taken as they are (they fit for sizes
    below 2^63).  In the assertion the data size is measured before the
    device is asked. *)
Definition cmd_resize (E : Env) (device_path : string) (newsize : Z)
           (resize_device debug : bool) : M Z :=
  device <- BlockDevice.make E device_path ;;
  let progress := CLIProgressHandler in
  block_stack <- get_block_stack E progress device ;;
  dsize <- size E device ;;
  let device_delta := to_off_t newsize - to_off_t dsize in
  newsize <- (if (device_delta >? 0) && resize_device then
                dev_resize E device newsize false ;;
                (* May have been rounded up for the sake of partition alignment
                   LVM rounds up as well (and its LV metadata uses PE units) *)
                size E device
              else ret newsize) ;;
  block_stack <- read_superblocks E block_stack ;;
  tds <- total_data_size block_stack ;;
  dsize <- size E device ;;
  assert (tds <=? dsize) "block_stack.total_data_size() <= device.size()" ;;
  tds <- total_data_size block_stack ;;
  let data_delta := to_off_t newsize - to_off_t tds in
  block_stack <- stack_resize E progress block_stack newsize (data_delta <? 0) ;;
  (if (device_delta <? 0) && resize_device then
     tds <- total_data_size block_stack ;;
     (* LVM should be able to reload in-use devices,
        but the kernel's partition handling can't. *)
     part <- is_partition E device ;;
     when part (deactivate E block_stack) ;;
     dev_resize E device tds true
   else ret tt) ;;
  ret 0.

End ResizeOps.

(** ** main.cpp *)

Module Main.

Import LvmOps.

Definition cmd_rotate (E : Env) (args : CommandArgs) : M Z :=
  device <- BlockDevice.make E (device args) ;;
  r <- ask "lvm" (fun l => (popen_ok E l "lvm", popen_number E l "lvm")) ;;
  let '(pipe, out) := r in
  if negb pipe then emit (Stderr "Failed to execute command") ;; ret 1
  else
  match out with
  | None => throw "stoull"
  | Some pe_size =>
      sb <- superblock_at E device pe_size ;;
      if string_empty sb
      then emit (Stderr "No superblock on the second PE, exiting") ;; ret 1
      else
        dsize <- size E device ;;
        LvmRotate.rotate_lv E device dsize (debug args) true ;;
        ret 0
  end.

Section Dispatch.

(** Commands outside this development. *)
Variable cmd_resize : CommandArgs -> list string -> M Z.
Variable cmd_maintboot_impl : M Z.
Variable call_maintboot : string -> CommandArgs -> M Z.

(** The to-bcache branch of [main]. *)
Definition main_to_bcache (E : Env) (args : CommandArgs) : M Z :=
  device <- BlockDevice.make E (device args) ;;
  let progress := CLIProgressHandler in
  has <- has_bcache_superblock E device ;;
  if has then
    emit (Stderr ("Device " +++ device +++ " already has a bcache super block.")) ;;
    ret 1
  else
    BCacheReq_require E progress ;;
    if maintboot args then call_maintboot device args
    else BcacheOps.select_variant E device (debug args) progress (join args).

(** [main] once getopt_long has filled [args]; [words] are the words
    left from argv[optind] on. *)
Definition main (E : Env) (args : CommandArgs) (words : list string) : M Z :=
  match words with
  | [] => emit (Stderr "Missing command") ;; ret 1
  | command :: rest =>
      let with_device (k : CommandArgs -> M Z) : M Z :=
        match rest with
        | [] => emit (Stderr "Missing device argument") ;; ret 1
        | d :: _ => k (Args command d (vgname args) (join args) (debug args)
                            (maintboot args) (resize_device args) (newsize args))
        end in
      if (command =? "to-lvm")%string || (command =? "lvmify")%string
      then with_device (cmd_to_lvm E)
      else if (command =? "to-bcache")%string then with_device (main_to_bcache E)
      else if (command =? "resize")%string then with_device (fun a => cmd_resize a (tl rest))
      else if (command =? "rotate")%string then with_device (cmd_rotate E)
      else if (command =? "maintboot-impl")%string then cmd_maintboot_impl
      else emit (Stderr ("Unknown command: " +++ command)) ;; ret 1
  end.

End Dispatch.

End Main.

(** * The specification's words

Definitions that follow the specification, to be compared with the code
above, and the fixtures used to run the code on concrete inputs. *)

Module Spec.

(** *** LUKS v1 superblock layout (specification, section 6) *)

(** A big-endian u32 field of the superblock. *)
Definition field32 (d : list byte) (off : Z) : Z := be32 (slice d off 4).

Definition payload_start_of (d : list byte) : Z := field32 d 104.
Definition key_bytes_of (d : list byte) : Z := field32 d 108.
Definition key_offset_of (d : list byte) (slot : Z) : Z := field32 d (208 + 48 * slot + 40).
Definition key_stripes_of (d : list byte) (slot : Z) : Z := field32 d (208 + 48 * slot + 44).

Definition key_slots : list Z := [0; 1; 2; 3; 4; 5; 6; 7].

(** "the max of 592 and key_offset·512 + 4000·key_bytes over all slots" *)
Definition sb_end_spec (d : list byte) : Z :=
  fold_left Z.max
            (map (fun slot => key_offset_of d slot * 512 + 4000 * key_bytes_of d) key_slots)
            592.

(** No 32-bit product of [read_superblock_ll] wraps on this superblock. *)
Definition no_wrap (d : list byte) : Prop :=
  payload_start_of d * 512 < two32 /\
  4000 * key_bytes_of d < two32 /\
  Forall (fun slot => key_offset_of d slot * 512 < two32) key_slots.

(** *** Fixtures *)

Definition blank (n : Z) : list byte := repeat x00 (nat_of n).

(** A LUKS v1 header: magic, version 1, payload start, key size, and eight
    key slots with 4000 stripes at the given offsets. *)
Fixpoint put_slots (d : list byte) (slot : nat) (key_offsets : list Z) : list byte :=
  match key_offsets with
  | [] => d
  | ko :: rest =>
      put_slots (poke d (208 + 48 * slot + 40) (be32_bytes ko ++ be32_bytes 4000))
                (S slot) rest
  end.

Definition luks_header (n : Z) (payload_sectors key_bytes : Z) (key_offsets : list Z)
  : list byte :=
  let d := poke (blank n) 0 (LUKS.LUKS_MAGIC ++ [x00; x01]) in
  let d := poke d 104 (be32_bytes payload_sectors ++ be32_bytes key_bytes) in
  put_slots d 0 key_offsets.

Definition one_disk (path : string) (d : list byte) : sys :=
  Sys (fun p => if String.eqb p path then d else []) [].

(** aes-256: 32-byte keys, the usual key-slot offsets, payload at 2 MiB. *)
Definition header_aes256 : list byte :=
  luks_header 10240 4096 32 [8; 264; 520; 776; 1032; 1288; 1544; 1800].

(** aes-192: 24-byte keys, 4000 * 24 bytes of key material per slot. *)
Definition header_aes192 : list byte :=
  luks_header 1024 4096 24 [8; 200; 392; 584; 776; 968; 1160; 1352].

(** A key size field of 1073742: 4000 times that is 2^32 + 704. *)
Definition header_wide : list byte :=
  luks_header 1024 4096 1073742 [8; 200; 392; 584; 776; 968; 1160; 1352].

(** A small header for runs that need the whole device as a list: 2-byte
    keys, payload at sector 40, on a device of 20480 bytes. *)
Definition header_small : list byte :=
  luks_header 20480 40 2 [1; 2; 3; 4; 5; 6; 7; 8].

(** *** Stack ordering (specification, 4.3 and P7) *)

(** The calls of [reserve_end_area_nonrec] and of [grow_nonrec] a log
    records: which layer, with which position. *)
Definition reserve_calls (evs : list event) : list (nat * Z) :=
  flat_map (fun e => match e with Reserve i pos => [(i, pos)] | _ => [] end) evs.

Definition grow_calls (evs : list event) : list (nat * Z) :=
  flat_map (fun e => match e with Grow i ub => [(i, ub)] | _ => [] end) evs.

Definition offset_of (bd : BlockStack.BlockData) : Z :=
  match BlockStack.container_offset bd with
  | Some o => o
  | None => 0
  end.

(** "the inner position obtained by subtracting the offsets of the layers
    above it": for layer [i], the offsets of layers 0 .. i-1. *)
Definition inner_position (stack : BlockStack.t) (pos : Z) (i : nat) : Z :=
  u64 (pos - fold_right Z.add 0 (map offset_of (firstn i stack))).

(** The layers of a stack with their index and inner position, outermost
    first. *)
Definition layers_with_positions (stack : BlockStack.t) (pos : Z)
  : list (nat * Z * BlockStack.BlockData) :=
  map (fun p => (fst p, inner_position stack pos (fst p), snd p))
      (combine (seq 0 (List.length stack)) stack).

(** The claim as stated: every layer is called, innermost first for the
    shrink and outermost first for the growth. *)
Definition all_layers_innermost_first (stack : BlockStack.t) (pos : Z) : list (nat * Z) :=
  rev (map fst (layers_with_positions stack pos)).

Definition all_layers_outermost_first (stack : BlockStack.t) (newsize : Z) : list (nat * Z) :=
  map fst (layers_with_positions stack newsize).

(** The layers that have the operation: [BCacheBacking] has no
    [reserve_end_area_nonrec]; [stack_grow] drives the containers among the
    wrappers and the topmost filesystem. *)
Definition has_reserve (bd : BlockStack.BlockData) : bool :=
  match bd with
  | BlockStack.B _ => false
  | _ => true
  end.

Definition reserving_layers (stack : BlockStack.t) (pos : Z) : list (nat * Z) :=
  map fst (filter (fun p => has_reserve (snd p)) (layers_with_positions stack pos)).

Definition grown (n : nat) (p : nat * Z * BlockStack.BlockData) : bool :=
  match snd p with
  | BlockStack.F _ => (fst (fst p) =? n - 1)%nat
  | _ => negb (fst (fst p) =? n - 1)%nat
  end.

Definition growing_layers (stack : BlockStack.t) (newsize : Z) : list (nat * Z) :=
  map fst (filter (grown (List.length stack)) (layers_with_positions stack newsize)).

(** The shape of a stack built by [get_block_stack]: containers, then one
    filesystem. *)
Definition built (stack : BlockStack.t) : Prop :=
  exists ws fs, stack = ws ++ [BlockStack.F fs] /\
                Forall (fun bd => BlockStack.container_offset bd <> None) ws.

(** Every LUKS layer has had its superblock read, as in a stack built by
    [get_block_stack]. *)
Definition luks_ready (stack : BlockStack.t) : Prop :=
  Forall (fun bd => match bd with
                    | BlockStack.L l => LUKS._superblock_read l = true
                    | _ => True
                    end) stack.

(** *** A calm outside world

    Every tool succeeds, every path exists and every file can be opened; each
    node is a block device, held by dm-0, whose table is a dm-crypt table at
    sector 4096; nothing is mounted.  What remains open is the size of each
    device, what blkid finds, and what the filesystem's tool reports. *)
Definition calm (size_of : string -> Z)
           (sbtype : list event -> string -> string)
           (tool : list event -> string -> option fs_report) : Env :=
  {| path_exists := fun _ _ => true;
     stat_dev := fun _ _ => BlockDev 8 17;
     dir_entries := fun _ _ => ["dm-0"];
     first_line := fun _ _ => "";
     file_number := fun _ _ => Some 2048;
     uevent_devname := fun _ _ => Some "bcache0";
     mountinfo_has := fun _ _ _ => false;
     blockdev_getsize64 := fun _ p => Some (size_of p);
     blkid_type := fun l p _ => sbtype l p;
     open_ok := fun _ _ => true;
     call_status := fun _ _ => 0;
     which_ok := fun _ _ => true;
     luks_dump_offset := fun _ _ => Some 4096;
     dm_crypt_offset := fun _ _ => Some 4096;
     bcache_show := fun _ _ => Some (Some 1, 16);
     fs_tool := tool;
     fs_label := fun _ _ => "root";
     fs_uuid := fun _ _ => "u1";
     uuid_generate := fun _ => "6f1c0d9e-0000-4000-8000-000000000000";
     vgs_join := fun _ _ => ("vg0", "vg0-uuid", Some 4194304);
     popen_number := fun _ _ => Some 4194304;
     popen_ok := fun _ _ => true;
     lvs_info := fun _ _ => ("vg0", "lv0", "-wi-a-----");
     io_count := fun _ _ _ len => len;
     is_lv_probe := fun _ _ => false;
     mkdtemp := fun _ _ => Some "/tmp/blocks.a1b2c3";
     temp_directory_path := fun _ => "/tmp";
     getpid := 4242;
     exec_out := fun _ _ => "";
     random_hex := fun _ => "0a1b2c3d";
     losetup_show := fun _ _ => (0, "/dev/loop0");
     unlink_ok := fun _ _ => true;
     strerror := fun _ => "Invalid argument";
     system_ok := fun _ _ => true |}.

Definition no_disks : sys := Sys (fun _ => []) [].

(** tune2fs reports a clean filesystem of 4096-byte blocks: as many as the
    last resize2fs was asked for, and [blocks] of them before any. *)
Definition number (s : string) : Z :=
  match NilZero.uint_of_string s with
  | Some u => Z.of_N (N.of_uint u)
  | None => 0
  end.

Fixpoint last_resize (l : list event) (acc : option Z) : option Z :=
  match l with
  | [] => acc
  | Call [tool; _; _; n] _ :: l' =>
      last_resize l' (if (tool =? "resize2fs")%string then Some (number n) else acc)
  | _ :: l' => last_resize l' acc
  end.

Definition ext4_tool (blocks : Z) (l : list event) (line : string) : option fs_report :=
  let count := match last_resize l None with
               | Some n => n
               | None => blocks
               end in
  Some (Report 4096 count 0 0 "clean" 0 0).

(** A 4 MiB ext4 behind a bcache superblock (8 KiB), and behind a LUKS
    header (2 MiB). *)
Definition ext4_4m (dev : string) : Filesystem.t :=
  Filesystem.Make dev Filesystem.ExtFS 4096 1024 0 0 "clean" 0 0 false 0.

Definition stack_bcache : BlockStack.t :=
  [BlockStack.B (BCacheBacking.Make "/dev/sdb1" 8192 (Some 1));
   BlockStack.F (ext4_4m "/dev/bcache0")].

Definition stack_luks : BlockStack.t :=
  [BlockStack.L (LUKS.Make "/dev/sdb1" 2097152 0 true);
   BlockStack.F (ext4_4m "/dev/dm-0")].

Definition env_layers : Env :=
  calm (fun p => if String.eqb p "/dev/dm-0" then 4194304 else 6291456)
       (fun _ _ => "ext4") (ext4_tool 1024).

(** *** Classes of events

    [harmless]: probes, messages, and the activation of a container found on
    the way down the stack (cryptsetup luksOpen, the bcache register file);
    none of them changes a byte of a device.  [prepares dev] adds the
    pvremove that [cmd_to_lvm] runs first on an existing physical volume. *)
Definition harmless (e : event) : bool :=
  match e with
  | Query _ | Stderr _ | Notify _ => true
  | Call (tool :: verb :: _) _ => ((tool =? "cryptsetup") && (verb =? "luksOpen"))%string
  | FileWrite path _ => (path =? "/sys/fs/bcache/register")%string
  | _ => false
  end.

Definition is_pvremove (dev : string) (e : event) : bool :=
  match e with
  | Call argv _ =>
      if list_eq_dec string_dec argv ["pvremove"; "-ff"; "--"; dev] then true else false
  | _ => false
  end.

Definition prepares (dev : string) (e : event) : bool := harmless e || is_pvremove dev e.

Definition anything (e : event) : bool := true.

(** What a run from [s] has added to the log. *)
Definition added {A} (s : sys) (r : sys * outcome A) : list event :=
  skipn (List.length (log s)) (log (fst r)).

Definition returned {A} (r : sys * outcome A) : Prop := exists a, snd r = Ok a.

(** *** to-lvm on a 16 MiB ext4 partition

    The partition carries an LVM label until pvremove has run ([env_pv]), or
    never did ([env_ext4]); [env_odd] is a 10 MiB partition, two and a half
    extents. *)
Definition pvremove_done (l : list event) : bool :=
  existsb (fun e => match e with Call (tool :: _) _ => (tool =? "pvremove")%string | _ => false end) l.

Definition env_pv : Env :=
  calm (fun _ => 16777216)
       (fun l _ => if pvremove_done l then "ext4" else "LVM2_member")
       (ext4_tool 4096).

Definition env_ext4 : Env :=
  calm (fun _ => 16777216) (fun _ _ => "ext4") (ext4_tool 4096).

Definition env_odd : Env :=
  calm (fun _ => 10485760) (fun _ _ => "ext4") (ext4_tool 2560).

Definition to_lvm (dev : string) : LvmOps.CommandArgs :=
  LvmOps.Args "to-lvm" dev "" "" false false false 0.


(** What C4, as amended, says of a run [r] of [cmd_to_lvm] on [dev] started
    with the log [base]. *)
Definition requirements_first (E : Env) (args : LvmOps.CommandArgs) (base : list event)
           (r : sys * outcome Z) : Prop :=
  let dev := LvmOps.device args in
  exists tl, log (fst r) = base ++ tl /\
    ((forallb (prepares dev) tl = true /\ ~ returned r) \/
     exists pe dsize asked pre post,
       4096 <= pe /\ pe mod 512 = 0 /\ dsize mod 512 = 0 /\
       blockdev_getsize64 E asked dev = Some dsize /\
       (LvmOps.join args = "" -> pe = LVM_PE_SIZE) /\
       tl = pre ++ Call ["e2fsck"; "-f"; "-y"; "--"; dev] "" :: post /\
       forallb (prepares dev) pre = true /\
       (returned r -> In (Pwrite dev (u64 (u64 (dsize / pe - 1) * pe)) pe) post)).

(** *** A device that carries a bcache superblock *)
Definition is_query (e : event) : bool :=
  match e with
  | Query _ => true
  | _ => false
  end.

Definition bcache_disk : sys :=
  one_disk "/dev/sdb1" (blank 4120 ++ BCACHE_MAGIC ++ blank 4056).

Definition to_bcache (dev : string) : LvmOps.CommandArgs :=
  LvmOps.Args "to-bcache" dev "" "" false false false 0.

(** *** The vocabulary of the proofs *)

(** What the code adds up for one key slot, with its 32-bit products. *)
Definition code_key_end (d : list byte) (slot : Z) : Z :=
  u64 (u32 (key_offset_of d slot * 512) + u32 (4000 * key_bytes_of d)).

(** The maximum of C6 with each product reduced modulo 2^32. *)
Definition sb_end_wrapped (d : list byte) : Z :=
  fold_left Z.max
            (map (fun slot => u32 (key_offset_of d slot * 512) + u32 (4000 * key_bytes_of d))
                 key_slots)
            592.

(** A computation that, whenever it returns, has added the calls [rs] and
    [gs] to the log. *)
Definition ok_calls {A} (rs gs : list (nat * Z)) (m : M A) : Prop :=
  forall s s' a, m s = (s', Ok a) ->
    reserve_calls (log s') = reserve_calls (log s) ++ rs /\
    grow_calls (log s') = grow_calls (log s) ++ gs.

(** [hushed m]: whatever its outcome, a run of [m] logs no call of
    [reserve_end_area_nonrec] or [grow_nonrec]. *)
Definition hushed {A} (m : M A) : Prop :=
  forall s, reserve_calls (log (fst (m s))) = reserve_calls (log s) /\
            grow_calls (log (fst (m s))) = grow_calls (log s).

(** What one turn of the shrink loop adds to the log. *)
Definition layer_reserve (p : Z * (nat * BlockStack.BlockData)) : list (nat * Z) :=
  if has_reserve (snd (snd p)) then [(fst (snd p), fst p)] else [].

(** The offsets of a run of layers, added up. *)
Definition offsets_sum (l : list BlockStack.BlockData) : Z :=
  fold_right Z.add 0 (map offset_of l).

(** What one turn of the growth loop over the wrappers adds to the log. *)
Definition container_call (p : Z * (nat * BlockStack.BlockData)) : list (nat * Z) :=
  match snd (snd p) with
  | BlockStack.F _ => []
  | _ => [(fst (snd p), fst p)]
  end.

(** [emits P m]: whatever its outcome, a run of [m] only appends to the log,
    and every event it appends is in the class [P]. *)
Definition emits (P : event -> bool) {A} (m : M A) : Prop :=
  forall s, exists tl, log (fst (m s)) = log s ++ tl /\ forallb P tl = true.

(** *** Further vocabulary: layers, event classes and fixtures *)

(** A path under /dev. *)
Definition under_dev (p : string) : Prop := exists name, p = "/dev/" +++ name.

Definition layer_device (bd : BlockStack.BlockData) : string :=
  match bd with
  | BlockStack.L l => LUKS.device l
  | BlockStack.B b => BCacheBacking.device b
  | BlockStack.F f => Filesystem.device f
  end.

(** A container as [get_block_stack] pushes it: read, with a payload that
    starts on a sector boundary past the start of the device. *)
Definition container_ready (bd : BlockStack.BlockData) : Prop :=
  match bd with
  | BlockStack.L l =>
      LUKS._superblock_read l = true /\ LUKS.offset l <> 0 /\ LUKS.offset l mod 512 = 0
  | BlockStack.B b =>
      BCacheBacking.is_backing b = true /\ BCacheBacking.offset b <> 0 /\
      BCacheBacking.offset b mod 512 = 0
  | BlockStack.F _ => False
  end.

(** Two layers of the same class on the same device. *)
Definition same_layer (a b : BlockStack.BlockData) : Prop :=
  match a, b with
  | BlockStack.L x, BlockStack.L y => LUKS.device y = LUKS.device x
  | BlockStack.B x, BlockStack.B y => BCacheBacking.device y = BCacheBacking.device x
  | BlockStack.F x, BlockStack.F y =>
      Filesystem.device y = Filesystem.device x /\ Filesystem.fskind y = Filesystem.fskind x
  | _, _ => False
  end.

(** A layer whose superblock has been read. *)
Definition layer_read (bd : BlockStack.BlockData) : Prop :=
  match bd with
  | BlockStack.L l =>
      LUKS._superblock_read l = true /\ LUKS.offset l <> 0 /\ LUKS.offset l mod 512 = 0
  | BlockStack.B b => BCacheBacking.offset b <> 0 /\ BCacheBacking.offset b mod 512 = 0
  | BlockStack.F f => Filesystem.block_size f <> 0
  end.

(** A write at or above [floor]; anything that is not a write. *)
Definition above (floor : Z) (e : event) : bool :=
  match e with
  | Pwrite _ off _ => floor <=? off
  | _ => true
  end.

(** What [rotate_lv] gets to do on the handle of this repository: look, take
    the volume offline, back its group up. *)
Definition rotate_prelude (e : event) : bool :=
  match e with
  | Query _ | Stderr _ => true
  | Call ["lvm"; "lvchange"; "-an"; "--"; _] _ => true
  | Call ["lvm"; "vgcfgbackup"; "--file"; _; "--"; _] _ => true
  | _ => false
  end.

(** Nothing that takes down what [create] sets up. *)
Definition no_teardown (e : event) : bool :=
  match e with
  | Call ("dmsetup" :: "remove" :: _) _ => false
  | Call ("losetup" :: "-d" :: _) _ => false
  | _ => true
  end.

Definition create_cmd (readonly : bool) (opt devname : string) : list string :=
  ["dmsetup"; "create"] ++ (if readonly then ["--readonly"] else []) ++ [opt; "--"; devname].

Definition env_luks : Env :=
  calm (fun p => if String.eqb p "/dev/dm-0" then 4194304 else 6291456)
       (fun _ p => if String.eqb p "/dev/sdb1" then "crypto_LUKS" else "ext4")
       (ext4_tool 1024).

Definition swap_disk : sys :=
  one_disk "/dev/sdb2"
           (poke (poke (blank 8192) 1024 [x00; x00; x00; x01; x00; x00; x03; x7f])
                 4086 Filesystem.SWAP_MAGIC).

Definition small_copy : SyntheticDevice.t :=
  SyntheticDevice.Make "/dev/mapper/synthetic-0" [x01; x02; x03; x04; x05; x06] 4 4 2.

(** The command line of [dev_resize] on a logical volume. *)
Definition resize_cmd (shrink : bool) (size : Z) (devpath : string) : list string :=
  (if shrink then ["lvm"; "lvreduce"; "-f"] else ["lvm"; "lvextend"])
  ++ ["--size=" +++ to_string size +++ "b"; "--"; devpath].

(** A run followed for its effects alone. *)
Definition forget {A} (m : M A) : M unit := x <- m ;; ret tt.

(** The same outside world, where every device-mapper node is a logical
    volume. *)
Definition on_lv (E : Env) : Env :=
  {| path_exists := path_exists E;
     stat_dev := stat_dev E;
     dir_entries := dir_entries E;
     first_line := first_line E;
     file_number := file_number E;
     uevent_devname := uevent_devname E;
     mountinfo_has := mountinfo_has E;
     blockdev_getsize64 := blockdev_getsize64 E;
     blkid_type := blkid_type E;
     open_ok := open_ok E;
     call_status := call_status E;
     which_ok := which_ok E;
     luks_dump_offset := luks_dump_offset E;
     dm_crypt_offset := dm_crypt_offset E;
     bcache_show := bcache_show E;
     fs_tool := fs_tool E;
     fs_label := fs_label E;
     fs_uuid := fs_uuid E;
     uuid_generate := uuid_generate E;
     vgs_join := vgs_join E;
     popen_number := popen_number E;
     popen_ok := popen_ok E;
     lvs_info := lvs_info E;
     io_count := io_count E;
     is_lv_probe := fun _ _ => true;
     mkdtemp := mkdtemp E;
     temp_directory_path := temp_directory_path E;
     getpid := getpid E;
     exec_out := exec_out E;
     random_hex := random_hex E;
     losetup_show := losetup_show E;
     unlink_ok := unlink_ok E;
     strerror := strerror E;
     system_ok := system_ok E |}.

Definition env_lv : Env := on_lv env_ext4.

(** The same outside world, where no [popen] that is asked gives a stream. *)
Definition no_pipe (E : Env) : Env :=
  {| path_exists := path_exists E;
     stat_dev := stat_dev E;
     dir_entries := dir_entries E;
     first_line := first_line E;
     file_number := file_number E;
     uevent_devname := uevent_devname E;
     mountinfo_has := mountinfo_has E;
     blockdev_getsize64 := blockdev_getsize64 E;
     blkid_type := blkid_type E;
     open_ok := open_ok E;
     call_status := call_status E;
     which_ok := which_ok E;
     luks_dump_offset := luks_dump_offset E;
     dm_crypt_offset := dm_crypt_offset E;
     bcache_show := bcache_show E;
     fs_tool := fs_tool E;
     fs_label := fs_label E;
     fs_uuid := fs_uuid E;
     uuid_generate := uuid_generate E;
     vgs_join := vgs_join E;
     popen_number := popen_number E;
     popen_ok := fun _ _ => false;
     lvs_info := lvs_info E;
     io_count := io_count E;
     is_lv_probe := is_lv_probe E;
     mkdtemp := mkdtemp E;
     temp_directory_path := temp_directory_path E;
     getpid := getpid E;
     exec_out := exec_out E;
     random_hex := random_hex E;
     losetup_show := losetup_show E;
     unlink_ok := unlink_ok E;
     strerror := strerror E;
     system_ok := system_ok E |}.

End Spec.
Import Spec.

(** ** The metadata tree

    Modelled from the spec: the tree behind the Augeas handle.  The class of
    lvm_operations.cpp has stub methods only; the library behind it is not
    part of the sources.  The specification has the configuration as a
    tree, edited through path expressions.  Here a node has a label, a
    value and its children in order; a path expression is a list of labels
    separated by [/], below [$lv], [$vg] or a variable; setting a value
    creates the nodes missing along the path, each after its siblings;
    [insert] puts an empty node next to the one the path leads to; a
    variable stands for the path it was defined with (between the
    definition and the last use of a variable the rotation moves no node
    above it). *)
Module AugTree.

Import Augeas.

#[warnings="-register-all"] Inductive tree : Type :=
| Node (label : string) (value : string) (children : list tree).

Definition label (t : tree) : string := let 'Node l _ _ := t in l.
Definition value (t : tree) : string := let 'Node _ v _ := t in v.
Definition children (t : tree) : list tree := let 'Node _ _ c := t in c.

(** The steps of a path expression: ["a/b/c"] is [["a"; "b"; "c"]]. *)
Fixpoint split_path (s : string) : list string :=
  match s with
  | EmptyString => [""]
  | String c s' =>
      if Ascii.eqb c "/" then "" :: split_path s'
      else match split_path s' with
           | x :: r => String c x :: r
           | [] => [String c ""]
           end
  end.

(** The first child with the label. *)
Fixpoint child (l : string) (ts : list tree) : option tree :=
  match ts with
  | [] => None
  | t :: ts' => if (label t =? l)%string then Some t else child l ts'
  end.

Fixpoint find (p : list string) (ts : list tree) : option tree :=
  match p with
  | [] => None
  | l :: p' =>
      match child l ts with
      | Some t => match p' with [] => Some t | _ => find p' (children t) end
      | None => None
      end
  end.

(** Edit the first child with the label; a missing one is created at the
    end when [create] is set, as aug_set does along its path. *)
Fixpoint edit (create : bool) (l : string) (f : tree -> tree) (ts : list tree) : list tree :=
  match ts with
  | [] => if create then [f (Node l "" [])] else []
  | t :: ts' => if (label t =? l)%string then f t :: ts' else t :: edit create l f ts'
  end.

Fixpoint set_at (p : list string) (v : string) (ts : list tree) : list tree :=
  match p with
  | [] => ts
  | l :: p' =>
      edit true l (fun t => match p' with
                            | [] => Node (label t) v (children t)
                            | _ => Node (label t) (value t) (set_at p' v (children t))
                            end) ts
  end.

(** Work on the siblings among which the last step of the path lives. *)
Fixpoint among (p : list string) (g : string -> list tree -> list tree) (ts : list tree)
  : list tree :=
  match p with
  | [] => ts
  | l :: p' =>
      match p' with
      | [] => g l ts
      | _ => edit false l (fun t => Node (label t) (value t) (among p' g (children t))) ts
      end
  end.

Fixpoint remove_child (l : string) (ts : list tree) : list tree :=
  match ts with
  | [] => []
  | t :: ts' => if (label t =? l)%string then ts' else t :: remove_child l ts'
  end.

Definition rename_child (new : string) (l : string) (ts : list tree) : list tree :=
  edit false l (fun t => Node new (value t) (children t)) ts.

Fixpoint insert_sibling (new : string) (before : bool) (l : string) (ts : list tree) : list tree :=
  match ts with
  | [] => []
  | t :: ts' =>
      if (label t =? l)%string
      then if before then Node new "" [] :: t :: ts' else t :: Node new "" [] :: ts'
      else t :: insert_sibling new before l ts'
  end.

Fixpoint assoc (k : string) (l : list (string * list string)) : option (list string) :=
  match l with
  | [] => None
  | (k', v) :: l' => if (k' =? k)%string then Some v else assoc k l'
  end.

(** The handle: the nodes under $vg and under $lv, and the variables
    defined since, each kept as the path below $lv it was defined with. *)
Record store : Type := Store {
  vg : list tree;
  lv : list tree;
  vars : list (string * list string)
}.

(** Where a path expression leads: below $lv ([true]) or below $vg. *)
Definition locate (st : store) (key : string) : option (bool * list string) :=
  match split_path key with
  | [] => None
  | root :: p =>
      if (root =? "$lv")%string then Some (true, p)
      else if (root =? "$vg")%string then Some (false, p)
      else match assoc root (vars st) with
           | Some base => Some (true, base ++ p)
           | None => None
           end
  end.

Definition tree_get (st : store) (key : string) : string :=
  match locate st key with
  | Some (under_lv, p) =>
      match find p (if under_lv then lv st else vg st) with
      | Some t => value t
      | None => ""
      end
  | None => ""
  end.

Definition on_nodes (st : store) (key : string) (f : list string -> list tree -> list tree)
  : store :=
  match locate st key with
  | Some (true, p) => Store (vg st) (f p (lv st)) (vars st)
  | Some (false, p) => Store (f p (vg st)) (lv st) (vars st)
  | None => st
  end.

(** The text of a number, as int() reads it. *)
Definition int_of_text (s : string) : Z :=
  match s with
  | String c s' => if Ascii.eqb c "-" then - number s' else number s
  | EmptyString => number s
  end.

#[export] Instance Tree : Ops store := {
  get := tree_get;
  get_int := fun st key => int_of_text (tree_get st key);
  set := fun st key val => on_nodes st key (fun p => set_at p val);
  set_int := fun st key val => on_nodes st key (fun p => set_at p (to_string_int val));
  defvar := fun st name expr =>
              match locate st expr with
              | Some (true, p) => Store (vg st) (lv st) (("$" +++ name, p) :: vars st)
              | _ => st
              end;
  insert := fun st path new before =>
              on_nodes st path (fun p => among p (insert_sibling new before));
  remove := fun st path => on_nodes st path (fun p => among p remove_child);
  rename := fun st src dst => on_nodes st src (fun p => among p (rename_child dst))
}.

(** *** Linear single-stripe volumes as trees *)

Record segment : Type := Seg {
  start_extent : Z;
  extent_count : Z;
  pv : string;
  pv_start : Z
}.

Definition leaf (l v : string) : tree := Node l v [].

Definition seg_dict (g : segment) : tree :=
  Node "dict" ""
       [leaf "start_extent" (to_string (start_extent g));
        leaf "extent_count" (to_string (extent_count g));
        Node "type" "" [leaf "str" "striped"];
        leaf "stripe_count" "1";
        Node "stripes" ""
             [Node "list" "" [Node "1" "" [leaf "str" (pv g)];
                              leaf "2" (to_string (pv_start g))]]].

Definition seg_label (i : Z) : string := "segment" +++ to_string i.

Fixpoint seg_nodes (i : Z) (segs : list segment) : list tree :=
  match segs with
  | [] => []
  | g :: segs' => Node (seg_label i) "" [seg_dict g] :: seg_nodes (i + 1) segs'
  end.

Definition lv_tree (segs : list segment) : list tree :=
  leaf "segment_count" (to_string (Z.of_nat (List.length segs))) :: seg_nodes 1 segs.

Definition lv_store (pe_sectors : Z) (segs : list segment) : store :=
  Store [leaf "extent_size" (to_string pe_sectors)] (lv_tree segs) [].

(** *** What the rotation checks and does, on the segments

    Section 4.7 of the specification, on the list of the segments. *)

(** The segments follow one another from extent [start], each with at
    least one extent. *)
Fixpoint laid_out (start : Z) (segs : list segment) : Prop :=
  match segs with
  | [] => True
  | g :: segs' =>
      start_extent g = start /\ 1 <= extent_count g /\ 0 <= pv_start g /\
      laid_out (start + extent_count g) segs'
  end.

Fixpoint total (segs : list segment) : Z :=
  match segs with
  | [] => 0
  | g :: segs' => extent_count g + total segs'
  end.

(** A valid linear volume of [size] bytes: more than one extent, and as many
    sectors as the extents hold. *)
Definition valid_lv (pe_sectors size : Z) (segs : list segment) : Prop :=
  segs <> [] /\ laid_out 0 segs /\ 1 < total segs /\ 0 <= pe_sectors /\
  size mod 512 = 0 /\ u64 (total segs * pe_sectors) = size / 512.

Definition shift_start (by_ : Z) (g : segment) : segment :=
  Seg (start_extent g + by_) (extent_count g) (pv g) (pv_start g).

(** Forward: the first extent of the first segment becomes a segment of its
    own at the end; a first segment left empty is removed. *)
Definition rotate_segs_forward (segs : list segment) : list segment :=
  match segs with
  | [] => []
  | g1 :: rest =>
      let rest' := map (shift_start (-1)) rest in
      let new := Seg (total segs - 1) 1 (pv g1) (pv_start g1) in
      if extent_count g1 - 1 =? 0 then rest' ++ [new]
      else Seg (start_extent g1) (extent_count g1 - 1) (pv g1) (pv_start g1 + 1)
               :: rest' ++ [new]
  end.

(** Backward: the last extent of the last segment becomes a segment of its
    own at the front; a last segment left empty is removed. *)
Definition rotate_segs_backward (segs : list segment) : list segment :=
  match rev segs with
  | [] => []
  | gN :: before =>
      let up := map (shift_start 1) (rev before) in
      let new := Seg 0 1 (pv gN) (pv_start gN + (extent_count gN - 1)) in
      if extent_count gN - 1 =? 0 then new :: up
      else new :: up ++ [Seg (start_extent gN + 1) (extent_count gN - 1) (pv gN) (pv_start gN)]
  end.

(** The volume with its first segment cut after its first extent. *)
Definition split_first (segs : list segment) : list segment :=
  match segs with
  | [] => []
  | g1 :: rest =>
      if extent_count g1 =? 1 then segs
      else Seg 0 1 (pv g1) (pv_start g1)
               :: Seg 1 (extent_count g1 - 1) (pv g1) (pv_start g1 + 1) :: rest
  end.

(** The volume with its last segment cut before its last extent. *)
Definition split_last (segs : list segment) : list segment :=
  match rev segs with
  | [] => []
  | gN :: before =>
      if extent_count gN =? 1 then segs
      else rev before
               ++ [Seg (start_extent gN) (extent_count gN - 1) (pv gN) (pv_start gN);
                   Seg (start_extent gN + (extent_count gN - 1)) 1 (pv gN)
                       (pv_start gN + (extent_count gN - 1))]
  end.

(** The physical extents of a segment, and of a volume in the order of its
    segments: for a volume laid out from extent 0, the physical extent of
    each logical extent. *)
Definition extents_of (g : segment) : list (string * Z) :=
  map (fun k => (pv g, pv_start g + Z.of_nat k)) (seq 0 (Z.to_nat (extent_count g))).

Definition extents (segs : list segment) : list (string * Z) := flat_map extents_of segs.

Definition first_count (segs : list segment) : Z :=
  match segs with
  | g :: _ => extent_count g
  | [] => 0
  end.

Definition last_count (segs : list segment) : Z := first_count (rev segs).

(** The volume of scenario S5: 8 extents of 4 MiB in two segments. *)
Definition s5_segs : list segment := [Seg 0 3 "pv0" 0; Seg 3 5 "pv0" 10].

(** *** For the proofs *)

Definition is_digit (c : ascii) : bool :=
  existsb (Ascii.eqb c) ["0"; "1"; "2"; "3"; "4"; "5"; "6"; "7"; "8"; "9"]%char.

Fixpoint all_digits (s : string) : bool :=
  match s with
  | EmptyString => true
  | String c s' => is_digit c && all_digits s'
  end.

Fixpoint no_slash (s : string) : bool :=
  match s with
  | EmptyString => true
  | String c s' => negb (Ascii.eqb c "/") && no_slash s'
  end.

(** No node of [pre] has the label. *)
Definition unlike (l : string) (pre : list tree) : Prop :=
  Forall (fun x => (label x =? l)%string = false) pre.

Fixpoint zseq (a : Z) (n : nat) : list Z :=
  match n with
  | O => []
  | S n' => a :: zseq (a + 1) n'
  end.

Definition sane (g : segment) : Prop :=
  0 <= start_extent g /\ 1 <= extent_count g /\ 0 <= pv_start g.

End AugTree.

(** * Properties *)

Unset Implicit Arguments.

Import LUKS.

(** ** Runs *)

Lemma ok_inj {A} (s s' : sys) (a a' : A) : (s, Ok a) = (s', Ok a') -> s = s' /\ a = a'.
Proof. intros H. inversion H. auto. Qed.

(** ** Bytes and slices *)

Lemma slice_length d off len :
  (List.length (slice d off len) <= nat_of len)%nat.
Proof. unfold slice. rewrite length_firstn. apply Nat.le_min_l. Qed.

Lemma slice_full d off len :
  0 <= off -> 0 <= len -> off + len <= Z.of_nat (List.length d) ->
  List.length (slice d off len) = nat_of len.
Proof.
  intros Ho Hl Hfit. unfold slice, nat_of.
  rewrite length_firstn, length_skipn. lia.
Qed.

Lemma bytes_eqb_eq a b : bytes_eqb a b = true <-> a = b.
Proof.
  unfold bytes_eqb. destruct (list_eq_dec Byte.byte_eq_dec a b); split; congruence.
Qed.

(** ** C8: bcache detection *)

Lemma open_inv (E : Env) (dev flags : string) (s s' : sys) (o : outcome fd) :
  open_ E dev flags s = (s', o) ->
  disks s' = disks s /\ (o = Ok (Some dev) \/ o = Ok None).
Proof.
  unfold open_, ask, bind, ret. cbn.
  intros H. inversion H; subst; cbn. split; [reflexivity|].
  match goal with |- context [if ?c then _ else _] => destruct c end; auto.
Qed.

(** C8.  [has_bcache_superblock()] returns true exactly when the size of the
    device (as [size()] reports it) is strictly greater than 8192 and the 16
    bytes read at offset 4120, through a descriptor opened read-only, are the
    bcache magic. *)
Theorem has_bcache_superblock_iff (E : Env) (dev : string) (s : sys) :
  snd (has_bcache_superblock E dev s) = Ok true <->
  exists s1 sz s2,
    size E dev s = (s1, Ok sz) /\ 8192 < sz /\
    open_ E dev "O_RDONLY" s1 = (s2, Ok (Some dev)) /\
    slice (disks s2 dev) 4120 16 = BCACHE_MAGIC.
Proof.
  unfold has_bcache_superblock, bind.
  destruct (size E dev s) as [s1 [sz|w|w|c]] eqn:Hsz; cbn [snd];
    try (split; [discriminate | intros (s1' & sz' & s2' & H & _); discriminate]).
  destruct (Z.leb_spec sz 8192) as [Hle|Hgt].
  - split; [discriminate|].
    intros (s1' & sz' & s2' & H & Hlt & _). inversion H; subst. lia.
  - destruct (open_ E dev "O_RDONLY" s1) as [s2 o] eqn:Hopen.
    destruct (open_inv _ _ _ _ _ _ Hopen) as [Hd [-> | ->]].
    + unfold pread.
      change (to_off_t (4096 + 24) <? 0) with false. cbv iota.
      change (4096 + 24) with 4120.
      destruct (Z.eqb_spec (Z.of_nat (List.length (slice (disks s2 dev) 4120 16))) 16) as [Hn|Hn];
        cbn [negb snd ret].
      * split.
        -- intros H. injection H as H. apply bytes_eqb_eq in H.
           exists s1, sz, s2. auto.
        -- intros (s1' & sz' & s2' & H & _ & Ho & Hm). inversion H; subst.
           rewrite Hopen in Ho. inversion Ho; subst.
           f_equal. apply bytes_eqb_eq. assumption.
      * split; [discriminate|].
        intros (s1' & sz' & s2' & H & _ & Ho & Hm). inversion H; subst.
        rewrite Hopen in Ho. inversion Ho; subst.
        rewrite Hm in Hn. cbn in Hn. congruence.
    + cbn [snd throw]. split; [discriminate|].
      intros (s1' & sz' & s2' & H & _ & Ho & _). inversion H; subst.
      rewrite Hopen in Ho. discriminate.
Qed.

(** ** Big-endian fields: decoding what was encoded *)

Lemma byte_val_range (b : byte) : 0 <= byte_val b < 256.
Proof.
  unfold byte_val. pose proof (Byte.to_N_bounded b). lia.
Qed.

Lemma byte_val_of_Z (z : Z) : byte_val (byte_of_Z z) = z mod 256.
Proof.
  unfold byte_val, byte_of_Z.
  assert (Hr : 0 <= z mod 256 < 256) by (apply Z.mod_pos_bound; lia).
  destruct (Byte.of_N (Z.to_N (z mod 256))) as [b|] eqn:Hb.
  - apply Byte.to_of_N in Hb. rewrite Hb. lia.
  - apply Byte.of_N_None_iff in Hb. lia.
Qed.

Lemma be_decode_range (bs : list byte) (acc : Z) :
  0 <= acc ->
  0 <= be_decode bs acc < (acc + 1) * 256 ^ Z.of_nat (List.length bs).
Proof.
  revert acc. induction bs as [|b bs IH]; intros acc Hacc.
  - cbn. lia.
  - cbn [be_decode List.length]. pose proof (byte_val_range b) as Hb.
    specialize (IH (acc * 256 + byte_val b) ltac:(lia)).
    rewrite Nat2Z.inj_succ, Z.pow_succ_r by lia.
    split; [lia|]. destruct IH as [_ IH].
    eapply Z.lt_le_trans; [exact IH|].
    assert (0 < 256 ^ Z.of_nat (List.length bs)) by (apply Z.pow_pos_nonneg; lia).
    nia.
Qed.

Lemma be32_range (bs : list byte) : 0 <= be32 bs < two32.
Proof.
  unfold be32.
  pose proof (be_decode_range (firstn 4 bs) 0 ltac:(lia)) as H.
  assert (Hl : (List.length (firstn 4 bs) <= 4)%nat) by (rewrite length_firstn; lia).
  assert (256 ^ Z.of_nat (List.length (firstn 4 bs)) <= 256 ^ 4)
    by (apply Z.pow_le_mono_r; lia).
  change two32 with (256 ^ 4). lia.
Qed.

Lemma be32_be32_bytes (z : Z) : 0 <= z < two32 -> be32 (be32_bytes z) = z.
Proof.
  intros Hz. unfold be32, be32_bytes. cbn [firstn be_decode].
  rewrite !byte_val_of_Z.
  change 16777216 with (256 * 65536). change 65536 with (256 * 256).
  rewrite <- !Z.div_div by lia.
  pose proof (Z.div_mod z 256 ltac:(lia)) as H1.
  pose proof (Z.div_mod (z / 256) 256 ltac:(lia)) as H2.
  pose proof (Z.div_mod (z / 256 / 256) 256 ltac:(lia)) as H3.
  assert (H4 : z / 256 / 256 / 256 < 256).
  { change two32 with (256 * (256 * (256 * 256))) in Hz.
    apply Z.div_lt_upper_bound; [lia|].
    apply Z.div_lt_upper_bound; [lia|].
    apply Z.div_lt_upper_bound; lia. }
  assert (H5 : 0 <= z / 256 / 256 / 256) by (repeat apply Z.div_pos; lia).
  rewrite (Z.mod_small (z / 256 / 256 / 256)) by lia.
  lia.
Qed.

Lemma firstn_slice (d : list byte) (off : Z) (n m : nat) :
  (n <= m)%nat -> firstn n (slice d off (Z.of_nat m)) = slice d off (Z.of_nat n).
Proof.
  intros H. unfold slice, nat_of. rewrite !Nat2Z.id, firstn_firstn.
  f_equal. lia.
Qed.

Lemma skipn_slice (d : list byte) (off : Z) (n m : nat) :
  0 <= off -> (n <= m)%nat ->
  skipn n (slice d off (Z.of_nat m)) = slice d (off + Z.of_nat n) (Z.of_nat (m - n)).
Proof.
  intros Ho H. unfold slice, nat_of. rewrite !Nat2Z.id.
  rewrite skipn_firstn_comm, skipn_skipn.
  f_equal. f_equal. lia.
Qed.

(** ** C6: the low-level read of the LUKS superblock *)

Lemma bind_pread {B} (p : string) (len off : Z) (k : Z * list byte -> M B) (s : sys) :
  0 <= off < 2 ^ 63 ->
  bind (pread (Some p) len off) k s =
  k (Z.of_nat (List.length (slice (disks s p) off len)), slice (disks s p) off len) s.
Proof.
  intros Hoff. unfold bind, pread, to_off_t.
  destruct (Z.ltb_spec off (2 ^ 63)); [|lia].
  destruct (Z.ltb_spec off 0); [lia|]. reflexivity.
Qed.

Lemma buffer8_fields (d : list byte) (off : Z) :
  0 <= off ->
  be32 (slice d off 8) = field32 d off /\
  be32 (skipn 4 (slice d off 8)) = field32 d (off + 4).
Proof.
  intros Hoff. unfold field32, be32.
  assert (H4 : forall o, firstn 4 (slice d o 4) = slice d o 4).
  { intros o. change 4 with (Z.of_nat 4) at 1 2. rewrite firstn_slice by lia. reflexivity. }
  rewrite !H4. split.
  - change 8 with (Z.of_nat 8). rewrite firstn_slice by lia. reflexivity.
  - change 8 with (Z.of_nat 8). rewrite (skipn_slice d off 4 8) by lia.
    change (Z.of_nat (8 - 4)) with (Z.of_nat 4). rewrite firstn_slice by lia.
    reflexivity.
Qed.

Lemma key_slot_step_inv (dev : string) (key_bytes acc slot : Z) (s s' : sys) (acc' : Z) :
  0 <= slot < 8 ->
  key_slot_step (Some dev) key_bytes acc slot s = (s', Ok acc') ->
  s' = s /\ key_stripes_of (disks s dev) slot = 4000 /\
  acc' = Z.max acc (u64 (u32 (key_offset_of (disks s dev) slot * 512) + u32 (4000 * key_bytes))).
Proof.
  intros Hslot. unfold key_slot_step.
  rewrite bind_pread by lia. cbv beta iota zeta.
  destruct (buffer8_fields (disks s dev) (208 + 48 * slot + 40) ltac:(lia)) as [Hko Hks].
  rewrite Hko, Hks.
  replace (208 + 48 * slot + 40 + 4) with (208 + 48 * slot + 44) by lia.
  fold (key_offset_of (disks s dev) slot). fold (key_stripes_of (disks s dev) slot).
  destruct (negb _); [discriminate|].
  destruct (Z.eqb_spec (key_stripes_of (disks s dev) slot) 4000) as [Hst|Hst];
    cbn [negb]; [|discriminate].
  rewrite Hst. unfold ret. intros H. apply ok_inj in H. destruct H as [<- <-].
  repeat split; try assumption.
  destruct (Z.gtb_spec (u64 (u32 (key_offset_of (disks s dev) slot * 512) + u32 (4000 * key_bytes))) acc);
    lia.
Qed.

Lemma key_slots_inv (dev : string) (key_bytes : Z) (slots : list Z) (acc : Z) (s s' : sys) (acc' : Z) :
  Forall (fun slot => 0 <= slot < 8) slots ->
  fold_m slots acc (key_slot_step (Some dev) key_bytes) s = (s', Ok acc') ->
  s' = s /\ Forall (fun slot => key_stripes_of (disks s dev) slot = 4000) slots /\
  acc' = fold_left Z.max
           (map (fun slot => u64 (u32 (key_offset_of (disks s dev) slot * 512)
                                  + u32 (4000 * key_bytes))) slots) acc.
Proof.
  revert acc s. induction slots as [|slot slots IH]; intros acc s Hall.
  - cbn. unfold ret. intros H. inversion H; subst. auto.
  - inversion Hall as [|? ? Hslot Hall']; subst.
    cbn [fold_m]. unfold bind at 1.
    destruct (key_slot_step (Some dev) key_bytes acc slot s) as [s1 [a| | |]] eqn:Hstep;
      try discriminate.
    apply key_slot_step_inv in Hstep; [|assumption].
    destruct Hstep as (-> & Hst & ->).
    intros H. apply IH in H; [|assumption].
    destruct H as (-> & Hrest & ->).
    repeat split. constructor; assumption.
Qed.

Lemma key_slots_range : Forall (fun slot => 0 <= slot < 8) key_slots.
Proof. unfold key_slots. repeat constructor; lia. Qed.

Lemma fold_max_ge (l : list Z) (acc : Z) : acc <= fold_left Z.max l acc.
Proof.
  revert acc. induction l as [|x l IH]; intros acc; cbn; [lia|].
  specialize (IH (Z.max acc x)). lia.
Qed.

(** What a successful [read_superblock_ll] has checked and stored. *)
Lemma read_superblock_ll_inv (this : LUKS.t) (dev : string) (s s' : sys) (this' : LUKS.t) :
  read_superblock_ll this (Some dev) s = (s', Ok this') ->
  s' = s /\
  Forall (fun slot => key_stripes_of (disks s dev) slot = 4000) key_slots /\
  sb_end this' = fold_left Z.max (map (code_key_end (disks s dev)) key_slots) 592 /\
  offset this' = offset this /\
  LUKS.device this' = LUKS.device this /\
  offset this = u32 (payload_start_of (disks s dev) * 512) /\
  sb_end this' <= offset this.
Proof.
  unfold read_superblock_ll.
  rewrite bind_pread by lia. cbv beta iota zeta.
  destruct (negb (Z.of_nat (List.length (slice (disks s dev) 0 8)) =? 8)); [discriminate|].
  destruct (negb (bytes_eqb _ _)); [discriminate|].
  destruct (negb (be16 _ =? 1)); [discriminate|].
  rewrite bind_pread by lia. cbv beta iota zeta.
  destruct (negb (Z.of_nat (List.length (slice (disks s dev) 104 8)) =? 8)); [discriminate|].
  destruct (buffer8_fields (disks s dev) 104 ltac:(lia)) as [Hps Hkb].
  rewrite Hps, Hkb. change (104 + 4) with 108.
  fold (payload_start_of (disks s dev)). fold (key_bytes_of (disks s dev)).
  unfold bind at 1.
  destruct (fold_m _ _ _ s) as [s1 [sb_end_tmp| | |]] eqn:Hfold; try discriminate.
  apply key_slots_inv in Hfold; [|exact key_slots_range].
  destruct Hfold as (-> & Hst & ->).
  cbn [offset with_sb_end].
  destruct (Z.eqb_spec (u32 (payload_start_of (disks s dev) * 512)) (offset this)) as [Hoff|Hoff];
    cbn [negb]; [|discriminate].
  match goal with |- context [if ?a <? ?b then _ else _] =>
    destruct (Z.ltb_spec a b) as [Hlt|Hge] end; [discriminate|].
  unfold ret. intros H. apply ok_inj in H. destruct H as [<- <-]. cbn [sb_end with_sb_end].
  repeat split; auto. rewrite <- Hoff. exact Hge.
Qed.

Lemma u32_small (z : Z) : 0 <= z < two32 -> u32 z = z.
Proof. intros H. unfold u32. apply Z.mod_small. assumption. Qed.

Lemma u64_small (z : Z) : 0 <= z < two64 -> u64 z = z.
Proof. intros H. unfold u64. apply Z.mod_small. assumption. Qed.

Lemma field32_range (d : list byte) (off : Z) : 0 <= field32 d off < two32.
Proof. unfold field32. apply be32_range. Qed.

Lemma u32_512_aligned (z : Z) : u32 (z * 512) mod 512 = 0.
Proof.
  unfold u32. change two32 with (512 * 8388608).
  rewrite Z.rem_mul_r by lia.
  rewrite Z.mod_mul by lia.
  rewrite Z.add_0_l.
  rewrite Z.mul_comm, Z.mod_mul; lia.
Qed.

Lemma code_key_end_no_wrap (d : list byte) (slots : list Z) :
  4000 * key_bytes_of d < two32 ->
  Forall (fun slot => key_offset_of d slot * 512 < two32) slots ->
  map (code_key_end d) slots =
  map (fun slot => key_offset_of d slot * 512 + 4000 * key_bytes_of d) slots.
Proof.
  intros Hkb Hall. induction Hall as [|slot slots Hko Hall IH]; [reflexivity|].
  cbn [map]. rewrite IH. f_equal.
  unfold code_key_end.
  pose proof (field32_range d (208 + 48 * slot + 40)) as Hr.
  pose proof (field32_range d 108) as Hr'.
  fold (key_offset_of d slot) in Hr. fold (key_bytes_of d) in Hr'.
  rewrite !u32_small by lia.
  apply u64_small. change two64 with (two32 * two32).
  assert (0 < two32) by (unfold two32; lia). nia.
Qed.

Lemma u32_bound (z : Z) : 0 <= u32 z < two32.
Proof. unfold u32. apply Z.mod_pos_bound. unfold two32. lia. Qed.

Lemma code_key_end_wrapped (d : list byte) (slots : list Z) :
  map (code_key_end d) slots =
  map (fun slot => u32 (key_offset_of d slot * 512) + u32 (4000 * key_bytes_of d)) slots.
Proof.
  apply map_ext. intros slot. unfold code_key_end. apply u64_small.
  pose proof (u32_bound (key_offset_of d slot * 512)).
  pose proof (u32_bound (4000 * key_bytes_of d)).
  unfold two32, two64 in *. lia.
Qed.



(** With 1073742-byte keys the product 4000·key_bytes is 2^32 + 704: the
    plain maximum is 4295660224, the code's is 692928. *)
Lemma sb_end_wide_keys :
  sb_end_spec header_wide = 4295660224 /\ sb_end_wrapped header_wide = 692928.
Proof. vm_compute. split; reflexivity. Qed.


(** ** C5: shifting the LUKS superblock *)

Lemma poke_length (buf : list byte) (at_ : nat) (src : list byte) :
  (at_ + List.length src <= List.length buf)%nat ->
  List.length (poke buf at_ src) = List.length buf.
Proof.
  intros H. unfold poke. rewrite !length_app, length_firstn, length_skipn. lia.
Qed.

Lemma zeros_length (n : Z) : List.length (zeros n) = nat_of n.
Proof. unfold zeros. apply repeat_length. Qed.

Lemma splice_at_0 (d data : list byte) :
  (List.length data <= List.length d)%nat ->
  splice d 0 data = data ++ skipn (List.length data) d.
Proof.
  intros H. unfold splice, nat_of. change (Z.to_nat 0) with 0%nat.
  rewrite Nat.sub_0_r, Nat.min_l by assumption.
  cbn [firstn app Nat.add]. rewrite firstn_all. reflexivity.
Qed.

Lemma pwrite_fits (p : string) (data : list byte) (s : sys) :
  (0 < List.length data <= List.length (disks s p))%nat ->
  pwrite (Some p) data 0 s =
  (Sys (update_disk (disks s) p (data ++ skipn (List.length data) (disks s p)))
       (log s ++ [Pwrite p 0 (Z.of_nat (List.length data))]),
   Ok (Z.of_nat (List.length data))).
Proof.
  intros [Hpos Hfit]. unfold pwrite.
  change (to_off_t 0 <? 0) with false. cbv iota.
  change (nat_of 0) with 0%nat. rewrite Nat.sub_0_r.
  rewrite Nat.min_l by assumption.
  destruct (Nat.eqb_spec (List.length data) 0) as [H0|H0]; [lia|].
  cbn [andb]. rewrite splice_at_0 by assumption. reflexivity.
Qed.

Lemma update_disk_same (ds : string -> list byte) (p : string) (d : list byte) :
  update_disk ds p d p = d.
Proof. unfold update_disk. rewrite String.eqb_refl. reflexivity. Qed.

Lemma update_disk_other (ds : string -> list byte) (p q : string) (d : list byte) :
  q <> p -> update_disk ds p d q = ds q.
Proof.
  intros H. unfold update_disk. destruct (String.eqb_spec q p); [contradiction|reflexivity].
Qed.

(** The field at superblock offset 104, once the superblock sits behind
    [n] other bytes. *)
Lemma field_after_poke (pre sb rest : list byte) (z : Z) :
  (108 <= List.length sb)%nat -> 0 <= z < two32 ->
  field32 (pre ++ poke sb 104 (be32_bytes z) ++ rest) (Z.of_nat (List.length pre) + 104) = z.
Proof.
  intros Hlen Hz. unfold field32, slice, nat_of.
  replace (Z.to_nat (Z.of_nat (List.length pre) + 104)) with (104 + List.length pre)%nat by lia.
  rewrite <- skipn_skipn.
  rewrite skipn_app, skipn_all, Nat.sub_diag, skipn_O, app_nil_l.
  unfold poke.
  rewrite <- !app_assoc.
  rewrite skipn_app.
  assert (Hf : List.length (firstn 104 sb) = 104%nat) by (rewrite length_firstn; lia).
  rewrite (skipn_all2 (firstn 104 sb)) by lia.
  rewrite Hf, Nat.sub_diag, skipn_O, app_nil_l.
  change (Z.to_nat 4) with 4%nat.
  transitivity (be32 (be32_bytes z)); [|apply be32_be32_bytes; assumption].
  unfold be32, be32_bytes. cbn [app firstn]. reflexivity.
Qed.

Lemma u32_range (z : Z) : 0 <= u32 z < two32.
Proof. unfold u32. apply Z.mod_pos_bound. unfold two32. lia. Qed.

(** C5.  In the state [luks_to_bcache] calls it in (the low-level read has
    succeeded, the device reaches up to its payload) and with shift_by = 8192:
    if sb_end + shift_by <= payload start, [shift_sb] issues one write, at
    offset 0, of 8192 zero bytes followed by the superblock bytes [0, sb_end)
    whose big-endian field at 104 now holds (payload_start - shift_by)/512, so
    that the payload start read from the shifted superblock is the old one
    minus 8192; otherwise it throws, with no write and the device as it was. *)
Theorem shift_sb_spec (this0 this : LUKS.t) (dev : string) (s : sys) :
  read_superblock_ll this0 (Some dev) s = (s, Ok this) ->
  offset this <= Z.of_nat (List.length (disks s dev)) ->
  (sb_end this + 8192 <= offset this ->
     exists s',
       shift_sb this (Some dev) 8192 s = (s', Ok (with_sb_end this 0)) /\
       log s' = log s ++ [Pwrite dev 0 (8192 + sb_end this)] /\
       disks s' dev =
         zeros 8192
         ++ poke (slice (disks s dev) 0 (sb_end this)) 104
                 (be32_bytes ((offset this - 8192) / 512))
         ++ skipn (nat_of (8192 + sb_end this)) (disks s dev) /\
       (forall q, q <> dev -> disks s' q = disks s q) /\
       512 * payload_start_of (skipn (nat_of 8192) (disks s' dev)) = offset this - 8192)
  /\
  (offset this < sb_end this + 8192 ->
     exists w, shift_sb this (Some dev) 8192 s = (s, Throw w)).
Proof.
  intros Hrun Hdev.
  apply read_superblock_ll_inv in Hrun.
  destruct Hrun as (_ & _ & Hend & Hoff' & _ & Hoff & Hle).
  rewrite <- Hoff' in Hoff, Hle.
  assert (Hsb : 592 <= sb_end this) by (rewrite Hend; apply fold_max_ge).
  assert (Hrange : 0 <= offset this < two32) by (rewrite Hoff; apply u32_range).
  assert (Hal : offset this mod 512 = 0) by (rewrite Hoff; apply u32_512_aligned).
  assert (H32 : two32 = 4294967296) by reflexivity.
  assert (H64 : two64 = 18446744073709551616) by reflexivity.
  unfold shift_sb.
  change (8192 =? 0) with false. change (8192 mod 512 =? 0) with true.
  rewrite Hal. change (0 =? 0) with true. cbn [negb orb].
  split.
  - intros Hpre.
    rewrite u64_small by lia.
    destruct (Z.gtb_spec (sb_end this + 8192) (offset this)) as [Hgt|_]; [lia|].
    rewrite bind_pread by lia. cbv beta iota zeta.
    assert (Hsl : List.length (slice (disks s dev) 0 (sb_end this)) = nat_of (sb_end this))
      by (apply slice_full; lia).
    rewrite Hsl.
    replace (Z.of_nat (nat_of (sb_end this))) with (sb_end this) by (unfold nat_of; lia).
    rewrite Z.eqb_refl. cbn [negb].
    destruct (Z.ltb_spec (sb_end this) 108) as [Hlt|_]; [lia|].
    set (sb := poke (slice (disks s dev) 0 (sb_end this)) 104
                    (be32_bytes (u32 (u32 (offset this / 512) - 8192 / 512)))).
    assert (Hsbl : List.length sb = nat_of (sb_end this)).
    { unfold sb. rewrite poke_length; [assumption|].
      rewrite Hsl. unfold nat_of, be32_bytes. cbn [List.length]. lia. }
    assert (Hcl : List.length (zeros 8192 ++ sb) = nat_of (8192 + sb_end this)).
    { rewrite length_app, zeros_length, Hsbl. unfold nat_of. lia. }
    unfold bind.
    rewrite pwrite_fits by (rewrite Hcl; unfold nat_of; lia).
    rewrite Hcl.
    replace (Z.of_nat (nat_of (8192 + sb_end this))) with (8192 + sb_end this)
      by (unfold nat_of; lia).
    rewrite Z.eqb_refl. cbn [negb]. unfold ret.
    assert (Hnew : u32 (u32 (offset this / 512) - 8192 / 512) = (offset this - 8192) / 512).
    { change (8192 / 512) with 16.
      assert (Hq : offset this = 512 * (offset this / 512))
        by (apply Z.div_exact; [lia|assumption]).
      assert (Hq2 : (offset this - 8192) / 512 = offset this / 512 - 16).
      { replace (offset this - 8192) with (offset this + (-16) * 512) by lia.
        rewrite Z.div_add by lia. lia. }
      assert (0 <= offset this / 512 < 8388608)
        by (split; [apply Z.div_pos; lia | apply Z.div_lt_upper_bound; lia]).
      rewrite (u32_small (offset this / 512)) by lia.
      rewrite u32_small by lia. lia. }
    eexists. split; [reflexivity|]. cbn [log disks].
    split; [reflexivity|].
    split.
    { rewrite update_disk_same. unfold sb. rewrite Hnew, <- app_assoc. reflexivity. }
    split.
    { intros q Hq. apply update_disk_other. assumption. }
    rewrite update_disk_same.
    rewrite <- app_assoc, skipn_app.
    rewrite (skipn_all2 (zeros 8192)) by (rewrite zeros_length; unfold nat_of; lia).
    rewrite zeros_length, Nat.sub_diag, skipn_O, app_nil_l.
    unfold payload_start_of, sb. rewrite Hnew.
    pose proof (field_after_poke [] (slice (disks s dev) 0 (sb_end this))
                  (skipn (nat_of (8192 + sb_end this)) (disks s dev))
                  ((offset this - 8192) / 512)) as Hf.
    cbn [app List.length] in Hf. change (Z.of_nat 0 + 104) with 104 in Hf.
    rewrite Hf.
    + assert (Hq : offset this - 8192 = 512 * ((offset this - 8192) / 512)).
      { apply Z.div_exact; [lia|].
        replace (offset this - 8192) with (offset this + (-16) * 512) by lia.
        rewrite Z.mod_add by lia. assumption. }
      lia.
    + rewrite Hsl. unfold nat_of. lia.
    + split; [apply Z.div_pos; lia|].
      apply Z.div_lt_upper_bound; lia.
  - intros Hpre.
    rewrite u64_small by lia.
    destruct (Z.gtb_spec (sb_end this + 8192) (offset this)) as [_|Hle']; [|lia].
    eexists. reflexivity.
Qed.

Lemma shift_sb_spec_witness :
  let s := one_disk "/dev/sdb1" header_small in
  let this := LUKS.Make "/dev/sdb1" 20480 12096 true in
  exists s',
    shift_sb this (Some "/dev/sdb1") 8192 s = (s', Ok (with_sb_end this 0)) /\
    log s' = log s ++ [Pwrite "/dev/sdb1" 0 (8192 + sb_end this)] /\
    disks s' "/dev/sdb1" =
      zeros 8192
      ++ poke (slice (disks s "/dev/sdb1") 0 (sb_end this)) 104
              (be32_bytes ((offset this - 8192) / 512))
      ++ skipn (nat_of (8192 + sb_end this)) (disks s "/dev/sdb1") /\
    (forall q, q <> "/dev/sdb1"%string -> disks s' q = disks s q) /\
    512 * payload_start_of (skipn (nat_of 8192) (disks s' "/dev/sdb1")) = offset this - 8192.
Proof.
  intros s this.
  assert (H1 : read_superblock_ll (LUKS.Make "/dev/sdb1" 20480 0 true)
                                  (Some "/dev/sdb1") s = (s, Ok this)).
  { vm_cast_no_check (@eq_refl _ (s, @Ok LUKS.t this)). }
  assert (H2 : offset this <= Z.of_nat (List.length (disks s "/dev/sdb1"))).
  { vm_compute. discriminate. }
  assert (H3 : sb_end this + 8192 <= offset this).
  { vm_compute. discriminate. }
  exact (proj1 (shift_sb_spec _ _ _ _ H1 H2) H3).
Defined.

(** ** C7: a negative shift in [copy_to_physical] *)

Import SyntheticDevice.

(** C7, the code at the call of [lv_to_bcache].  On a synthetic device with a
    head of [pe] bytes, no tail and its [data] in place,
    [copy_to_physical(fd, -pe)] with [other_device] false does not wrap the
    shift: the parameter is unsigned, the test [shift_by < 0] never holds, the
    range assert passes because [shift_by + head] wraps to 0, and the one write
    requested is at offset 2^64 - pe, which is not head + middle + tail - pe;
    as an [off_t] that offset is negative, nothing is written, the failure is
    reported and the call throws. *)
Theorem copy_to_physical_negative_shift (E : Env) (this : SyntheticDevice.t) (dev : string)
        (s : sys) (pe : Z) :
  writable_hdr_size this = pe ->
  writable_end_size this = 0 ->
  Z.of_nat (List.length (data this)) = pe ->
  0 < pe -> 0 <= rz_size this -> pe + rz_size this < 2 ^ 63 ->
  let asked := log s ++ [Pwrite dev (two64 - pe) pe] in
  copy_to_physical E this (Some dev) (- pe) 0 false s =
    (Sys (disks s)
         (asked ++ [Stderr ("Failed to write to physical device: expected " +++ to_string pe +++
                            " bytes, wrote -1 bytes, errno: " +++ strerror E asked)]),
     Throw "Write to physical device failed")
  /\ two64 - pe <> (writable_hdr_size this + rz_size this + writable_end_size this) - pe.
Proof.
  intros Hhdr Hend Hdata Hpe Hrz Hsize asked. unfold asked.
  assert (H64 : two64 = 18446744073709551616) by reflexivity.
  assert (H63 : 2 ^ 63 = 9223372036854775808) by reflexivity.
  split; [|rewrite Hhdr, Hend; lia].
  assert (Hs : u64 (- pe) = two64 - pe).
  { unfold u64. replace (- pe) with (two64 - pe + (-1) * two64) by lia.
    rewrite Z.mod_add by lia. apply Z.mod_small. lia. }
  assert (E1 : (pe =? u64 (pe + 0)) = true)
    by (rewrite u64_small by lia; apply Z.eqb_eq; lia).
  assert (E2 : (two64 - pe <? 0) = false) by (apply Z.ltb_ge; lia).
  assert (E3 : ((0 <=? two64 - pe) && (u64 (two64 - pe + pe) <=? u64 (pe + rz_size this + 0)))%bool
               = true).
  { apply andb_true_iff. split; [apply Z.leb_le; lia|].
    replace (two64 - pe + pe) with (0 + 1 * two64) by lia.
    unfold u64 at 1. rewrite Z.mod_add by lia.
    rewrite u64_small by lia. apply Z.leb_le. cbn. lia. }
  assert (E4 : (to_off_t (two64 - pe) <? 0) = true).
  { unfold to_off_t. rewrite H63.
    destruct (Z.ltb_spec (two64 - pe) 9223372036854775808); [lia|].
    apply Z.ltb_lt. lia. }
  assert (E5 : Z.of_nat (List.length (firstn (nat_of pe) (data this))) = pe).
  { rewrite length_firstn. unfold nat_of. lia. }
  assert (E6 : (-1 =? to_off_t pe) = false).
  { unfold to_off_t. rewrite H63.
    destruct (Z.ltb_spec pe 9223372036854775808); [|lia]. apply Z.eqb_neq. lia. }
  unfold copy_to_physical. rewrite Hhdr, Hend, Hdata, Hs.
  cbv [bind ret assert when pwrite errno_text emit throw].
  rewrite E1. cbv beta iota. rewrite E2. cbv beta iota.
  change (0 =? 0) with true. cbv beta iota delta [negb].
  rewrite E3. cbv beta iota. rewrite E4, E5. cbv beta iota.
  rewrite E6. reflexivity.
Qed.

Lemma copy_to_physical_negative_shift_witness :
  let this := SyntheticDevice.Make "/dev/mapper/synthetic-0" (blank 4096) 4096 28672 0 in
  let s := one_disk "/dev/vg0/lv0" (blank 32768) in
  copy_to_physical env_layers this (Some "/dev/vg0/lv0") (- 4096) 0 false s =
    (Sys (disks s)
         (log s ++ [Pwrite "/dev/vg0/lv0" (two64 - 4096) 4096;
                    Stderr ("Failed to write to physical device: expected 4096 bytes, " +++
                            "wrote -1 bytes, errno: Invalid argument")]),
     Throw "Write to physical device failed")
  /\ two64 - 4096 <> (writable_hdr_size this + rz_size this + writable_end_size this) - 4096.
Proof.
  intros this s.
  apply (copy_to_physical_negative_shift env_layers this "/dev/vg0/lv0" s 4096);
    try reflexivity; vm_compute; congruence.
Defined.

(** ** C3: the order in which the stack drives its layers *)

Lemma bind_ok_inv {A B} (m : M A) (k : A -> M B) (s s' : sys) (b : B) :
  bind m k s = (s', Ok b) -> exists s1 a, m s = (s1, Ok a) /\ k a s1 = (s', Ok b).
Proof.
  unfold bind. destruct (m s) as [s1 [a|w|w|c]]; try discriminate.
  intros H. exists s1, a. auto.
Qed.

Lemma reserve_calls_app (a b : list event) :
  reserve_calls (a ++ b) = reserve_calls a ++ reserve_calls b.
Proof. unfold reserve_calls. apply flat_map_app. Qed.

Lemma grow_calls_app (a b : list event) :
  grow_calls (a ++ b) = grow_calls a ++ grow_calls b.
Proof. unfold grow_calls. apply flat_map_app. Qed.

Lemma ok_calls_bind {A B} (r1 g1 r2 g2 : list (nat * Z)) (m : M A) (k : A -> M B) :
  ok_calls r1 g1 m -> (forall a, ok_calls r2 g2 (k a)) ->
  ok_calls (r1 ++ r2) (g1 ++ g2) (bind m k).
Proof.
  intros Hm Hk s s' b H.
  apply bind_ok_inv in H. destruct H as (s1 & a & H1 & H2).
  apply Hm in H1. apply Hk in H2. destruct H1 as [R1 G1], H2 as [R2 G2].
  rewrite R2, G2, R1, G1, !app_assoc. auto.
Qed.

Lemma silent_bind {A B} (m : M A) (k : A -> M B) :
  ok_calls [] [] m -> (forall a, ok_calls [] [] (k a)) -> ok_calls [] [] (bind m k).
Proof. intros Hm Hk. apply (ok_calls_bind [] [] [] [] m k Hm Hk). Qed.

Lemma silent_then {A B} (rs gs : list (nat * Z)) (m : M A) (k : A -> M B) :
  ok_calls [] [] m -> (forall a, ok_calls rs gs (k a)) -> ok_calls rs gs (bind m k).
Proof. intros Hm Hk. apply (ok_calls_bind [] [] rs gs m k Hm Hk). Qed.

Lemma silent_ret {A} (a : A) : ok_calls [] [] (ret a).
Proof. intros s s' b H. apply ok_inj in H. destruct H as [<- _]. rewrite !app_nil_r. auto. Qed.

Lemma vacuous_throw {A} (rs gs : list (nat * Z)) (w : string) : ok_calls rs gs (@throw A w).
Proof. intros s s' b H. discriminate. Qed.

Lemma vacuous_abort {A} (rs gs : list (nat * Z)) (w : string) : ok_calls rs gs (@abort A w).
Proof. intros s s' b H. discriminate. Qed.

Lemma vacuous_exit {A} (rs gs : list (nat * Z)) (c : Z) : ok_calls rs gs (@exit A c).
Proof. intros s s' b H. discriminate. Qed.

Lemma silent_assert (c : bool) (w : string) : ok_calls [] [] (assert c w).
Proof. unfold assert. destruct c; [apply silent_ret | apply vacuous_abort]. Qed.

Lemma silent_ask {A} (what : string) (f : list event -> A) : ok_calls [] [] (ask what f).
Proof.
  intros s s' a H. unfold ask in H. apply ok_inj in H. destruct H as [<- _].
  cbn [log]. rewrite reserve_calls_app, grow_calls_app. auto.
Qed.

Lemma ok_calls_emit (e : event) :
  ok_calls (reserve_calls [e]) (grow_calls [e]) (emit e).
Proof.
  intros s s' a H. unfold emit in H. apply ok_inj in H. destruct H as [<- _].
  cbn [log]. rewrite reserve_calls_app, grow_calls_app. auto.
Qed.

Lemma silent_quiet_call (E : Env) (cmd : list string) (table : string) :
  ok_calls [] [] (quiet_call E cmd table).
Proof.
  unfold quiet_call.
  apply silent_bind; [exact (ok_calls_emit (Call cmd table))|]. intros _.
  apply silent_bind.
  - intros s s' a H. apply ok_inj in H. destruct H as [<- _]. rewrite !app_nil_r. auto.
  - intros status. destruct (status =? 0); [apply silent_ret|].
    apply silent_bind; [apply silent_ask|]. intros out.
    apply silent_bind; [exact (ok_calls_emit (Stderr _)) | intros _; apply vacuous_throw].
Qed.

Lemma silent_when (b : bool) (m : M unit) : ok_calls [] [] m -> ok_calls [] [] (when b m).
Proof. intros H. unfold when. destruct b; [assumption | apply silent_ret]. Qed.

Lemma silent_finally {A} (rs gs : list (nat * Z)) (m : M A) (d : M unit) :
  ok_calls rs gs m -> ok_calls [] [] d -> ok_calls rs gs (finally m d).
Proof.
  intros Hm Hd s s' a H. unfold finally in H.
  destruct (m s) as [s1 [a1|w|w|c]] eqn:Hrun; try discriminate.
  - destruct (d s1) as [s2 [u|w|w|c]] eqn:Hdes; try discriminate.
    apply ok_inj in H. destruct H as [<- <-].
    destruct (Hm s s1 a1 Hrun) as [R G]. destruct (Hd s1 s2 u Hdes) as [R' G'].
    rewrite R', G', !app_nil_r. auto.
  - destruct (d s1) as [s2 [u|w'|w'|c]]; discriminate.
Qed.

Lemma silent_fold_m {A B} (body : B -> A -> M B) (l : list A) (acc : B) :
  (forall b x, ok_calls [] [] (body b x)) -> ok_calls [] [] (fold_m l acc body).
Proof.
  intros Hbody. revert acc. induction l as [|x l IH]; intros acc; cbn [fold_m].
  - apply silent_ret.
  - apply silent_bind; [apply Hbody | intros b; apply IH].
Qed.

Lemma silent_pure {A} (f : sys -> outcome A) : ok_calls [] [] (fun s => (s, f s)).
Proof. intros s s' a H. injection H as <- _. rewrite !app_nil_r. auto. Qed.

Lemma hushed_bind {A B} (m : M A) (k : A -> M B) :
  hushed m -> (forall a, hushed (k a)) -> hushed (bind m k).
Proof.
  intros Hm Hk s. unfold bind. specialize (Hm s).
  destruct (m s) as [s1 [a|w|w|c]]; cbn [fst] in *; try assumption.
  destruct (Hk a s1) as [R G]. destruct Hm as [R1 G1]. split; congruence.
Qed.

Lemma hushed_pure {A} (f : sys -> outcome A) : hushed (fun s => (s, f s)).
Proof. intros s. cbn [fst]. auto. Qed.

Lemma hushed_emit (e : event) :
  reserve_calls [e] = [] -> grow_calls [e] = [] -> hushed (emit e).
Proof.
  intros R G s. unfold emit. cbn [fst log].
  rewrite reserve_calls_app, grow_calls_app, R, G, !app_nil_r. auto.
Qed.

Lemma hushed_ask {A} (what : string) (f : list event -> A) : hushed (ask what f).
Proof.
  intros s. unfold ask. cbn [fst log].
  rewrite reserve_calls_app, grow_calls_app. cbn. rewrite !app_nil_r. auto.
Qed.

Lemma hushed_quiet_call (E : Env) (cmd : list string) (table : string) :
  hushed (quiet_call E cmd table).
Proof.
  unfold quiet_call.
  apply hushed_bind; [apply hushed_emit; reflexivity|]. intros _.
  apply hushed_bind; [exact (hushed_pure (fun s => Ok (call_status E (log s) cmd)))|].
  intros status. destruct (status =? 0).
  - exact (hushed_pure (fun _ => Ok tt)).
  - apply hushed_bind; [apply hushed_ask|]. intros out.
    apply hushed_bind; [apply hushed_emit; reflexivity|]. intros _.
    exact (hushed_pure (fun _ => Throw _)).
Qed.

Lemma silent_catch {A} (m : M A) (handler : string -> M A) :
  hushed m -> ok_calls [] [] m -> (forall w, ok_calls [] [] (handler w)) ->
  ok_calls [] [] (catch m handler).
Proof.
  intros Hh Hm Hk s s' a H. unfold catch in H.
  destruct (m s) as [s1 [a1|w|w|c]] eqn:Hrun; try discriminate.
  - exact (Hm s s' a (eq_trans Hrun H)).
  - destruct (Hh s) as [R G]. rewrite Hrun in R, G. cbn [fst] in R, G.
    destruct (Hk w s1 s' a H) as [R' G']. rewrite R', G', R, G. auto.
Qed.

(** Proves [ok_calls [] [] m] for a computation built from the silent
    primitives. *)
Ltac silent :=
  repeat first
    [ apply silent_ret | apply vacuous_throw | apply vacuous_abort | apply vacuous_exit
    | apply silent_assert | apply silent_ask | apply silent_quiet_call
    | apply silent_when
    | assumption
    | apply silent_bind; [|intros ?]
    | apply silent_finally
    | apply silent_fold_m; intros ? ?
    | match goal with
      | |- ok_calls _ _ (match ?x with _ => _ end) => destruct x
      | |- ok_calls _ _ (let '(_, _) := ?x in _) => destruct x
      | |- ok_calls [] [] (emit ?e) => exact (ok_calls_emit e)
      end ].

Lemma silent_bytes_to_sector (b : Z) : ok_calls [] [] (bytes_to_sector b).
Proof. unfold bytes_to_sector. silent. Qed.

Lemma silent_make (E : Env) (p : string) : ok_calls [] [] (BlockDevice.make E p).
Proof. unfold BlockDevice.make. silent. Qed.

Lemma silent_size (E : Env) (p : string) : ok_calls [] [] (size E p).
Proof. unfold size. silent. Qed.

Lemma silent_superblock_type (E : Env) (p : string) : ok_calls [] [] (superblock_type E p).
Proof. unfold superblock_type, superblock_at. silent. Qed.

Lemma silent_luks_read_superblock (E : Env) (l : LUKS.t) : ok_calls [] [] (LUKS.read_superblock E l).
Proof. unfold LUKS.read_superblock. silent. Qed.

Lemma silent_devnum (E : Env) (p : string) : ok_calls [] [] (devnum E p).
Proof. unfold devnum. silent. Qed.

Lemma silent_sysfspath (E : Env) (p : string) : ok_calls [] [] (sysfspath E p).
Proof. unfold sysfspath. pose proof (silent_devnum E p). silent. Qed.

Lemma silent_exists (E : Env) (p : string) : ok_calls [] [] (exists_ E p).
Proof. unfold exists_. silent. Qed.

Lemma silent_iter_holders (E : Env) (p : string) : ok_calls [] [] (iter_holders E p).
Proof.
  unfold iter_holders.
  apply silent_bind; [apply silent_sysfspath|]. intros sp.
  apply silent_bind; [apply silent_exists|]. intros ex.
  destruct (negb ex); [apply silent_ret|].
  apply silent_bind; [apply silent_ask|]. intros names.
  apply silent_fold_m. intros holders name.
  apply silent_bind; [apply silent_make | intros hld; apply silent_ret].
Qed.

Lemma silent_find_holder (E : Env) (l : LUKS.t) (holders : list string) :
  ok_calls [] [] (LuksLayer.find_holder E l holders).
Proof.
  induction holders as [|hld rest IH]; cbn [LuksLayer.find_holder]; [apply silent_ret|].
  apply silent_bind; [apply silent_ask|]. intros [table_offset|]; [|exact IH].
  apply silent_bind; [apply silent_bytes_to_sector|]. intros sectors.
  destruct (table_offset =? sectors); [apply silent_ret | exact IH].
Qed.

Lemma silent_snoop_activated (E : Env) (l : LUKS.t) : ok_calls [] [] (LuksLayer.snoop_activated E l).
Proof.
  unfold LuksLayer.snoop_activated.
  apply silent_bind.
  - destruct (LUKS._superblock_read l); [apply silent_ret | apply silent_luks_read_superblock].
  - intros l1. apply silent_bind; [apply silent_iter_holders|]. intros holders.
    apply silent_bind; [apply silent_find_holder|]. intros [hld|]; [apply silent_ret|].
    apply silent_bind; [apply silent_make | intros p; apply silent_ret].
Qed.

Lemma silent_cleartext_device (E : Env) (l : LUKS.t) : ok_calls [] [] (LuksLayer.cleartext_device E l).
Proof.
  unfold LuksLayer.cleartext_device, LuksLayer.activate.
  apply silent_bind; [apply silent_snoop_activated|]. intros [l' dev].
  destruct (string_empty dev); [|apply silent_ret].
  apply silent_bind; [apply silent_ask|]. intros u.
  apply silent_bind; [apply silent_quiet_call|]. intros _.
  apply silent_bind; [apply silent_make|]. intros p. apply silent_ret.
Qed.

Lemma silent_fssize (f : Filesystem.t) : ok_calls [] [] (Filesystem.fssize f).
Proof. unfold Filesystem.fssize. silent. Qed.

Lemma silent_open (E : Env) (p flags : string) : ok_calls [] [] (open_ E p flags).
Proof. unfold open_. silent. Qed.

Lemma silent_pread (f : fd) (len off : Z) : ok_calls [] [] (pread f len off).
Proof.
  intros s s' a H. unfold pread in H.
  destruct f as [p|]; [destruct (to_off_t off <? 0)|];
    injection H as <- _; rewrite !app_nil_r; auto.
Qed.

Lemma silent_pwrite (f : fd) (data : list byte) (off : Z) : ok_calls [] [] (pwrite f data off).
Proof.
  intros s s' a H. unfold pwrite in H.
  destruct f as [p|]; [|injection H as <- _; rewrite !app_nil_r; auto].
  destruct (to_off_t off <? 0); [|destruct (_ && _)];
    injection H as <- _; cbn [log]; rewrite reserve_calls_app, grow_calls_app; auto.
Qed.

Lemma silent_swap_read_sb (f : Filesystem.t) (dev_fd : fd) :
  ok_calls [] [] (Filesystem.swap_read_sb f dev_fd).
Proof.
  unfold Filesystem.swap_read_sb.
  apply silent_bind; [apply silent_pread|]. intros [n magic_buf].
  destruct (negb (n =? 10)); [apply vacuous_throw|].
  destruct (negb (bytes_eqb _ _)); [apply vacuous_throw|].
  apply silent_bind; [apply silent_pread|]. intros [n' version_buf].
  destruct (negb (n' =? 8)); [apply vacuous_throw|].
  cbv zeta. silent.
Qed.

Lemma silent_fs_read_superblock (E : Env) (f : Filesystem.t) :
  ok_calls [] [] (Filesystem.read_superblock E f).
Proof.
  unfold Filesystem.read_superblock, open_excl.
  destruct (Filesystem.fskind f); try solve [silent].
  apply silent_bind; [apply silent_open|]. intros dev_fd.
  apply silent_bind; [apply silent_swap_read_sb|]. intros [[big v] last_page].
  apply silent_ret.
Qed.

Lemma silent_is_mounted (E : Env) (f : Filesystem.t) : ok_calls [] [] (Filesystem.is_mounted E f).
Proof.
  unfold Filesystem.is_mounted. pose proof (silent_devnum E (Filesystem.device f)).
  destruct (Filesystem.fskind f); silent.
Qed.

Lemma silent_temp_mount (E : Env) (f : Filesystem.t) : ok_calls [] [] (Filesystem.temp_mount E f).
Proof. unfold Filesystem.temp_mount. silent. Qed.

Lemma silent_unmount (E : Env) (mpoint : string) : ok_calls [] [] (Filesystem.unmount E mpoint).
Proof.
  unfold Filesystem.unmount. apply silent_catch.
  - apply hushed_bind; [apply hushed_quiet_call|]. intros _. apply hushed_emit; reflexivity.
  - apply silent_bind; [apply silent_quiet_call|]. intros _. exact (ok_calls_emit (Remove _)).
  - intros w. exact (ok_calls_emit (Stderr _)).
Qed.

Lemma silent_resize (E : Env) (f : Filesystem.t) (target_size : Z) :
  ok_calls [] [] (Filesystem._resize E f target_size).
Proof.
  unfold Filesystem._resize, open_excl.
  pose proof (silent_open E (Filesystem.device f) "O_SYNC|O_RDWR|O_EXCL").
  pose proof (silent_is_mounted E f). pose proof (silent_temp_mount E f).
  pose proof (silent_unmount E).
  destruct (Filesystem.block_size f =? 0); [apply vacuous_abort|].
  destruct (Filesystem.fskind f); cbv zeta.
  - (* ExtFS *)
    apply silent_bind; [apply silent_assert|]. intros _.
    apply silent_bind; [assumption|]. intros mounted.
    apply silent_bind.
    + destruct (_ && _); [|apply silent_ret].
      apply silent_bind; [apply silent_quiet_call | intros _; apply silent_ret].
    + intros f'. apply silent_bind; [apply silent_quiet_call | intros _; apply silent_ret].
  - silent.
  - (* BtrFS *)
    apply silent_bind; [apply silent_assert|]. intros _.
    apply silent_bind; [assumption|]. intros mpoint.
    apply silent_bind; [|intros _; apply silent_ret].
    apply silent_finally; [apply silent_quiet_call | auto].
  - silent.
  - silent.
  - (* Swap *)
    apply silent_bind; [assumption|]. intros dev_fd.
    apply silent_bind; [apply silent_pwrite|]. intros n.
    destruct (negb (n =? 8)); [apply vacuous_throw | apply silent_ret].
Qed.

Lemma silent_mount_and_resize (E : Env) (f : Filesystem.t) (pos : Z) :
  ok_calls [] [] (Filesystem._mount_and_resize E f pos).
Proof.
  unfold Filesystem._mount_and_resize.
  pose proof (silent_resize E f pos) as Hresize.
  apply silent_bind.
  - destruct (Filesystem.resize_needs_mpoint f); [|exact Hresize].
    apply silent_bind; [apply silent_is_mounted|]. intros mounted.
    destruct (negb mounted); [|exact Hresize].
    apply silent_bind; [apply silent_temp_mount|]. intros mpoint.
    apply silent_finally; [exact Hresize | apply silent_unmount].
  - intros f1. apply silent_bind; [apply silent_fs_read_superblock|]. intros f'.
    apply silent_bind; [apply silent_fssize|]. intros sz.
    apply silent_bind; [apply silent_assert|]. intros _. apply silent_ret.
Qed.

Lemma silent_notify (p : ProgressListener) (msg : string) : ok_calls [] [] (notify p msg).
Proof. unfold notify. destruct p; [exact (ok_calls_emit (Notify _)) | exact (ok_calls_emit (Notify _))]. Qed.

Lemma vacuous_bail {A} (rs gs : list (nat * Z)) (p : ProgressListener) (msg : string) :
  ok_calls rs gs (@bail A p msg).
Proof.
  intros s s' a H. unfold bail in H. destruct p; apply bind_ok_inv in H;
    destruct H as (s1 & u & _ & H); discriminate.
Qed.

Lemma ok_calls_for_each {A} (f : A -> list (nat * Z)) (body : A -> M unit) (l : list A) :
  (forall x, ok_calls (f x) [] (body x)) ->
  ok_calls (flat_map f l) [] (for_each l body).
Proof.
  intros Hbody. induction l as [|x l IH]; cbn [for_each flat_map].
  - apply silent_ret.
  - apply (ok_calls_bind (f x) [] (flat_map f l) [] (body x) (fun _ => for_each l body)).
    + apply Hbody.
    + intros _. exact IH.
Qed.

Lemma fs_reserve_calls (E : Env) (i : nat) (f : Filesystem.t) (pos : Z) :
  ok_calls [(i, pos)] [] (Filesystem.reserve_end_area_nonrec E i f pos).
Proof.
  unfold Filesystem.reserve_end_area_nonrec.
  apply (ok_calls_bind [(i, pos)] [] [] [] (emit (Reserve i pos))).
  - exact (ok_calls_emit (Reserve i pos)).
  - intros _. pose proof (silent_fssize f). pose proof (silent_mount_and_resize E f).
    destruct (Filesystem.block_size f =? 0); [apply vacuous_abort|].
    apply silent_bind; [assumption|]. intros sz.
    destruct (sz <=? _); [apply silent_ret|].
    destruct (negb _); [apply vacuous_throw|].
    apply silent_bind; [auto|]. intros _. apply silent_ret.
Qed.

Lemma luks_reserve_calls (E : Env) (i : nat) (l : LUKS.t) (pos : Z) :
  ok_calls [(i, pos)] [] (LuksLayer.reserve_end_area_nonrec E i l pos).
Proof.
  unfold LuksLayer.reserve_end_area_nonrec.
  apply (ok_calls_bind [(i, pos)] [] [] [] (emit (Reserve i pos))).
  - exact (ok_calls_emit (Reserve i pos)).
  - intros _.
    apply silent_bind; [apply silent_bytes_to_sector|]. intros sectors.
    apply silent_bind; [apply silent_cleartext_device|]. intros [l1 clear].
    apply silent_bind; [apply silent_quiet_call|]. intros _.
    apply silent_bind; [apply silent_snoop_activated|]. intros [l2 activated].
    destruct (string_empty activated); [apply silent_ret|].
    apply silent_bind; [apply silent_size|]. intros sz.
    destruct (negb _); [apply vacuous_throw | apply silent_ret].
Qed.

Lemma reserve_layer_calls (E : Env) (p : Z * (nat * BlockStack.BlockData)) :
  ok_calls (layer_reserve p) [] (BlockStack.reserve_layer E p).
Proof.
  destruct p as [pos [i [l|b|f]]]; unfold BlockStack.reserve_layer, layer_reserve;
    cbn [fst snd has_reserve].
  - apply (ok_calls_bind [(i, pos)] [] [] [] _ _ (luks_reserve_calls E i l pos)).
    intros _. apply silent_ret.
  - apply silent_ret.
  - apply (ok_calls_bind [(i, pos)] [] [] [] _ _ (fs_reserve_calls E i f pos)).
    intros _. apply silent_ret.
Qed.

Lemma stack_reserve_end_area_calls (E : Env) (progress : ProgressListener)
      (stack : BlockStack.t) (pos : Z) :
  ok_calls (flat_map layer_reserve (rev (BlockStack.iter_pos stack pos))) []
           (BlockStack.stack_reserve_end_area E progress stack pos).
Proof.
  unfold BlockStack.stack_reserve_end_area.
  destruct (BlockStack.topmost stack) as [[l|b|fs]|]; try apply vacuous_bail.
  destruct (Filesystem.block_size fs =? 0); [apply vacuous_abort|].
  apply silent_then; [apply silent_fssize|]. intros sz.
  apply silent_then; [apply silent_superblock_type|]. intros fstype.
  apply silent_then.
  - destruct (sz >? _); [destruct (Filesystem.can_shrink fs)|];
      [apply silent_notify | apply vacuous_bail | apply silent_notify].
  - intros _. apply ok_calls_for_each. apply reserve_layer_calls.
Qed.

(** *** [iter_pos] against the inner positions of the specification *)

Lemma offsets_sum_app (a b : list BlockStack.BlockData) :
  offsets_sum (a ++ b) = offsets_sum a + offsets_sum b.
Proof.
  unfold offsets_sum. induction a as [|x a IH]; cbn [app map fold_right]; lia.
Qed.

Lemma u64_sub_idemp (a b : Z) : u64 (u64 a - b) = u64 (a - b).
Proof. unfold u64. apply Zminus_mod_idemp_l. Qed.

Lemma inner_position_at (pre ws : list BlockStack.BlockData) (pos : Z) :
  inner_position (pre ++ ws) pos (List.length pre) = u64 (pos - offsets_sum pre).
Proof.
  unfold inner_position. rewrite firstn_app, firstn_all, Nat.sub_diag.
  cbn [firstn]. rewrite app_nil_r. reflexivity.
Qed.

Lemma iter_wrappers_spec (ws pre tail : list BlockStack.BlockData) (pos : Z) :
  BlockStack.iter_wrappers ws (List.length pre) (u64 (pos - offsets_sum pre)) =
  (map (fun p => (inner_position (pre ++ ws ++ tail) pos (fst p), (fst p, snd p)))
       (combine (seq (List.length pre) (List.length ws)) ws),
   u64 (pos - offsets_sum (pre ++ ws))).
Proof.
  revert pre. induction ws as [|bd ws IH]; intros pre.
  - cbn. rewrite app_nil_r. reflexivity.
  - cbn [BlockStack.iter_wrappers List.length seq combine map fst snd].
    assert (Hnext : match BlockStack.container_offset bd with
                    | Some o => u64 (u64 (pos - offsets_sum pre) - o)
                    | None => u64 (pos - offsets_sum pre)
                    end = u64 (pos - offsets_sum (pre ++ [bd]))).
    { rewrite offsets_sum_app.
      replace (offsets_sum [bd]) with (offset_of bd)
        by (unfold offsets_sum; cbn [map fold_right]; lia).
      unfold offset_of. destruct (BlockStack.container_offset bd) as [o|].
      - rewrite u64_sub_idemp. f_equal. lia.
      - f_equal. lia. }
    rewrite Hnext.
    specialize (IH (pre ++ [bd])).
    rewrite length_app in IH. cbn [List.length] in IH.
    rewrite Nat.add_1_r in IH. rewrite IH.
    rewrite <- !app_assoc. cbn [app].
    f_equal. f_equal. f_equal. symmetry. apply inner_position_at.
Qed.

Lemma stack_last (stack : BlockStack.t) :
  stack = [] \/ exists ws top, stack = ws ++ [top] /\
                               BlockStack.wrappers stack = ws /\
                               BlockStack.topmost stack = Some top.
Proof.
  destruct stack as [|bd rest]; [left; reflexivity|right].
  destruct (exists_last (l := bd :: rest) ltac:(discriminate)) as (ws & top & Heq).
  exists ws, top. rewrite Heq. split; [reflexivity|]. split.
  - unfold BlockStack.wrappers. apply removelast_last.
  - unfold BlockStack.topmost. destruct ws as [|x ws']; [reflexivity|].
    cbn [app]. f_equal. apply last_last.
Qed.

Lemma combine_app_eq {A B} (a b : list A) (c d : list B) :
  List.length a = List.length c ->
  combine (a ++ b) (c ++ d) = combine a c ++ combine b d.
Proof.
  revert c. induction a as [|x a IH]; intros [|y c] H; try discriminate; [reflexivity|].
  cbn [app combine]. f_equal. apply IH. injection H as H. exact H.
Qed.

Lemma iter_pos_spec (stack : BlockStack.t) (pos : Z) :
  0 <= pos < two64 ->
  BlockStack.iter_pos stack pos =
  map (fun p => (snd (fst p), (fst (fst p), snd p))) (layers_with_positions stack pos).
Proof.
  intros Hpos.
  destruct (stack_last stack) as [-> | (ws & top & -> & Hw & Ht)]; [reflexivity|].
  unfold BlockStack.iter_pos. rewrite Hw, Ht.
  pose proof (iter_wrappers_spec ws [] [top] pos) as Hi.
  cbn [List.length app] in Hi.
  unfold offsets_sum at 1 in Hi. cbn [map fold_right] in Hi.
  rewrite Z.sub_0_r, (u64_small pos Hpos) in Hi.
  rewrite Hi.
  unfold layers_with_positions.
  rewrite length_app. cbn [List.length]. rewrite seq_app.
  rewrite combine_app_eq by (rewrite length_seq; reflexivity).
  cbn [seq combine Nat.add]. rewrite !map_app, map_map. cbn [map fst snd].
  f_equal. f_equal. f_equal.
  rewrite <- (inner_position_at ws [top] pos). reflexivity.
Qed.

Lemma flat_map_opt_rev {A B} (p : A -> bool) (g : A -> B) (l : list A) :
  flat_map (fun x => if p x then [g x] else []) (rev l) = rev (map g (filter p l)).
Proof.
  induction l as [|x l IH]; [reflexivity|].
  cbn [rev filter]. rewrite flat_map_app, IH. cbn [flat_map].
  destruct (p x); cbn [map rev]; rewrite app_nil_r; reflexivity.
Qed.

Lemma shrink_calls_spec (stack : BlockStack.t) (pos : Z) :
  0 <= pos < two64 ->
  flat_map layer_reserve (rev (BlockStack.iter_pos stack pos)) = rev (reserving_layers stack pos).
Proof.
  intros Hpos. rewrite iter_pos_spec by assumption.
  rewrite <- map_rev, flat_map_concat_map, map_map, <- flat_map_concat_map.
  unfold layer_reserve. cbn [fst snd].
  unfold reserving_layers.
  rewrite <- (flat_map_opt_rev (fun p => has_reserve (snd p)) fst).
  apply flat_map_ext. intros [[i q] bd]. reflexivity.
Qed.

(** *** The growth loop *)

Lemma snoop_activated_ready (E : Env) (l l' : LUKS.t) (d : string) (s s' : sys) :
  LUKS._superblock_read l = true ->
  LuksLayer.snoop_activated E l s = (s', Ok (l', d)) -> l' = l.
Proof.
  intros Hr H. unfold LuksLayer.snoop_activated in H. rewrite Hr in H.
  apply bind_ok_inv in H. destruct H as (s1 & l1 & H1 & H).
  apply ok_inj in H1. destruct H1 as [_ <-].
  apply bind_ok_inv in H. destruct H as (s2 & holders & _ & H).
  apply bind_ok_inv in H. destruct H as (s3 & h & _ & H).
  destruct h as [hld|].
  - apply ok_inj in H. destruct H as [_ H]. congruence.
  - apply bind_ok_inv in H. destruct H as (s4 & p & _ & H).
    apply ok_inj in H. destruct H as [_ H]. congruence.
Qed.

Lemma cleartext_device_ready (E : Env) (l l' : LUKS.t) (d : string) (s s' : sys) :
  LUKS._superblock_read l = true ->
  LuksLayer.cleartext_device E l s = (s', Ok (l', d)) -> l' = l.
Proof.
  intros Hr H. unfold LuksLayer.cleartext_device in H.
  apply bind_ok_inv in H. destruct H as (s1 & [l1 dev] & H1 & H).
  apply (snoop_activated_ready E l l1 dev s s1 Hr) in H1. subst l1.
  destruct (string_empty dev).
  - apply bind_ok_inv in H. destruct H as (s2 & u & _ & H).
    apply bind_ok_inv in H. destruct H as (s3 & ? & _ & H).
    apply bind_ok_inv in H. destruct H as (s4 & p & _ & H).
    apply ok_inj in H. destruct H as [_ H]. congruence.
  - apply ok_inj in H. destruct H as [_ H]. congruence.
Qed.

Lemma luks_reserve_value (E : Env) (i : nat) (l l' : LUKS.t) (pos c : Z) (s s' : sys) :
  LUKS._superblock_read l = true ->
  LuksLayer.reserve_end_area_nonrec E i l pos s = (s', Ok (l', c)) -> l' = l /\ c = pos.
Proof.
  intros Hr H. unfold LuksLayer.reserve_end_area_nonrec in H.
  apply bind_ok_inv in H. destruct H as (s1 & ? & _ & H).
  apply bind_ok_inv in H. destruct H as (s2 & sectors & _ & H).
  apply bind_ok_inv in H. destruct H as (s3 & [l1 clear] & H1 & H).
  apply (cleartext_device_ready E l l1 clear s2 s3 Hr) in H1. subst l1.
  apply bind_ok_inv in H. destruct H as (s5 & ? & _ & H).
  apply bind_ok_inv in H. destruct H as (s6 & [l2 activated] & H2 & H).
  apply (snoop_activated_ready E l l2 activated s5 s6 Hr) in H2. subst l2.
  destruct (string_empty activated).
  - apply ok_inj in H. destruct H as [_ H]. split; congruence.
  - apply bind_ok_inv in H. destruct H as (s7 & sz & _ & H).
    destruct (negb _); [discriminate|].
    apply ok_inj in H. destruct H as [_ H]. split; congruence.
Qed.

Lemma luks_grow_calls (E : Env) (i : nat) (l : LUKS.t) (ub : Z) :
  ok_calls [(i, ub)] [(i, ub)] (LuksLayer.grow_nonrec E i l ub).
Proof.
  unfold LuksLayer.grow_nonrec.
  apply (ok_calls_bind [] [(i, ub)] [(i, ub)] [] (emit (Grow i ub))).
  - exact (ok_calls_emit (Grow i ub)).
  - intros _. apply luks_reserve_calls.
Qed.

Lemma luks_grow_value (E : Env) (i : nat) (l l' : LUKS.t) (ub c : Z) (s s' : sys) :
  LUKS._superblock_read l = true ->
  LuksLayer.grow_nonrec E i l ub s = (s', Ok (l', c)) -> l' = l /\ c = ub.
Proof.
  intros Hr H. unfold LuksLayer.grow_nonrec in H.
  apply bind_ok_inv in H. destruct H as (s1 & ? & _ & H).
  exact (luks_reserve_value E i l l' ub c s1 s' Hr H).
Qed.

Lemma silent_is_activated (E : Env) (b : BCacheBacking.t) :
  ok_calls [] [] (BCacheBacking.is_activated E b).
Proof.
  unfold BCacheBacking.is_activated.
  apply silent_bind; [apply silent_sysfspath | intros sp; apply silent_exists].
Qed.

Lemma silent_write_file (E : Env) (path text what : string) :
  ok_calls [] [] (BCacheLayer.write_file E path text what).
Proof.
  unfold BCacheLayer.write_file.
  apply silent_bind; [apply silent_ask|]. intros ok.
  destruct (negb ok); [apply vacuous_throw | exact (ok_calls_emit (FileWrite _ _))].
Qed.

Lemma silent_devpath_from_sysdir (E : Env) (sd : string) :
  ok_calls [] [] (devpath_from_sysdir E sd).
Proof. unfold devpath_from_sysdir. silent. Qed.

Lemma silent_cached_device (E : Env) (b : BCacheBacking.t) :
  ok_calls [] [] (BCacheLayer.cached_device E b).
Proof.
  unfold BCacheLayer.cached_device.
  apply silent_bind; [apply silent_is_activated|]. intros act.
  apply silent_bind; [apply silent_when; apply silent_write_file|]. intros _.
  apply silent_bind; [apply silent_sysfspath|]. intros sp.
  apply silent_bind; [apply silent_devpath_from_sysdir|]. intros p. apply silent_make.
Qed.

Lemma bcache_grow_calls (E : Env) (i : nat) (b : BCacheBacking.t) (ub : Z) :
  ok_calls [] [(i, ub)] (BCacheLayer.grow_nonrec E i b ub).
Proof.
  unfold BCacheLayer.grow_nonrec.
  apply (ok_calls_bind [] [(i, ub)] [] [] (emit (Grow i ub))).
  - exact (ok_calls_emit (Grow i ub)).
  - intros _.
    apply silent_bind; [apply silent_size|]. intros sz.
    destruct (negb _); [apply vacuous_throw|].
    apply silent_bind; [apply silent_is_activated|]. intros act.
    destruct (negb act); [apply silent_ret|].
    apply silent_bind; [apply silent_sysfspath|]. intros sp.
    apply silent_bind; [apply silent_write_file|]. intros _.
    apply silent_bind; [apply silent_cached_device|]. intros cached.
    apply silent_bind; [apply silent_size|]. intros csz.
    destruct (negb _); [apply vacuous_throw | apply silent_ret].
Qed.

Lemma bcache_grow_value (E : Env) (i : nat) (b : BCacheBacking.t) (ub c : Z) (s s' : sys) :
  BCacheLayer.grow_nonrec E i b ub s = (s', Ok c) -> c = ub.
Proof.
  intros H. unfold BCacheLayer.grow_nonrec in H.
  apply bind_ok_inv in H. destruct H as (s1 & ? & _ & H).
  apply bind_ok_inv in H. destruct H as (s2 & sz & _ & H).
  destruct (negb (ub =? sz)); [discriminate|].
  apply bind_ok_inv in H. destruct H as (s3 & act & _ & H).
  destruct (negb act).
  - apply ok_inj in H. destruct H as [_ H]. congruence.
  - apply bind_ok_inv in H. destruct H as (s4 & sp & _ & H).
    apply bind_ok_inv in H. destruct H as (s5 & ? & _ & H).
    apply bind_ok_inv in H. destruct H as (s6 & cached & _ & H).
    apply bind_ok_inv in H. destruct H as (s7 & csz & _ & H).
    destruct (negb _); [discriminate|].
    apply ok_inj in H. destruct H as [_ H]. congruence.
Qed.

Lemma fs_grow_calls (E : Env) (i : nat) (f : Filesystem.t) (ub : Z) :
  ok_calls [] [(i, ub)] (Filesystem.grow_nonrec E i f ub).
Proof.
  unfold Filesystem.grow_nonrec.
  apply (ok_calls_bind [] [(i, ub)] [] [] (emit (Grow i ub))).
  - exact (ok_calls_emit (Grow i ub)).
  - intros _. pose proof (silent_fssize f). pose proof (silent_mount_and_resize E f).
    destruct (Filesystem.block_size f =? 0); [apply vacuous_abort|].
    apply silent_bind; [assumption|]. intros sz.
    apply silent_bind; [apply silent_assert|]. intros _.
    destruct (sz =? _); [apply silent_ret|].
    apply silent_bind; [auto|]. intros _. apply silent_ret.
Qed.

Lemma luks_ready_cons (bd : BlockStack.BlockData) (ws : list BlockStack.BlockData) :
  luks_ready (bd :: ws) ->
  luks_ready ws /\ match bd with
                   | BlockStack.L l => LUKS._superblock_read l = true
                   | _ => True
                   end.
Proof. intros H. inversion H; subst. split; assumption. Qed.

Lemma grow_wrappers_ok (E : Env) (ws : list BlockStack.BlockData) (i : nat) (cur : Z)
      (s s' : sys) (r : Z) :
  luks_ready ws ->
  BlockStack.grow_wrappers E ws i cur s = (s', Ok r) ->
  r = snd (BlockStack.iter_wrappers ws i cur) /\
  grow_calls (log s') =
  grow_calls (log s) ++ flat_map container_call (fst (BlockStack.iter_wrappers ws i cur)).
Proof.
  revert i cur s. induction ws as [|bd ws IH]; intros i cur s Hready H.
  - cbn in H. apply ok_inj in H. destruct H as [<- <-]. cbn. rewrite app_nil_r. auto.
  - apply luks_ready_cons in Hready. destruct Hready as [Hws Hbd].
    cbn [BlockStack.grow_wrappers] in H.
    apply bind_ok_inv in H. destruct H as (s1 & cur1 & H1 & H).
    apply IH in H; [|assumption]. destruct H as [Hr Hg].
    cbn [BlockStack.iter_wrappers].
    assert (Hstep : cur1 = match BlockStack.container_offset bd with
                           | Some o => u64 (cur - o)
                           | None => cur
                           end /\
                    grow_calls (log s1) = grow_calls (log s) ++ container_call (cur, (i, bd))).
    { destruct bd as [l|b|f]; cbn [BlockStack.container_offset container_call fst snd].
      - apply bind_ok_inv in H1. destruct H1 as (s2 & [l' c] & H2 & H1).
        apply ok_inj in H1. destruct H1 as [<- <-].
        pose proof (luks_grow_value E i l l' cur c s s2 Hbd H2) as [-> ->].
        apply luks_grow_calls in H2. destruct H2 as [_ G]. auto.
      - apply bind_ok_inv in H1. destruct H1 as (s2 & c & H2 & H1).
        apply ok_inj in H1. destruct H1 as [<- <-].
        pose proof (bcache_grow_value E i b cur c s s2 H2) as ->.
        apply bcache_grow_calls in H2. destruct H2 as [_ G]. auto.
      - apply ok_inj in H1. destruct H1 as [<- <-]. rewrite app_nil_r. auto. }
    destruct Hstep as [<- Hg1].
    destruct (BlockStack.iter_wrappers ws (S i) cur1) as [res p] eqn:Hiw.
    cbn [fst snd flat_map] in *. split; [assumption|].
    rewrite Hg, Hg1, <- app_assoc. reflexivity.
Qed.

Lemma flat_map_opt {A B} (p : A -> bool) (g : A -> B) (l : list A) :
  flat_map (fun x => if p x then [g x] else []) l = map g (filter p l).
Proof.
  induction l as [|x l IH]; [reflexivity|].
  cbn [flat_map filter]. rewrite IH. destruct (p x); reflexivity.
Qed.

(** Below the topmost layer, [stack_grow] calls exactly the containers. *)
Lemma wrappers_grown (n : nat) (q : nat -> Z) (l : list (nat * BlockStack.BlockData)) :
  (forall p, In p l -> (fst p < n - 1)%nat) ->
  flat_map container_call (map (fun p => (q (fst p), (fst p, snd p))) l) =
  map fst (filter (grown n) (map (fun p => (fst p, q (fst p), snd p)) l)).
Proof.
  intros Hlt. induction l as [|[i bd] l IH]; [reflexivity|].
  cbn [map flat_map filter fst snd].
  rewrite IH by (intros p Hp; apply Hlt; right; assumption).
  specialize (Hlt (i, bd) (or_introl eq_refl)). cbn [fst] in Hlt.
  unfold container_call, grown. cbn [fst snd].
  destruct (Nat.eqb_spec i (n - 1)) as [Heq|_]; [lia|].
  destruct bd; reflexivity.
Qed.

Lemma combine_seq_lt {A} (l : list A) (p : nat * A) :
  In p (combine (seq 0 (List.length l)) l) -> (fst p < List.length l)%nat.
Proof.
  destruct p as [i x]. intros H. apply in_combine_l in H.
  apply in_seq in H. cbn [fst]. lia.
Qed.

Lemma stack_grow_calls (E : Env) (stack : BlockStack.t) (newsize : Z) (s s' : sys) :
  0 <= newsize < two64 -> luks_ready stack ->
  BlockStack.stack_grow E stack newsize s = (s', Ok tt) ->
  grow_calls (log s') = grow_calls (log s) ++ growing_layers stack newsize.
Proof.
  intros Hsize Hready H. unfold BlockStack.stack_grow in H.
  apply bind_ok_inv in H. destruct H as (s1 & cur & H1 & H).
  destruct (stack_last stack) as [-> | (ws & top & -> & Hw & Ht)].
  - cbn in H1, H. apply ok_inj in H1. destruct H1 as [<- _].
    apply ok_inj in H. destruct H as [<- _]. cbn. rewrite app_nil_r. reflexivity.
  - rewrite Hw in H1, H. rewrite Ht in H.
    unfold luks_ready in Hready. apply Forall_app in Hready. destruct Hready as [Hws _].
    apply grow_wrappers_ok in H1; [|exact Hws]. destruct H1 as [Hcur Hg].
    pose proof (iter_wrappers_spec ws [] [top] newsize) as Hi.
    cbn [List.length app] in Hi.
    replace (u64 (newsize - offsets_sum [])) with newsize in Hi
      by (unfold offsets_sum; cbn [map fold_right]; rewrite Z.sub_0_r, u64_small; auto).
    rewrite Hi in Hcur, Hg. cbn [fst snd] in Hcur, Hg.
    unfold growing_layers, layers_with_positions.
    rewrite length_app. cbn [List.length]. rewrite seq_app.
    rewrite combine_app_eq by (rewrite length_seq; reflexivity).
    cbn [seq combine Nat.add]. rewrite map_app, filter_app, map_app.
    rewrite (wrappers_grown (List.length ws + 1)
               (inner_position (ws ++ [top]) newsize)) in Hg
      by (intros p Hp; apply combine_seq_lt in Hp; lia).
    cbn [map filter fst snd]. unfold grown at 2. cbn [fst snd].
    replace (List.length ws + 1 - 1)%nat with (List.length ws) by lia.
    rewrite Nat.eqb_refl.
    rewrite (inner_position_at ws [top] newsize), <- Hcur.
    destruct top as [l|b|f]; cbn [negb map].
    + apply ok_inj in H. destruct H as [<- _]. rewrite Hg, app_nil_r. reflexivity.
    + apply ok_inj in H. destruct H as [<- _]. rewrite Hg, app_nil_r. reflexivity.
    + apply bind_ok_inv in H. destruct H as (s2 & c & H2 & H).
      apply ok_inj in H. destruct H as [<- _].
      apply fs_grow_calls in H2. destruct H2 as [_ G].
      rewrite G, Hg, <- app_assoc. reflexivity.
Qed.

Lemma filter_all {A} (f : A -> bool) (l : list A) :
  (forall x, In x l -> f x = true) -> filter f l = l.
Proof.
  induction l as [|a l IH]; cbn [filter]; intros H; [reflexivity|].
  rewrite (H a (or_introl eq_refl)). f_equal. apply IH. intros x Hx. apply H. right. exact Hx.
Qed.

(** On a stack of containers under one filesystem, the layers [stack_grow]
    drives are all the layers. *)
Lemma growing_layers_all (stack : BlockStack.t) (newsize : Z) :
  built stack -> growing_layers stack newsize = all_layers_outermost_first stack newsize.
Proof.
  intros (ws & fs & -> & Hws). unfold growing_layers, all_layers_outermost_first. f_equal.
  apply filter_all. intros [[i q] bd] Hin. unfold layers_with_positions in Hin.
  apply in_map_iff in Hin. destruct Hin as ([i' bd'] & Heq & Hin).
  cbn [fst snd] in Heq. inversion Heq; subst. clear Heq.
  rewrite length_app in *. cbn [List.length] in *.
  rewrite seq_app in Hin. cbn [seq Nat.add] in Hin.
  rewrite combine_app_eq in Hin by (rewrite length_seq; reflexivity).
  apply in_app_or in Hin. unfold grown. cbn [fst snd].
  destruct Hin as [Hin | Hin].
  - pose proof (in_combine_l _ _ _ _ Hin) as Hi. apply in_seq in Hi.
    pose proof (in_combine_r _ _ _ _ Hin) as Hb.
    rewrite Forall_forall in Hws. specialize (Hws _ Hb).
    destruct bd; cbn in Hws; try congruence;
      (destruct (Nat.eqb_spec i (List.length ws + 1 - 1)); [lia | reflexivity]).
  - cbn in Hin. destruct Hin as [Hin|[]]. inversion Hin; subst. apply Nat.eqb_eq. lia.
Qed.

(** C3, as amended.  In every run that returns, [stack_reserve_end_area] has
    called [reserve_end_area_nonrec] exactly once on the filesystem and on each
    LUKS layer, innermost first, and on no [BCacheBacking] layer (the class has
    no such method); [stack_grow] has called [grow_nonrec] exactly once on each
    container among the wrappers, outermost first, and then on the topmost
    filesystem.  Each layer is passed the position left after subtracting, in
    64-bit arithmetic, the offsets of the layers outside it. *)
Theorem stack_ordering (E : Env) (progress : ProgressListener) (stack : BlockStack.t)
        (pos newsize : Z) (s : sys) :
  0 <= pos < two64 -> 0 <= newsize < two64 -> luks_ready stack ->
  (forall s', BlockStack.stack_reserve_end_area E progress stack pos s = (s', Ok tt) ->
              reserve_calls (log s') = reserve_calls (log s) ++ rev (reserving_layers stack pos))
  /\
  (forall s', BlockStack.stack_grow E stack newsize s = (s', Ok tt) ->
              grow_calls (log s') = grow_calls (log s) ++ growing_layers stack newsize).
Proof.
  intros Hpos Hsize Hready. split; intros s' H.
  - destruct (stack_reserve_end_area_calls E progress stack pos s s' tt H) as [R _].
    rewrite R. rewrite shrink_calls_spec by assumption. reflexivity.
  - apply (stack_grow_calls E stack newsize s s'); assumption.
Qed.

Lemma stack_ordering_witness :
  reserve_calls (log (fst (BlockStack.stack_reserve_end_area
                             env_layers CLIProgressHandler stack_luks 6291456 no_disks)))
    = [(1%nat, 4194304); (0%nat, 6291456)] /\
  grow_calls (log (fst (BlockStack.stack_grow env_layers stack_luks 6291456 no_disks)))
    = [(0%nat, 6291456); (1%nat, 4194304)].
Proof.
  assert (Hpos : 0 <= 6291456 < two64) by (unfold two64; lia).
  assert (Hready : luks_ready stack_luks) by (repeat constructor).
  destruct (stack_ordering env_layers CLIProgressHandler stack_luks 6291456 6291456
                           no_disks Hpos Hpos Hready) as [Hshrink Hgrow].
  split.
  - destruct (BlockStack.stack_reserve_end_area env_layers CLIProgressHandler stack_luks
                                                6291456 no_disks) as [s' o] eqn:Hrun.
    assert (Ho : o = Ok tt) by (apply (f_equal snd) in Hrun; vm_compute in Hrun; congruence).
    subst o. cbn [fst]. rewrite (Hshrink s' eq_refl). reflexivity.
  - destruct (BlockStack.stack_grow env_layers stack_luks 6291456 no_disks) as [s' o] eqn:Hrun.
    assert (Ho : o = Ok tt) by (apply (f_equal snd) in Hrun; vm_compute in Hrun; congruence).
    subst o. cbn [fst]. rewrite (Hgrow s' eq_refl). reflexivity.
Defined.

(** C3, as stated, fails on a stack with a bcache layer: the run returns, the
    filesystem (layer 1) is called, the [BCacheBacking] layer (layer 0) is
    not. *)
Lemma stack_reserve_skips_bcache :
  let r := BlockStack.stack_reserve_end_area env_layers CLIProgressHandler
                                             stack_bcache 4202496 no_disks in
  snd r = Ok tt /\
  reserve_calls (log (fst r)) = [(1%nat, 4194304)] /\
  all_layers_innermost_first stack_bcache 4202496 = [(1%nat, 4194304); (0%nat, 4202496)] /\
  reserve_calls (log (fst r)) <> all_layers_innermost_first stack_bcache 4202496.
Proof.
  vm_compute. repeat split; discriminate.
Qed.

(** ** What a run adds to the log *)

Lemma forallb_app_true {A} (p : A -> bool) (a b : list A) :
  forallb p a = true -> forallb p b = true -> forallb p (a ++ b) = true.
Proof. intros Ha Hb. rewrite forallb_app, Ha, Hb. reflexivity. Qed.

Lemma harmless_prepares (dev : string) (e : event) : harmless e = true -> prepares dev e = true.
Proof. unfold prepares. intros ->. reflexivity. Qed.

Section Emits.

Variable P : event -> bool.

Lemma emits_nothing {A} (f : sys -> outcome A) : emits P (fun s => (s, f s)).
Proof. intros s. exists []. cbn. rewrite app_nil_r. auto. Qed.

Lemma emits_ret {A} (a : A) : emits P (ret a).
Proof. exact (emits_nothing (fun _ => Ok a)). Qed.

Lemma emits_throw {A} (w : string) : emits P (@throw A w).
Proof. exact (emits_nothing (fun _ => Throw w)). Qed.

Lemma emits_abort {A} (w : string) : emits P (@abort A w).
Proof. exact (emits_nothing (fun _ => Abort w)). Qed.

Lemma emits_exit {A} (c : Z) : emits P (@exit A c).
Proof. exact (emits_nothing (fun _ => Exit c)). Qed.

(** What [m] has added, then what [k] adds. *)
Lemma emits_after {A B} (m : M A) (s : sys) (r : sys * outcome B) (k : M B) :
  emits P m -> emits P k -> r = k (fst (m s)) ->
  exists tl, log (fst r) = log s ++ tl /\ forallb P tl = true.
Proof.
  intros Hm Hk ->. destruct (Hm s) as (tl & Hl & Hp).
  destruct (Hk (fst (m s))) as (tl2 & Hl2 & Hp2).
  exists (tl ++ tl2). rewrite Hl2, Hl, app_assoc. auto using forallb_app_true.
Qed.

Lemma emits_bind {A B} (m : M A) (k : A -> M B) :
  emits P m -> (forall a, emits P (k a)) -> emits P (bind m k).
Proof.
  intros Hm Hk s. unfold bind. pose proof (Hm s) as Hs.
  destruct (m s) as [s1 [a|w|w|c]] eqn:Hrun; try exact Hs.
  apply (emits_after m s _ (k a) Hm (Hk a)). rewrite Hrun. reflexivity.
Qed.

Lemma emits_catch {A} (m : M A) (handler : string -> M A) :
  emits P m -> (forall w, emits P (handler w)) -> emits P (catch m handler).
Proof.
  intros Hm Hh s. unfold catch. pose proof (Hm s) as Hs.
  destruct (m s) as [s1 [a|w|w|c]] eqn:Hrun; try exact Hs.
  apply (emits_after m s _ (handler w) Hm (Hh w)). rewrite Hrun. reflexivity.
Qed.

Lemma emits_finally {A} (m : M A) (destructor : M unit) :
  emits P m -> emits P destructor -> emits P (finally m destructor).
Proof.
  intros Hm Hd s. unfold finally. pose proof (Hm s) as Hs.
  pose proof (fun r => emits_after m s r destructor Hm Hd) as Hafter.
  destruct (m s) as [s1 [a|w|w|c]] eqn:Hrun; try exact Hs; cbn [fst] in Hafter.
  - specialize (Hafter (destructor s1) eq_refl).
    destruct (destructor s1) as [s2 [u|w|w|c]]; exact Hafter.
  - specialize (Hafter (destructor s1) eq_refl).
    destruct (destructor s1) as [s2 [u|w'|w'|c]]; exact Hafter.
Qed.

Lemma emits_emit (e : event) : P e = true -> emits P (emit e).
Proof. intros He s. exists [e]. cbn. rewrite He. auto. Qed.

Lemma emits_assert (c : bool) (w : string) : emits P (assert c w).
Proof. unfold assert. destruct c; [apply emits_ret | apply emits_abort]. Qed.

Lemma emits_when (b : bool) (m : M unit) : emits P m -> emits P (when b m).
Proof. intros H. unfold when. destruct b; [assumption | apply emits_ret]. Qed.

Lemma emits_for_each {A} (body : A -> M unit) (l : list A) :
  (forall x, emits P (body x)) -> emits P (for_each l body).
Proof.
  intros Hbody. induction l as [|x l IH]; cbn [for_each].
  - apply emits_ret.
  - apply emits_bind; [apply Hbody | intros _; exact IH].
Qed.

Lemma emits_fold_m {A B} (body : B -> A -> M B) (l : list A) (acc : B) :
  (forall b x, emits P (body b x)) -> emits P (fold_m l acc body).
Proof.
  intros Hbody. revert acc. induction l as [|x l IH]; intros acc; cbn [fold_m].
  - apply emits_ret.
  - apply emits_bind; [apply Hbody | intros b; apply IH].
Qed.

Lemma emits_pread (f : fd) (len off : Z) : emits P (pread f len off).
Proof.
  intros s. unfold pread.
  destruct f; [destruct (to_off_t off <? 0)|]; cbn [fst];
    exists []; rewrite app_nil_r; auto.
Qed.

Lemma emits_bytes_to_sector (b : Z) : emits P (bytes_to_sector b).
Proof.
  unfold bytes_to_sector. apply emits_bind; [apply emits_assert | intros _; apply emits_ret].
Qed.

Lemma emits_errno_text (E : Env) : emits P (errno_text E).
Proof. exact (emits_nothing (fun s => Ok (strerror E (log s)))). Qed.

End Emits.

Lemma emits_weaken (P Q : event -> bool) {A} (m : M A) :
  (forall e, P e = true -> Q e = true) -> emits P m -> emits Q m.
Proof.
  intros HPQ Hm s. destruct (Hm s) as (tl & Hl & Hp).
  exists tl. split; [assumption|].
  rewrite forallb_forall in *. auto.
Qed.

Create HintDb emits.

#[local] Hint Resolve emits_ret emits_throw emits_abort emits_exit emits_assert
  emits_pread emits_bytes_to_sector emits_errno_text emits_nothing : emits.

(** Takes a computation apart down to the calls the hint database knows. *)
Ltac emits_walk_with leaf :=
  repeat first
    [ solve [auto with emits]
    | solve [leaf]
    | apply emits_bind; [|intros ?]
    | apply emits_catch; [|intros ?]
    | apply emits_finally
    | apply emits_when
    | apply emits_for_each; intros ?
    | apply emits_fold_m; intros ? ?
    | match goal with
      | |- emits _ (match ?x with _ => _ end) => destruct x
      | |- emits _ (let '(_, _) := ?x in _) => destruct x
      end ].

Ltac emits_walk := emits_walk_with fail.

(** *** Looking at the device: nothing but harmless events *)

Section Harmless.

Variable P : event -> bool.
Hypothesis harmless_P : forall e, harmless e = true -> P e = true.

Lemma emits_ask {A} (what : string) (f : list event -> A) : emits P (ask what f).
Proof. intros s. exists [Query what]. cbn. rewrite harmless_P; auto. Qed.

Lemma emits_quiet_call (E : Env) (cmd : list string) (table : string) :
  P (Call cmd table) = true -> emits P (quiet_call E cmd table).
Proof.
  intros Hc. unfold quiet_call.
  apply emits_bind; [apply emits_emit, Hc|]. intros _.
  apply emits_bind; [exact (emits_nothing P (fun s => Ok (call_status E (log s) cmd)))|].
  intros status. destruct (status =? 0); [apply emits_ret|].
  apply emits_bind; [apply emits_ask|]. intros out.
  apply emits_bind; [apply emits_emit, harmless_P; reflexivity | intros _; apply emits_throw].
Qed.

Lemma emits_message (e : event) : harmless e = true -> emits P (emit e).
Proof. intros He. apply emits_emit, harmless_P, He. Qed.

Lemma emits_notify (p : ProgressListener) (msg : string) : emits P (notify p msg).
Proof. destruct p; apply emits_message; reflexivity. Qed.

Lemma emits_bail {A} (p : ProgressListener) (msg : string) : emits P (@bail A p msg).
Proof.
  destruct p; (apply emits_bind; [apply emits_message; reflexivity | intros _]).
  - apply emits_exit.
  - apply emits_throw.
Qed.

#[local] Hint Resolve emits_ask emits_notify emits_bail : emits.

Lemma emits_require (E : Env) (p : ProgressListener) (cmd pkg : string) :
  emits P (require E p cmd pkg).
Proof. unfold require. emits_walk. Qed.

Lemma emits_make (E : Env) (p : string) : emits P (BlockDevice.make E p).
Proof. unfold BlockDevice.make. emits_walk. Qed.

Lemma emits_size (E : Env) (p : string) : emits P (size E p).
Proof. unfold size. emits_walk. Qed.

Lemma emits_superblock_type (E : Env) (p : string) : emits P (superblock_type E p).
Proof. unfold superblock_type, superblock_at. emits_walk. Qed.

Lemma emits_open (E : Env) (p flags : string) : emits P (open_ E p flags).
Proof. unfold open_. emits_walk. Qed.

Lemma emits_devnum (E : Env) (p : string) : emits P (devnum E p).
Proof. unfold devnum. emits_walk. Qed.

Lemma emits_exists (E : Env) (p : string) : emits P (exists_ E p).
Proof. unfold exists_. emits_walk. Qed.

Lemma emits_devpath_from_sysdir (E : Env) (sd : string) : emits P (devpath_from_sysdir E sd).
Proof. unfold devpath_from_sysdir. emits_walk. Qed.

#[local] Hint Resolve emits_require emits_make emits_size emits_superblock_type emits_open
  emits_devnum emits_exists emits_devpath_from_sysdir : emits.

Lemma emits_sysfspath (E : Env) (p : string) : emits P (sysfspath E p).
Proof. unfold sysfspath. emits_walk. Qed.

Lemma emits_open_excl (E : Env) (p : string) : emits P (open_excl E p).
Proof. unfold open_excl. emits_walk. Qed.

Lemma emits_has_bcache_superblock (E : Env) (p : string) :
  emits P (has_bcache_superblock E p).
Proof. unfold has_bcache_superblock. emits_walk. Qed.

Lemma emits_luks_read_superblock (E : Env) (l : LUKS.t) : emits P (LUKS.read_superblock E l).
Proof. unfold LUKS.read_superblock. emits_walk. Qed.

#[local] Hint Resolve emits_sysfspath emits_open_excl emits_has_bcache_superblock
  emits_luks_read_superblock : emits.

Lemma emits_iter_holders (E : Env) (p : string) : emits P (iter_holders E p).
Proof. unfold iter_holders. emits_walk. Qed.

Lemma emits_find_holder (E : Env) (l : LUKS.t) (holders : list string) :
  emits P (LuksLayer.find_holder E l holders).
Proof.
  induction holders as [|hld rest IH]; cbn [LuksLayer.find_holder]; [apply emits_ret|].
  apply emits_bind; [auto with emits|]. intros [table_offset|]; [|exact IH].
  apply emits_bind; [auto with emits|]. intros sectors.
  destruct (table_offset =? sectors); [apply emits_ret | exact IH].
Qed.

#[local] Hint Resolve emits_iter_holders emits_find_holder : emits.

Lemma emits_snoop_activated (E : Env) (l : LUKS.t) : emits P (LuksLayer.snoop_activated E l).
Proof. unfold LuksLayer.snoop_activated. emits_walk. Qed.

#[local] Hint Resolve emits_snoop_activated : emits.

Lemma emits_cleartext_device (E : Env) (l : LUKS.t) :
  emits P (LuksLayer.cleartext_device E l).
Proof.
  unfold LuksLayer.cleartext_device, LuksLayer.activate.
  apply emits_bind; [auto with emits|]. intros [l' dev].
  destruct (string_empty dev); [|apply emits_ret].
  apply emits_bind; [auto with emits|]. intros u.
  apply emits_bind; [apply emits_quiet_call, harmless_P; reflexivity|]. intros _.
  emits_walk.
Qed.

Lemma emits_bcache_read_superblock (E : Env) (b : BCacheBacking.t) :
  emits P (BCacheBacking.read_superblock E b).
Proof. unfold BCacheBacking.read_superblock. emits_walk. Qed.

Lemma emits_is_activated (E : Env) (b : BCacheBacking.t) :
  emits P (BCacheBacking.is_activated E b).
Proof. unfold BCacheBacking.is_activated. emits_walk. Qed.

#[local] Hint Resolve emits_cleartext_device emits_bcache_read_superblock
  emits_is_activated : emits.

Lemma emits_cached_device (E : Env) (b : BCacheBacking.t) :
  emits P (BCacheLayer.cached_device E b).
Proof.
  unfold BCacheLayer.cached_device, BCacheLayer.write_file.
  apply emits_bind; [auto with emits|]. intros act.
  apply emits_bind.
  - apply emits_when. apply emits_bind; [auto with emits|]. intros ok.
    destruct (negb ok); [apply emits_throw | apply emits_message; reflexivity].
  - intros _. emits_walk.
Qed.

Lemma emits_fssize (f : Filesystem.t) : emits P (Filesystem.fssize f).
Proof. unfold Filesystem.fssize. emits_walk. Qed.

Lemma emits_swap_read_sb (f : Filesystem.t) (dev_fd : fd) :
  emits P (Filesystem.swap_read_sb f dev_fd).
Proof. unfold Filesystem.swap_read_sb. cbv zeta. emits_walk. Qed.

#[local] Hint Resolve emits_swap_read_sb : emits.

Lemma emits_fs_read_superblock (E : Env) (f : Filesystem.t) :
  emits P (Filesystem.read_superblock E f).
Proof. unfold Filesystem.read_superblock. destruct (Filesystem.fskind f); emits_walk. Qed.

Lemma emits_fslabel (E : Env) (stack : BlockStack.t) : emits P (BlockStack.fslabel E stack).
Proof. unfold BlockStack.fslabel, Filesystem.fslabel. emits_walk. Qed.

Lemma emits_fsuuid (E : Env) (stack : BlockStack.t) : emits P (BlockStack.fsuuid E stack).
Proof. unfold BlockStack.fsuuid, Filesystem.fsuuid. emits_walk. Qed.

#[local] Hint Resolve emits_cached_device emits_fssize emits_fs_read_superblock : emits.

Lemma emits_get_block_stack_loop (E : Env) (progress : ProgressListener) (depth : nat) :
  forall device stack,
    emits P (BlockStack.get_block_stack_loop E progress depth device stack).
Proof.
  induction depth as [|depth IH]; intros device stack; cbn [BlockStack.get_block_stack_loop].
  - apply emits_abort.
  - apply emits_bind; [auto with emits|]. intros sbt.
    destruct (sbt =? "crypto_LUKS")%string.
    + apply emits_bind; [auto with emits|]. intros [wrapper clear]. apply IH.
    + apply emits_bind; [auto with emits|]. intros [|].
      * apply emits_bind; [auto with emits|]. intros wrapper.
        apply emits_bind; [destruct (BCacheBacking.is_backing wrapper); auto with emits|].
        intros _. apply emits_bind; [auto with emits|]. intros cached. apply IH.
      * destruct (BlockStack.fs_of_type sbt); [apply emits_ret|].
        destruct (string_empty sbt); auto with emits.
Qed.

Lemma emits_get_block_stack (E : Env) (progress : ProgressListener) (device : string) :
  emits P (BlockStack.get_block_stack E progress device).
Proof. apply emits_get_block_stack_loop. Qed.

Lemma emits_read_wrappers (E : Env) (ws : list BlockStack.BlockData) :
  emits P (BlockStack.read_wrappers E ws).
Proof.
  induction ws as [|w ws IH]; cbn [BlockStack.read_wrappers]; [apply emits_ret|].
  apply emits_bind; [destruct w; emits_walk|]. intros w'.
  apply emits_bind; [exact IH|]. intros rest. apply emits_ret.
Qed.

Lemma emits_read_superblocks (E : Env) (stack : BlockStack.t) :
  emits P (BlockStack.read_superblocks E stack).
Proof.
  unfold BlockStack.read_superblocks.
  apply emits_bind; [apply emits_read_wrappers|]. intros ws. emits_walk.
Qed.

Lemma emits_choose_vg (E : Env) (args : LvmOps.CommandArgs) (devpath : string) :
  emits P (LvmOps.choose_vg E args devpath).
Proof. unfold LvmOps.choose_vg. emits_walk. Qed.

Lemma emits_pread_count (E : Env) (f : fd) (len off : Z) :
  emits P (LvmOps.pread_count E f len off).
Proof. unfold LvmOps.pread_count. emits_walk. Qed.

End Harmless.

(** *** Shrinking, deactivating and converting: the log only grows *)

Lemma anything_also (e : event) : harmless e = true -> anything e = true.
Proof. reflexivity. Qed.

Lemma emits_tool (E : Env) (cmd : list string) (table : string) :
  emits anything (quiet_call E cmd table).
Proof. apply (emits_quiet_call anything anything_also). reflexivity. Qed.

Lemma emits_step (e : event) : emits anything (emit e).
Proof. apply emits_emit. reflexivity. Qed.

Lemma emits_pwrite (f : fd) (data : list byte) (off : Z) : emits anything (pwrite f data off).
Proof.
  intros s. unfold pwrite. destruct f as [p|]; [|exists []; cbn; rewrite app_nil_r; auto].
  destruct (to_off_t off <? 0); [|destruct (_ && _)]; cbn [fst log]; eexists; split; reflexivity.
Qed.

Ltac looks :=
  first [ apply emits_tool | apply emits_step | apply emits_pwrite
        | apply (emits_ask anything anything_also)
        | apply (emits_notify anything anything_also)
        | apply (emits_bail anything anything_also)
        | apply (emits_size anything anything_also)
        | apply (emits_make anything anything_also)
        | apply (emits_superblock_type anything anything_also)
        | apply (emits_open_excl anything anything_also)
        | apply (emits_devnum anything anything_also)
        | apply (emits_sysfspath anything anything_also)
        | apply (emits_fssize anything)
        | apply (emits_fs_read_superblock anything anything_also)
        | apply (emits_snoop_activated anything anything_also)
        | apply (emits_cleartext_device anything anything_also)
        | apply (emits_cached_device anything anything_also)
        | apply (emits_is_activated anything anything_also) ].

Lemma emits_is_mounted (E : Env) (f : Filesystem.t) : emits anything (Filesystem.is_mounted E f).
Proof. unfold Filesystem.is_mounted. destruct (Filesystem.fskind f); emits_walk_with looks. Qed.

Lemma emits_temp_mount (E : Env) (f : Filesystem.t) : emits anything (Filesystem.temp_mount E f).
Proof. unfold Filesystem.temp_mount. emits_walk_with looks. Qed.

Lemma emits_unmount (E : Env) (mpoint : string) : emits anything (Filesystem.unmount E mpoint).
Proof. unfold Filesystem.unmount. emits_walk_with looks. Qed.

#[local] Hint Resolve emits_is_mounted emits_temp_mount emits_unmount : emits.

Lemma emits_resize (E : Env) (f : Filesystem.t) (target_size : Z) :
  emits anything (Filesystem._resize E f target_size).
Proof.
  unfold Filesystem._resize.
  destruct (Filesystem.block_size f =? 0); [apply emits_abort|].
  destruct (Filesystem.fskind f); cbv zeta; emits_walk_with looks.
Qed.

#[local] Hint Resolve emits_resize : emits.

Lemma emits_mount_and_resize (E : Env) (f : Filesystem.t) (pos : Z) :
  emits anything (Filesystem._mount_and_resize E f pos).
Proof. unfold Filesystem._mount_and_resize. emits_walk_with looks. Qed.

#[local] Hint Resolve emits_mount_and_resize : emits.

Lemma emits_fs_reserve (E : Env) (i : nat) (f : Filesystem.t) (pos : Z) :
  emits anything (Filesystem.reserve_end_area_nonrec E i f pos).
Proof. unfold Filesystem.reserve_end_area_nonrec. emits_walk_with looks. Qed.

Lemma emits_luks_reserve (E : Env) (i : nat) (l : LUKS.t) (pos : Z) :
  emits anything (LuksLayer.reserve_end_area_nonrec E i l pos).
Proof. unfold LuksLayer.reserve_end_area_nonrec. emits_walk_with looks. Qed.

#[local] Hint Resolve emits_fs_reserve emits_luks_reserve : emits.

Lemma emits_reserve_layer (E : Env) (p : Z * (nat * BlockStack.BlockData)) :
  emits anything (BlockStack.reserve_layer E p).
Proof. destruct p as [pos [i bd]]. unfold BlockStack.reserve_layer. emits_walk_with looks. Qed.

Lemma emits_stack_reserve_end_area (E : Env) (progress : ProgressListener)
      (stack : BlockStack.t) (pos : Z) :
  emits anything (BlockStack.stack_reserve_end_area E progress stack pos).
Proof.
  pose proof (emits_reserve_layer E).
  unfold BlockStack.stack_reserve_end_area. emits_walk_with looks.
Qed.

Lemma emits_deactivate_loop (E : Env) (patience : nat) :
  forall l, emits anything (LuksLayer.deactivate_loop E patience l).
Proof.
  induction patience as [|n IH]; intros l; cbn [LuksLayer.deactivate_loop].
  - apply emits_abort.
  - apply emits_bind; [looks|]. intros [l' dev].
    destruct (string_empty dev); [apply emits_ret|].
    apply emits_bind; [looks|]. intros _. apply IH.
Qed.

Lemma emits_luks_deactivate (E : Env) (l : LUKS.t) :
  emits anything (LuksLayer.deactivate E l).
Proof. apply emits_deactivate_loop. Qed.

Lemma emits_bcache_deactivate (E : Env) (b : BCacheBacking.t) :
  emits anything (BCacheLayer.deactivate E b).
Proof. unfold BCacheLayer.deactivate, BCacheLayer.write_file. emits_walk_with looks. Qed.

Lemma emits_deactivate_layers (E : Env) (layers : list BlockStack.BlockData) :
  emits anything (BlockStack.deactivate_layers E layers).
Proof.
  induction layers as [|[l|b|f] rest IH]; cbn [BlockStack.deactivate_layers].
  - apply emits_ret.
  - apply emits_bind; [apply emits_luks_deactivate | intros _; exact IH].
  - apply emits_bind; [apply emits_bcache_deactivate | intros _; exact IH].
  - exact IH.
Qed.

Lemma emits_deactivate (E : Env) (stack : BlockStack.t) :
  emits anything (BlockStack.deactivate E stack).
Proof. apply emits_deactivate_layers. Qed.

Lemma emits_system (E : Env) (cmdline : string) : emits anything (LvmOps.system E cmdline).
Proof.
  unfold LvmOps.system.
  apply emits_bind; [apply emits_step|]. intros _.
  exact (emits_nothing anything (fun s => Ok (system_ok E (log s) cmdline))).
Qed.

Lemma emits_remove_stale (E : Env) (dm_devices : string) :
  emits anything (LvmOps.remove_stale E dm_devices).
Proof.
  unfold LvmOps.remove_stale. apply emits_for_each. intros dev.
  apply emits_bind; [apply emits_system|]. intros ok.
  apply emits_when, emits_step.
Qed.

(** ** cmd_to_lvm, stage by stage *)

Lemma bind_run {A B} (m : M A) (k : A -> M B) (s s1 : sys) (a : A) :
  m s = (s1, Ok a) -> bind m k s = k a s1.
Proof. intros H. unfold bind. rewrite H. reflexivity. Qed.

Lemma make_ok (E : Env) (p d : string) (s s' : sys) :
  BlockDevice.make E p s = (s', Ok d) -> d = p.
Proof.
  unfold BlockDevice.make. intros H.
  apply bind_ok_inv in H. destruct H as (s1 & ex & _ & H).
  apply bind_ok_inv in H. destruct H as (s2 & u & _ & H).
  apply ok_inj in H. destruct H as [_ H]. auto.
Qed.

Lemma size_ok (E : Env) (p : string) (s s' : sys) (v : Z) :
  size E p s = (s', Ok v) ->
  blockdev_getsize64 E (log s ++ [Query ("blockdev --getsize64 " +++ p)]) p = Some v /\
  v mod 512 = 0.
Proof.
  unfold size. intros H.
  apply bind_ok_inv in H. destruct H as (s1 & r & Hask & H).
  unfold ask in Hask. apply ok_inj in Hask. destruct Hask as [_ <-].
  destruct (blockdev_getsize64 E _ p) as [v0|]; [|discriminate].
  apply bind_ok_inv in H. destruct H as (s2 & u & Ha & H).
  apply ok_inj in H. destruct H as [_ ->].
  unfold assert in Ha. destruct (v mod 512 =? 0) eqn:Hv; [|discriminate].
  split; [reflexivity | lia].
Qed.

Lemma assert_ok (c : bool) (w : string) (s s' : sys) (u : unit) :
  assert c w s = (s', Ok u) -> c = true /\ s' = s.
Proof. unfold assert. destruct c; [|discriminate]. intros H. apply ok_inj in H. intuition. Qed.

Lemma bytes_to_sector_ok (b v : Z) (s s' : sys) :
  bytes_to_sector b s = (s', Ok v) -> b mod 512 = 0 /\ v = b / 512.
Proof.
  unfold bytes_to_sector. intros H.
  apply bind_ok_inv in H. destruct H as (s1 & u & Ha & H).
  apply assert_ok in Ha. destruct Ha as [Ha _].
  apply ok_inj in H. destruct H as [_ <-]. split; [lia | reflexivity].
Qed.

Lemma choose_vg_ok (E : Env) (args : LvmOps.CommandArgs) (d vg jn : string) (pe : Z)
      (s s' : sys) :
  LvmOps.choose_vg E args d s = (s', Ok (vg, pe, jn)) ->
  LvmOps.join args = "" -> pe = LVM_PE_SIZE.
Proof.
  unfold LvmOps.choose_vg. intros H Hj. rewrite Hj in H. cbn [string_empty negb] in H.
  destruct (negb (string_empty (LvmOps.vgname args)));
    apply ok_inj in H; destruct H as [_ H]; congruence.
Qed.

(** A stage of a run: while the invariant [Inv] of the log holds and the
    steps emit events of the class [P] only, a run that stops has the property
    [G]; what is left to show is [G] for the runs that get through. *)
Section Stages.

Variables (P : event -> bool) (Inv : list event -> Prop) (G : sys * outcome Z -> Prop).
Hypothesis Inv_more : forall l tl, Inv l -> forallb P tl = true -> Inv (l ++ tl).
Hypothesis stopped : forall s (o : outcome Z), Inv (log s) -> ~ returned (s, o) -> G (s, o).

Lemma stage_bind {A} (m : M A) (k : A -> M Z) (s : sys) :
  Inv (log s) -> emits P m ->
  (forall a s1, m s = (s1, Ok a) -> Inv (log s1) -> G (k a s1)) ->
  G (bind m k s).
Proof.
  intros Hinv Hm Hk. destruct (Hm s) as (tl & Hl & Hp). unfold bind.
  assert (Hinv1 : Inv (log (fst (m s)))) by (rewrite Hl; apply Inv_more; assumption).
  destruct (m s) as [s1 [a|w|w|c]] eqn:Hrun; cbn [fst] in Hinv1.
  - apply Hk; [reflexivity | assumption].
  - apply stopped; [assumption | intros [a Ha]; discriminate].
  - apply stopped; [assumption | intros [a Ha]; discriminate].
  - apply stopped; [assumption | intros [a Ha]; discriminate].
Qed.

End Stages.

(** *** The requirements of the conversion *)

Lemma prepares_pvremove (dev : string) (table : string) :
  prepares dev (Call ["pvremove"; "-ff"; "--"; dev] table) = true.
Proof.
  unfold prepares, is_pvremove. cbn [harmless].
  destruct (list_eq_dec string_dec _ _); [apply orb_true_r | congruence].
Qed.

Lemma emits_pwrite_count (E : Env) (f : fd) (len off : Z) :
  emits anything (LvmOps.pwrite_count E f len off).
Proof.
  unfold LvmOps.pwrite_count. destruct f as [p|]; [|apply emits_ret].
  apply emits_bind; [apply emits_emit; reflexivity|]. intros _.
  exact (emits_nothing anything (fun s => Ok (io_count E (log s) p off len))).
Qed.

Ltac anything_leaf :=
  first [ apply (emits_ask anything) | apply (emits_size anything)
        | apply (emits_make anything) | apply (emits_open anything)
        | apply (emits_open_excl anything)
        | apply (emits_pread_count anything) | apply emits_tool
        | apply emits_remove_stale
        | apply emits_pwrite_count
        | apply (emits_emit anything) ]; try reflexivity.

Lemma bind_split {A} (G : sys * outcome Z -> Prop) (m : M A) (k : A -> M Z) (s : sys) :
  (forall a s1, m s = (s1, Ok a) -> G (k a s1)) ->
  (forall o : outcome Z, ~ returned (fst (m s), o) -> G (fst (m s), o)) ->
  G (bind m k s).
Proof.
  intros Hok Hstop. unfold bind. destruct (m s) as [s1 [a|w|w|c]]; cbn [fst] in Hstop.
  - apply Hok. reflexivity.
  - apply Hstop. intros [a Ha]. discriminate.
  - apply Hstop. intros [a Ha]. discriminate.
  - apply Hstop. intros [a Ha]. discriminate.
Qed.

Lemma quiet_call_log (E : Env) (cmd : list string) (table : string) (s : sys) :
  exists post, log (fst (quiet_call E cmd table s)) = log s ++ Call cmd table :: post.
Proof.
  unfold quiet_call, bind, emit, ask, ret, throw. cbn [log disks fst snd].
  destruct (call_status E _ cmd =? 0); cbn [log disks fst snd].
  - exists []. reflexivity.
  - eexists. rewrite <- !app_assoc. cbn [app]. reflexivity.
Qed.

Lemma checked_tool_log (E : Env) (cmd : list string) (table : string)
      (handler : string -> M unit) (s : sys) :
  (forall w, emits anything (handler w)) ->
  exists post, log (fst (catch (quiet_call E cmd table) handler s))
               = log s ++ Call cmd table :: post.
Proof.
  intros Hh. unfold catch.
  destruct (quiet_call_log E cmd table s) as (post & Hl).
  destruct (quiet_call E cmd table s) as [s1 [u|w|w|c]]; cbn [fst] in Hl |- *;
    try (exists post; assumption).
  destruct (Hh w s1) as (tl & Hl2 & _).
  exists (post ++ tl). rewrite Hl2, Hl, <- app_assoc. reflexivity.
Qed.

Lemma pwrite_count_run (E : Env) (p : string) (len off : Z) (s : sys) :
  exists n, LvmOps.pwrite_count E (Some p) len off s
            = (Sys (disks s) (log s ++ [Pwrite p off len]), Ok n).
Proof. eexists. reflexivity. Qed.

(** C4, as amended.  [cmd_to_lvm] computes pe_count = device.size()/pe - 1 and
    pe_newpos = pe_count * pe in 64-bit arithmetic, and requires that pe >= 4096
    and that pe and device.size() are multiples of 512 (not that device.size()
    is a multiple of pe) before any mutation of the device other than the
    pvremove of an existing physical volume.  Every run either stops having
    only looked at the device (and, on a physical volume, run that pvremove),
    or meets these requirements; in the second case the first command after
    the checks is e2fsck, and a run that returns has, after it, written pe
    bytes at pe_newpos. *)
Theorem cmd_to_lvm_requirements (E : Env) (args : LvmOps.CommandArgs) (s : sys) :
  let dev := LvmOps.device args in
  let r := LvmOps.cmd_to_lvm E args s in
  exists tl, log (fst r) = log s ++ tl /\
    ((forallb (prepares dev) tl = true /\ ~ returned r) \/
     exists pe dsize asked pre post,
       4096 <= pe /\ pe mod 512 = 0 /\ dsize mod 512 = 0 /\
       blockdev_getsize64 E asked dev = Some dsize /\
       (LvmOps.join args = "" -> pe = LVM_PE_SIZE) /\
       tl = pre ++ Call ["e2fsck"; "-f"; "-y"; "--"; dev] "" :: post /\
       forallb (prepares dev) pre = true /\
       (returned r -> In (Pwrite dev (u64 (u64 (dsize / pe - 1) * pe)) pe) post)).
Proof.
  change (requirements_first E args (log s) (LvmOps.cmd_to_lvm E args s)).
  set (dev := LvmOps.device args).
  set (G := requirements_first E args (log s)).
  set (Inv1 := fun l : list event =>
                 exists tl, l = log s ++ tl /\ forallb (prepares dev) tl = true).
  assert (more1 : forall l tl, Inv1 l -> forallb (prepares dev) tl = true -> Inv1 (l ++ tl)).
  { intros l tl (tl0 & -> & H0) H. exists (tl0 ++ tl). rewrite app_assoc.
    auto using forallb_app_true. }
  assert (stop1 : forall s0 (o : outcome Z), Inv1 (log s0) -> ~ returned (s0, o) -> G (s0, o)).
  { intros s0 o (tl & Hl & Hp) Hr. exists tl. split; [exact Hl|]. left. auto. }
  assert (start : Inv1 (log s)) by (exists []; rewrite app_nil_r; auto).
  pose proof (harmless_prepares dev) as Hh.
  unfold LvmOps.cmd_to_lvm. fold dev.
  apply (stage_bind (prepares dev) Inv1 G more1 stop1); [exact start | apply emits_make, Hh|].
  intros device s1 Hrun Inv_1. apply make_ok in Hrun. subst device.
  apply (stage_bind (prepares dev) Inv1 G more1 stop1);
    [assumption | apply emits_superblock_type, Hh|].
  intros sbt s2 _ Inv_2.
  apply (stage_bind (prepares dev) Inv1 G more1 stop1); [assumption | |].
  { apply emits_when. apply emits_bind; [apply emits_emit; reflexivity | intros _].
    apply (emits_quiet_call (prepares dev) Hh), prepares_pvremove. }
  intros _ s3 _ Inv_3.
  apply (stage_bind (prepares dev) Inv1 G more1 stop1);
    [assumption | apply emits_require, Hh|].
  intros _ s4 _ Inv_4.
  apply (stage_bind (prepares dev) Inv1 G more1 stop1);
    [assumption | apply emits_choose_vg, Hh|].
  intros [[vgname pe] join_name] s5 Hvg Inv_5.
  pose proof (choose_vg_ok E args dev vgname join_name pe s4 s5 Hvg) as Hjoin.
  apply (stage_bind (prepares dev) Inv1 G more1 stop1); [assumption | apply emits_assert|].
  intros _ s6 _ Inv_6.
  apply (stage_bind (prepares dev) Inv1 G more1 stop1); [assumption | apply emits_assert|].
  intros _ s7 _ Inv_7.
  apply (stage_bind (prepares dev) Inv1 G more1 stop1); [assumption | apply emits_size, Hh|].
  intros dsize0 s8 _ Inv_8.
  apply (stage_bind (prepares dev) Inv1 G more1 stop1); [assumption | apply emits_assert|].
  intros _ s9 _ Inv_9.
  apply (stage_bind (prepares dev) Inv1 G more1 stop1);
    [assumption | apply emits_get_block_stack, Hh|].
  intros block_stack s10 _ Inv_10.
  apply (stage_bind (prepares dev) Inv1 G more1 stop1); [assumption | apply emits_fslabel, Hh|].
  intros label s11 _ Inv_11.
  apply (stage_bind (prepares dev) Inv1 G more1 stop1);
    [assumption | destruct (negb (string_empty label)); [apply emits_fslabel, Hh | apply emits_ret]|].
  intros lvname s11' _ Inv_11'.
  apply (stage_bind (prepares dev) Inv1 G more1 stop1);
    [assumption | apply emits_bytes_to_sector|].
  intros pe_sectors s12 Hsec Inv_12. apply bytes_to_sector_ok in Hsec. destruct Hsec as [Hpe512 _].
  apply (stage_bind (prepares dev) Inv1 G more1 stop1); [assumption | apply emits_size, Hh|].
  intros dsize s13 Hsize Inv_13. apply size_ok in Hsize. destruct Hsize as [Hasked Hd512].
  apply (stage_bind (prepares dev) Inv1 G more1 stop1);
    [assumption | destruct (pe =? 0); [apply emits_abort | apply emits_ret]|].
  intros _ s14 _ Inv_14.
  apply (stage_bind (prepares dev) Inv1 G more1 stop1); [assumption | apply emits_assert|].
  intros u15 s15 Hge Inv_15. apply assert_ok in Hge. destruct Hge as [Hge _].
  apply (stage_bind (prepares dev) Inv1 G more1 stop1); [assumption | |].
  { apply emits_when. apply emits_bind; [apply emits_size, Hh | intros _; apply emits_ret]. }
  intros u15' s15' _ Inv_15'.
  apply (stage_bind (prepares dev) Inv1 G more1 stop1);
    [assumption | apply emits_read_superblocks, Hh|].
  intros block_stack0 s16 _ Inv_16.
  destruct Inv_16 as (pre & Hl16 & Hpre).
  set (fsck := Call ["e2fsck"; "-f"; "-y"; "--"; dev] "").
  set (Inv2 := fun l : list event => exists post, l = log s ++ pre ++ fsck :: post).
  assert (more2 : forall l tl, Inv2 l -> forallb anything tl = true -> Inv2 (l ++ tl)).
  { intros l tl (post & ->) _. exists (post ++ tl).
    rewrite <- !app_assoc. reflexivity. }
  assert (stop2 : forall s0 (o : outcome Z), Inv2 (log s0) -> ~ returned (s0, o) -> G (s0, o)).
  { intros s0 o (post & Hl) Hr. exists (pre ++ fsck :: post). split; [exact Hl|].
    right. exists pe, dsize, (log s12 ++ [Query ("blockdev --getsize64 " +++ dev)]), pre, post.
    repeat split; auto; try lia. intros Hret. contradiction. }
  assert (Hfsck : Inv2 (log (fst (catch (quiet_call E ["e2fsck"; "-f"; "-y"; "--"; dev] "")
            (fun what : string =>
               emit (Stderr ("Filesystem check failed: " +++ what));;
               throw ("Filesystem check failed, please repair manually with 'e2fsck -f " +++
                      dev +++ "'")) s16)))).
  { match goal with |- Inv2 (log (fst (catch _ ?h _))) =>
      destruct (checked_tool_log E ["e2fsck"; "-f"; "-y"; "--"; dev] "" h s16) as (post & Hl)
    end.
    - intros w. apply emits_bind; [apply emits_step | intros _; apply emits_throw].
    - exists post. rewrite Hl, Hl16, <- app_assoc. reflexivity. }
  apply bind_split; [|intros o; apply stop2; exact Hfsck].
  intros u17 s17 Hrun17. rewrite Hrun17 in Hfsck. cbn [fst] in Hfsck. clear Hrun17.
  pose proof anything_also as Hn.
  apply (stage_bind anything Inv2 G more2 stop2); [assumption | apply emits_size, Hn|].
  intros dsize1 s18 _ Inv_18.
  apply (stage_bind anything Inv2 G more2 stop2);
    [assumption | apply emits_stack_reserve_end_area|].
  intros _ s19 _ Inv_19.
  apply (stage_bind anything Inv2 G more2 stop2); [assumption | apply emits_fsuuid, Hn|].
  intros fsuuid s20 _ Inv_20.
  apply (stage_bind anything Inv2 G more2 stop2); [assumption | apply emits_deactivate|].
  intros _ s21 _ Inv_21.
  apply (stage_bind anything Inv2 G more2 stop2); [assumption | apply emits_open_excl, Hn|].
  intros dev_fd s22 Hopen Inv_22.
  apply open_inv in Hopen. destruct Hopen as [_ Hopen].
  apply (stage_bind anything Inv2 G more2 stop2); [assumption | |].
  { destruct dev_fd; [apply emits_ret|].
    apply emits_bind; [apply emits_errno_text | intros err].
    apply emits_bind; [apply emits_step | intros _; apply emits_throw]. }
  intros u23 s23 Hfd Inv_23.
  assert (dev_fd = Some dev) as ->.
  { destruct Hopen as [Hopen|Hopen]; inversion Hopen; subst; [reflexivity|].
    apply bind_ok_inv in Hfd. destruct Hfd as (? & ? & _ & Hfd).
    apply bind_ok_inv in Hfd. destruct Hfd as (? & ? & _ & Hfd). discriminate. }
  clear Hfd Hopen.
  apply (stage_bind anything Inv2 G more2 stop2); [assumption | apply emits_pread_count, Hn|].
  intros read_len s24 _ Inv_24.
  apply (stage_bind anything Inv2 G more2 stop2); [assumption | apply emits_assert|].
  intros u25 s25 _ Inv_25.
  destruct (pwrite_count_run E dev pe (u64 (u64 (dsize / pe - 1) * pe)) s25) as (n & Hw).
  rewrite (bind_run _ _ _ _ _ Hw).
  destruct Inv_25 as (post0 & Hl25).
  match goal with |- G (?K ?st) =>
    assert (HK : emits anything K) by (emits_walk_with anything_leaf);
    destruct (HK st) as (tl & Hl & _)
  end.
  exists (pre ++ fsck :: post0 ++ Pwrite dev (u64 (u64 (dsize / pe - 1) * pe)) pe :: tl).
  split.
  { etransitivity; [exact Hl|]. cbn [log]. rewrite Hl25.
    repeat rewrite <- app_assoc. reflexivity. }
  right. exists pe, dsize, (log s12 ++ [Query ("blockdev --getsize64 " +++ dev)]), pre,
           (post0 ++ Pwrite dev (u64 (u64 (dsize / pe - 1) * pe)) pe :: tl).
  repeat split; auto; try lia.
  intros _. apply in_or_app. right. left. reflexivity.
Qed.

(** C4, as stated, fails on a partition of two and a half extents: the size
    is not a multiple of the extent size, and the conversion is carried
    out. *)
Lemma cmd_to_lvm_accepts_partial_extent :
  let r := LvmOps.cmd_to_lvm env_odd (to_lvm "/dev/sdb1") no_disks in
  snd (size env_odd "/dev/sdb1" no_disks) = Ok 10485760 /\
  10485760 mod LVM_PE_SIZE <> 0 /\
  snd r = Ok 0 /\
  In (Pwrite "/dev/sdb1" 4194304 4194304) (log (fst r)) /\
  In (Pwrite "/dev/sdb1" 0 4194304) (log (fst r)).
Proof.
  vm_compute. repeat split; try discriminate;
    repeat (first [left; reflexivity | right]).
Qed.

(** *** to-lvm on a physical volume *)

Lemma require_log (E : Env) (p : ProgressListener) (cmd pkg : string) (s : sys) :
  mem_ascii "/"%char cmd = false ->
  exists tl, log (fst (require E p cmd pkg s))
             = log s ++ Query ("which " +++ cmd +++ " > /dev/null 2>&1") :: tl.
Proof.
  intros Hslash. unfold require. rewrite Hslash. unfold bind, ask. cbn [fst snd log].
  destruct (which_ok E _ cmd).
  - exists []. reflexivity.
  - destruct p; cbn; eexists; rewrite <- app_assoc; reflexivity.
Qed.

Ltac conversion_leaf :=
  first [ anything_leaf
        | apply (emits_choose_vg anything) | apply (emits_get_block_stack anything)
        | apply (emits_fslabel anything) | apply (emits_fsuuid anything)
        | apply (emits_read_superblocks anything)
        | apply emits_stack_reserve_end_area
        | apply emits_deactivate ]; try reflexivity.

Lemma quiet_call_succeeds (E : Env) (cmd : list string) (table : string) (s : sys) :
  call_status E (log s ++ [Call cmd table]) cmd = 0 ->
  quiet_call E cmd table s = (Sys (disks s) (log s ++ [Call cmd table]), Ok tt).
Proof.
  intros H. unfold quiet_call, bind, emit. cbn [log disks]. rewrite H. reflexivity.
Qed.

Lemma quiet_call_fails (E : Env) (cmd : list string) (table : string) (s : sys) :
  call_status E (log s ++ [Call cmd table]) cmd <> 0 ->
  exists report,
    quiet_call E cmd table s
    = (Sys (disks s) (log s ++ [Call cmd table; Query "dmesg | tail -n 5"; Stderr report]),
       Throw ("Command failed: " +++ join_cmd cmd)).
Proof.
  intros H. unfold quiet_call, bind, emit, ask. cbn [log disks].
  destruct (Z.eqb_spec (call_status E (log s ++ [Call cmd table]) cmd) 0) as [H0|_];
    [contradiction|].
  eexists. unfold throw. cbn [log disks]. rewrite <- !app_assoc. reflexivity.
Qed.

(** C1, as amended.  On a device whose superblock type is "LVM2_member",
    [cmd_to_lvm] does not refuse: it announces that it removes the existing
    LVM metadata and runs pvremove -ff on the device.  When pvremove fails the
    run ends there with that failure (after the report [quiet_call] makes of
    it); otherwise it goes on with the conversion, whose first step is the
    check that lvm is installed. *)
Theorem cmd_to_lvm_physical_volume (E : Env) (args : LvmOps.CommandArgs) (s : sys) :
  let dev := LvmOps.device args in
  let pvremove := ["pvremove"; "-ff"; "--"; dev] in
  let l1 := log s ++ [Query ("exists " +++ dev)] in
  let l2 := l1 ++ [Query ("blkid -p -o value -s TYPE -O 0 -- " +++ dev)] in
  let l4 := l2 ++ [Stderr "Already a physical volume, removing existing LVM metadata...";
                   Call pvremove ""] in
  dev <> "" -> path_exists E l1 dev = true -> blkid_type E l2 dev 0 = "LVM2_member" ->
  (call_status E l4 pvremove <> 0 ->
   exists report,
     LvmOps.cmd_to_lvm E args s
     = (Sys (disks s) (l4 ++ [Query "dmesg | tail -n 5"; Stderr report]),
        Throw ("Command failed: pvremove -ff -- " +++ dev)))
  /\
  (call_status E l4 pvremove = 0 ->
   exists tl, log (fst (LvmOps.cmd_to_lvm E args s))
              = l4 ++ Query "which lvm > /dev/null 2>&1" :: tl).
Proof.
  intros dev pvremove l1 l2 l4 Hdev Hex Hpv.
  assert (Hmake : BlockDevice.make E dev s = (Sys (disks s) l1, Ok dev)).
  { unfold BlockDevice.make, bind, ask. cbn [log]. fold l1. rewrite Hex.
    destruct dev; [congruence | reflexivity]. }
  assert (Htype : superblock_type E dev (Sys (disks s) l1) = (Sys (disks s) l2, Ok "LVM2_member")).
  { rewrite <- Hpv. reflexivity. }
  unfold LvmOps.cmd_to_lvm. fold dev.
  rewrite (bind_run _ _ _ _ _ Hmake), (bind_run _ _ _ _ _ Htype).
  cbn [String.eqb Ascii.eqb Bool.eqb when]. fold pvremove.
  set (announce := Stderr "Already a physical volume, removing existing LVM metadata...").
  set (s3 := Sys (disks s) (l2 ++ [announce])).
  assert (Hl4 : log s3 ++ [Call pvremove ""] = l4)
    by (unfold s3, l4; cbn [log]; rewrite <- app_assoc; reflexivity).
  assert (Hsay : emit announce (Sys (disks s) l2) = (s3, Ok tt)) by reflexivity.
  split; intros Hcall; rewrite <- Hl4 in Hcall.
  - destruct (quiet_call_fails E pvremove "" s3 Hcall) as (report & Hrm).
    exists report. unfold bind at 1. unfold bind at 1. rewrite Hsay, Hrm.
    unfold s3, l4. cbn [log disks]. rewrite <- !app_assoc. reflexivity.
  - pose proof (quiet_call_succeeds E pvremove "" s3 Hcall) as Hrm.
    rewrite Hl4 in Hrm. unfold s3 in Hrm. cbn [disks] in Hrm.
    assert (Hboth : (emit announce ;; quiet_call E pvremove "") (Sys (disks s) l2)
                    = (Sys (disks s) l4, Ok tt)).
    { apply (eq_trans (bind_run _ _ _ _ _ Hsay)). exact Hrm. }
    rewrite (bind_run _ _ _ _ _ Hboth).
    apply (bind_split (fun r => exists tl, log (fst r)
                                           = l4 ++ Query "which lvm > /dev/null 2>&1" :: tl)).
    + intros u s5 Hrun.
      destruct (require_log E CLIProgressHandler "lvm" "lvm2" (Sys (disks s) l4) eq_refl)
        as (tl0 & Hl0).
      unfold LVMReq_require in Hrun. rewrite Hrun in Hl0. cbn [fst log] in Hl0.
      match goal with |- exists _, log (fst (?K ?st)) = _ =>
        assert (HK : emits anything K) by (emits_walk_with conversion_leaf);
        destruct (HK st) as (tl & Hl & _)
      end.
      exists (tl0 ++ tl). etransitivity; [exact Hl|]. rewrite Hl0, <- app_assoc. reflexivity.
    + intros o _. cbn [fst]. apply require_log. reflexivity.
Qed.

(** C1, as stated, fails: on a partition that carries an LVM label the run
    removes the label, converts the partition and returns 0. *)
Lemma cmd_to_lvm_converts_physical_volume :
  let r := LvmOps.cmd_to_lvm env_pv (to_lvm "/dev/sdb1") no_disks in
  snd (superblock_type env_pv "/dev/sdb1" no_disks) = Ok "LVM2_member" /\
  snd r = Ok 0 /\
  In (Call ["pvremove"; "-ff"; "--"; "/dev/sdb1"] "") (log (fst r)) /\
  In (Pwrite "/dev/sdb1" 12582912 4194304) (log (fst r)) /\
  In (Pwrite "/dev/sdb1" 0 4194304) (log (fst r)).
Proof.
  vm_compute. repeat split; repeat (first [left; reflexivity | right]).
Qed.

Lemma cmd_to_lvm_physical_volume_witness :
  exists tl,
    log (fst (LvmOps.cmd_to_lvm env_pv (to_lvm "/dev/sdb1") no_disks))
    = [Query "exists /dev/sdb1"; Query "blkid -p -o value -s TYPE -O 0 -- /dev/sdb1";
       Stderr "Already a physical volume, removing existing LVM metadata...";
       Call ["pvremove"; "-ff"; "--"; "/dev/sdb1"] ""]
      ++ Query "which lvm > /dev/null 2>&1" :: tl.
Proof.
  assert (Hdev : "/dev/sdb1" <> "") by discriminate.
  exact (proj2 (cmd_to_lvm_physical_volume env_pv (to_lvm "/dev/sdb1") no_disks
                                           Hdev eq_refl eq_refl) eq_refl).
Defined.

(** *** The synthetic device of to-lvm *)

Lemma quiet_call_ok (E : Env) (cmd : list string) (table : string) (s s' : sys) (u : unit) :
  quiet_call E cmd table s = (s', Ok u) -> log s' = log s ++ [Call cmd table].
Proof.
  unfold quiet_call, bind, emit, ask, throw, ret. cbn [log disks]. intros H.
  destruct (call_status E _ cmd =? 0); [|discriminate].
  apply ok_inj in H. destruct H as [<- _]. reflexivity.
Qed.

Lemma later_in_log {A} (m : M A) (s s' : sys) (o : outcome A) (e : event) :
  emits anything m -> m s = (s', o) -> In e (log s) -> In e (log s').
Proof.
  intros Hm Hrun He. destruct (Hm s) as (tl & Hl & _). rewrite Hrun in Hl. cbn [fst] in Hl.
  rewrite Hl. apply in_or_app. left. exact He.
Qed.

Lemma last_in_log (l : list event) (e : event) : In e (l ++ [e]).
Proof. apply in_or_app. right. left. reflexivity. Qed.

Tactic Notation "step" hyp(H) "as" ident(s') ident(a) ident(Hr) :=
  apply bind_ok_inv in H; destruct H as (s' & a & Hr & H).

Lemma resolve_head (dev rozeros : string) (pe_sectors rz_sectors k : Z) :
  0 <= k < pe_sectors ->
  DM.resolve (LvmOps.synth_table dev rozeros pe_sectors rz_sectors) k = Some (dev, k).
Proof.
  intros Hk. unfold LvmOps.synth_table. cbn [DM.resolve DM.l_start DM.l_len DM.l_target].
  destruct (Z.leb_spec 0 k); [|lia]. destruct (Z.ltb_spec k (0 + pe_sectors)); [|lia].
  cbn [andb]. f_equal. f_equal. lia.
Qed.

Lemma resolve_rest (dev rozeros : string) (pe_sectors rz_sectors k : Z) :
  0 <= pe_sectors <= k -> k < pe_sectors + rz_sectors ->
  DM.resolve (LvmOps.synth_table dev rozeros pe_sectors rz_sectors) k
  = Some ("/dev/mapper/" +++ rozeros, k - pe_sectors).
Proof.
  intros Hk Hk'. unfold LvmOps.synth_table. cbn [DM.resolve DM.l_start DM.l_len DM.l_target].
  destruct (Z.ltb_spec k (0 + pe_sectors)); [lia|]. rewrite andb_false_r.
  destruct (Z.leb_spec pe_sectors k); [|lia].
  destruct (Z.ltb_spec k (pe_sectors + rz_sectors)); [|lia].
  cbn [andb]. f_equal.
Qed.

Lemma resolve_rozeros (rz_sectors k : Z) :
  DM.resolve (LvmOps.rozeros_table rz_sectors) k = None.
Proof.
  unfold LvmOps.rozeros_table. cbn [DM.resolve DM.l_start DM.l_len DM.l_target].
  destruct (_ && _); reflexivity.
Qed.

Lemma synth_table_sectors (dev rozeros : string) (pe_sectors rz_sectors : Z) :
  0 <= pe_sectors -> 0 <= rz_sectors ->
  DM.sectors (LvmOps.synth_table dev rozeros pe_sectors rz_sectors) = pe_sectors + rz_sectors.
Proof.
  intros H1 H2. unfold DM.sectors, LvmOps.synth_table.
  cbn [fold_right DM.l_start DM.l_len]. lia.
Qed.

(** C2 on the code: the head of the synthetic device is not scratch
    storage.  A run of [cmd_to_lvm] that returns has created, with dmsetup,
    a read-only device [rozeros] that is one error target, and a synthetic
    device of two linear targets: a head of pe bytes, each sector of which
    is the same sector of the real device, and behind it, up to
    device.size(), [rozeros]; there is no tail.  pvcreate and vgcfgrestore
    have been run on that synthetic device, under a devices.filter that
    accepts its path alone: what they write to its head they write to the
    first extent of the real device.  (The device size is taken to be the
    same whenever it is asked for.) *)
Theorem cmd_to_lvm_synthetic_device (E : Env) (args : LvmOps.CommandArgs) (s s' : sys)
        (z dsize : Z) :
  (forall l, blockdev_getsize64 E l (LvmOps.device args) = Some dsize) ->
  LvmOps.cmd_to_lvm E args s = (s', Ok z) ->
  exists pe uuid_str vgname cfgf pv_uuid,
    let dev := LvmOps.device args in
    let rozeros := "rozeros-" +++ uuid_str in
    let synth_name := "synthetic-" +++ uuid_str in
    let synth := "/dev/mapper/" +++ synth_name in
    let head := pe / 512 in
    let rest := u64 (dsize - pe) / 512 in
    let table := LvmOps.synth_table dev rozeros head rest in
    let cfg := "--config='" +++ LvmOps.lvm_config synth +++ "'" in
    4096 <= pe /\ pe mod 512 = 0 /\ u64 (dsize - pe) mod 512 = 0 /\
    In (Call ["dmsetup"; "create"; "--readonly"; "--"; rozeros]
             (DM.render (LvmOps.rozeros_table rest))) (log s') /\
    In (Call ["dmsetup"; "create"; "--"; synth_name] (DM.render table)) (log s') /\
    In (Call ["lvm"; "pvcreate"; cfg; "--restorefile"; cfgf; "--uuid"; pv_uuid;
              "--zero"; "y"; "--"; synth] "") (log s') /\
    In (Call ["lvm"; "vgcfgrestore"; cfg; "--file"; cfgf; "--"; vgname] "") (log s') /\
    (forall k, 0 <= k < head -> DM.resolve table k = Some (dev, k)) /\
    (forall k, head <= k < head + rest ->
               DM.resolve table k = Some ("/dev/mapper/" +++ rozeros, k - head)) /\
    (forall k, DM.resolve (LvmOps.rozeros_table rest) k = None) /\
    (pe <= dsize < two64 -> 512 * DM.sectors table = dsize /\ 512 * rest = dsize - pe).
Proof.
  intros Hstable H. set (dev := LvmOps.device args) in *.
  unfold LvmOps.cmd_to_lvm in H. fold dev in H.
  step H as s1 device Hmake. apply make_ok in Hmake. subst device.
  step H as s2 sbt Hr2. step H as s3 u3 Hr3. step H as s4 u4 Hr4. clear Hr2 Hr3 Hr4.
  step H as s5 vg Hr5. destruct vg as [[vgname pe] join_name]. clear Hr5.
  step H as s6 u6 Hr6. step H as s7 u7 Hr7. step H as s8 dsize0 Hr8. step H as s9 u9 Hr9.
  step H as s10 block_stack Hr10. step H as s11 label Hr11. step H as s11' lvname Hr11'.
  clear Hr6 Hr7 Hr8 Hr9 Hr10 Hr11 Hr11'.
  step H as s12 pe_sectors Hsec. apply bytes_to_sector_ok in Hsec. destruct Hsec as [Hpe512 _].
  step H as s13 dsize' Hsize. apply size_ok in Hsize. destruct Hsize as [Hasked Hd512].
  rewrite Hstable in Hasked. inversion Hasked. subst dsize'. clear Hasked.
  step H as s14 u14 Hr14. clear Hr14.
  step H as s15 u15 Hge. apply assert_ok in Hge. destruct Hge as [Hge _].
  step H as s15' u15' Hr15'. clear Hr15'.
  step H as s16 block_stack0 Hr16. step H as s17 u17 Hr17. step H as s18 dsize3 Hr18.
  step H as s19 u19 Hr19. step H as s20 fsuuid Hr20. step H as s21 u21 Hr21.
  step H as s22 dev_fd Hr22. step H as s23 u23 Hr23. step H as s24 read_len Hr24.
  step H as s25 u25 Hr25. step H as s26 wr_len Hr26. step H as s27 u27 Hr27.
  step H as s28 dm_devices Hr28. step H as s29 u29 Hr29. step H as s30 holders Hr30.
  step H as s31 u31 Hr31. step H as s32 dm_table Hr32. step H as s33 u33 Hr33.
  clear Hr16 Hr17 Hr18 Hr19 Hr20 Hr21 Hr22 Hr23 Hr24 Hr25 Hr26 Hr27 Hr28 Hr29 Hr30 Hr31
        Hr32 Hr33.
  step H as s34 uuid_str Hr34. clear Hr34.
  step H as s35 dsize1 Hsize1. apply size_ok in Hsize1. destruct Hsize1 as [Hasked _].
  rewrite Hstable in Hasked. inversion Hasked. subst dsize1. clear Hasked.
  step H as s36 rz_sectors Hrz. apply bytes_to_sector_ok in Hrz. destruct Hrz as [Hrz512 ->].
  step H as s37 u37 Hrozeros. apply quiet_call_ok in Hrozeros.
  assert (In_rozeros : In (Call ["dmsetup"; "create"; "--readonly"; "--"; "rozeros-" +++ uuid_str]
                               (DM.render (LvmOps.rozeros_table (u64 (dsize - pe) / 512))))
                         (log s')).
  { match type of H with ?K ?st = _ =>
      apply (later_in_log K st s' (Ok z)); [emits_walk_with conversion_leaf | exact H|]
    end.
    rewrite Hrozeros. apply last_in_log. }
  clear Hrozeros.
  step H as s38 pe_sectors1 Hsec1. apply bytes_to_sector_ok in Hsec1. destruct Hsec1 as [_ ->].
  step H as s39 dsize2 Hsize2. apply size_ok in Hsize2. destruct Hsize2 as [Hasked _].
  rewrite Hstable in Hasked. inversion Hasked. subst dsize2. clear Hasked.
  step H as s40 rz_sectors2 Hrz2. apply bytes_to_sector_ok in Hrz2. destruct Hrz2 as [_ ->].
  step H as s41 u41 Hsynth. apply quiet_call_ok in Hsynth.
  assert (In_synth : In (Call ["dmsetup"; "create"; "--"; "synthetic-" +++ uuid_str]
                             (DM.render (LvmOps.synth_table dev ("rozeros-" +++ uuid_str)
                                                            (pe / 512) (u64 (dsize - pe) / 512))))
                        (log s')).
  { match type of H with ?K ?st = _ =>
      apply (later_in_log K st s' (Ok z)); [emits_walk_with conversion_leaf | exact H|]
    end.
    rewrite Hsynth. apply last_in_log. }
  clear Hsynth.
  step H as s42 ex Hr42. step H as s43 u43 Hr43. step H as s44 synth_pv Hr44.
  step H as s45 tmp Hr45. step H as s46 pv_uuid Hr46. step H as s47 vg_uuid Hr47.
  step H as s48 lv_uuid Hr48. step H as s49 u49 Hr49.
  clear Hr42 Hr43 Hr44 Hr45 Hr46 Hr47 Hr48 Hr49.
  step H as s50 u50 Hpvcreate. apply quiet_call_ok in Hpvcreate.
  match type of Hpvcreate with _ = _ ++ [?e] =>
    assert (In_pvcreate : In e (log s'))
  end.
  { match type of H with ?K ?st = _ =>
      apply (later_in_log K st s' (Ok z)); [emits_walk_with conversion_leaf | exact H|]
    end.
    rewrite Hpvcreate. apply last_in_log. }
  clear Hpvcreate.
  step H as s51 u51 Hrestore. apply quiet_call_ok in Hrestore.
  match type of Hrestore with _ = _ ++ [?e] =>
    assert (In_restore : In e (log s'))
  end.
  { match type of H with ?K ?st = _ =>
      apply (later_in_log K st s' (Ok z)); [emits_walk_with conversion_leaf | exact H|]
    end.
    rewrite Hrestore. apply last_in_log. }
  clear Hrestore H.
  exists pe, uuid_str, vgname, (tmp +++ "/vgcfg_" +++ to_string (getpid E) +++ ".vgcfg"), pv_uuid.
  cbv zeta.
  assert (Hpe : 4096 <= pe) by lia.
  assert (H64 : two64 = 18446744073709551616) by reflexivity.
  repeat match goal with |- _ /\ _ => split end; try assumption.
  - intros k Hk. apply resolve_head. exact Hk.
  - intros k Hk. apply resolve_rest; [|lia].
    split; [apply Z.div_pos; lia | lia].
  - intros k. apply resolve_rozeros.
  - intros Hrange. rewrite u64_small in * by lia.
    rewrite synth_table_sectors by (apply Z.div_pos; lia).
    pose proof (Z_div_mod_eq_full pe 512) as E1.
    pose proof (Z_div_mod_eq_full (dsize - pe) 512) as E2.
    lia.
Qed.

Lemma cmd_to_lvm_synthetic_device_witness :
  exists pe uuid_str,
    let table := LvmOps.synth_table "/dev/sdb1" ("rozeros-" +++ uuid_str)
                                    (pe / 512) (u64 (16777216 - pe) / 512) in
    4096 <= pe /\
    In (Call ["dmsetup"; "create"; "--"; "synthetic-" +++ uuid_str] (DM.render table))
       (log (fst (LvmOps.cmd_to_lvm env_ext4 (to_lvm "/dev/sdb1") no_disks))) /\
    forall k, 0 <= k < pe / 512 -> DM.resolve table k = Some ("/dev/sdb1", k).
Proof.
  assert (Hsize : forall l, blockdev_getsize64 env_ext4 l "/dev/sdb1" = Some 16777216)
    by (intros l; reflexivity).
  assert (Hrun : LvmOps.cmd_to_lvm env_ext4 (to_lvm "/dev/sdb1") no_disks
                 = (fst (LvmOps.cmd_to_lvm env_ext4 (to_lvm "/dev/sdb1") no_disks), Ok 0))
    by (vm_compute; reflexivity).
  destruct (cmd_to_lvm_synthetic_device env_ext4 (to_lvm "/dev/sdb1") no_disks _ 0 16777216
                                        Hsize Hrun)
    as (pe & uuid_str & vgname & cfgf & pv_uuid & Hpe & _ & _ & _ & Hsynth & _ & _ & Hhead & _).
  exists pe, uuid_str. cbv zeta. split; [exact Hpe|]. split; [exact Hsynth | exact Hhead].
Defined.

(** The same on a 16 MiB partition: the head of the synthetic device is
    the partition itself (a write to its sector 0 lands on sector 0 of
    /dev/sdb1), the last extent (from sector 24576 on) is the error target
    and not a writable tail, and the error target covers 24576 sectors, not
    the 16384 of device.size() - 2 pe. *)
Lemma cmd_to_lvm_synthetic_head_is_the_device :
  let r := LvmOps.cmd_to_lvm env_ext4 (to_lvm "/dev/sdb1") no_disks in
  let rozeros := "rozeros-6f1c0d9e-0000-4000-8000-000000000000" in
  let table := LvmOps.synth_table "/dev/sdb1" rozeros 8192 24576 in
  snd r = Ok 0 /\
  In (Call ["dmsetup"; "create"; "--"; "synthetic-6f1c0d9e-0000-4000-8000-000000000000"]
           (DM.render table)) (log (fst r)) /\
  DM.resolve table 0 = Some ("/dev/sdb1", 0) /\
  DM.resolve table 24576 = Some ("/dev/mapper/" +++ rozeros, 16384) /\
  DM.resolve (LvmOps.rozeros_table 24576) 16384 = None /\
  (16777216 - 2 * LVM_PE_SIZE) / 512 = 16384.
Proof.
  vm_compute. repeat split; repeat (first [left; reflexivity | right]).
Qed.

(** ** to-bcache on a device that is one already *)

Lemma emits_query {A} (what : string) (f : list event -> A) : emits is_query (ask what f).
Proof. intros s. exists [Query what]. cbn. auto. Qed.

Lemma make_run (E : Env) (p d : string) (s s' : sys) :
  BlockDevice.make E p s = (s', Ok d) ->
  d = p /\ p <> "" /\ s' = Sys (disks s) (log s ++ [Query ("exists " +++ p)]).
Proof.
  intros H. pose proof (make_ok E p d s s' H) as ->. split; [reflexivity|].
  unfold BlockDevice.make, bind, ask in H. cbn [log disks] in H.
  destruct p as [|c p]; [discriminate|].
  split; [discriminate|].
  cbn [string_empty negb andb] in H.
  destruct (path_exists E _ _); [|discriminate].
  apply ok_inj in H. destruct H as [<- _]. reflexivity.
Qed.

Lemma has_bcache_superblock_looks (E : Env) (p : string) :
  emits is_query (has_bcache_superblock E p).
Proof.
  unfold has_bcache_superblock, size, open_.
  emits_walk_with ltac:(apply emits_query).
Qed.

(** ... and leaves the bytes of every device as they are. *)
Lemma has_bcache_superblock_reads (E : Env) (p : string) (s : sys) :
  disks (fst (has_bcache_superblock E p s)) = disks s.
Proof.
  unfold has_bcache_superblock, size, open_, pread, bind, ask, assert, ret, throw, abort.
  cbn [log disks].
  repeat match goal with
         | |- context [blockdev_getsize64 ?e ?l ?q] => destruct (blockdev_getsize64 e l q)
         | |- context [open_ok ?e ?l ?q] => destruct (open_ok e l q)
         | |- context [?a =? ?b] => destruct (a =? b)
         | |- context [?a <=? ?b] => destruct (a <=? b)
         | |- context [?a <? ?b] => destruct (a <? b)
         | _ => progress cbn [fst snd log disks negb]
         end; reflexivity.
Qed.

(** C10.  When [has_bcache_superblock()] returns true, the to-bcache command
    returns 1 -- through [main] as well as through [cmd_to_bcache] -- having
    done nothing but look at the device (the existence check of the
    constructor and the probes of [has_bcache_superblock]) and print its
    refusal: no requirement check, no conversion variant, no write. *)
Theorem to_bcache_refuses_bcache_device (E : Env)
        (call_maintboot : string -> LvmOps.CommandArgs -> M Z)
        (args : LvmOps.CommandArgs) (s s0 s1 : sys) :
  let dev := LvmOps.device args in
  let refusal := Stderr ("Device " +++ dev +++ " already has a bcache super block.") in
  BlockDevice.make E dev s = (s0, Ok dev) ->
  has_bcache_superblock E dev s0 = (s1, Ok true) ->
  Main.main_to_bcache call_maintboot E args s = (Sys (disks s) (log s1 ++ [refusal]), Ok 1) /\
  (forall prog word rest debug join maintboot,
      BcacheOps.parse_args (word :: rest) ("", false, "", false) = (dev, debug, join, maintboot) ->
      BcacheOps.cmd_to_bcache E (prog :: word :: rest) s
      = (Sys (disks s) (log s1 ++ [refusal]), Ok 1)) /\
  exists probes, log s1 = log s ++ probes /\ forallb is_query probes = true.
Proof.
  intros dev refusal Hmake Hhas.
  destruct (make_run E dev dev s s0 Hmake) as (_ & Hdev & Hs0).
  destruct (has_bcache_superblock_looks E dev s0) as (tl & Hl & Hp).
  pose proof (has_bcache_superblock_reads E dev s0) as Hd.
  rewrite Hhas in Hd, Hl. cbn [fst] in Hd, Hl.
  assert (Hd1 : disks s1 = disks s) by (rewrite Hd, Hs0; reflexivity).
  assert (Hrefuse : (emit refusal ;; ret 1) s1 = (Sys (disks s) (log s1 ++ [refusal]), Ok 1)).
  { unfold bind, emit, ret. rewrite Hd1. reflexivity. }
  split; [|split].
  - unfold Main.main_to_bcache. fold dev.
    rewrite (bind_run _ _ _ _ _ Hmake), (bind_run _ _ _ _ _ Hhas). exact Hrefuse.
  - intros prog word rest debug join maintboot Hparse.
    unfold BcacheOps.cmd_to_bcache. rewrite Hparse.
    destruct dev as [|c dev'] eqn:Edev; [congruence|]. cbn [string_empty].
    rewrite (bind_run _ _ _ _ _ Hmake), (bind_run _ _ _ _ _ Hhas). exact Hrefuse.
  - exists (Query ("exists " +++ dev) :: tl). split.
    + rewrite Hl, Hs0. cbn [log]. rewrite <- app_assoc. reflexivity.
    + cbn [forallb is_query]. exact Hp.
Qed.

Lemma to_bcache_refuses_bcache_device_witness :
  snd (Main.main_to_bcache (fun _ _ => ret 0) (calm (fun _ => 16777216) (fun _ _ => "") (fun _ _ => None))
                           (to_bcache "/dev/sdb1") bcache_disk) = Ok 1 /\
  snd (BcacheOps.cmd_to_bcache (calm (fun _ => 16777216) (fun _ _ => "") (fun _ _ => None))
                               ["to-bcache"; "--debug"; "/dev/sdb1"] bcache_disk) = Ok 1.
Proof.
  set (E := calm (fun _ => 16777216) (fun _ _ => "") (fun _ _ => None)).
  set (s0 := fst (BlockDevice.make E "/dev/sdb1" bcache_disk)).
  set (s1 := fst (has_bcache_superblock E "/dev/sdb1" s0)).
  assert (Hmake : BlockDevice.make E "/dev/sdb1" bcache_disk = (s0, Ok "/dev/sdb1"))
    by reflexivity.
  assert (Hhas : has_bcache_superblock E "/dev/sdb1" s0 = (s1, Ok true))
    by (vm_compute; reflexivity).
  destruct (to_bcache_refuses_bcache_device E (fun _ _ => ret 0) (to_bcache "/dev/sdb1")
                                            bcache_disk s0 s1 Hmake Hhas) as (Hmain & Hcmd & _).
  split.
  - rewrite Hmain. reflexivity.
  - rewrite (Hcmd "to-bcache" "--debug" ["/dev/sdb1"] true "" false eq_refl). reflexivity.
Defined.

(** ** The rotation on the handle of this repository *)

(** The Augeas handle of lvm_operations.cpp is a stub: [get_int] answers 0
    and [get] the empty string, whatever the volume.  With it [rotate_aug]
    counts no segment and no extent and fails one of its own assertions --
    the size check, or [extent_total > 1] -- for every direction and size,
    before any edit; the round trip of [rotate_lv] (forward, then backward)
    ends in the first of its two calls.  No valid volume is behind this
    handle; the rotation on one is followed further down, on a tree. *)
Theorem rotate_aug_stub_aborts (forward : bool) (size : Z) (s : sys) :
  (exists what, @LvmRotate.rotate_aug unit Augeas.Stub tt forward size s = (s, Abort what)) /\
  (exists what,
      (aug <- @LvmRotate.rotate_aug unit Augeas.Stub tt forward size ;;
       @LvmRotate.rotate_aug unit Augeas.Stub aug (negb forward) size) s = (s, Abort what)).
Proof.
  assert (H : exists what, @LvmRotate.rotate_aug unit Augeas.Stub tt forward size s = (s, Abort what)).
  { unfold LvmRotate.rotate_aug, bytes_to_sector, bind, assert, ret, abort.
    cbn [Augeas.get_int Augeas.Stub Augeas.incr LvmRotate.range Z.sub Z.add Z.opp
         Z.to_nat Z.pos_sub seq map fold_m].
    unfold ret.
    destruct (size mod 512 =? 0).
    - destruct (u64 (0 * 0) =? size / 512).
      + cbn. eexists. reflexivity.
      + eexists. reflexivity.
    - eexists. reflexivity. }
  split; [exact H|].
  destruct H as (what & H). exists what. unfold bind. rewrite H. reflexivity.
Qed.

(** On the volume of scenario S5 (8 extents of 4 MiB) the first call already
    stops at the size check. *)
Lemma rotate_aug_stub_on_s5 :
  @LvmRotate.rotate_aug unit Augeas.Stub tt true 33554432 no_disks
  = (no_disks, Abort "extent_total * pe_sectors == bytes_to_sector(size)").
Proof. reflexivity. Qed.

(** ** The rotation on a metadata tree *)

Set Implicit Arguments.

Section RotateTree.

Import AugTree Augeas.

(** ** Texts of numbers and path expressions *)

Lemma digits_of_uint (d : Decimal.uint) : all_digits (NilEmpty.string_of_uint d) = true.
Proof. induction d; cbn; auto. Qed.

Lemma to_string_digits (z : Z) : all_digits (to_string z) = true.
Proof.
  unfold to_string, NilZero.string_of_uint.
  destruct (N.to_uint (Z.to_N z)) eqn:E; try reflexivity;
    rewrite <- E; apply digits_of_uint.
Qed.

Lemma to_string_nonempty (z : Z) : to_string z <> "".
Proof.
  unfold to_string, NilZero.string_of_uint.
  destruct (N.to_uint (Z.to_N z)); discriminate.
Qed.

Lemma digit_no_slash (c : ascii) : is_digit c = true -> Ascii.eqb c "/" = false.
Proof.
  intros H. destruct (Ascii.eqb_spec c "/") as [->|]; [discriminate | reflexivity].
Qed.

Lemma digit_no_minus (c : ascii) : is_digit c = true -> Ascii.eqb c "-" = false.
Proof.
  intros H. destruct (Ascii.eqb_spec c "-") as [->|]; [discriminate | reflexivity].
Qed.

Lemma digit_no_underscore (c : ascii) : is_digit c = true -> Ascii.eqb "_" c = false.
Proof.
  intros H. destruct (Ascii.eqb_spec "_" c) as [<-|]; [discriminate | reflexivity].
Qed.

Lemma digits_no_slash (s : string) : all_digits s = true -> no_slash s = true.
Proof.
  induction s as [|c s IH]; cbn; [reflexivity|].
  intros H. apply andb_true_iff in H. destruct H as [Hc Hs].
  rewrite (digit_no_slash _ Hc), IH by assumption. reflexivity.
Qed.

Lemma number_to_string (z : Z) : 0 <= z -> number (to_string z) = z.
Proof.
  intros Hz. unfold number, to_string.
  rewrite NilZero.usu.
  - rewrite DecimalN.Unsigned.of_to. apply Z2N.id. exact Hz.
  - destruct (Z.to_N z) as [|p]; [discriminate|]. cbn.
    pose proof (DecimalPos.Unsigned.to_uint_nonnil p) as H. exact H.
Qed.

Lemma int_of_text_to_string (z : Z) : 0 <= z -> int_of_text (to_string_int z) = z.
Proof.
  intros Hz. unfold to_string_int. destruct (Z.ltb_spec z 0); [lia|].
  pose proof (to_string_digits z) as Hd. pose proof (number_to_string Hz) as Hn.
  unfold int_of_text. destruct (to_string z) as [|c s]; [exact Hn|].
  cbn in Hd. apply andb_true_iff in Hd. destruct Hd as [Hc _].
  rewrite (digit_no_minus _ Hc). exact Hn.
Qed.

Lemma to_string_int_nonneg (z : Z) : 0 <= z -> to_string_int z = to_string z.
Proof. intros Hz. unfold to_string_int. destruct (Z.ltb_spec z 0); [lia | reflexivity]. Qed.

Lemma to_string_inj (a b : Z) : 0 <= a -> 0 <= b -> to_string a = to_string b -> a = b.
Proof.
  intros Ha Hb H. rewrite <- (number_to_string Ha), <- (number_to_string Hb), H. reflexivity.
Qed.

Lemma seg_label_inj (a b : Z) : 0 <= a -> 0 <= b -> seg_label a = seg_label b -> a = b.
Proof.
  intros Ha Hb H. unfold seg_label in H. cbn in H. inversion H. apply to_string_inj; assumption.
Qed.

Lemma seg_label_eqb (a b : Z) :
  0 <= a -> 0 <= b -> (seg_label a =? seg_label b)%string = (a =? b).
Proof.
  intros Ha Hb. destruct (Z.eqb_spec a b) as [->|Hne]; [apply String.eqb_refl|].
  apply String.eqb_neq. intros H. apply Hne. apply seg_label_inj; assumption.
Qed.

Lemma count_label_eqb (a : Z) : ("segment_count" =? seg_label a)%string = false.
Proof.
  apply String.eqb_neq. unfold seg_label. intros H. cbn in H. inversion H as [H'].
  pose proof (to_string_digits a) as Hd. rewrite <- H' in Hd. discriminate.
Qed.

Lemma seg_label_no_slash (a : Z) : no_slash (seg_label a) = true.
Proof. unfold seg_label. cbn. apply digits_no_slash. apply to_string_digits. Qed.

Lemma split_path_step (a r : string) :
  no_slash a = true -> split_path (a +++ String "/" r) = a :: split_path r.
Proof.
  induction a as [|c a IH]; intros H; cbn in *.
  - reflexivity.
  - apply andb_true_iff in H. destruct H as [Hc Ha].
    apply negb_true_iff in Hc. rewrite Hc, IH by assumption. reflexivity.
Qed.

Lemma split_path_last (a : string) : no_slash a = true -> split_path a = [a].
Proof.
  induction a as [|c a IH]; intros H; cbn in *.
  - reflexivity.
  - apply andb_true_iff in H. destruct H as [Hc Ha].
    apply negb_true_iff in Hc. rewrite Hc, IH by assumption. reflexivity.
Qed.

Lemma append_empty_r (a : string) : a +++ "" = a.
Proof. induction a as [|c a IH]; cbn; [reflexivity | rewrite IH; reflexivity]. Qed.

Lemma append_assoc' (a b c : string) : (a +++ b) +++ c = a +++ b +++ c.
Proof. induction a as [|x a IH]; cbn; [reflexivity | rewrite IH; reflexivity]. Qed.

(** Where the paths of [rotate_aug] lead. *)
Lemma locate_seg (st : store) (i : Z) (rest : string) :
  locate st (LvmRotate.seg i (String "/" rest)) = Some (true, seg_label i :: split_path rest).
Proof.
  unfold locate, LvmRotate.seg.
  change ("$lv/segment" +++ to_string i +++ String "/" rest)
    with ("$lv" +++ String "/" ("segment" +++ to_string i +++ String "/" rest)).
  rewrite split_path_step by reflexivity.
  change ("segment" +++ to_string i +++ String "/" rest)
    with (seg_label i +++ String "/" rest).
  rewrite split_path_step by apply seg_label_no_slash.
  reflexivity.
Qed.

Lemma locate_seg_node (st : store) (i : Z) :
  locate st (LvmRotate.seg i "") = Some (true, [seg_label i]).
Proof.
  unfold locate, LvmRotate.seg.
  change ("$lv/segment" +++ to_string i +++ "")
    with ("$lv" +++ String "/" (seg_label i +++ "")).
  rewrite split_path_step by reflexivity.
  rewrite append_empty_r, split_path_last by apply seg_label_no_slash.
  reflexivity.
Qed.



(** ** One node among its siblings *)

Lemma child_focus (l : string) (pre : list tree) (t : tree) (rest : list tree) :
  unlike l pre -> label t = l -> child l (pre ++ t :: rest) = Some t.
Proof.
  intros Hpre Ht. induction Hpre as [|x pre Hx _ IH]; cbn.
  - rewrite Ht, String.eqb_refl. reflexivity.
  - rewrite Hx. exact IH.
Qed.

Lemma edit_focus (create : bool) (l : string) (f : tree -> tree) (pre : list tree) (t : tree)
      (rest : list tree) :
  unlike l pre -> label t = l -> edit create l f (pre ++ t :: rest) = pre ++ f t :: rest.
Proof.
  intros Hpre Ht. induction Hpre as [|x pre Hx _ IH]; cbn.
  - rewrite Ht, String.eqb_refl. reflexivity.
  - rewrite Hx, IH. reflexivity.
Qed.

Lemma remove_focus (l : string) (pre : list tree) (t : tree) (rest : list tree) :
  unlike l pre -> label t = l -> remove_child l (pre ++ t :: rest) = pre ++ rest.
Proof.
  intros Hpre Ht. induction Hpre as [|x pre Hx _ IH]; cbn.
  - rewrite Ht, String.eqb_refl. reflexivity.
  - rewrite Hx, IH. reflexivity.
Qed.

Lemma insert_focus (new : string) (before : bool) (l : string) (pre : list tree) (t : tree)
      (rest : list tree) :
  unlike l pre -> label t = l ->
  insert_sibling new before l (pre ++ t :: rest)
  = pre ++ (if before then [Node new "" []; t] else [t; Node new "" []]) ++ rest.
Proof.
  intros Hpre Ht. induction Hpre as [|x pre Hx _ IH]; cbn.
  - rewrite Ht, String.eqb_refl. destruct before; reflexivity.
  - rewrite Hx, IH. reflexivity.
Qed.

(** ** The methods of the handle at a node in focus *)

Section Focus.

Variables (vgc : list tree) (vs : list (string * list string)).
Variables (pre : list tree) (l : string) (ch : list tree) (rest : list tree).
Hypothesis Hpre : unlike l pre.

Lemma get_focus (key : string) (c : string) (p : list string) :
  locate (Store vgc (pre ++ Node l "" ch :: rest) vs) key = Some (true, l :: c :: p) ->
  get (Store vgc (pre ++ Node l "" ch :: rest) vs) key = match find (c :: p) ch with Some t => value t | None => "" end.
Proof.
  intros Hloc. cbn [get Tree]. unfold tree_get. rewrite Hloc. cbn [lv find]. rewrite child_focus by (auto; reflexivity). reflexivity.
Qed.

Lemma get_int_focus (key : string) (c : string) (p : list string) :
  locate (Store vgc (pre ++ Node l "" ch :: rest) vs) key = Some (true, l :: c :: p) ->
  get_int (Store vgc (pre ++ Node l "" ch :: rest) vs) key
  = int_of_text (match find (c :: p) ch with Some t => value t | None => "" end).
Proof.
  intros Hloc. cbn [get_int Tree]. f_equal. exact (get_focus key Hloc).
Qed.

Lemma set_focus (key val : string) (c : string) (p : list string) :
  locate (Store vgc (pre ++ Node l "" ch :: rest) vs) key = Some (true, l :: c :: p) ->
  set (Store vgc (pre ++ Node l "" ch :: rest) vs) key val = Store vgc (pre ++ Node l "" (set_at (c :: p) val ch) :: rest) vs.
Proof.
  intros Hloc. cbn [set Tree]. unfold on_nodes. rewrite Hloc. cbn [vg lv vars].
  f_equal. cbn [set_at]. rewrite edit_focus by (auto; reflexivity). reflexivity.
Qed.

Lemma set_int_focus (key : string) (val : Z) (c : string) (p : list string) :
  locate (Store vgc (pre ++ Node l "" ch :: rest) vs) key = Some (true, l :: c :: p) ->
  set_int (Store vgc (pre ++ Node l "" ch :: rest) vs) key val
  = Store vgc (pre ++ Node l "" (set_at (c :: p) (to_string_int val) ch) :: rest) vs.
Proof.
  intros Hloc. cbn [set_int Tree]. unfold on_nodes. rewrite Hloc. cbn [vg lv vars].
  f_equal. cbn [set_at]. rewrite edit_focus by (auto; reflexivity). reflexivity.
Qed.

Lemma rename_focus (key new : string) :
  locate (Store vgc (pre ++ Node l "" ch :: rest) vs) key = Some (true, [l]) ->
  rename (Store vgc (pre ++ Node l "" ch :: rest) vs) key new = Store vgc (pre ++ Node new "" ch :: rest) vs.
Proof.
  intros Hloc. cbn [rename Tree]. unfold on_nodes. rewrite Hloc. cbn [vg lv vars].
  f_equal. cbn [among]. unfold rename_child. rewrite edit_focus by (auto; reflexivity).
  reflexivity.
Qed.

Lemma remove_node_focus (key : string) :
  locate (Store vgc (pre ++ Node l "" ch :: rest) vs) key = Some (true, [l]) ->
  remove (Store vgc (pre ++ Node l "" ch :: rest) vs) key = Store vgc (pre ++ rest) vs.
Proof.
  intros Hloc. cbn [remove Tree]. unfold on_nodes. rewrite Hloc. cbn [vg lv vars].
  f_equal. cbn [among]. apply remove_focus; [exact Hpre | reflexivity].
Qed.

Lemma insert_node_focus (key new : string) (before : bool) :
  locate (Store vgc (pre ++ Node l "" ch :: rest) vs) key = Some (true, [l]) ->
  insert (Store vgc (pre ++ Node l "" ch :: rest) vs) key new before
  = Store vgc (pre ++ (if before then [Node new "" []; Node l "" ch]
                       else [Node l "" ch; Node new "" []]) ++ rest) vs.
Proof.
  intros Hloc. cbn [insert Tree]. unfold on_nodes. rewrite Hloc. cbn [vg lv vars].
  f_equal. cbn [among]. apply insert_focus; [exact Hpre | reflexivity].
Qed.

End Focus.



(** ** Consecutive indices and the nodes of consecutive segments *)

Lemma range_zseq (a b : Z) : LvmRotate.range a b = zseq a (Z.to_nat (b - a + 1)).
Proof.
  unfold LvmRotate.range. generalize (Z.to_nat (b - a + 1)) as n. intros n.
  assert (H : forall s a0, map (fun k => a0 + Z.of_nat k) (seq s n) = zseq (a0 + Z.of_nat s) n).
  { induction n as [|n IH]; intros s a0; cbn [seq map zseq]; [reflexivity|].
    f_equal. rewrite IH. f_equal. lia. }
  rewrite H. f_equal. lia.
Qed.

Lemma zseq_snoc (a : Z) (n : nat) : zseq a (S n) = zseq a n ++ [a + Z.of_nat n].
Proof.
  revert a. induction n as [|n IH]; intros a.
  - cbn. f_equal. lia.
  - change (zseq a (S (S n))) with (a :: zseq (a + 1) (S n)). rewrite IH.
    cbn [zseq app]. do 3 f_equal. lia.
Qed.

Lemma seg_nodes_app (i : Z) (A B : list segment) :
  seg_nodes i (A ++ B) = seg_nodes i A ++ seg_nodes (i + Z.of_nat (List.length A)) B.
Proof.
  revert i. induction A as [|g A IH]; intros i; cbn [seg_nodes app List.length].
  - f_equal. lia.
  - rewrite IH. do 3 f_equal. lia.
Qed.

Lemma seg_nodes_length (i : Z) (A : list segment) :
  List.length (seg_nodes i A) = List.length A.
Proof. revert i. induction A as [|g A IH]; intros i; cbn; [reflexivity | rewrite IH; reflexivity]. Qed.

Lemma unlike_app (l : string) (a b : list tree) : unlike l a -> unlike l b -> unlike l (a ++ b).
Proof. intros Ha Hb. apply Forall_app. split; assumption. Qed.

Lemma unlike_seg_nodes (j i : Z) (A : list segment) :
  0 <= j -> 0 <= i -> (j < i \/ i + Z.of_nat (List.length A) <= j) ->
  unlike (seg_label j) (seg_nodes i A).
Proof.
  intros Hj. revert i. induction A as [|g A IH]; intros i Hi Hout; cbn [seg_nodes].
  - constructor.
  - cbn [List.length] in Hout. constructor.
    + cbn [label]. rewrite seg_label_eqb by lia. apply Z.eqb_neq. lia.
    + apply IH; lia.
Qed.

Lemma unlike_count (j : Z) (v : string) : unlike (seg_label j) [leaf "segment_count" v].
Proof. constructor; [|constructor]. apply count_label_eqb. Qed.

Lemma unlike_node (j i : Z) (v : string) (ch : list tree) :
  0 <= j -> 0 <= i -> i <> j -> unlike (seg_label j) [Node (seg_label i) v ch].
Proof.
  intros Hj Hi Hne. constructor; [|constructor]. cbn [label].
  rewrite seg_label_eqb by lia. apply Z.eqb_neq. exact Hne.
Qed.

Lemma int_of_text_number (z : Z) : 0 <= z -> int_of_text (to_string z) = z.
Proof.
  intros Hz. rewrite <- (to_string_int_nonneg Hz). apply int_of_text_to_string. exact Hz.
Qed.

Lemma locate_seg_at (st : store) (i : Z) (rest : string) (p : list string) :
  split_path rest = p ->
  locate st (LvmRotate.seg i (String "/" rest)) = Some (true, seg_label i :: p).
Proof. intros <-. apply locate_seg. Qed.

(** ** The loops of [rotate_aug] on segments in a row *)

Section Loops.

Variables (vgc : list tree) (vs : list (string * list string)).

Lemma decr_loop (B : list segment) :
  forall (pre : list tree) (i0 : Z),
    0 <= i0 ->
    (forall j, i0 <= j -> unlike (seg_label j) pre) ->
    Forall (fun g => 1 <= start_extent g) B ->
    fold_left (fun aug i => decr aug (LvmRotate.seg i "/dict/start_extent"))
              (zseq i0 (List.length B)) (Store vgc (pre ++ seg_nodes i0 B) vs)
    = Store vgc (pre ++ seg_nodes i0 (map (shift_start (-1)) B)) vs.
Proof.
  induction B as [|g B IH]; intros pre i0 Hi0 Hpre Hstart; [reflexivity|].
  inversion Hstart as [|? ? Hg HB]; subst.
  cbn [List.length zseq fold_left seg_nodes map].
  unfold decr at 2. unfold incr.
  erewrite get_int_focus; [|apply Hpre; lia | apply locate_seg_at; reflexivity].
  erewrite set_int_focus; [|apply Hpre; lia | apply locate_seg_at; reflexivity].
  cbn [find child seg_dict leaf label children value String.eqb Ascii.eqb Bool.eqb set_at edit].
  rewrite int_of_text_number by lia. rewrite to_string_int_nonneg by lia.
  change (pre ++ ?x :: ?r) with (pre ++ [x] ++ r). rewrite app_assoc.
  rewrite IH; try assumption; try lia.
  - rewrite <- app_assoc. reflexivity.
  - intros j Hj. apply unlike_app; [apply Hpre; lia | apply unlike_node; lia].
Qed.

Lemma check_loop (B : list segment) :
  forall (pre : list tree) (i0 acc : Z) (s : sys),
    0 <= i0 ->
    (forall j, i0 <= j -> unlike (seg_label j) pre) ->
    Forall (fun g => 0 <= extent_count g) B ->
    fold_m (zseq i0 (List.length B)) acc
           (LvmRotate.check_segment (Store vgc (pre ++ seg_nodes i0 B) vs)) s
    = (s, Ok (acc + total B)).
Proof.
  induction B as [|g B IH]; intros pre i0 acc s Hi0 Hpre Hcount.
  - cbn. unfold ret. rewrite Z.add_0_r. reflexivity.
  - inversion Hcount as [|? ? Hg HB]; subst.
    cbn [List.length zseq fold_m seg_nodes total].
    unfold LvmRotate.check_segment at 1.
    erewrite get_focus; [|apply Hpre; lia | apply locate_seg_at; reflexivity].
    erewrite !get_int_focus; [|apply Hpre; lia | apply locate_seg_at; reflexivity
                              |apply Hpre; lia | apply locate_seg_at; reflexivity].
    cbn [find child seg_dict leaf label children value String.eqb Ascii.eqb Bool.eqb].
    rewrite int_of_text_number by lia.
    change (int_of_text "1") with 1. change ("striped" =? "striped")%string with true.
    change (1 =? 1) with true. unfold assert, bind, ret.
    change (pre ++ ?x :: ?r) with (pre ++ [x] ++ r). rewrite app_assoc.
    rewrite IH; try assumption; try lia.
    + f_equal. f_equal. lia.
    + intros j Hj. apply unlike_app; [apply Hpre; lia | apply unlike_node; lia].
Qed.

Lemma renumber_loop (C : list segment) :
  forall (pre : list tree) (i0 : Z),
    1 <= i0 ->
    (forall j, i0 <= j -> unlike (seg_label j) pre) ->
    fold_left (fun aug i => rename aug (LvmRotate.seg i "") ("segment" +++ to_string (i - 1)))
              (zseq i0 (List.length C)) (Store vgc (pre ++ seg_nodes i0 C) vs)
    = Store vgc (pre ++ seg_nodes (i0 - 1) C) vs.
Proof.
  induction C as [|g C IH]; intros pre i0 Hi0 Hpre; [reflexivity|].
  cbn [List.length zseq fold_left seg_nodes].
  erewrite rename_focus; [|apply Hpre; lia | apply locate_seg_node].
  change (pre ++ ?x :: ?r) with (pre ++ [x] ++ r). rewrite app_assoc.
  rewrite IH; try lia.
  - rewrite <- app_assoc. replace (i0 + 1 - 1) with (i0 - 1 + 1) by lia. reflexivity.
  - intros j Hj. apply unlike_app; [apply Hpre; lia|].
    change ("segment" +++ to_string (i0 - 1)) with (seg_label (i0 - 1)).
    apply unlike_node; lia.
Qed.

Lemma shift_up_loop (B : list segment) (pre : list tree) (i0 : Z) :
  0 <= i0 ->
  (forall j, i0 <= j -> unlike (seg_label j) pre) ->
  Forall (fun g => 0 <= start_extent g) B ->
  forall post : list tree,
    fold_left (fun aug i =>
                 let aug := incr aug (LvmRotate.seg i "/dict/start_extent") 1 in
                 rename aug (LvmRotate.seg i "") ("segment" +++ to_string (i + 1)))
              (rev (zseq i0 (List.length B)))
              (Store vgc (pre ++ seg_nodes i0 B ++ post) vs)
    = Store vgc (pre ++ seg_nodes (i0 + 1) (map (shift_start 1) B) ++ post) vs.
Proof.
  intros Hi0 Hpre. induction B as [|g B IH] using rev_ind; intros Hstart post; [reflexivity|].
  apply Forall_app in Hstart. destruct Hstart as [HB Hg]. inversion Hg as [|? ? Hg' _]; subst.
  rewrite length_app. cbn [List.length]. rewrite Nat.add_1_r, zseq_snoc, rev_app_distr.
  cbn [rev app fold_left].
  rewrite seg_nodes_app. cbn [seg_nodes]. rewrite <- !app_assoc. cbn [app].
  rewrite (app_assoc pre). unfold incr.
  assert (Hfresh : unlike (seg_label (i0 + Z.of_nat (List.length B)))
                          (pre ++ seg_nodes i0 B)).
  { apply unlike_app; [apply Hpre; lia | apply unlike_seg_nodes; lia]. }
  erewrite get_int_focus; [|exact Hfresh | apply locate_seg_at; reflexivity].
  erewrite set_int_focus; [|exact Hfresh | apply locate_seg_at; reflexivity].
  erewrite rename_focus; [|exact Hfresh | apply locate_seg_node].
  cbn [find child seg_dict leaf label children value String.eqb Ascii.eqb Bool.eqb set_at edit].
  rewrite int_of_text_number by lia. rewrite to_string_int_nonneg by lia.
  rewrite <- app_assoc. rewrite IH by assumption.
  rewrite map_app, seg_nodes_app, length_map. cbn [map seg_nodes]. rewrite <- !app_assoc.
  cbn [app]. change ("segment" +++ to_string ?x) with (seg_label x).
  replace (i0 + Z.of_nat (List.length B) + 1) with (i0 + 1 + Z.of_nat (List.length B)) by lia.
  reflexivity.
Qed.

End Loops.

(** ** The views used on the straight lines of [rotate_aug] *)

Section Views.

Variables (vgc : list tree) (vs : list (string * list string)).

Lemma locate_var (lvc : list tree) (key : string) (r : bool * list string) :
  locate (Store [] [] vs) key = Some r -> locate (Store vgc lvc vs) key = Some r.
Proof. intros H. exact H. Qed.

Lemma defvar_at (lvc : list tree) (name expr : string) (p : list string) :
  locate (Store vgc lvc vs) expr = Some (true, p) ->
  defvar (Store vgc lvc vs) name expr = Store vgc lvc (("$" +++ name, p) :: vs).
Proof. intros H. cbn [defvar Tree]. rewrite H. reflexivity. Qed.

Lemma count_get (v : string) (more : list tree) :
  get_int (Store vgc (leaf "segment_count" v :: more) vs) "$lv/segment_count" = int_of_text v.
Proof. reflexivity. Qed.

Lemma count_set (v : string) (more : list tree) (z : Z) :
  set_int (Store vgc (leaf "segment_count" v :: more) vs) "$lv/segment_count" z
  = Store vgc (leaf "segment_count" (to_string_int z) :: more) vs.
Proof. reflexivity. Qed.

End Views.


(** ** The fields of a segment *)

Section Fields.

Variable g : segment.

Lemma find_start_extent :
  find ["dict"; "start_extent"] [seg_dict g]
  = Some (Node "start_extent" (to_string (start_extent g)) []).
Proof. reflexivity. Qed.

Lemma find_extent_count :
  find ["dict"; "extent_count"] [seg_dict g]
  = Some (Node "extent_count" (to_string (extent_count g)) []).
Proof. reflexivity. Qed.

Lemma find_type :
  find ["dict"; "type"; "str"] [seg_dict g] = Some (Node "str" "striped" []).
Proof. reflexivity. Qed.

Lemma find_stripe_count :
  find ["dict"; "stripe_count"] [seg_dict g] = Some (Node "stripe_count" "1" []).
Proof. reflexivity. Qed.

Lemma find_pv :
  find ["dict"; "stripes"; "list"; "1"; "str"] [seg_dict g] = Some (Node "str" (pv g) []).
Proof. reflexivity. Qed.

Lemma find_pv_start :
  find ["dict"; "stripes"; "list"; "2"] [seg_dict g]
  = Some (Node "2" (to_string (pv_start g)) []).
Proof. reflexivity. Qed.

Lemma set_start_extent (z : Z) :
  set_at ["dict"; "start_extent"] (to_string z) [seg_dict g]
  = [seg_dict (Seg z (extent_count g) (pv g) (pv_start g))].
Proof. reflexivity. Qed.

Lemma set_extent_count (z : Z) :
  set_at ["dict"; "extent_count"] (to_string z) [seg_dict g]
  = [seg_dict (Seg (start_extent g) z (pv g) (pv_start g))].
Proof. reflexivity. Qed.

Lemma set_pv_start (z : Z) :
  set_at ["dict"; "stripes"; "list"; "2"] (to_string z) [seg_dict g]
  = [seg_dict (Seg (start_extent g) (extent_count g) (pv g) z)].
Proof. reflexivity. Qed.

End Fields.

(** A segment written field by field, in the order [rotate_aug] does. *)
Lemma set_new_segment (s o : Z) (p : string) :
  set_at ["dict"; "stripes"; "list"; "2"] (to_string o)
    (set_at ["dict"; "stripes"; "list"; "1"; "str"] p
       (set_at ["dict"; "stripe_count"] "1"
          (set_at ["dict"; "type"; "str"] "striped"
             (set_at ["dict"; "extent_count"] "1"
                (set_at ["dict"; "start_extent"] (to_string s) [])))))
  = [seg_dict (Seg s 1 p o)].
Proof. reflexivity. Qed.



(** ** One rotation, on the segments and on the tree *)

Ltac at_head :=
  match goal with
  | |- context [Store ?v (?a :: Node ?l ?x ?ch :: ?rest) ?vs] =>
      change (Store v (a :: Node l x ch :: rest) vs)
        with (Store v ([a] ++ Node l x ch :: rest) vs)
  end.

Ltac at_last :=
  match goal with
  | |- context [Store ?v (?a :: ?b :: ?mid ++ [?x]) ?vs] =>
      change (Store v (a :: b :: mid ++ [x]) vs) with (Store v ((a :: b :: mid) ++ [x]) vs)
  | |- context [Store ?v (?a :: ?mid ++ [?x]) ?vs] =>
      change (Store v (a :: mid ++ [x]) vs) with (Store v ((a :: mid) ++ [x]) vs)
  end.

Ltac flat :=
  repeat match goal with
         | |- context [Store ?v ([?a] ++ ?r) ?vs] =>
             change (Store v ([a] ++ r) vs) with (Store v (a :: r) vs)
         | |- context [Store ?v ((?a :: ?b :: ?mid) ++ ?r) ?vs] =>
             change (Store v ((a :: b :: mid) ++ r) vs) with (Store v (a :: b :: mid ++ r) vs)
         | |- context [Store ?v ((?a :: ?mid) ++ ?r) ?vs] =>
             change (Store v ((a :: mid) ++ r) vs) with (Store v (a :: mid ++ r) vs)
         end.

Ltac edits :=
  cbn [find child seg_dict leaf label children value String.eqb Ascii.eqb Bool.eqb
       set_at edit app].

Lemma unlike_cons (l : string) (x : tree) (pre : list tree) :
  (label x =? l)%string = false -> unlike l pre -> unlike l (x :: pre).
Proof. intros Hx Hpre. constructor; assumption. Qed.

Lemma unlike_nil (l : string) : unlike l [].
Proof. constructor. Qed.

Ltac apart :=
  repeat first [ apply unlike_nil
               | apply unlike_cons;
                 [first [apply count_label_eqb
                        | cbn [label]; rewrite seg_label_eqb by lia; apply Z.eqb_neq; lia]|]
               | apply unlike_seg_nodes; rewrite ?length_map; lia
               | apply unlike_app ].

Ltac refold :=
  unfold leaf;
  repeat match goal with
         | |- context [Node "dict" ""
                            [Node "start_extent" (to_string ?s) [];
                             Node "extent_count" (to_string ?c) [];
                             Node "type" "" [Node "str" "striped" []];
                             Node "stripe_count" "1" [];
                             Node "stripes" ""
                                  [Node "list" "" [Node "1" "" [Node "str" ?p []];
                                                   Node "2" (to_string ?o) []]]]] =>
             change (Node "dict" ""
                          [Node "start_extent" (to_string s) [];
                           Node "extent_count" (to_string c) [];
                           Node "type" "" [Node "str" "striped" []];
                           Node "stripe_count" "1" [];
                           Node "stripes" ""
                                [Node "list" "" [Node "1" "" [Node "str" p []];
                                                 Node "2" (to_string o) []]]])
               with (seg_dict (Seg s c p o))
         end.

Lemma insert_after_last (vgc : list tree) (vs : list (string * list string)) (v : string)
      (D : list segment) (n : Z) (new : string) :
  D <> [] -> n = Z.of_nat (List.length D) ->
  insert (Store vgc (Node "segment_count" v [] :: seg_nodes 1 D) vs) (LvmRotate.seg n "") new false
  = Store vgc (Node "segment_count" v [] :: seg_nodes 1 D ++ [Node new "" []]) vs.
Proof.
  intros HD ->. destruct (exists_last HD) as (D0 & gl & ->).
  rewrite seg_nodes_app. cbn [seg_nodes]. rewrite length_app. cbn [List.length].
  change (Node "segment_count" v [] :: ?a ++ [?x])
    with ((Node "segment_count" v [] :: a) ++ [x]).
  erewrite insert_node_focus.
  - cbn [app]. rewrite <- app_assoc. reflexivity.
  - apply unlike_cons; [apply count_label_eqb|]. apply unlike_seg_nodes; lia.
  - replace (1 + Z.of_nat (List.length D0)) with (Z.of_nat (List.length D0 + 1)) by lia.
    apply locate_seg_node.
Qed.

Ltac leads :=
  first [ apply locate_seg_at; cbv [split_path Ascii.eqb Bool.eqb andb]; reflexivity
        | apply locate_seg_node
        | cbv [locate split_path assoc vars String.eqb Ascii.eqb Bool.eqb andb String.append app];
          reflexivity ].

Ltac found := cbv beta iota delta [value].

Ltac step_let tac :=
  lazymatch goal with
  | |- (let aug := ?X in @?F aug) = ?R =>
      let E := fresh "E" in
      eassert (E : X = _); [tac | change (F X = R); rewrite E; clear E; cbv beta]
  end.

Lemma count_get_node (vgc : list tree) (vs : list (string * list string)) (v : string)
      (more : list tree) :
  get_int (Store vgc (Node "segment_count" v [] :: more) vs) "$lv/segment_count"
  = int_of_text v.
Proof. reflexivity. Qed.

Lemma count_set_node (vgc : list tree) (vs : list (string * list string)) (v : string)
      (more : list tree) (z : Z) :
  set_int (Store vgc (Node "segment_count" v [] :: more) vs) "$lv/segment_count" z
  = Store vgc (Node "segment_count" (to_string_int z) [] :: more) vs.
Proof. reflexivity. Qed.

Section Forward.

Variables (vgc : list tree) (vs0 : list (string * list string)) (g1 : segment)
          (rest : list segment).
Hypothesis Hg1 : sane g1.
Hypothesis Hrest : Forall (fun g => 1 <= start_extent g) rest.
Hypothesis Htotal : 1 <= total (g1 :: rest).

Lemma rotate_forward_tree :
  let N := Z.of_nat (List.length (g1 :: rest)) in
  exists vs',
    LvmRotate.rotate_forward
      (Store vgc (leaf "segment_count" (to_string (N + 1)) :: seg_nodes 1 (g1 :: rest)) vs0)
      N (total (g1 :: rest))
    = Store vgc (lv_tree (rotate_segs_forward (g1 :: rest))) vs'.
Proof.
  intros N. destruct Hg1 as (Hs1 & Hc1 & Ho1).
  assert (HN : N = Z.of_nat (List.length rest) + 1) by (unfold N; cbn [List.length]; lia).
  set (tot := total (g1 :: rest)) in *.
  set (rest' := map (shift_start (-1)) rest).
  set (g1a := Seg (start_extent g1) (extent_count g1 - 1) (pv g1) (pv_start g1)).
  set (g1b := Seg (start_extent g1) (extent_count g1 - 1) (pv g1) (pv_start g1 + 1)).
  set (new := Seg (tot - 1) 1 (pv g1) (pv_start g1)).
  assert (Hlen : Z.of_nat (List.length rest') = N - 1)
    by (unfold rest'; rewrite length_map; lia).
  eexists.
  cbn [seg_nodes]. change (1 + 1) with 2. unfold leaf.
  cbv delta [LvmRotate.rotate_forward] beta.
  (* $first *)
  step_let ltac:(
    erewrite defvar_at by leads; cbv [String.append];
    change "segment1" with (seg_label 1); reflexivity).
  (* shifting segments *)
  step_let ltac:(
    rewrite range_zseq;
    replace (Z.to_nat (N - 2 + 1)) with (List.length rest) by lia;
    change (Store vgc (?cl :: ?n :: seg_nodes 2 rest) ?vs)
      with (Store vgc ([cl; n] ++ seg_nodes 2 rest) vs);
    rewrite decr_loop; [|lia | intros j Hj; apart | exact Hrest];
    cbn [app]; fold rest'; reflexivity).
  (* shrinking first segment by one PE *)
  step_let ltac:(
    unfold decr, incr;
    at_head; erewrite get_int_focus; [|apart | leads];
    erewrite set_int_focus; [|apart | leads];
    rewrite find_extent_count; found;
    rewrite int_of_text_number by lia; rewrite to_string_int_nonneg by lia;
    rewrite set_extent_count; flat;
    change (extent_count g1 + -1) with (extent_count g1 - 1); fold g1a;
    reflexivity).
  (* inserting new segment at the end *)
  step_let ltac:(
    change (Store vgc (Node "segment_count" ?v [] :: Node (seg_label 1) "" [seg_dict g1a]
                            :: seg_nodes 2 rest') ?vs)
      with (Store vgc (Node "segment_count" v [] :: seg_nodes 1 (g1a :: rest')) vs);
    rewrite insert_after_last;
      [|discriminate | cbn [List.length]; lia];
    cbn [seg_nodes app]; change (1 + 1) with 2;
    change ("segment" +++ to_string (N + 1)) with (seg_label (N + 1));
    reflexivity).
  step_let ltac:(at_last; erewrite set_int_focus; [|apart | leads]; flat; reflexivity).
  step_let ltac:(erewrite defvar_at by leads; cbv [String.append]; reflexivity).
  step_let ltac:(at_last; erewrite set_int_focus; [|apart | leads]; flat; reflexivity).
  step_let ltac:(at_last; erewrite set_focus; [|apart | leads]; flat; reflexivity).
  step_let ltac:(at_last; erewrite set_int_focus; [|apart | leads]; flat; reflexivity).
  (* repossessing the first segment's first PE *)
  step_let ltac:(
    at_head; erewrite get_focus; [|apart | leads]; flat;
    at_last; erewrite set_focus; [|apart | leads]; flat;
    rewrite find_pv; found; reflexivity).
  step_let ltac:(
    at_head; erewrite get_int_focus; [|apart | leads]; flat;
    at_last; erewrite set_int_focus; [|apart | leads]; flat;
    rewrite find_pv_start; found;
    change (pv g1a) with (pv g1); change (pv_start g1a) with (pv_start g1);
    rewrite int_of_text_number by lia; rewrite !to_string_int_nonneg by lia;
    change (to_string_int 1) with "1";
    rewrite set_new_segment; fold new;
    reflexivity).
  step_let ltac:(
    unfold incr;
    at_head; erewrite get_int_focus; [|apart | leads];
    erewrite set_int_focus; [|apart | leads]; flat;
    rewrite find_pv_start; found;
    change (pv_start g1a) with (pv_start g1);
    rewrite int_of_text_number by lia; rewrite !to_string_int_nonneg by lia;
    rewrite set_pv_start;
    change (Seg (start_extent g1a) (extent_count g1a) (pv g1a) (pv_start g1 + 1)) with g1b;
    reflexivity).
  (* Cleaning up an empty first PE *)
  (at_head; erewrite get_int_focus; [|apart | leads]; flat;
    rewrite find_extent_count; found; change (extent_count g1b) with (extent_count g1 - 1);
    rewrite int_of_text_number by lia).
  unfold rotate_segs_forward. cbv zeta. fold tot. fold rest'. fold g1b. fold new.
  destruct (Z.eqb_spec (extent_count g1 - 1) 0) as [Hlast|Hmore]; cbv beta iota.
  - (* the first segment is gone *)
    at_head. erewrite remove_node_focus; [|apart | leads]. flat.
    replace (seg_label (N + 1)) with (seg_label (2 + Z.of_nat (List.length rest')))
      by (f_equal; lia).
    change [Node (seg_label (2 + Z.of_nat (List.length rest'))) "" [seg_dict new]]
      with (seg_nodes (2 + Z.of_nat (List.length rest')) [new]).
    rewrite <- seg_nodes_app.
    rewrite range_zseq.
    replace (Z.to_nat (N + 1 - 2 + 1)) with (List.length (rest' ++ [new]))
      by (rewrite length_app; cbn [List.length]; lia).
    change (Store vgc (?cl :: seg_nodes 2 ?C) ?vs) with (Store vgc ([cl] ++ seg_nodes 2 C) vs).
    rewrite renumber_loop; [|lia | intros j Hj; apart].
    change (2 - 1) with 1. cbn [app].
    unfold decr, incr. rewrite count_get_node, count_set_node.
    rewrite int_of_text_number by lia. rewrite to_string_int_nonneg by lia.
    unfold lv_tree, leaf. do 3 f_equal. f_equal. rewrite length_app. cbn [List.length]. lia.
  - unfold lv_tree, leaf. cbn [seg_nodes List.length]. change (1 + 1) with 2.
    rewrite seg_nodes_app.
    replace (2 + Z.of_nat (List.length rest')) with (N + 1) by lia.
    cbn [seg_nodes]. do 3 f_equal. f_equal. rewrite length_app. cbn [List.length]. lia.
Qed.

End Forward.

Lemma insert_before_first (vgc : list tree) (vs : list (string * list string)) (v : string)
      (up : list segment) (n : Z) (ch : list tree) (new : string) :
  n = 2 + Z.of_nat (List.length up) ->
  insert (Store vgc (Node "segment_count" v [] :: seg_nodes 2 up ++ [Node (seg_label n) "" ch]) vs)
         "$lv/segment2" new true
  = Store vgc (Node "segment_count" v [] :: Node new "" []
                    :: seg_nodes 2 up ++ [Node (seg_label n) "" ch]) vs.
Proof.
  intros ->. destruct up as [|u up]; cbn [seg_nodes app List.length].
  - change (2 + Z.of_nat 0) with 2.
    at_head. erewrite insert_node_focus; [|apart | leads]. reflexivity.
  - at_head. erewrite insert_node_focus; [|apart | leads]. reflexivity.
Qed.

Section Backward.

Variables (vgc : list tree) (vs0 : list (string * list string)) (before : list segment)
          (gN : segment).
Hypothesis Hbefore : Forall (fun g => 0 <= start_extent g) before.
Hypothesis HgN : sane gN.

Lemma rotate_backward_tree :
  let segs := before ++ [gN] in
  let N := Z.of_nat (List.length segs) in
  exists vs',
    LvmRotate.rotate_backward
      (Store vgc (leaf "segment_count" (to_string (N + 1)) :: seg_nodes 1 segs) vs0) N
    = Store vgc (lv_tree (rotate_segs_backward segs)) vs'.
Proof.
  intros segs N. destruct HgN as (HsN & HcN & HoN).
  assert (HN : N = Z.of_nat (List.length before) + 1)
    by (unfold N, segs; rewrite length_app; cbn [List.length]; lia).
  set (up := map (shift_start 1) before).
  set (gNa := Seg (start_extent gN + 1) (extent_count gN - 1) (pv gN) (pv_start gN)).
  set (new := Seg 0 1 (pv gN) (pv_start gN + (extent_count gN - 1))).
  assert (Hlen : Z.of_nat (List.length up) = N - 1)
    by (unfold up; rewrite length_map; lia).
  assert (Hresult : rotate_segs_backward segs
                    = if extent_count gN - 1 =? 0 then new :: up else new :: up ++ [gNa]).
  { unfold rotate_segs_backward, segs. rewrite rev_app_distr. cbn [rev app].
    rewrite rev_involutive. reflexivity. }
  rewrite Hresult. clear Hresult.
  eexists. unfold leaf.
  cbv delta [LvmRotate.rotate_backward] beta.
  (* shifting segments *)
  step_let ltac:(
    rewrite range_zseq;
    replace (Z.to_nat (N - 1 + 1)) with (List.length segs) by lia;
    rewrite <- (app_nil_r (seg_nodes 1 segs));
    change (Store vgc (?cl :: seg_nodes 1 segs ++ []) ?vs)
      with (Store vgc ([cl] ++ seg_nodes 1 segs ++ []) vs);
    rewrite shift_up_loop;
      [|lia | intros j Hj; apart
       | unfold segs; apply Forall_app; split; [exact Hbefore | constructor; [lia | constructor]]];
    rewrite app_nil_r; cbn [app]; unfold segs; rewrite map_app, seg_nodes_app, length_map;
    cbn [map seg_nodes]; change (1 + 1) with 2; fold up;
    replace (seg_label (2 + Z.of_nat (List.length before))) with (seg_label (N + 1))
      by (f_equal; lia);
    reflexivity).
  step_let ltac:(erewrite defvar_at by leads; cbv [String.append]; reflexivity).
  (* shrinking last segment by one PE *)
  step_let ltac:(
    unfold decr, incr;
    at_last; erewrite get_int_focus; [|apart | leads];
    erewrite set_int_focus; [|apart | leads];
    rewrite find_extent_count; found;
    change (extent_count (shift_start 1 gN)) with (extent_count gN);
    rewrite int_of_text_number by lia; rewrite to_string_int_nonneg by lia;
    rewrite set_extent_count; flat;
    change (Seg (start_extent (shift_start 1 gN)) (extent_count gN + -1)
                (pv (shift_start 1 gN)) (pv_start (shift_start 1 gN))) with gNa;
    reflexivity).
  step_let ltac:(
    at_last; erewrite get_int_focus; [|apart | leads]; flat;
    rewrite find_extent_count; found; change (extent_count gNa) with (extent_count gN - 1);
    rewrite int_of_text_number by lia; reflexivity).
  (* inserting new segment at the beginning *)
  step_let ltac:(
    rewrite insert_before_first by lia; change "segment1" with (seg_label 1); reflexivity).
  step_let ltac:(at_head; erewrite set_int_focus; [|apart | leads]; flat; reflexivity).
  step_let ltac:(
    erewrite defvar_at by leads; cbv [String.append];
    change "segment1" with (seg_label 1); reflexivity).
  step_let ltac:(at_head; erewrite set_int_focus; [|apart | leads]; flat; reflexivity).
  step_let ltac:(at_head; erewrite set_focus; [|apart | leads]; flat; reflexivity).
  step_let ltac:(at_head; erewrite set_int_focus; [|apart | leads]; flat; reflexivity).
  (* repossessing the last segment's last PE *)
  step_let ltac:(
    at_last; erewrite get_focus; [|apart | leads]; flat;
    at_head; erewrite set_focus; [|apart | leads]; flat;
    rewrite find_pv; found; change (pv gNa) with (pv gN); reflexivity).
  step_let ltac:(
    at_last; erewrite get_int_focus; [|apart | leads]; flat;
    at_head; erewrite set_int_focus; [|apart | leads]; flat;
    rewrite find_pv_start; found; change (pv_start gNa) with (pv_start gN);
    rewrite int_of_text_number by lia; rewrite !to_string_int_nonneg by lia;
    change (to_string_int 1) with "1"; change (to_string_int 0) with (to_string 0);
    rewrite set_new_segment; fold new;
    reflexivity).
  (* Cleaning up an empty last PE *)
  destruct (Z.eqb_spec (extent_count gN - 1) 0) as [Hlast|Hmore]; cbv beta iota.
  - at_last. erewrite remove_node_focus; [|apart | leads]. rewrite app_nil_r.
    unfold decr, incr. rewrite count_get_node, count_set_node.
    rewrite int_of_text_number by lia. rewrite to_string_int_nonneg by lia.
    unfold lv_tree, leaf. cbn [seg_nodes List.length]. change (1 + 1) with 2.
    do 3 f_equal. f_equal. lia.
  - unfold lv_tree, leaf. cbn [seg_nodes List.length]. change (1 + 1) with 2.
    rewrite seg_nodes_app.
    replace (2 + Z.of_nat (List.length up)) with (N + 1) by lia.
    cbn [seg_nodes]. do 3 f_equal. f_equal. rewrite length_app. cbn [List.length]. lia.
Qed.

End Backward.



(** ** Volumes laid out from extent 0 *)

Lemma total_app (a b : list segment) : total (a ++ b) = total a + total b.
Proof. induction a as [|g a IH]; cbn [total app]; [reflexivity | rewrite IH; lia]. Qed.

Lemma total_shift (d : Z) (a : list segment) : total (map (shift_start d) a) = total a.
Proof. induction a as [|g a IH]; cbn [total map]; [reflexivity | rewrite IH; reflexivity]. Qed.

Lemma laid_out_shift (d : Z) (a : list segment) :
  forall s, laid_out s a -> laid_out (s + d) (map (shift_start d) a).
Proof.
  induction a as [|g a IH]; intros s H; cbn [laid_out map] in *; [exact I|].
  destruct H as (Hs & Hc & Ho & H). cbn [shift_start start_extent extent_count pv_start].
  repeat split; try lia.
  replace (s + d + extent_count g) with (s + extent_count g + d) by lia. apply IH. exact H.
Qed.

Lemma laid_out_app (a b : list segment) :
  forall s, laid_out s (a ++ b) <-> laid_out s a /\ laid_out (s + total a) b.
Proof.
  induction a as [|g a IH]; intros s; cbn [laid_out app total].
  - rewrite Z.add_0_r. tauto.
  - rewrite IH. replace (s + extent_count g + total a) with (s + (extent_count g + total a)) by lia.
    tauto.
Qed.

Lemma laid_out_sane (a : list segment) :
  forall s, 0 <= s -> laid_out s a ->
            Forall sane a /\ Forall (fun g => s <= start_extent g) a.
Proof.
  induction a as [|g a IH]; intros s Hs H; cbn [laid_out] in H; [split; constructor|].
  destruct H as (Hst & Hc & Ho & H).
  destruct (IH (s + extent_count g) ltac:(lia) H) as [Hsane Hfrom].
  split; constructor; try assumption.
  - unfold sane. lia.
  - lia.
  - eapply Forall_impl; [|exact Hfrom]. cbn. intros x Hx. lia.
Qed.

Lemma seg_eq (s s' c c' : Z) (p : string) (o o' : Z) :
  s = s' -> c = c' -> o = o' -> Seg s c p o = Seg s' c' p o'.
Proof. intros -> -> ->. reflexivity. Qed.

Ltac segs_eq :=
  repeat first [ reflexivity | lia | apply seg_eq | apply (f_equal2 (@cons segment)) ].

Lemma shift_back (g : segment) : shift_start 1 (shift_start (-1) g) = g.
Proof. destruct g as [s c p o]. unfold shift_start. cbn. f_equal. lia. Qed.

Lemma shift_forth (g : segment) : shift_start (-1) (shift_start 1 g) = g.
Proof. destruct g as [s c p o]. unfold shift_start. cbn. f_equal. lia. Qed.

Lemma map_shift_back (a : list segment) :
  map (shift_start 1) (map (shift_start (-1)) a) = a.
Proof. rewrite map_map. rewrite <- (map_id a) at 2. apply map_ext. exact shift_back. Qed.

Lemma map_shift_forth (a : list segment) :
  map (shift_start (-1)) (map (shift_start 1) a) = a.
Proof. rewrite map_map. rewrite <- (map_id a) at 2. apply map_ext. exact shift_forth. Qed.

Lemma rotate_segs_backward_snoc (before : list segment) (gN : segment) :
  rotate_segs_backward (before ++ [gN])
  = Seg 0 1 (pv gN) (pv_start gN + (extent_count gN - 1))
        :: map (shift_start 1) before
        ++ (if extent_count gN - 1 =? 0 then []
            else [Seg (start_extent gN + 1) (extent_count gN - 1) (pv gN) (pv_start gN)]).
Proof.
  unfold rotate_segs_backward. rewrite rev_app_distr. cbn [rev app].
  rewrite rev_involutive. cbv zeta.
  destruct (extent_count gN - 1 =? 0); [rewrite app_nil_r|]; reflexivity.
Qed.

(** Forward, then backward: the first segment comes back split. *)
Lemma backward_forward_segs (segs : list segment) :
  laid_out 0 segs ->
  rotate_segs_backward (rotate_segs_forward segs) = split_first segs.
Proof.
  destruct segs as [|g1 rest]; [reflexivity|]. intros H. cbn [laid_out] in H.
  destruct H as (Hs & Hc & Ho & H).
  unfold rotate_segs_forward, split_first. cbv zeta.
  set (new := Seg (total (g1 :: rest) - 1) 1 (pv g1) (pv_start g1)).
  destruct (Z.eqb_spec (extent_count g1 - 1) 0) as [H1|H1];
    destruct (Z.eqb_spec (extent_count g1) 1) as [H1'|H1']; try lia.
  - rewrite rotate_segs_backward_snoc. rewrite map_shift_back.
    cbn [extent_count new pv pv_start].
    change (1 - 1 =? 0) with true. cbv iota. rewrite app_nil_r. f_equal.
    destruct g1 as [s c p o]. cbn in *. subst. f_equal; lia.
  - change (?x :: map (shift_start (-1)) rest ++ [new])
      with ((x :: map (shift_start (-1)) rest) ++ [new]).
    rewrite rotate_segs_backward_snoc. cbn [map]. rewrite map_shift_back.
    cbn [extent_count new pv pv_start shift_start start_extent].
    change (1 - 1 =? 0) with true. cbv iota. rewrite app_nil_r, Hs.
    unfold shift_start. cbn [start_extent extent_count pv pv_start].
    segs_eq.
Qed.

(** Backward, then forward: the last segment comes back split. *)
Lemma forward_backward_segs (segs : list segment) :
  laid_out 0 segs ->
  rotate_segs_forward (rotate_segs_backward segs) = split_last segs.
Proof.
  intros H. unfold rotate_segs_backward, split_last.
  destruct (rev segs) as [|gN before] eqn:Hrev; [reflexivity|].
  assert (Hsegs : segs = rev before ++ [gN]).
  { rewrite <- (rev_involutive segs), Hrev. reflexivity. }
  rewrite Hsegs in H. apply laid_out_app in H. destruct H as [Hbefore HN].
  cbn [laid_out] in HN. destruct HN as (Hs & Hc & Ho & _). rewrite Z.add_0_l in Hs.
  cbv zeta.
  set (up := map (shift_start 1) (rev before)).
  assert (Hup : total up = total (rev before)) by apply total_shift.
  destruct (Z.eqb_spec (extent_count gN - 1) 0) as [H1|H1];
    destruct (Z.eqb_spec (extent_count gN) 1) as [H1'|H1']; try lia.
  - unfold rotate_segs_forward. cbv zeta. cbn [extent_count pv pv_start start_extent].
    change (1 - 1 =? 0) with true. cbv iota.
    unfold up. rewrite map_shift_forth. rewrite Hsegs. f_equal.
    cbn [total extent_count]. rewrite total_shift.
    destruct gN as [s0 c p o]. cbn [start_extent extent_count pv pv_start] in *.
    subst s0. segs_eq.
  - unfold rotate_segs_forward. cbv zeta. cbn [extent_count pv pv_start start_extent].
    change (1 - 1 =? 0) with true. cbv iota.
    rewrite map_app. unfold up. rewrite map_shift_forth.
    cbn [map shift_start start_extent extent_count pv pv_start].
    rewrite <- app_assoc. f_equal. cbn [app].
    cbn [total extent_count]. rewrite total_app, total_shift.
    cbn [total extent_count]. unfold shift_start.
    cbn [start_extent extent_count pv pv_start]. rewrite Hs. segs_eq.
Qed.

Lemma extents_of_split (p : string) (o a b : Z) (s1 s2 s3 : Z) :
  0 <= a -> 0 <= b ->
  extents_of (Seg s1 a p o) ++ extents_of (Seg s2 b p (o + a)) = extents_of (Seg s3 (a + b) p o).
Proof.
  intros Ha Hb. unfold extents_of. cbn [extent_count pv pv_start].
  rewrite Z2Nat.inj_add by lia. rewrite seq_app, map_app. f_equal.
  assert (Hgen : forall n j,
             map (fun k => (p, o + a + Z.of_nat k)) (seq j n)
             = map (fun k => (p, o + Z.of_nat k)) (seq (j + Z.to_nat a) n)).
  { induction n as [|n IH]; intros j; [reflexivity|].
    cbn [seq map]. rewrite IH. f_equal. f_equal. lia. }
  apply Hgen.
Qed.

Lemma extents_split_first (segs : list segment) :
  laid_out 0 segs -> extents (split_first segs) = extents segs.
Proof.
  destruct segs as [|g1 rest]; [reflexivity|]. cbn [laid_out]. intros (Hs & Hc & Ho & _).
  unfold split_first. destruct (Z.eqb_spec (extent_count g1) 1) as [H1|H1]; [reflexivity|].
  unfold extents. cbn [flat_map]. rewrite app_assoc. f_equal.
  rewrite (@extents_of_split (pv g1) (pv_start g1) 1 (extent_count g1 - 1) 0 1 (start_extent g1))
    by lia.
  replace (1 + (extent_count g1 - 1)) with (extent_count g1) by lia.
  destruct g1; reflexivity.
Qed.

Lemma extents_split_last (segs : list segment) :
  laid_out 0 segs -> extents (split_last segs) = extents segs.
Proof.
  intros H. unfold split_last.
  destruct (rev segs) as [|gN before] eqn:Hrev; [destruct segs; [reflexivity|]|].
  { apply (f_equal (@List.length segment)) in Hrev. rewrite length_rev in Hrev. discriminate. }
  assert (Hsegs : segs = rev before ++ [gN]).
  { rewrite <- (rev_involutive segs), Hrev. reflexivity. }
  destruct (Z.eqb_spec (extent_count gN) 1) as [H1|H1]; [reflexivity|].
  rewrite Hsegs in H. apply laid_out_app in H. destruct H as [_ HN].
  cbn [laid_out] in HN. destruct HN as (Hs & Hc & Ho & _).
  rewrite Hsegs. unfold extents. rewrite !flat_map_app. f_equal.
  cbn [flat_map]. rewrite !app_nil_r.
  rewrite (@extents_of_split (pv gN) (pv_start gN) (extent_count gN - 1) 1
             (start_extent gN) (start_extent gN + (extent_count gN - 1)) (start_extent gN))
    by lia.
  replace (extent_count gN - 1 + 1) with (extent_count gN) by lia.
  destruct gN; reflexivity.
Qed.

(** The rotations keep a volume laid out from extent 0, with the same number of extents. *)
Lemma rotate_segs_forward_total (segs : list segment) :
  total (rotate_segs_forward segs) = total segs.
Proof.
  destruct segs as [|g1 rest]; [reflexivity|]. unfold rotate_segs_forward. cbv zeta.
  destruct (extent_count g1 - 1 =? 0) eqn:E;
    cbn [total extent_count]; rewrite total_app, total_shift; cbn [total extent_count]; lia.
Qed.

Lemma rotate_segs_backward_total (segs : list segment) :
  total (rotate_segs_backward segs) = total segs.
Proof.
  destruct (rev segs) as [|gN before] eqn:Hrev.
  - unfold rotate_segs_backward. rewrite Hrev.
    destruct segs; [reflexivity|].
    apply (f_equal (@List.length segment)) in Hrev. rewrite length_rev in Hrev. discriminate.
  - assert (Hsegs : segs = rev before ++ [gN]).
    { rewrite <- (rev_involutive segs), Hrev. reflexivity. }
    rewrite Hsegs, rotate_segs_backward_snoc.
    cbn [total extent_count]. rewrite !total_app, total_shift.
    destruct (extent_count gN - 1 =? 0) eqn:E; cbn [total extent_count]; lia.
Qed.

Lemma rotate_segs_forward_laid_out (segs : list segment) :
  laid_out 0 segs -> laid_out 0 (rotate_segs_forward segs).
Proof.
  destruct segs as [|g1 rest]; [intros; exact I|]. cbn [laid_out].
  intros (Hs & Hc & Ho & H). unfold rotate_segs_forward. cbv zeta.
  apply (laid_out_shift (-1)) in H.
  destruct (Z.eqb_spec (extent_count g1 - 1) 0) as [H1|H1].
  - apply laid_out_app. split.
    + replace 0 with (0 + extent_count g1 + -1) at 1 by lia. exact H.
    + cbn [laid_out total start_extent extent_count pv_start]. rewrite total_shift.
      repeat split; lia.
  - cbn [laid_out start_extent extent_count pv_start]. repeat split; try lia.
    apply laid_out_app. split.
    + replace (0 + (extent_count g1 - 1)) with (0 + extent_count g1 + -1) by lia. exact H.
    + cbn [laid_out total start_extent extent_count pv_start]. rewrite total_shift.
      repeat split; lia.
Qed.

Lemma rotate_segs_backward_laid_out (segs : list segment) :
  laid_out 0 segs -> laid_out 0 (rotate_segs_backward segs).
Proof.
  intros H. destruct (rev segs) as [|gN before] eqn:Hrev.
  - unfold rotate_segs_backward. rewrite Hrev. exact I.
  - assert (Hsegs : segs = rev before ++ [gN]).
    { rewrite <- (rev_involutive segs), Hrev. reflexivity. }
    rewrite Hsegs in H |- *. apply laid_out_app in H. destruct H as [Hbefore HN].
    cbn [laid_out] in HN. destruct HN as (Hs & Hc & Ho & _).
    rewrite rotate_segs_backward_snoc.
    cbn [laid_out start_extent extent_count pv_start]. repeat split; try lia.
    apply laid_out_app. split.
    + apply (laid_out_shift 1) in Hbefore. exact Hbefore.
    + rewrite total_shift.
      destruct (Z.eqb_spec (extent_count gN - 1) 0) as [H1|H1]; [exact I|].
      cbn [laid_out start_extent extent_count pv_start]. repeat split; lia.
Qed.

Lemma extent_size_get (v : string) (lvs : list tree) (vs : list (string * list string)) :
  get_int (Store [leaf "extent_size" v] lvs vs) "$vg/extent_size" = int_of_text v.
Proof. reflexivity. Qed.

Lemma bytes_to_sector_run (b : Z) (s : sys) :
  b mod 512 = 0 -> bytes_to_sector b s = (s, Ok (b / 512)).
Proof.
  intros H. unfold bytes_to_sector, bind, assert. cbv zeta.
  rewrite H. reflexivity.
Qed.

(** [rotate_aug] on the tree of a valid volume: the checks pass, nothing
    outside the handle is touched, and the rotation proper runs on the tree
    with its segment count already raised by one. *)
Lemma rotate_aug_checks (pe_sectors size : Z) (vs0 : list (string * list string))
      (segs : list segment) (forward : bool) (s : sys) :
  valid_lv pe_sectors size segs ->
  let vgc := [leaf "extent_size" (to_string pe_sectors)] in
  let N := Z.of_nat (List.length segs) in
  let aug := Store vgc (leaf "segment_count" (to_string (N + 1)) :: seg_nodes 1 segs) vs0 in
  LvmRotate.rotate_aug (Store vgc (lv_tree segs) vs0) forward size s
  = (s, Ok (if forward then LvmRotate.rotate_forward aug N (total segs)
            else LvmRotate.rotate_backward aug N)).
Proof.
  intros (Hne & Hlaid & Htotal & Hpe & Hsize & Hsectors) vgc N aug.
  destruct (laid_out_sane segs (Z.le_refl 0) Hlaid) as [Hsane Hfrom].
  assert (HN : 0 <= N) by (unfold N; lia).
  unfold LvmRotate.rotate_aug. cbv zeta.
  subst vgc. unfold lv_tree. fold N.
  rewrite extent_size_get, int_of_text_number by exact Hpe.
  unfold Augeas.incr.
  rewrite !count_get, !int_of_text_number by exact HN.
  rewrite count_set, to_string_int_nonneg by lia. fold aug.
  rewrite range_zseq. replace (Z.to_nat (N - 1 + 1)) with (List.length segs) by (unfold N; lia).
  unfold bind.
  unfold aug at 1.
  change (leaf "segment_count" (to_string (N + 1)) :: seg_nodes 1 segs)
    with ([leaf "segment_count" (to_string (N + 1))] ++ seg_nodes 1 segs).
  rewrite check_loop; cycle 1.
  { lia. }
  { intros j _. apply unlike_count. }
  { eapply Forall_impl; [|exact Hsane]. unfold sane. cbn. intros g Hg. lia. }
  rewrite Z.add_0_l, (@bytes_to_sector_run size s Hsize), Hsectors, Z.eqb_refl.
  unfold assert. destruct (Z.gtb_spec (total segs) 1) as [_|Hle]; [|lia].
  reflexivity.
Qed.

Lemma rotate_aug_tree (pe_sectors size : Z) (vs0 : list (string * list string))
      (segs : list segment) (forward : bool) (s : sys) :
  valid_lv pe_sectors size segs ->
  exists vs',
    LvmRotate.rotate_aug (Store [leaf "extent_size" (to_string pe_sectors)] (lv_tree segs) vs0)
                         forward size s
    = (s, Ok (Store [leaf "extent_size" (to_string pe_sectors)]
                    (lv_tree (if forward then rotate_segs_forward segs
                              else rotate_segs_backward segs)) vs')).
Proof.
  intros Hvalid. rewrite (rotate_aug_checks vs0 forward s Hvalid). cbv zeta.
  destruct Hvalid as (Hne & Hlaid & Htotal & Hpe & Hsize & Hsectors).
  destruct (laid_out_sane segs (Z.le_refl 0) Hlaid) as [Hsane Hfrom].
  destruct forward.
  - destruct segs as [|g1 rest]; [congruence|].
    cbn [laid_out] in Hlaid. destruct Hlaid as (Hs & Hc & Ho & Hrest).
    destruct (laid_out_sane rest (s := 0 + extent_count g1) ltac:(lia) Hrest) as [_ Hrest1].
    destruct (@rotate_forward_tree [leaf "extent_size" (to_string pe_sectors)] vs0 g1 rest)
      as [vs' Hrun].
    + unfold sane. lia.
    + eapply Forall_impl; [|exact Hrest1]. cbn. intros g Hg. lia.
    + lia.
    + exists vs'. cbv zeta in Hrun. rewrite Hrun. reflexivity.
  - destruct (exists_last Hne) as (before & gN & ->).
    apply Forall_app in Hsane, Hfrom. destruct Hsane as [_ HgN]. destruct Hfrom as [Hbefore _].
    inversion HgN as [|? ? HgN' _]; subst.
    destruct (@rotate_backward_tree [leaf "extent_size" (to_string pe_sectors)] vs0 before gN
                Hbefore HgN') as [vs' Hrun].
    exists vs'. cbv zeta in Hrun. rewrite Hrun. reflexivity.
Qed.

Lemma rotate_segs_valid (pe_sectors size : Z) (segs : list segment) (forward : bool) :
  valid_lv pe_sectors size segs ->
  valid_lv pe_sectors size (if forward then rotate_segs_forward segs
                            else rotate_segs_backward segs).
Proof.
  intros (Hne & Hlaid & Htotal & Hpe & Hsize & Hsectors).
  destruct forward.
  - unfold valid_lv. rewrite rotate_segs_forward_total.
    repeat split; try assumption; [|apply rotate_segs_forward_laid_out; exact Hlaid].
    destruct segs as [|g1 rest]; [congruence|]. unfold rotate_segs_forward. cbv zeta.
    destruct (extent_count g1 - 1 =? 0); [|discriminate].
    destruct (map (shift_start (-1)) rest); discriminate.
  - unfold valid_lv. rewrite rotate_segs_backward_total.
    repeat split; try assumption; [|apply rotate_segs_backward_laid_out; exact Hlaid].
    destruct (exists_last Hne) as (before & gN & ->).
    rewrite rotate_segs_backward_snoc. discriminate.
Qed.

Lemma split_first_same (segs : list segment) :
  segs <> [] -> (lv_tree (split_first segs) = lv_tree segs <-> first_count segs = 1).
Proof.
  destruct segs as [|g1 rest]; [congruence|]. intros _.
  unfold split_first, first_count.
  destruct (Z.eqb_spec (extent_count g1) 1) as [H1|H1]; [tauto|].
  split; [|tauto]. unfold lv_tree. intros H. exfalso.
  injection H as H _. apply to_string_inj in H; [|lia|lia].
  cbn [List.length] in H. lia.
Qed.

Lemma split_last_same (segs : list segment) :
  segs <> [] -> (lv_tree (split_last segs) = lv_tree segs <-> last_count segs = 1).
Proof.
  intros Hne. destruct (exists_last Hne) as (before & gN & ->).
  unfold split_last, last_count, first_count. rewrite rev_app_distr. cbn [rev app].
  destruct (Z.eqb_spec (extent_count gN) 1) as [H1|H1]; [tauto|].
  split; [|tauto]. unfold lv_tree. intros H. exfalso.
  injection H as H _. apply to_string_inj in H; [|lia|lia].
  rewrite rev_involutive, !length_app in H. cbn [List.length] in H. lia.
Qed.

Lemma split_same_segs (segs : list segment) (forward : bool) :
  laid_out 0 segs ->
  (if negb forward then rotate_segs_forward (if forward then rotate_segs_forward segs
                                             else rotate_segs_backward segs)
   else rotate_segs_backward (if forward then rotate_segs_forward segs
                              else rotate_segs_backward segs))
  = if forward then split_first segs else split_last segs.
Proof.
  intros H. destruct forward; cbn [negb];
    [apply backward_forward_segs | apply forward_backward_segs]; exact H.
Qed.


Lemma s5_valid : valid_lv 8192 33554432 s5_segs.
Proof.
  unfold valid_lv, s5_segs. cbn [laid_out total start_extent extent_count pv_start].
  repeat split; try lia; try discriminate; reflexivity.
Qed.



End RotateTree.

Unset Implicit Arguments.

(** * Further properties of the code

    What the functions around the claims do on their own: the arithmetic of
    blocks_types.h, the LUKS and filesystem layers, the block stack, the
    synthetic device, and the commands built on them. *)

Set Implicit Arguments.

(** ** Generic steps *)

Lemma returned_run {A} (r : sys * outcome A) :
  returned r -> exists s' a, r = (s', Ok a).
Proof. destruct r as [s' o]. intros [a Ha]. cbn in Ha. subst o. eauto. Qed.

Lemma run_returned {A} (r : sys * outcome A) (s' : sys) (a : A) :
  r = (s', Ok a) -> returned r.
Proof. intros ->. exists a. reflexivity. Qed.

Lemma fold_m_inv {A B} (I : B -> Prop) (body : B -> A -> M B) (l : list A) :
  (forall b x s1 s2 b', I b -> body b x s1 = (s2, Ok b') -> I b') ->
  forall acc s s' r, I acc -> fold_m l acc body s = (s', Ok r) -> I r.
Proof.
  intros Hbody. induction l as [|x l IH]; intros acc s s' r Hacc H; cbn [fold_m] in H.
  - apply ok_inj in H. destruct H as [_ <-]. exact Hacc.
  - apply bind_ok_inv in H. destruct H as (s1 & b & H1 & H).
    apply (IH b s1 s' r); [|exact H]. exact (Hbody acc x s s1 b Hacc H1).
Qed.

Lemma emits_bind_run (P : event -> bool) {A B} (m : M A) (k : A -> M B) :
  emits P m -> (forall s s' a, m s = (s', Ok a) -> emits P (k a)) -> emits P (bind m k).
Proof.
  intros Hm Hk s. unfold bind. pose proof (Hm s) as Hs.
  destruct (m s) as [s1 [a|w|w|c]] eqn:Hrun; try exact Hs.
  eapply emits_after; [exact Hm | exact (Hk s s1 a Hrun) |]. rewrite Hrun. reflexivity.
Qed.

Lemma when_ok (b : bool) (m : M unit) (s s' : sys) (u : unit) :
  when b m s = (s', Ok u) -> (b = false /\ s' = s) \/ (b = true /\ m s = (s', Ok u)).
Proof.
  unfold when. destruct b; intros H; [right; auto|left].
  apply ok_inj in H. destruct H as [<- _]. auto.
Qed.

Lemma finally_ok_inv {A} (m : M A) (destructor : M unit) (s s' : sys) (a : A) :
  finally m destructor s = (s', Ok a) -> exists s1, m s = (s1, Ok a).
Proof.
  unfold finally. destruct (m s) as [s1 [a0|w|w|c]]; try discriminate.
  - destruct (destructor s1) as [s2 [u|w|w|c]]; try discriminate.
    intros H. inversion H; subst. eauto.
  - destruct (destructor s1) as [s2 [u|w'|w'|c]]; discriminate.
Qed.

Lemma catch_ok_inv {A} (m : M A) (handler : string -> M A) (s s' : sys) (a : A) :
  catch m handler s = (s', Ok a) ->
  m s = (s', Ok a) \/ exists s1 w, m s = (s1, Throw w) /\ handler w s1 = (s', Ok a).
Proof.
  unfold catch. destruct (m s) as [s1 [a0|w|w|c]]; intros H; try discriminate; eauto.
Qed.

Lemma bail_stops {A} (p : ProgressListener) (msg : string) (s : sys) :
  ~ returned (@bail A p msg s).
Proof. intros [a Ha]. destruct p; cbn in Ha; discriminate. Qed.

Lemma quiet_call_done (E : Env) (cmd : list string) (table : string) (s s' : sys) (u : unit) :
  quiet_call E cmd table s = (s', Ok u) ->
  log s' = log s ++ [Call cmd table] /\ call_status E (log s') cmd = 0.
Proof.
  unfold quiet_call, bind, emit, ask, throw, ret. cbn [log disks]. intros H.
  destruct (Z.eqb_spec (call_status E (log s ++ [Call cmd table]) cmd) 0) as [H0|_];
    [|discriminate].
  apply ok_inj in H. destruct H as [<- _]. cbn [log]. auto.
Qed.

Lemma to_off_t_small (z : Z) : 0 <= z < 2 ^ 63 -> to_off_t z = z.
Proof. intros H. unfold to_off_t. destruct (Z.ltb_spec z (2 ^ 63)); lia. Qed.

(** ** blocks_types.h: rounding *)

Lemma align_bounds (size a : Z) :
  0 < a -> 0 <= size < two64 ->
  align size a mod a = 0 /\ align size a <= size < align size a + a.
Proof.
  intros Ha Hs. unfold align.
  assert (H64 : two64 = 18446744073709551616) by reflexivity.
  pose proof (Z.mul_div_le size a Ha) as Hle.
  pose proof (Z.div_pos size a (proj1 Hs) Ha) as Hq.
  pose proof (Z_div_mod_eq_full size a) as Hdm.
  pose proof (Z.mod_pos_bound size a Ha) as Hm.
  rewrite u64_small by nia.
  split; [apply Z.mod_mul; lia | nia].
Qed.

Lemma intdiv_up_spec (num denom : Z) :
  0 < denom -> 1 <= num < two64 ->
  intdiv_up num denom = (num + denom - 1) / denom.
Proof.
  intros Hd Hn. unfold intdiv_up.
  assert (H64 : two64 = 18446744073709551616) by reflexivity.
  rewrite (u64_small (num - 1)) by lia.
  replace (num + denom - 1) with (num - 1 + 1 * denom) by lia.
  rewrite Z.div_add by lia.
  apply u64_small.
  pose proof (Z.div_pos (num - 1) denom ltac:(lia) Hd).
  pose proof (Z.div_le_upper_bound (num - 1) denom (num - 1) Hd ltac:(nia)). lia.
Qed.

Lemma align_up_bounds (size a : Z) :
  0 < a -> 1 <= size -> size + a <= two64 ->
  align_up size a mod a = 0 /\ size <= align_up size a < size + a.
Proof.
  intros Ha Hs Hfit. unfold align_up.
  assert (H64 : two64 = 18446744073709551616) by reflexivity.
  rewrite intdiv_up_spec by lia.
  pose proof (Z_div_mod_eq_full (size + a - 1) a) as Hdm.
  pose proof (Z.mod_pos_bound (size + a - 1) a Ha) as Hm.
  pose proof (Z.div_pos (size + a - 1) a ltac:(lia) Ha) as Hq.
  rewrite u64_small by nia.
  split; [apply Z.mod_mul; lia | nia].
Qed.

(** X1.  [align(size, a)] rounds down to a multiple of [a]: for a non-zero
    alignment the result is a multiple of [a], at most [size], and less than
    [a] below it. *)
Theorem align_rounds_down (size a : Z) :
  0 < a -> 0 <= size < two64 ->
  align size a mod a = 0 /\ align size a <= size < align size a + a.
Proof. intros Ha Hs. exact (align_bounds Ha Hs). Qed.

Lemma align_rounds_down_witness :
  align 10485761 4096 mod 4096 = 0 /\
  align 10485761 4096 <= 10485761 < align 10485761 4096 + 4096.
Proof. apply (@align_rounds_down 10485761 4096); unfold two64; lia. Defined.

(** X2.  [align_up(size, a)] rounds up to a multiple of [a]: for a size of at
    least 1 and as long as size + a does not leave 64 bits, the result is a
    multiple of [a], at least [size], and less than [a] above it. *)
Theorem align_up_rounds_up (size a : Z) :
  0 < a -> 1 <= size -> size + a <= two64 ->
  align_up size a mod a = 0 /\ size <= align_up size a < size + a.
Proof. intros Ha Hs Hfit. exact (align_up_bounds Ha Hs Hfit). Qed.

Lemma align_up_rounds_up_witness :
  align_up 1000 512 mod 512 = 0 /\ 1000 <= align_up 1000 512 < 1000 + 512.
Proof. apply (@align_up_rounds_up 1000 512); unfold two64; lia. Defined.

(** X3.  At size 0 the subtraction in [intdiv_up] wraps: [intdiv_up(0, a)] is
    2^64 / a, not 0.  For an alignment that divides 2^64 (a power of two, as
    the 512 of [dev_resize]) the product wraps back and [align_up(0, a)] is
    0. *)
Theorem align_up_zero (a : Z) :
  0 < a -> (a | two64) -> align_up 0 a = 0 /\ (1 < a -> intdiv_up 0 a = two64 / a).
Proof.
  intros Ha [q Hq]. unfold align_up, intdiv_up.
  assert (H64 : two64 = 18446744073709551616) by reflexivity.
  assert (Hu : u64 (0 - 1) = two64 - 1) by reflexivity.
  rewrite Hu.
  assert (Hq0 : 0 < q) by nia.
  assert (Hdiv : (two64 - 1) / a = q - 1).
  { rewrite Hq. replace (q * a - 1) with ((a - 1) + (q - 1) * a) by lia.
    rewrite Z.div_add by lia. rewrite Z.div_small by lia. lia. }
  rewrite Hdiv. replace (q - 1 + 1) with q by lia.
  split.
  - unfold u64. rewrite Z.mul_mod_idemp_l by lia. rewrite <- Hq. apply Z.mod_same. lia.
  - intros H1. rewrite Hq, Z.div_mul by lia. apply u64_small. nia.
Qed.

Lemma align_up_zero_witness :
  align_up 0 512 = 0 /\ (1 < 512 -> intdiv_up 0 512 = two64 / 512).
Proof. apply (@align_up_zero 512); [lia | exists 36028797018963968; reflexivity]. Defined.

(** ** container.cpp: the LUKS layer *)

Lemma iter_holders_under_dev (E : Env) (p : string) (s s' : sys) (hs : list string) :
  iter_holders E p s = (s', Ok hs) -> Forall under_dev hs.
Proof.
  unfold iter_holders. intros H.
  apply bind_ok_inv in H. destruct H as (s1 & sp & _ & H).
  apply bind_ok_inv in H. destruct H as (s2 & ex & _ & H).
  destruct (negb ex).
  - apply ok_inj in H. destruct H as [_ <-]. constructor.
  - apply bind_ok_inv in H. destruct H as (s3 & names & _ & H).
    revert H. apply fold_m_inv; [|constructor].
    intros b x s4 s5 b' Hb Hrun.
    apply bind_ok_inv in Hrun. destruct Hrun as (s6 & hld & Hmk & Hrun).
    apply make_ok in Hmk. apply ok_inj in Hrun. destruct Hrun as [_ <-].
    apply Forall_app. split; [exact Hb|]. constructor; [|constructor].
    exists x. exact Hmk.
Qed.

Lemma find_holder_found (E : Env) (l : LUKS.t) (holders : list string) (s s' : sys) (h : string) :
  LuksLayer.find_holder E l holders s = (s', Ok (Some h)) ->
  In h holders /\ LUKS.offset l mod 512 = 0 /\
  exists asked, dm_crypt_offset E asked h = Some (LUKS.offset l / 512).
Proof.
  revert s. induction holders as [|hld rest IH]; intros s H; cbn [LuksLayer.find_holder] in H.
  - apply ok_inj in H. destruct H as [_ H]. discriminate.
  - apply bind_ok_inv in H. destruct H as (s1 & table & Hask & H).
    unfold ask in Hask. apply ok_inj in Hask. destruct Hask as [_ Htab].
    destruct table as [table_offset|].
    + apply bind_ok_inv in H. destruct H as (s2 & sectors & Hsec & H).
      apply bytes_to_sector_ok in Hsec. destruct Hsec as [Hal ->].
      destruct (Z.eqb_spec table_offset (LUKS.offset l / 512)) as [->|_].
      * apply ok_inj in H. destruct H as [_ H]. inversion H; subst h.
        split; [left; reflexivity|]. split; [exact Hal|]. eexists. exact Htab.
      * destruct (IH _ H) as (Hin & Hrest). split; [right; exact Hin | exact Hrest].
    + destruct (IH _ H) as (Hin & Hrest). split; [right; exact Hin | exact Hrest].
Qed.

Lemma make_empty_stops (E : Env) (s : sys) : ~ returned (BlockDevice.make E "" s).
Proof. intros [a Ha]. cbn in Ha. discriminate. Qed.

Lemma u64_sectors_aligned (v : Z) : u64 (v * 512) mod 512 = 0.
Proof.
  unfold u64. rewrite Z.mod_mod_divide; [apply Z.mod_mul; lia|].
  exists 36028797018963968. reflexivity.
Qed.

Lemma luks_read_superblock_ok (E : Env) (l l' : LUKS.t) (s s' : sys) :
  LUKS.read_superblock E l s = (s', Ok l') ->
  LUKS._superblock_read l' = true /\ LUKS.device l' = LUKS.device l /\
  LUKS.offset l' <> 0 /\ LUKS.offset l' mod 512 = 0.
Proof.
  unfold LUKS.read_superblock. intros H.
  apply bind_ok_inv in H. destruct H as (s1 & r & _ & H).
  destruct r as [v|]; [|discriminate].
  destruct (Z.eqb_spec (u64 (v * 512)) 0) as [|Hne]; [discriminate|].
  apply ok_inj in H. destruct H as [_ <-]. cbn.
  repeat split; try assumption.
  unfold u64. rewrite Z.mod_mod_divide; [apply Z.mod_mul; lia|].
  exists 36028797018963968. reflexivity.
Qed.

Lemma snoop_activated_result (E : Env) (l l' : LUKS.t) (d : string) (s s' : sys) :
  LuksLayer.snoop_activated E l s = (s', Ok (l', d)) ->
  under_dev d /\ LUKS._superblock_read l' = true /\ LUKS.device l' = LUKS.device l /\
  LUKS.offset l' mod 512 = 0 /\
  exists asked, dm_crypt_offset E asked d = Some (LUKS.offset l' / 512).
Proof.
  unfold LuksLayer.snoop_activated. intros H.
  apply bind_ok_inv in H. destruct H as (s1 & l1 & Hread & H).
  assert (Hl1 : LUKS._superblock_read l1 = true /\ LUKS.device l1 = LUKS.device l).
  { destruct (LUKS._superblock_read l) eqn:Er.
    - apply ok_inj in Hread. destruct Hread as [_ <-]. auto.
    - apply luks_read_superblock_ok in Hread. tauto. }
  apply bind_ok_inv in H. destruct H as (s2 & holders & Hhold & H).
  apply iter_holders_under_dev in Hhold.
  apply bind_ok_inv in H. destruct H as (s3 & found & Hfind & H).
  destruct found as [hld|].
  - apply ok_inj in H. destruct H as [_ H]. inversion H; subst l' d.
    apply find_holder_found in Hfind. destruct Hfind as (Hin & Hal & Htab).
    rewrite Forall_forall in Hhold. specialize (Hhold _ Hin). tauto.
  - apply bind_ok_inv in H. destruct H as (s4 & p & Hmk & _).
    exfalso. apply (@make_empty_stops E s3). exists p. rewrite Hmk. reflexivity.
Qed.

Lemma under_dev_not_empty (d : string) : under_dev d -> string_empty d = false.
Proof. intros [name ->]. reflexivity. Qed.

Lemma snoop_activated_offset (E : Env) (l l' : LUKS.t) (d : string) (s s' : sys) :
  LUKS._superblock_read l = false ->
  LuksLayer.snoop_activated E l s = (s', Ok (l', d)) -> LUKS.offset l' <> 0.
Proof.
  unfold LuksLayer.snoop_activated. intros Hnew H. rewrite Hnew in H.
  apply bind_ok_inv in H. destruct H as (s1 & l1 & Hread & H).
  apply luks_read_superblock_ok in Hread. destruct Hread as (_ & _ & Hoff & _).
  apply bind_ok_inv in H. destruct H as (s2 & holders & _ & H).
  apply bind_ok_inv in H. destruct H as (s3 & found & _ & H).
  destruct found as [hld|].
  - apply ok_inj in H. destruct H as [_ H]. inversion H; subst l' d. exact Hoff.
  - apply bind_ok_inv in H. destruct H as (s4 & p & Hmk & H).
    apply ok_inj in H. destruct H as [_ H]. inversion H; subst l' d. exact Hoff.
Qed.

Lemma deactivate_loop_stops (E : Env) (n : nat) :
  forall (l : LUKS.t) (s : sys), ~ returned (LuksLayer.deactivate_loop E n l s).
Proof.
  induction n as [|n IH]; intros l s Hret.
  - destruct Hret as [a Ha]. discriminate.
  - apply returned_run in Hret. destruct Hret as (s' & a & Erun).
    cbn [LuksLayer.deactivate_loop] in Erun.
    apply bind_ok_inv in Erun. destruct Erun as (s1 & [l1 d] & Hsn & H).
    apply snoop_activated_result in Hsn. destruct Hsn as (Hd & _).
    rewrite (under_dev_not_empty Hd) in H.
    apply bind_ok_inv in H. destruct H as (s2 & u & _ & H).
    exact (IH l1 s2 (run_returned H)).
Qed.

(** X4.  [snoop_activated] never hands back the empty device.  With no
    matching holder it builds [BlockDevice("")], whose constructor asserts
    that the path exists; so what it returns is a holder /dev/<name> whose
    dm-crypt table starts at the payload offset, and the superblock has been
    read by then. *)
Theorem snoop_activated_finds_holder (E : Env) (l l' : LUKS.t) (d : string) (s s' : sys) :
  LuksLayer.snoop_activated E l s = (s', Ok (l', d)) ->
  (exists name, d = "/dev/" +++ name) /\ string_empty d = false /\
  LUKS._superblock_read l' = true /\ LUKS.device l' = LUKS.device l /\
  LUKS.offset l' mod 512 = 0 /\
  exists asked, dm_crypt_offset E asked d = Some (LUKS.offset l' / 512).
Proof.
  intros H. apply snoop_activated_result in H. destruct H as (Hd & Hrest).
  split; [exact Hd|]. split; [exact (under_dev_not_empty Hd) | exact Hrest].
Qed.

Lemma snoop_activated_finds_holder_witness :
  (exists name, "/dev/dm-0" = "/dev/" +++ name) /\ string_empty "/dev/dm-0" = false /\
  LUKS._superblock_read (LUKS.Make "/dev/sdb1" 2097152 0 true) = true /\
  LUKS.device (LUKS.Make "/dev/sdb1" 2097152 0 true) = LUKS.device (LUKS.create "/dev/sdb1") /\
  LUKS.offset (LUKS.Make "/dev/sdb1" 2097152 0 true) mod 512 = 0 /\
  exists asked, dm_crypt_offset env_luks asked "/dev/dm-0"
                = Some (LUKS.offset (LUKS.Make "/dev/sdb1" 2097152 0 true) / 512).
Proof.
  apply (@snoop_activated_finds_holder
           env_luks (LUKS.create "/dev/sdb1") (LUKS.Make "/dev/sdb1" 2097152 0 true)
           "/dev/dm-0" no_disks
           (fst (LuksLayer.snoop_activated env_luks (LUKS.create "/dev/sdb1") no_disks))).
  vm_compute. reflexivity.
Defined.

Ltac asks := emits_walk_with ltac:(apply emits_query).

Lemma asks_make (E : Env) (p : string) : emits is_query (BlockDevice.make E p).
Proof. unfold BlockDevice.make. asks. Qed.

Lemma asks_iter_holders (E : Env) (p : string) : emits is_query (iter_holders E p).
Proof.
  unfold iter_holders, sysfspath, exists_, devnum.
  pose proof (asks_make E). asks.
Qed.

Lemma asks_find_holder (E : Env) (l : LUKS.t) (holders : list string) :
  emits is_query (LuksLayer.find_holder E l holders).
Proof.
  induction holders as [|hld rest IH]; cbn [LuksLayer.find_holder]; [apply emits_ret|].
  apply emits_bind; [apply emits_query|]. intros [table_offset|]; [|exact IH].
  apply emits_bind; [auto with emits|]. intros sectors.
  destruct (table_offset =? sectors); [apply emits_ret | exact IH].
Qed.

Lemma asks_snoop_activated (E : Env) (l : LUKS.t) :
  emits is_query (LuksLayer.snoop_activated E l).
Proof.
  unfold LuksLayer.snoop_activated, LUKS.read_superblock.
  pose proof (asks_make E). pose proof (asks_iter_holders E).
  pose proof (asks_find_holder E). asks.
Qed.

(** X5.  [cleartext_device] never opens the volume itself.  Since
    [snoop_activated] returns a holder or does not return, the branch that
    runs cryptsetup luksOpen is never taken: the run only asks questions, and
    what it returns is the mapping that was active already. *)
Theorem cleartext_device_only_asks (E : Env) (l : LUKS.t) (s : sys) :
  let r := LuksLayer.cleartext_device E l s in
  (exists probes, log (fst r) = log s ++ probes /\ forallb is_query probes = true) /\
  (forall l' clear, snd r = Ok (l', clear) ->
     under_dev clear /\ LUKS.device l' = LUKS.device l /\
     exists asked, dm_crypt_offset E asked clear = Some (LUKS.offset l' / 512)).
Proof.
  cbv zeta. split.
  - revert s. change (emits is_query (LuksLayer.cleartext_device E l)).
    unfold LuksLayer.cleartext_device.
    apply emits_bind_run; [apply asks_snoop_activated|].
    intros s s' [l' d] Hrun. apply snoop_activated_result in Hrun.
    destruct Hrun as (Hd & _). rewrite (under_dev_not_empty Hd). apply emits_ret.
  - intros l' clear Hr.
    destruct (LuksLayer.cleartext_device E l s) as [s' o] eqn:Hrun. cbn in Hr. subst o.
    unfold LuksLayer.cleartext_device in Hrun.
    apply bind_ok_inv in Hrun. destruct Hrun as (s1 & [l1 d] & Hsn & H).
    apply snoop_activated_result in Hsn. destruct Hsn as (Hd & _ & Hdev & _ & Htab).
    rewrite (under_dev_not_empty Hd) in H. apply ok_inj in H. destruct H as [_ H].
    inversion H; subst l' clear. auto.
Qed.

(** X6.  [LUKS::deactivate] does not return.  Its loop ends only when
    [snoop_activated] hands back the empty device, which it never does: the
    loop removes mappings until a removal throws or until none is left, and
    then stops in the assertion of [BlockDevice("")].  This holds for every
    bound on the number of turns. *)
Theorem luks_deactivate_never_returns (E : Env) (l : LUKS.t) (s : sys) :
  ~ returned (LuksLayer.deactivate E l s) /\
  forall patience, ~ returned (LuksLayer.deactivate_loop E patience l s).
Proof.
  split; [exact (@deactivate_loop_stops E 64 l s)|].
  intros patience. exact (@deactivate_loop_stops E patience l s).
Qed.



(** ** container.cpp: the LUKS superblock on the device *)

Lemma pread_quiet (f : fd) (len off : Z) (s : sys) : fst (pread f len off s) = s.
Proof. unfold pread. destruct f; [destruct (to_off_t off <? 0)|]; reflexivity. Qed.

Lemma bind_quiet {A B} (m : M A) (k : A -> M B) (s : sys) :
  (forall s0, fst (m s0) = s0) -> (forall a s0, fst (k a s0) = s0) -> fst (bind m k s) = s.
Proof.
  intros Hm Hk. unfold bind. pose proof (Hm s) as H0.
  destruct (m s) as [s1 [a|w|w|c]]; cbn [fst] in *; subst; auto.
Qed.

Lemma key_slot_step_quiet (f : fd) (key_bytes sb_end_tmp key_slot : Z) (s : sys) :
  fst (LUKS.key_slot_step f key_bytes sb_end_tmp key_slot s) = s.
Proof.
  unfold LUKS.key_slot_step. apply bind_quiet; [intros; apply pread_quiet|].
  intros [n buffer] s0. destruct (negb (n =? 8)); [reflexivity|].
  destruct (negb (be32 (skipn 4 buffer) =? 4000)); reflexivity.
Qed.

Lemma fold_m_quiet {A B} (body : B -> A -> M B) (l : list A) :
  (forall b a s, fst (body b a s) = s) -> forall acc s, fst (fold_m l acc body s) = s.
Proof.
  intros Hbody. induction l as [|x l IH]; intros acc s; cbn [fold_m]; [reflexivity|].
  apply bind_quiet; [intros; apply Hbody | intros; apply IH].
Qed.

(** X8.  [read_superblock_ll] only reads: whatever the descriptor and the
    bytes behind it, and however the call ends, no device has changed and
    nothing has been asked of the outside world. *)
Theorem read_superblock_ll_only_reads (this : LUKS.t) (f : fd) (s : sys) :
  fst (LUKS.read_superblock_ll this f s) = s.
Proof.
  unfold LUKS.read_superblock_ll. cbv zeta.
  apply bind_quiet; [intros; apply pread_quiet|]. intros [n buffer] s0.
  destruct (negb (n =? 8)); [reflexivity|].
  destruct (negb (bytes_eqb (firstn 6 buffer) LUKS.LUKS_MAGIC)); [reflexivity|].
  destruct (negb (be16 (skipn 6 buffer) =? 1)); [reflexivity|].
  apply bind_quiet; [intros; apply pread_quiet|]. intros [n2 buffer2] s1.
  destruct (negb (n2 =? 8)); [reflexivity|].
  apply bind_quiet; [intros; apply fold_m_quiet; intros; apply key_slot_step_quiet|].
  intros sb_end_tmp s2.
  destruct (negb _); [reflexivity|]. destruct (_ <? _); reflexivity.
Qed.

Lemma splice_length (d : list byte) (off : Z) (data : list byte) :
  List.length (splice d off data) = List.length d.
Proof.
  unfold splice. rewrite !length_app, !length_firstn, length_skipn. lia.
Qed.

Lemma splice_skipn (d : list byte) (off : Z) (data : list byte) (k : nat) :
  (nat_of off + List.length data <= k)%nat ->
  skipn k (splice d off data) = skipn k d.
Proof.
  intros Hk. unfold splice.
  set (a := nat_of off) in *. set (n := Nat.min (List.length data) (List.length d - a)).
  destruct (Nat.le_gt_cases a (List.length d)) as [Hin|Hout].
  - rewrite app_assoc, skipn_app.
    assert (Hlen : List.length (firstn a d ++ firstn n data) = (a + n)%nat).
    { rewrite length_app, !length_firstn. lia. }
    rewrite Hlen, skipn_all2 by (rewrite Hlen; lia).
    rewrite skipn_skipn. cbn [app]. f_equal. lia.
  - rewrite (skipn_all2 (n := k) d) by lia. apply skipn_all2.
    rewrite !length_app, !length_firstn, length_skipn. lia.
Qed.

Lemma splice_slice_before (d : list byte) (off : Z) (data : list byte) (o l : Z) :
  0 <= o -> 0 <= l -> o + l <= off ->
  slice (splice d off data) o l = slice d o l.
Proof.
  intros Ho Hl Hle. unfold slice.
  rewrite !firstn_skipn_comm. f_equal.
  unfold splice. set (a := nat_of off).
  assert (Hk : (nat_of o + nat_of l <= a)%nat) by (unfold a, nat_of; lia).
  destruct (Nat.le_gt_cases a (List.length d)) as [Hin|Hout].
  - rewrite firstn_app, length_firstn.
    replace (nat_of o + nat_of l - Nat.min a (List.length d))%nat with 0%nat by lia.
    cbn [firstn]. rewrite app_nil_r, firstn_firstn. f_equal. lia.
  - rewrite (firstn_all2 d) by lia.
    replace (Nat.min (List.length data) (List.length d - a)) with 0%nat by lia.
    cbn [firstn app]. rewrite (skipn_all2 d) by lia.
    rewrite app_nil_r. reflexivity.
Qed.

(** What a [pwrite] that returns leaves behind. *)
Lemma pwrite_inv (p : string) (data : list byte) (off n : Z) (s s1 : sys) :
  pwrite (Some p) data off s = (s1, Ok n) ->
  log s1 = log s ++ [Pwrite p off (Z.of_nat (List.length data))] /\
  (forall q, q <> p -> disks s1 q = disks s q) /\
  (disks s1 p = disks s p \/ disks s1 p = splice (disks s p) off data).
Proof.
  unfold pwrite. intros H.
  destruct (to_off_t off <? 0); [inversion H; subst; cbn; auto|].
  destruct (_ && _); inversion H; subst; cbn [log disks]; [auto|].
  split; [reflexivity|]. split.
  - intros q Hq. apply update_disk_other. exact Hq.
  - right. apply update_disk_same.
Qed.

Lemma pread_inv (p : string) (len off n : Z) (b : list byte) (s s1 : sys) :
  pread (Some p) len off s = (s1, Ok (n, b)) ->
  s1 = s /\ (n = -1 \/ b = slice (disks s p) off len /\ 0 <= n).
Proof.
  unfold pread. intros H.
  destruct (to_off_t off <? 0); inversion H; subst; split; auto.
  right. split; [reflexivity | lia].
Qed.

Lemma pwrite_returns (f : fd) (data : list byte) (off : Z) (s : sys) :
  exists s1 n, pwrite f data off s = (s1, Ok n).
Proof.
  unfold pwrite. destruct f as [p|]; [|eauto].
  destruct (to_off_t off <? 0); [eauto|]. destruct (_ && _); eauto.
Qed.

(** X9.  [shift_sb] never touches the payload.  For every shift and every
    outcome (as long as sb_end + shift_by stays within 64 bits), the bytes of
    every device from the payload offset on are what they were, and no
    device has changed its length: the one write of the function, when it
    gets that far, ends at sb_end + shift_by, which the function has checked
    against the offset. *)
Theorem shift_sb_keeps_payload (this : LUKS.t) (f : fd) (shift_by : Z) (s : sys) (q : string) :
  0 <= shift_by -> 0 <= LUKS.sb_end this -> LUKS.sb_end this + shift_by < two64 ->
  let s' := fst (LUKS.shift_sb this f shift_by s) in
  skipn (nat_of (LUKS.offset this)) (disks s' q)
  = skipn (nat_of (LUKS.offset this)) (disks s q) /\
  List.length (disks s' q) = List.length (disks s q).
Proof.
  intros Hshift Hend Hsum. cbv zeta. unfold LUKS.shift_sb.
  destruct (_ || _); [split; reflexivity|].
  rewrite u64_small by lia.
  destruct (Z.gtb_spec (LUKS.sb_end this + shift_by) (LUKS.offset this)) as [|Hroom];
    [split; reflexivity|].
  unfold bind.
  destruct (pread f (LUKS.sb_end this) 0 s) as [s0 o] eqn:Hread.
  pose proof (pread_quiet f (LUKS.sb_end this) 0 s) as Hq. rewrite Hread in Hq. cbn in Hq.
  subst s0.
  destruct o as [[n sb]|w|w|c]; try (split; reflexivity).
  destruct (Z.eqb_spec n (LUKS.sb_end this)) as [Hn|]; cbn [negb]; [|split; reflexivity].
  destruct (Z.ltb_spec (LUKS.sb_end this) 108) as [|H108]; [split; reflexivity|].
  assert (Hsb : List.length sb = nat_of (LUKS.sb_end this)).
  { unfold pread in Hread. destruct f as [p|]; [|inversion Hread; lia].
    destruct (to_off_t 0 <? 0); inversion Hread; subst; [lia|]. unfold nat_of. lia. }
  set (combined := LUKS.zeros shift_by ++ poke sb 104 _).
  assert (Hlen : List.length combined = (nat_of shift_by + nat_of (LUKS.sb_end this))%nat).
  { unfold combined. rewrite length_app, zeros_length, poke_length; [lia|].
    rewrite Hsb. unfold be32_bytes. cbn [List.length]. unfold nat_of. lia. }
  destruct (pwrite_returns f combined 0 s) as (s1 & wr_len & Hw). rewrite Hw.
  assert (Hkeep : skipn (nat_of (LUKS.offset this)) (disks s1 q)
                  = skipn (nat_of (LUKS.offset this)) (disks s q) /\
                  List.length (disks s1 q) = List.length (disks s q)).
  { destruct f as [p|]; [|inversion Hw; subst; split; reflexivity].
    apply pwrite_inv in Hw. destruct Hw as (_ & Hother & Hdisk).
    destruct (String.eqb_spec q p) as [->|Hqp]; [|rewrite Hother by exact Hqp; split; reflexivity].
    destruct Hdisk as [->| ->]; [split; reflexivity|].
    split; [|apply splice_length].
    apply splice_skipn. rewrite Hlen. unfold nat_of in *. change (Z.to_nat 0) with 0%nat. lia. }
  destruct (negb (wr_len =? Z.of_nat (List.length combined))); exact Hkeep.
Qed.

Lemma shift_sb_keeps_payload_witness :
  let this := LUKS.Make "/dev/sdb1" 20480 9216 true in
  let s := one_disk "/dev/sdb1" header_small in
  let s' := fst (LUKS.shift_sb this (Some "/dev/sdb1") 8192 s) in
  skipn (nat_of (LUKS.offset this)) (disks s' "/dev/sdb1")
  = skipn (nat_of (LUKS.offset this)) (disks s "/dev/sdb1") /\
  List.length (disks s' "/dev/sdb1") = List.length (disks s "/dev/sdb1").
Proof.
  cbv zeta.
  apply (@shift_sb_keeps_payload (LUKS.Make "/dev/sdb1" 20480 9216 true) (Some "/dev/sdb1")
                                 8192 (one_disk "/dev/sdb1" header_small) "/dev/sdb1");
    cbn [LUKS.sb_end]; unfold two64; lia.
Defined.

(** ** block_stack.cpp: the shape of the stack *)

Lemma bcache_read_superblock_ok (E : Env) (b b' : BCacheBacking.t) (s s' : sys) :
  BCacheBacking.read_superblock E b s = (s', Ok b') ->
  BCacheBacking.device b' = BCacheBacking.device b /\
  BCacheBacking.offset b' <> 0 /\ BCacheBacking.offset b' mod 512 = 0.
Proof.
  unfold BCacheBacking.read_superblock. intros H.
  apply bind_ok_inv in H. destruct H as (s1 & r & _ & H).
  destruct r as [[version first_sector]|]; [|discriminate].
  destruct (Z.eqb_spec (u64 (first_sector * 512)) 0) as [|Hne]; [discriminate|].
  apply ok_inj in H. destruct H as [_ <-]. cbn.
  repeat split; try assumption. apply u64_sectors_aligned.
Qed.

Lemma cleartext_device_ok (E : Env) (dev : string) (l' : LUKS.t) (clear : string) (s s' : sys) :
  LuksLayer.cleartext_device E (LUKS.create dev) s = (s', Ok (l', clear)) ->
  container_ready (BlockStack.L l') /\ LUKS.device l' = dev.
Proof.
  unfold LuksLayer.cleartext_device. intros H.
  apply bind_ok_inv in H. destruct H as (s1 & [l1 d] & Hsn & H).
  pose proof Hsn as Hoff. apply snoop_activated_offset in Hoff; [|reflexivity].
  apply snoop_activated_result in Hsn. destruct Hsn as (Hd & Hread & Hdev & Hal & _).
  rewrite (under_dev_not_empty Hd) in H. apply ok_inj in H. destruct H as [_ H].
  inversion H; subst l' clear. cbn. auto.
Qed.

Lemma get_block_stack_loop_shape (E : Env) (progress : ProgressListener) (depth : nat) :
  forall device stack0 s s' stack,
    BlockStack.get_block_stack_loop E progress depth device stack0 s = (s', Ok stack) ->
    exists ws dev k,
      stack = stack0 ++ ws ++ [BlockStack.F (Filesystem.create dev k)] /\
      Forall container_ready ws /\
      hd_error (map layer_device (ws ++ [BlockStack.F (Filesystem.create dev k)])) = Some device.
Proof.
  induction depth as [|depth IH]; intros device stack0 s s' stack H;
    cbn [BlockStack.get_block_stack_loop] in H; [discriminate|].
  apply bind_ok_inv in H. destruct H as (s1 & sbt & _ & H).
  destruct (sbt =? "crypto_LUKS")%string.
  - apply bind_ok_inv in H. destruct H as (s2 & [wrapper clear] & Hclear & H).
    apply cleartext_device_ok in Hclear. destruct Hclear as [Hready Hdev].
    apply IH in H. destruct H as (ws & dev & k & -> & Hws & _).
    exists (BlockStack.L wrapper :: ws), dev, k. rewrite <- app_assoc.
    split; [reflexivity|]. split; [constructor; assumption | cbn; rewrite Hdev; reflexivity].
  - apply bind_ok_inv in H. destruct H as (s2 & has & _ & H). destruct has.
    + apply bind_ok_inv in H. destruct H as (s3 & wrapper & Hread & H).
      apply bcache_read_superblock_ok in Hread. destruct Hread as (Hdev & Hoff & Hal).
      apply bind_ok_inv in H. destruct H as (s4 & u & Hback & H).
      destruct (BCacheBacking.is_backing wrapper) eqn:Eback;
        [|exfalso; apply run_returned in Hback; revert Hback; apply bail_stops].
      apply bind_ok_inv in H. destruct H as (s5 & cached & _ & H).
      apply IH in H. destruct H as (ws & dev & k & -> & Hws & _).
      exists (BlockStack.B wrapper :: ws), dev, k. rewrite <- app_assoc.
      split; [reflexivity|]. split; [constructor; [cbn; auto | assumption] | cbn; rewrite Hdev; reflexivity].
    + destruct (BlockStack.fs_of_type sbt) as [k|].
      * apply ok_inj in H. destruct H as [_ <-]. exists [], device, k.
        split; [reflexivity|]. split; [constructor | reflexivity].
      * apply run_returned in H.
        destruct (string_empty sbt); exfalso; revert H; apply bail_stops.
Qed.

Lemma get_block_stack_built (E : Env) (progress : ProgressListener) (device : string)
        (s s' : sys) (stack : BlockStack.t) :
  BlockStack.get_block_stack E progress device s = (s', Ok stack) ->
  exists ws dev k,
    stack = ws ++ [BlockStack.F (Filesystem.create dev k)] /\
    Forall container_ready ws /\
    hd_error (map layer_device stack) = Some device.
Proof.
  unfold BlockStack.get_block_stack. intros H.
  destruct (get_block_stack_loop_shape _ _ _ _ _ _ H) as (ws & dev & k & Hst & Hws & Hhd).
  exists ws, dev, k. subst stack. split; [reflexivity|]. split; assumption.
Qed.

(** X10.  What [get_block_stack] returns.  The stack is a run of containers
    under one freshly made filesystem object, and its outermost layer sits on
    the device asked for.  Every container has been read: its payload offset
    is a non-zero multiple of 512, a LUKS layer is marked read, a bcache
    layer is a backing device.  So the stack is [built] and [luks_ready], as
    the ordering of the stack operations assumes. *)
Theorem get_block_stack_shape (E : Env) (progress : ProgressListener) (device : string)
        (s s' : sys) (stack : BlockStack.t) :
  BlockStack.get_block_stack E progress device s = (s', Ok stack) ->
  (exists ws dev k,
      stack = ws ++ [BlockStack.F (Filesystem.create dev k)] /\
      Forall container_ready ws) /\
  hd_error (map layer_device stack) = Some device /\
  built stack /\ luks_ready stack.
Proof.
  intros H. destruct (@get_block_stack_built E progress device s s' stack H)
    as (ws & dev & k & Hst & Hws & Hhd).
  split; [exists ws, dev, k; auto|]. split; [exact Hhd|]. subst stack. split.
  - exists ws, (Filesystem.create dev k). split; [reflexivity|].
    eapply Forall_impl; [|exact Hws]. intros [l|b|f]; cbn; [discriminate | discriminate | tauto].
  - apply Forall_app. split; [|constructor; [exact I | constructor]].
    eapply Forall_impl; [|exact Hws]. intros [l|b|f]; cbn; tauto.
Qed.

Lemma get_block_stack_shape_witness :
  let stack := [BlockStack.L (LUKS.Make "/dev/sdb1" 2097152 0 true);
                BlockStack.F (Filesystem.create "/dev/dm-0" Filesystem.ExtFS)] in
  (exists ws dev k,
      stack = ws ++ [BlockStack.F (Filesystem.create dev k)] /\
      Forall container_ready ws) /\
  hd_error (map layer_device stack) = Some "/dev/sdb1" /\
  built stack /\ luks_ready stack.
Proof.
  cbv zeta.
  apply (@get_block_stack_shape
           env_luks CLIProgressHandler "/dev/sdb1" no_disks
           (fst (BlockStack.get_block_stack env_luks CLIProgressHandler "/dev/sdb1" no_disks))).
  vm_compute. reflexivity.
Defined.

Lemma fs_read_superblock_ok (E : Env) (f f' : Filesystem.t) (s s' : sys) :
  Filesystem.read_superblock E f s = (s', Ok f') ->
  Filesystem.device f' = Filesystem.device f /\ Filesystem.fskind f' = Filesystem.fskind f /\
  Filesystem.block_size f' <> 0.
Proof.
  unfold Filesystem.read_superblock. intros H.
  destruct (Filesystem.fskind f) eqn:Ek.
  6: { apply bind_ok_inv in H. destruct H as (s1 & dev_fd & _ & H).
       apply bind_ok_inv in H. destruct H as (s2 & [[be v] lp] & _ & H).
       apply ok_inj in H. destruct H as [_ <-]. cbn. repeat split. discriminate. }
  all: apply bind_ok_inv in H; destruct H as (s1 & [rep|] & _ & H); [|discriminate];
       apply bind_ok_inv in H; destruct H as (s2 & u & Has & H);
       apply assert_ok in Has; destruct Has as [Has _];
       apply ok_inj in H; destruct H as [_ <-];
       cbn in *; repeat split;
       destruct (Z.eqb_spec (r_block_size rep) 0); [discriminate | assumption].
Qed.

Lemma read_wrappers_shape (E : Env) (ws : list BlockStack.BlockData) :
  Forall (fun bd => BlockStack.container_offset bd <> None) ws ->
  forall s s' ws', BlockStack.read_wrappers E ws s = (s', Ok ws') ->
                   Forall2 same_layer ws ws' /\ Forall layer_read ws'.
Proof.
  induction 1 as [|w ws Hw Hws IH]; intros s s' ws' H; cbn [BlockStack.read_wrappers] in H.
  - apply ok_inj in H. destruct H as [_ <-]. split; constructor.
  - apply bind_ok_inv in H. destruct H as (s1 & w' & Hread & H).
    apply bind_ok_inv in H. destruct H as (s2 & rest & Hrest & H).
    apply ok_inj in H. destruct H as [_ <-].
    destruct (IH _ _ _ Hrest) as [Hsame Hall].
    assert (Hw' : same_layer w w' /\ layer_read w').
    { destruct w as [l|b|f]; [| |exfalso; apply Hw; reflexivity].
      - apply bind_ok_inv in Hread. destruct Hread as (s3 & l' & Hl & Hread).
        apply ok_inj in Hread. destruct Hread as [_ <-].
        apply luks_read_superblock_ok in Hl. cbn. tauto.
      - apply bind_ok_inv in Hread. destruct Hread as (s3 & b' & Hb & Hread).
        apply ok_inj in Hread. destruct Hread as [_ <-].
        apply bcache_read_superblock_ok in Hb. cbn. tauto. }
    split; constructor; tauto.
Qed.

Lemma read_superblocks_kept (E : Env) (stack stack' : BlockStack.t) (s s' : sys) :
  built stack ->
  BlockStack.read_superblocks E stack s = (s', Ok stack') ->
  Forall2 same_layer stack stack' /\ Forall layer_read stack' /\
  built stack' /\ luks_ready stack'.
Proof.
  intros (ws & fs & -> & Hws) H. unfold BlockStack.read_superblocks in H.
  destruct (stack_last (ws ++ [BlockStack.F fs])) as [Hnil | (ws0 & top & Heq & Hw & Ht)];
    [destruct ws; discriminate|].
  apply app_inj_tail in Heq. destruct Heq as [<- <-].
  rewrite Hw, Ht in H.
  apply bind_ok_inv in H. destruct H as (s1 & ws' & Hread & H).
  apply bind_ok_inv in H. destruct H as (s2 & fs' & Hfs & H).
  apply ok_inj in H. destruct H as [_ <-].
  destruct (read_wrappers_shape E Hws _ Hread) as [Hsame Hall].
  apply fs_read_superblock_ok in Hfs. destruct Hfs as (Hdev & Hk & Hbs).
  split; [|split; [|split]].
  - apply Forall2_app; [exact Hsame|]. constructor; [cbn; auto | constructor].
  - apply Forall_app. split; [exact Hall|]. constructor; [exact Hbs | constructor].
  - exists ws', fs'. split; [reflexivity|].
    clear - Hws Hsame. induction Hsame as [|a b la lb Hab Hrest IH]; [constructor|].
    inversion Hws; subst. constructor; [|apply IH; assumption].
    destruct a, b; cbn in *; try contradiction; discriminate.
  - apply Forall_app. split; [|constructor; [exact I | constructor]].
    eapply Forall_impl; [|exact Hall]. intros [l|b|f]; cbn; tauto.
Qed.

(** X11.  [read_superblocks] keeps the stack and fills it in.  On a stack of
    containers under one filesystem, a call that returns leaves layer for
    layer the same class on the same device (and the same kind of
    filesystem); every container has a non-zero payload offset on a sector
    boundary, every LUKS layer is marked read, and the block size of the
    filesystem is not zero, so the divisions of the stack operations are
    defined. *)
Theorem read_superblocks_shape (E : Env) (stack stack' : BlockStack.t) (s s' : sys) :
  built stack ->
  BlockStack.read_superblocks E stack s = (s', Ok stack') ->
  Forall2 same_layer stack stack' /\ Forall layer_read stack' /\
  built stack' /\ luks_ready stack'.
Proof. intros Hbuilt H. exact (@read_superblocks_kept E stack stack' s s' Hbuilt H). Qed.

Lemma read_superblocks_shape_witness :
  let stack' := [BlockStack.L (LUKS.Make "/dev/sdb1" 2097152 0 true);
                 BlockStack.F (ext4_4m "/dev/dm-0")] in
  Forall2 same_layer stack_luks stack' /\ Forall layer_read stack' /\
  built stack' /\ luks_ready stack'.
Proof.
  cbv zeta.
  apply (@read_superblocks_shape
           env_layers stack_luks
           [BlockStack.L (LUKS.Make "/dev/sdb1" 2097152 0 true);
            BlockStack.F (ext4_4m "/dev/dm-0")]
           no_disks (fst (BlockStack.read_superblocks env_layers stack_luks no_disks))).
  - exists [BlockStack.L (LUKS.Make "/dev/sdb1" 2097152 0 true)], (ext4_4m "/dev/dm-0").
    split; [reflexivity|]. constructor; [discriminate | constructor].
  - vm_compute. reflexivity.
Defined.

Lemma deactivate_layers_stops (E : Env) (layers : list BlockStack.BlockData) (l : LUKS.t) :
  In (BlockStack.L l) layers ->
  forall s, ~ returned (BlockStack.deactivate_layers E layers s).
Proof.
  induction layers as [|bd rest IH]; intros Hin s Hret; [contradiction|].
  apply returned_run in Hret. destruct Hret as (s' & a & Hrun).
  cbn [BlockStack.deactivate_layers] in Hrun.
  destruct bd as [l0|b|f].
  - apply bind_ok_inv in Hrun. destruct Hrun as (s1 & l1 & Hde & _).
    exact (deactivate_loop_stops E 64 l0 s (run_returned Hde)).
  - apply bind_ok_inv in Hrun. destruct Hrun as (s1 & u & _ & Hrun).
    destruct Hin as [Heq|Hin]; [discriminate|]. exact (IH Hin s1 (run_returned Hrun)).
  - destruct Hin as [Heq|Hin]; [discriminate|]. exact (IH Hin s (run_returned Hrun)).
Qed.

Lemma stack_deactivate_stops (E : Env) (stack : BlockStack.t) (l : LUKS.t) (s : sys) :
  In (BlockStack.L l) stack -> ~ returned (BlockStack.deactivate E stack s).
Proof.
  intros Hin. unfold BlockStack.deactivate.
  apply deactivate_layers_stops with (l := l). apply in_rev. rewrite rev_involutive. exact Hin.
Qed.

(** X12.  [BlockStack::deactivate] does not return on a stack with a LUKS
    layer: the layers are taken innermost first, and the turn of the LUKS
    layer ends in [LUKS::deactivate], which does not return. *)
Theorem stack_deactivate_stops_on_luks (E : Env) (stack : BlockStack.t) (l : LUKS.t) (s : sys) :
  In (BlockStack.L l) stack -> ~ returned (BlockStack.deactivate E stack s).
Proof. intros Hin. exact (@stack_deactivate_stops E stack l s Hin). Qed.

Lemma stack_deactivate_stops_on_luks_witness :
  ~ returned (BlockStack.deactivate env_layers stack_luks no_disks).
Proof.
  apply (@stack_deactivate_stops_on_luks env_layers stack_luks
                                         (LUKS.Make "/dev/sdb1" 2097152 0 true) no_disks).
  left. reflexivity.
Defined.

(** ** filesystem.cpp *)

Lemma fssize_pure (f : Filesystem.t) (s s' : sys) (sz : Z) :
  Filesystem.fssize f s = (s', Ok sz) -> forall s0, Filesystem.fssize f s0 = (s0, Ok sz).
Proof.
  unfold Filesystem.fssize. intros H s0.
  destruct (Filesystem.sb_size_in_bytes f).
  - destruct (Filesystem.block_size f =? 0); [discriminate|].
    apply bind_ok_inv in H. destruct H as (s1 & u & Ha & H).
    apply assert_ok in Ha. destruct Ha as [Hc _]. apply ok_inj in H. destruct H as [_ <-].
    unfold bind, assert. rewrite Hc. reflexivity.
  - apply ok_inj in H. destruct H as [_ <-]. reflexivity.
Qed.

Lemma fssize_quiet (f : Filesystem.t) (s s' : sys) (sz : Z) :
  Filesystem.fssize f s = (s', Ok sz) -> s' = s.
Proof.
  intros H. pose proof (fssize_pure _ _ H s) as H0. rewrite H in H0. congruence.
Qed.

Lemma mount_and_resize_ok (E : Env) (f f' : Filesystem.t) (pos : Z) (s s' : sys) :
  Filesystem._mount_and_resize E f pos s = (s', Ok f') ->
  forall s0, Filesystem.fssize f' s0 = (s0, Ok pos).
Proof.
  unfold Filesystem._mount_and_resize. intros H.
  apply bind_ok_inv in H. destruct H as (s1 & f1 & _ & H).
  apply bind_ok_inv in H. destruct H as (s2 & f2 & _ & H).
  apply bind_ok_inv in H. destruct H as (s3 & sz & Hsz & H).
  apply bind_ok_inv in H. destruct H as (s4 & u & Ha & H).
  apply assert_ok in Ha. destruct Ha as [Heq _]. apply Z.eqb_eq in Heq. subst sz.
  apply ok_inj in H. destruct H as [_ <-]. exact (fssize_pure _ _ Hsz).
Qed.

(** X13.  What a filesystem's [reserve_end_area_nonrec] does.  For a
    non-zero block size, a call that returns hands back [pos] rounded down to
    a block boundary.  Where the filesystem ended at or before that boundary
    nothing was run: the call has left its entry in the log and no more.
    Where it reached beyond, the filesystem can shrink (one that cannot, XFS,
    ends the call in CantShrink), and what the call did after its entry is
    one [_mount_and_resize] to the boundary, after which the filesystem
    measures exactly that size. *)
Theorem fs_reserve_end_area_result (E : Env) (i : nat) (f : Filesystem.t) (pos r : Z)
        (s s' : sys) :
  0 < Filesystem.block_size f -> 0 <= pos < two64 ->
  Filesystem.reserve_end_area_nonrec E i f pos s = (s', Ok r) ->
  r = align pos (Filesystem.block_size f) /\
  r mod Filesystem.block_size f = 0 /\ r <= pos < r + Filesystem.block_size f /\
  let entered := Sys (disks s) (log s ++ [Reserve i pos]) in
  exists sz, (forall s0, Filesystem.fssize f s0 = (s0, Ok sz)) /\
    if sz <=? r then s' = entered
    else Filesystem.can_shrink f = true /\
         exists f', Filesystem._mount_and_resize E f r entered = (s', Ok f') /\
                    forall s0, Filesystem.fssize f' s0 = (s0, Ok r).
Proof.
  intros Hbs Hpos H. unfold Filesystem.reserve_end_area_nonrec in H.
  apply bind_ok_inv in H. destruct H as (s1 & u & Hemit & H).
  unfold emit in Hemit. apply ok_inj in Hemit. destruct Hemit as [Hs1 _].
  destruct (Z.eqb_spec (Filesystem.block_size f) 0) as [|_]; [lia|].
  apply bind_ok_inv in H. destruct H as (s2 & sz & Hsz & H).
  pose proof (fssize_quiet _ _ Hsz) as ->.
  destruct (align_bounds Hbs Hpos) as [Hmod Hle].
  assert (Hr : r = align pos (Filesystem.block_size f)).
  { destruct (sz <=? align pos (Filesystem.block_size f)).
    - apply ok_inj in H. destruct H as [_ H]. auto.
    - destruct (Filesystem.can_shrink f); [|discriminate].
      apply bind_ok_inv in H. destruct H as (s3 & f' & _ & H).
      apply ok_inj in H. destruct H as [_ H]. auto. }
  subst r. split; [reflexivity|]. split; [exact Hmod|]. split; [exact Hle|].
  cbv zeta. exists sz. split; [exact (fssize_pure _ _ Hsz)|]. rewrite Hs1.
  destruct (sz <=? align pos (Filesystem.block_size f)).
  - apply ok_inj in H. destruct H as [<- _]. reflexivity.
  - destruct (Filesystem.can_shrink f); [|discriminate]. split; [reflexivity|].
    apply bind_ok_inv in H. destruct H as (s3 & f' & Hmr & H).
    apply ok_inj in H. destruct H as [<- _].
    exists f'. split; [exact Hmr|]. exact (mount_and_resize_ok _ _ _ _ Hmr).
Qed.

Lemma fs_reserve_end_area_result_witness :
  let f := ext4_4m "/dev/dm-0" in
  let s' := fst (Filesystem.reserve_end_area_nonrec env_layers 0 f 3145729 no_disks) in
  3145728 = align 3145729 (Filesystem.block_size f) /\
  3145728 mod Filesystem.block_size f = 0 /\
  3145728 <= 3145729 < 3145728 + Filesystem.block_size f /\
  let entered := Sys (disks no_disks) (log no_disks ++ [Reserve 0 3145729]) in
  exists sz, (forall s0, Filesystem.fssize f s0 = (s0, Ok sz)) /\
    if sz <=? 3145728 then s' = entered
    else Filesystem.can_shrink f = true /\
         exists f', Filesystem._mount_and_resize env_layers f 3145728 entered = (s', Ok f') /\
                    forall s0, Filesystem.fssize f' s0 = (s0, Ok 3145728).
Proof.
  cbv zeta.
  apply (@fs_reserve_end_area_result env_layers 0 (ext4_4m "/dev/dm-0") 3145729 3145728 no_disks).
  - cbn. lia.
  - unfold two64. lia.
  - vm_compute. reflexivity.
Defined.



(** X15.  [Swap::__read_sb] accepts big-endian headers only.  Its second
    attempt, meant for little-endian headers, combines the same four bytes
    into the same value as the first, so it fails whenever the first did: a
    header that is returned is always reported big endian, with version 1
    and a last page that is not 0, and the read has changed nothing. *)
Theorem swap_read_sb_big_endian (f : Filesystem.t) (dev_fd : fd) (s s' : sys)
        (be : bool) (v lp : Z) :
  Filesystem.swap_read_sb f dev_fd s = (s', Ok (be, v, lp)) ->
  be = true /\ v = 1 /\ lp <> 0 /\ s' = s.
Proof.
  unfold Filesystem.swap_read_sb. intros H.
  apply bind_ok_inv in H. destruct H as (s1 & [n magic_buf] & Hm & H).
  assert (Hs1 : s1 = s).
  { unfold pread in Hm. destruct dev_fd; [destruct (to_off_t (4096 - 10) <? 0)|];
      inversion Hm; reflexivity. }
  subst s1. destruct (negb (n =? 10)); [discriminate|].
  destruct (negb (bytes_eqb magic_buf Filesystem.SWAP_MAGIC)); [discriminate|].
  apply bind_ok_inv in H. destruct H as (s2 & [n2 version_buf] & Hv & H).
  assert (Hs2 : s2 = s).
  { unfold pread in Hv. destruct dev_fd; [destruct (to_off_t 1024 <? 0)|];
      inversion Hv; reflexivity. }
  subst s2. destruct (negb (n2 =? 8)); [discriminate|]. cbv zeta in H.
  match type of H with
  | context [Filesystem.word_of ?a ?b ?c ?d =? 1] =>
      destruct (Z.eqb_spec (Filesystem.word_of a b c d) 1) as [Hv1|Hv1]
  end.
  - match type of H with
    | context [?x =? 0] => destruct (Z.eqb_spec x 0) as [Hz|Hz]
    end; [discriminate|].
    apply ok_inj in H. destruct H as [-> H]. inversion H; subst. auto.
  - cbn [negb] in H. discriminate.
Qed.

Lemma swap_read_sb_big_endian_witness :
  true = true /\ 1 = 1 /\ 895 <> 0 /\
  fst (Filesystem.swap_read_sb (Filesystem.create "/dev/sdb2" Filesystem.Swap)
                               (Some "/dev/sdb2") swap_disk) = swap_disk.
Proof.
  apply (@swap_read_sb_big_endian (Filesystem.create "/dev/sdb2" Filesystem.Swap)
                                  (Some "/dev/sdb2") swap_disk
                                  (fst (Filesystem.swap_read_sb
                                          (Filesystem.create "/dev/sdb2" Filesystem.Swap)
                                          (Some "/dev/sdb2") swap_disk))
                                  true 1 895).
  vm_compute. reflexivity.
Defined.

(** ** synthetic_device.cpp *)

(** X16.  A [copy_to_physical] that returns has put the data in place.  With
    sizes and shift that fit a signed 64-bit offset, the device then holds
    the first [writable_hdr_size] bytes of [data] at [shift_by] and the rest
    at [writable_hdr_size + rz_size + shift_by]; it has kept its length, no
    other device has changed, and the log has exactly these writes.  A
    non-zero [reserved_area] lies at or below [shift_by]. *)
Theorem copy_to_physical_verified (E : Env) (this : SyntheticDevice.t) (p : string)
        (shift_by reserved_area : Z) (other_device : bool) (s s' : sys) :
  let hdr := SyntheticDevice.writable_hdr_size this in
  let rz := SyntheticDevice.rz_size this in
  let wend := SyntheticDevice.writable_end_size this in
  0 <= shift_by -> 0 <= hdr -> 0 <= rz -> 0 <= wend ->
  shift_by + hdr + rz + wend < 2 ^ 63 ->
  SyntheticDevice.copy_to_physical E this (Some p) shift_by reserved_area other_device s
  = (s', Ok tt) ->
  Z.of_nat (List.length (SyntheticDevice.data this)) = hdr + wend /\
  (reserved_area <> 0 -> reserved_area <= shift_by) /\
  slice (disks s' p) shift_by hdr = firstn (nat_of hdr) (SyntheticDevice.data this) /\
  slice (disks s' p) (hdr + rz + shift_by) wend
  = skipn (nat_of hdr) (SyntheticDevice.data this) /\
  List.length (disks s' p) = List.length (disks s p) /\
  (forall q, q <> p -> disks s' q = disks s q) /\
  log s' = log s ++ Pwrite p shift_by hdr ::
                    (if wend =? 0 then [] else [Pwrite p (hdr + rz + shift_by) wend]).
Proof.
  intros hdr rz wend shift_range hdr_range rz_range wend_range fits_off_t.
  assert (H63 : 2 ^ 63 < two64) by reflexivity.
  unfold SyntheticDevice.copy_to_physical. fold hdr rz wend. cbv zeta.
  rewrite (u64_small shift_by), (u64_small (hdr + wend)), (u64_small (hdr + rz + shift_by))
    by lia.
  intros H.
  step H as s1 u1 Hlen. apply assert_ok in Hlen. destruct Hlen as [Hlen ->].
  apply Z.eqb_eq in Hlen.
  destruct (Z.ltb_spec shift_by 0) as [|_]; [lia|].
  step H as s2 sh Hsh. apply ok_inj in Hsh. destruct Hsh as [<- <-].
  step H as s3 u3 Hres.
  assert (Hreserved : reserved_area <> 0 -> reserved_area <= shift_by).
  { intros Hne. apply when_ok in Hres.
    destruct (Z.eqb_spec reserved_area 0) as [|_]; [contradiction|]. cbn [negb] in Hres.
    destruct Hres as [[Hf _]|[_ Hres]]; [discriminate|].
    step Hres as s4 u4 Ha. apply assert_ok in Ha. destruct Ha as [Ha _].
    apply Z.geb_le in Ha. exact Ha. }
  assert (Hs3 : s3 = s).
  { apply when_ok in Hres. destruct Hres as [[_ ->]|[_ Hres]]; [reflexivity|].
    step Hres as s4 u4 Ha. apply assert_ok in Ha. destruct Ha as [_ ->].
    apply assert_ok in Hres. destruct Hres as [_ ->]. reflexivity. }
  subst s3.
  step H as s4 u4 Hother.
  assert (Hs4 : s4 = s).
  { apply when_ok in Hother. destruct Hother as [[_ ->]|[_ Hother]]; [reflexivity|].
    step Hother as s5 u5 Ha. apply assert_ok in Ha. destruct Ha as [_ ->].
    apply when_ok in Hother. destruct Hother as [[_ ->]|[_ Hother]]; [reflexivity|].
    apply assert_ok in Hother. destruct Hother as [_ ->]. reflexivity. }
  subst s4.
  step H as s5 written Hw1.
  apply pwrite_inv in Hw1. destruct Hw1 as (Hlog1 & Hother1 & Hdisk1).
  assert (Hstart : Z.of_nat (List.length (firstn (nat_of hdr) (SyntheticDevice.data this))) = hdr).
  { rewrite length_firstn. unfold nat_of. lia. }
  rewrite Hstart in Hlog1.
  assert (Hlen1 : List.length (disks s5 p) = List.length (disks s p)).
  { destruct Hdisk1 as [->| ->]; [reflexivity | apply splice_length]. }
  destruct (negb (written =? to_off_t hdr)).
  { step H as s6 err Hskip1. step H as s7 u7 Hskip2. discriminate. }
  step H as s6 r Hread. destruct r as [read_bytes read_back].
  apply pread_inv in Hread. destruct Hread as [-> Hread].
  rewrite (@to_off_t_small hdr) in H by lia.
  destruct (Z.eqb_spec read_bytes hdr) as [->|_]; cbn [negb] in H;
    [|step H as s7 u7 Hskip3; discriminate].
  destruct Hread as [Hneg | [-> _]]; [lia|].
  step H as s7 u7 Hcmp. apply assert_ok in Hcmp. destruct Hcmp as [Hcmp ->].
  apply bytes_eqb_eq in Hcmp.
  split; [exact Hlen|]. split; [exact Hreserved|].
  destruct (Z.eqb_spec wend 0) as [Hw0|Hw0].
  - apply ok_inj in H. destruct H as [<- _].
    split; [symmetry; exact Hcmp|]. split.
    + rewrite Hw0. unfold slice. cbn [nat_of Z.to_nat firstn].
      symmetry. apply skipn_all2. unfold nat_of. lia.
    + split; [exact Hlen1|]. split; [exact Hother1 | exact Hlog1].
  - step H as s8 written2 Hw2.
    apply pwrite_inv in Hw2. destruct Hw2 as (Hlog2 & Hother2 & Hdisk2).
    assert (Hend : Z.of_nat (List.length (skipn (nat_of hdr) (SyntheticDevice.data this))) = wend).
    { rewrite length_skipn. unfold nat_of. lia. }
    rewrite Hend in Hlog2.
    destruct (negb (written2 =? to_off_t wend)).
    { step H as s9 err Hskip4. step H as s10 u10 Hskip5. discriminate. }
    step H as s9 r Hread2. destruct r as [read_bytes2 read_back2].
    apply pread_inv in Hread2. destruct Hread2 as [-> Hread2].
    rewrite (@to_off_t_small wend) in H by lia.
    destruct (Z.eqb_spec read_bytes2 wend) as [->|_]; cbn [negb] in H;
      [|step H as s10 u10 Hskip6; discriminate].
    destruct Hread2 as [Hneg | [-> _]]; [lia|].
    apply assert_ok in H. destruct H as [Hcmp2 ->]. apply bytes_eqb_eq in Hcmp2.
    split; [|split; [symmetry; exact Hcmp2|split; [|split]]].
    + destruct Hdisk2 as [->| ->]; [symmetry; exact Hcmp|].
      rewrite splice_slice_before by lia. symmetry. exact Hcmp.
    + destruct Hdisk2 as [->| ->]; [exact Hlen1|]. rewrite splice_length. exact Hlen1.
    + intros q Hq. rewrite Hother2, Hother1 by exact Hq. reflexivity.
    + rewrite Hlog2, Hlog1, <- app_assoc. reflexivity.
Qed.

Lemma copy_to_physical_verified_witness :
  let s := one_disk "/dev/sdb1" (blank 16) in
  let s' := fst (SyntheticDevice.copy_to_physical env_layers small_copy (Some "/dev/sdb1")
                                                  2 2 true s) in
  Z.of_nat (List.length (SyntheticDevice.data small_copy)) = 4 + 2 /\
  (2 <> 0 -> 2 <= 2) /\
  slice (disks s' "/dev/sdb1") 2 4 = firstn (nat_of 4) (SyntheticDevice.data small_copy) /\
  slice (disks s' "/dev/sdb1") (4 + 4 + 2) 2
  = skipn (nat_of 4) (SyntheticDevice.data small_copy) /\
  List.length (disks s' "/dev/sdb1") = List.length (disks s "/dev/sdb1") /\
  (forall q, q <> "/dev/sdb1" -> disks s' q = disks s q) /\
  log s' = log s ++ Pwrite "/dev/sdb1" 2 4 ::
                    (if 2 =? 0 then [] else [Pwrite "/dev/sdb1" (4 + 4 + 2) 2]).
Proof.
  cbv zeta.
  apply (@copy_to_physical_verified env_layers small_copy "/dev/sdb1" 2 2 true
                                    (one_disk "/dev/sdb1" (blank 16))).
  - lia.
  - cbn. lia.
  - cbn. lia.
  - cbn. lia.
  - cbn. lia.
  - vm_compute. reflexivity.
Defined.

Lemma emits_pwrite_above (floor : Z) (f : fd) (data : list byte) (off : Z) :
  floor <= off -> emits (above floor) (pwrite f data off).
Proof.
  intros Hle s. unfold pwrite. destruct f as [p|]; [|exists []; cbn; rewrite app_nil_r; auto].
  assert (Hev : forallb (above floor) [Pwrite p off (Z.of_nat (List.length data))] = true).
  { cbn. destruct (Z.leb_spec floor off); [reflexivity | lia]. }
  destruct (to_off_t off <? 0); [|destruct (_ && _)]; cbn [fst log]; eexists; split;
    try reflexivity; exact Hev.
Qed.

Lemma emits_report (floor : Z) (text : string) : emits (above floor) (emit (Stderr text)).
Proof. apply emits_emit. reflexivity. Qed.

(** X17.  [copy_to_physical] keeps out of the reserved area.  With a
    non-zero [reserved_area], every write of every run, however it ends,
    starts at or above it: both offsets are checked before the first
    write. *)
Theorem copy_to_physical_spares_reserved_area (E : Env) (this : SyntheticDevice.t)
        (dev_fd : fd) (shift_by reserved_area : Z) (other_device : bool) (s : sys) :
  reserved_area <> 0 ->
  exists tl,
    log (fst (SyntheticDevice.copy_to_physical E this dev_fd shift_by reserved_area
                                               other_device s)) = log s ++ tl /\
    forallb (above reserved_area) tl = true.
Proof.
  intros Hne. revert s.
  change (emits (above reserved_area)
                (SyntheticDevice.copy_to_physical E this dev_fd shift_by reserved_area
                                                  other_device)).
  unfold SyntheticDevice.copy_to_physical. cbv zeta.
  apply emits_bind; [auto with emits|]. intros _.
  destruct (Z.ltb_spec (u64 shift_by) 0) as [Hneg|_].
  { exfalso. unfold u64, two64 in Hneg. pose proof (Z.mod_pos_bound shift_by (2 ^ 64)). lia. }
  apply emits_bind_run; [auto with emits|]. intros s0 s1 sh Hsh.
  apply ok_inj in Hsh. destruct Hsh as [_ <-].
  apply emits_bind_run.
  { apply emits_when. apply emits_bind; [auto with emits|]. intros _. auto with emits. }
  intros s2 s3 u Hres. apply when_ok in Hres.
  destruct (Z.eqb_spec reserved_area 0) as [|_]; [contradiction|]. cbn [negb] in Hres.
  destruct Hres as [[Hf _]|[_ Hres]]; [discriminate|].
  apply bind_ok_inv in Hres. destruct Hres as (s4 & u4 & Ha1 & Ha2).
  apply assert_ok in Ha1. destruct Ha1 as [Ha1 _]. apply Z.geb_le in Ha1.
  apply assert_ok in Ha2. destruct Ha2 as [Ha2 _]. apply Z.geb_le in Ha2.
  pose proof (emits_report reserved_area) as Hrep.
  pose proof (@emits_pwrite_above reserved_area dev_fd) as Hpw.
  apply emits_bind.
  { apply emits_when. apply emits_bind; [auto with emits|]. intros _.
    apply emits_when. auto with emits. }
  intros _.
  apply emits_bind; [apply Hpw; exact Ha1|]. intros written.
  destruct (negb (written =? to_off_t (SyntheticDevice.writable_hdr_size this))).
  { apply emits_bind; [auto with emits|]. intros err.
    apply emits_bind; [apply Hrep | intros _; auto with emits]. }
  apply emits_bind; [auto with emits|]. intros [read_bytes read_back].
  destruct (negb (read_bytes =? to_off_t (SyntheticDevice.writable_hdr_size this))).
  { apply emits_bind; [apply Hrep | intros _; auto with emits]. }
  apply emits_bind; [auto with emits|]. intros _.
  destruct (SyntheticDevice.writable_end_size this =? 0); [auto with emits|].
  apply emits_bind; [apply Hpw; exact Ha2|]. intros written2.
  destruct (negb (written2 =? to_off_t (SyntheticDevice.writable_end_size this))).
  { apply emits_bind; [auto with emits|]. intros err.
    apply emits_bind; [apply Hrep | intros _; auto with emits]. }
  apply emits_bind; [auto with emits|]. intros [read_bytes2 read_back2].
  destruct (negb (read_bytes2 =? to_off_t (SyntheticDevice.writable_end_size this))).
  { apply emits_bind; [apply Hrep | intros _; auto with emits]. }
  auto with emits.
Qed.

Lemma copy_to_physical_spares_reserved_area_witness :
  exists tl,
    log (fst (SyntheticDevice.copy_to_physical env_layers small_copy (Some "/dev/sdb1")
                                               2 2 true (one_disk "/dev/sdb1" (blank 16))))
    = log (one_disk "/dev/sdb1" (blank 16)) ++ tl /\
    forallb (above 2) tl = true.
Proof.
  apply (@copy_to_physical_spares_reserved_area env_layers small_copy (Some "/dev/sdb1")
                                                2 2 true (one_disk "/dev/sdb1" (blank 16))).
  lia.
Defined.

(** ** blocks_types.h and synthetic_device.cpp: device-mapper nodes *)

(** X18.  [mk_dm] hands back the removal that fits the creation.  When it
    returns, the last event of the log is the dmsetup create that succeeded,
    and the exit callback removes the node with the udev option of that
    create: --noudevsync when the first attempt went through (nothing else
    was logged), --verifyudev when the fallback did. *)
Theorem mk_dm_removes_as_created (E : Env) (devname : string) (t : DM.table)
        (readonly : bool) (s s' : sys) (remove_cmd : list string) :
  DM.mk_dm E devname t readonly s = (s', Ok remove_cmd) ->
  exists opt pre,
    (opt = "--noudevsync" \/ opt = "--verifyudev") /\
    remove_cmd = ["dmsetup"; "remove"; opt; "--"; devname] /\
    log s' = pre ++ [Call (create_cmd readonly opt devname) (DM.render t)] /\
    call_status E (log s') (create_cmd readonly opt devname) = 0 /\
    (opt = "--noudevsync" -> pre = log s).
Proof.
  unfold DM.mk_dm. cbv zeta. intros H.
  step H as s1 fallback Hcreate. apply ok_inj in H. destruct H as [<- <-].
  apply catch_ok_inv in Hcreate. destruct Hcreate as [Hfirst | (s2 & w & Hfirst & Hsecond)].
  - step Hfirst as s3 u Hcall. apply ok_inj in Hfirst. destruct Hfirst as [<- <-].
    apply quiet_call_done in Hcall. destruct Hcall as [Hlog Hst].
    exists "--noudevsync", (log s). auto 6.
  - step Hsecond as s3 u3 Hwarn. step Hsecond as s4 u4 Hcall.
    apply ok_inj in Hsecond. destruct Hsecond as [<- <-].
    apply quiet_call_done in Hcall. destruct Hcall as [Hlog Hst].
    exists "--verifyudev", (log s3).
    split; [right; reflexivity|]. split; [reflexivity|]. split; [exact Hlog|].
    split; [exact Hst | discriminate].
Qed.

Lemma mk_dm_removes_as_created_witness :
  let t := SyntheticDeviceContext.rozeros_table 8 in
  let s' := fst (DM.mk_dm env_layers "rozeros-0" t true no_disks) in
  exists opt pre,
    (opt = "--noudevsync" \/ opt = "--verifyudev") /\
    ["dmsetup"; "remove"; "--noudevsync"; "--"; "rozeros-0"]
    = ["dmsetup"; "remove"; opt; "--"; "rozeros-0"] /\
    log s' = pre ++ [Call (create_cmd true opt "rozeros-0") (DM.render t)] /\
    call_status env_layers (log s') (create_cmd true opt "rozeros-0") = 0 /\
    (opt = "--noudevsync" -> pre = log no_disks).
Proof.
  cbv zeta.
  apply (@mk_dm_removes_as_created env_layers "rozeros-0" (SyntheticDeviceContext.rozeros_table 8)
                                   true no_disks).
  vm_compute. reflexivity.
Defined.

(** X19.  The table of the synthetic device with an end area.  Its head
    maps to the start of the loop device, the middle to the read-only error
    device, and the end area to the loop device again, right behind the
    head; nothing is mapped outside, and the device has as many sectors as
    the three parts together. *)
Theorem synth_table_layout (lo rozeros : string) (writable rz wrend k : Z) :
  0 <= writable -> 0 <= rz -> 0 <= wrend -> writable + rz + wrend < two64 ->
  let t := SyntheticDeviceContext.synth_table lo rozeros writable rz wrend true in
  (0 <= k < writable -> DM.resolve t k = Some (lo, k)) /\
  (writable <= k < writable + rz ->
     DM.resolve t k = Some ("/dev/mapper/" +++ rozeros, k - writable)) /\
  (writable + rz <= k < writable + rz + wrend ->
     DM.resolve t k = Some (lo, writable + (k - (writable + rz)))) /\
  (k < 0 \/ writable + rz + wrend <= k -> DM.resolve t k = None) /\
  DM.sectors t = writable + rz + wrend.
Proof.
  intros Hw Hrz Hwe Hfit. cbv zeta. unfold SyntheticDeviceContext.synth_table.
  cbn [app DM.resolve DM.sectors fold_right DM.l_start DM.l_len DM.l_target].
  rewrite (u64_small (writable + rz)) by lia.
  split; [|split; [|split; [|split; [|lia]]]]; intros Hk;
    repeat match goal with
           | |- context [?a <=? ?b] => destruct (Z.leb_spec a b); try lia
           | |- context [?a <? ?b] => destruct (Z.ltb_spec a b); try lia
           end; cbn [andb]; try reflexivity; f_equal; f_equal; lia.
Qed.

Lemma synth_table_layout_witness :
  let t := SyntheticDeviceContext.synth_table "/dev/loop0" "rozeros-0" 16 8176 8 true in
  (0 <= 8195 < 16 -> DM.resolve t 8195 = Some ("/dev/loop0", 8195)) /\
  (16 <= 8195 < 16 + 8176 ->
     DM.resolve t 8195 = Some ("/dev/mapper/" +++ "rozeros-0", 8195 - 16)) /\
  (16 + 8176 <= 8195 < 16 + 8176 + 8 ->
     DM.resolve t 8195 = Some ("/dev/loop0", 16 + (8195 - (16 + 8176)))) /\
  (8195 < 0 \/ 16 + 8176 + 8 <= 8195 -> DM.resolve t 8195 = None) /\
  DM.sectors t = 16 + 8176 + 8.
Proof.
  cbv zeta.
  apply (@synth_table_layout "/dev/loop0" "rozeros-0" 16 8176 8 8195); unfold two64; lia.
Defined.

Lemma no_teardown_also (e : event) : is_query e = true -> no_teardown e = true.
Proof. destruct e; cbn; congruence. Qed.

Lemma emits_setup_ask {A} (what : string) (f : list event -> A) :
  emits no_teardown (ask what f).
Proof. apply emits_weaken with (P := is_query); [exact no_teardown_also | apply emits_query]. Qed.

Lemma emits_setup_call (E : Env) (cmd : list string) (table : string) :
  no_teardown (Call cmd table) = true -> emits no_teardown (quiet_call E cmd table).
Proof.
  intros Hc. unfold quiet_call.
  apply emits_bind; [apply emits_emit, Hc|]. intros _.
  apply emits_bind; [exact (emits_nothing no_teardown (fun s => Ok (call_status E (log s) cmd)))|].
  intros status. destruct (status =? 0); [apply emits_ret|].
  apply emits_bind; [apply emits_setup_ask|].
  intros out. apply emits_bind; [apply emits_emit; reflexivity | intros _; apply emits_throw].
Qed.

Lemma emits_setup_mk_dm (E : Env) (devname : string) (t : DM.table) (readonly : bool) :
  emits no_teardown (DM.mk_dm E devname t readonly).
Proof.
  unfold DM.mk_dm. cbv zeta.
  apply emits_bind; [|intros ?; apply emits_ret].
  apply emits_catch.
  - apply emits_bind; [|intros _; apply emits_ret].
    apply emits_setup_call. destruct readonly; reflexivity.
  - intros w. apply emits_bind; [apply emits_emit; reflexivity|]. intros _.
    apply emits_bind; [|intros _; apply emits_ret].
    apply emits_setup_call. destruct readonly; reflexivity.
Qed.

(** X20.  The constructor of [SyntheticDeviceContext] never takes down what
    it has set up.  Whatever happens in it, no dmsetup remove and no losetup
    -d is run: when the second device cannot be created, or the path of the
    synthetic device fails the assertion of [BlockDevice], the first device
    and the loop device are left behind (the destructor of an object whose
    constructor threw does not run). *)
Theorem context_create_never_tears_down (E : Env) (hdr rz wend : Z) (s : sys) :
  exists tl,
    log (fst (SyntheticDeviceContext.create E hdr rz wend s)) = log s ++ tl /\
    forallb no_teardown tl = true.
Proof.
  revert s. change (emits no_teardown (SyntheticDeviceContext.create E hdr rz wend)).
  unfold SyntheticDeviceContext.create, open_, unlink, BlockDevice.make.
  pose proof (emits_setup_mk_dm E) as Hmk.
  emits_walk_with ltac:(first [apply emits_setup_ask | apply Hmk
                              | apply emits_emit; reflexivity]).
Qed.

(** ** lvm_operations.cpp: to-lvm *)

Lemma get_block_stack_loop_luks (E : Env) (progress : ProgressListener) (depth : nat)
      (device : string) (stack0 : BlockStack.t) (s s' : sys) (stack : BlockStack.t) :
  (forall asked, blkid_type E asked device 0 = "crypto_LUKS") ->
  BlockStack.get_block_stack_loop E progress depth device stack0 s = (s', Ok stack) ->
  exists l rest, stack = stack0 ++ BlockStack.L l :: rest.
Proof.
  intros Hluks H. destruct depth as [|depth]; cbn [BlockStack.get_block_stack_loop] in H;
    [discriminate|].
  apply bind_ok_inv in H. destruct H as (s1 & sbt & Hsbt & H).
  unfold superblock_type, superblock_at, ask in Hsbt.
  apply ok_inj in Hsbt. destruct Hsbt as [_ Hsbt]. rewrite Hluks in Hsbt. subst sbt.
  cbn [String.eqb Ascii.eqb Bool.eqb] in H.
  apply bind_ok_inv in H. destruct H as (s2 & [wrapper clear] & _ & H).
  destruct (get_block_stack_loop_shape _ _ _ _ _ _ H) as (ws & dev & k & Hst & _).
  exists wrapper, (ws ++ [BlockStack.F (Filesystem.create dev k)]).
  rewrite Hst, <- app_assoc. reflexivity.
Qed.

Lemma get_block_stack_luks (E : Env) (progress : ProgressListener) (device : string)
      (s s' : sys) (stack : BlockStack.t) :
  (forall asked, blkid_type E asked device 0 = "crypto_LUKS") ->
  BlockStack.get_block_stack E progress device s = (s', Ok stack) ->
  exists l rest, stack = BlockStack.L l :: rest.
Proof.
  unfold BlockStack.get_block_stack. intros Hluks H.
  exact (@get_block_stack_loop_luks E progress 64 device [] s s' stack Hluks H).
Qed.

(** X21.  to-lvm cannot convert a LUKS volume.  On a device that blkid
    reports as crypto_LUKS the stack has a LUKS layer, and the conversion
    has to deactivate the stack before it moves the first extent; that call
    does not return.  So no run of [cmd_to_lvm] on such a device returns. *)
Theorem cmd_to_lvm_never_converts_luks (E : Env) (args : LvmOps.CommandArgs) (s : sys) :
  (forall asked, blkid_type E asked (LvmOps.device args) 0 = "crypto_LUKS") ->
  ~ returned (LvmOps.cmd_to_lvm E args s).
Proof.
  intros Hluks Hret. apply returned_run in Hret. destruct Hret as (s' & z & H).
  unfold LvmOps.cmd_to_lvm in H.
  step H as s1 device Hmake. apply make_ok in Hmake. subst device.
  step H as s2 sbt Hsbt.
  step H as s3 u3 H3. step H as s4 u4 H4.
  step H as s5 r5 H5. destruct r5 as [[vgname pe_size] join_name].
  step H as s6 u6 H6. step H as s7 u7 H7. step H as s8 dsize0 H8. step H as s9 u9 H9.
  step H as s10 block_stack Hstack.
  destruct (@get_block_stack_luks E _ _ _ _ _ Hluks Hstack) as (l & rest & ->).
  destruct (@get_block_stack_built E _ _ _ _ _ Hstack) as (ws & dev & k & Hshape & Hws & _).
  step H as s11 label H11. step H as s12 lvname H12.
  step H as s13 pe_sectors H13. step H as s14 dsize H14. step H as s15 u15 H15.
  step H as s16 u16 H16. step H as s17 u17 H17.
  step H as s18 stack' Hread.
  assert (Hbuilt : built (BlockStack.L l :: rest)).
  { rewrite Hshape. exists ws, (Filesystem.create dev k). split; [reflexivity|].
    eapply Forall_impl; [|exact Hws]. intros [l0|b|f]; cbn; [discriminate | discriminate | tauto]. }
  destruct (@read_superblocks_kept E _ _ _ _ Hbuilt Hread) as (Hsame & _).
  inversion Hsame as [|a b la lb Hab Hrest]; subst.
  destruct b as [l'|b'|f']; cbn in Hab; try contradiction.
  step H as s19 u19 H19. step H as s20 u20 H20. step H as s21 u21 H21.
  step H as s22 fsuuid H22. step H as s23 u23 Hde.
  apply (@stack_deactivate_stops E (BlockStack.L l' :: lb) l' s22); [left; reflexivity|].
  exact (run_returned Hde).
Qed.

Lemma cmd_to_lvm_never_converts_luks_witness :
  ~ returned (LvmOps.cmd_to_lvm (calm (fun _ => 16777216) (fun _ _ => "crypto_LUKS")
                                      (ext4_tool 4096))
                                (to_lvm "/dev/sdb1") no_disks).
Proof.
  apply cmd_to_lvm_never_converts_luks. intros asked. reflexivity.
Defined.

Lemma hyphen_not_whitelisted (name : string) :
  mem_ascii "-"%char name = true -> all_whitelisted name = false.
Proof.
  induction name as [|c name IH]; cbn [mem_ascii all_whitelisted]; [discriminate|].
  destruct (Ascii.eqb_spec "-"%char c) as [<-|_]; [reflexivity|].
  cbn [orb]. intros H. rewrite (IH H). apply andb_false_r.
Qed.

(** The VG name is checked before anything but the preparation has run. *)
Lemma cmd_to_lvm_name_gate (E : Env) (args : LvmOps.CommandArgs) (s : sys) :
  (forall s1 s2 vg pe jn,
      LvmOps.choose_vg E args (LvmOps.device args) s1 = (s2, Ok (vg, pe, jn)) ->
      all_whitelisted vg = false) ->
  let r := LvmOps.cmd_to_lvm E args s in
  ~ returned r /\
  exists tl, log (fst r) = log s ++ tl /\ forallb (prepares (LvmOps.device args)) tl = true.
Proof.
  intros Hname. cbv zeta. split.
  - intros Hret. apply returned_run in Hret. destruct Hret as (s' & z & H).
    unfold LvmOps.cmd_to_lvm in H.
    step H as s1 device Hmake. apply make_ok in Hmake. subst device.
    step H as s2 sbt Hsbt. step H as s3 u3 H3. step H as s4 u4 H4.
    step H as s5 r5 Hvg. destruct r5 as [[vgname pe_size] join_name].
    apply Hname in Hvg.
    step H as s6 u6 H6. step H as s7 u7 H7.
    apply assert_ok in H7. destruct H7 as [H7 _]. congruence.
  - revert s. change (emits (prepares (LvmOps.device args)) (LvmOps.cmd_to_lvm E args)).
    set (dev := LvmOps.device args) in *.
    pose proof (harmless_prepares dev) as Hh.
    unfold LvmOps.cmd_to_lvm. fold dev.
    apply emits_bind_run; [apply emits_make, Hh|].
    intros s0 s1 device Hmake. apply make_ok in Hmake. subst device.
    apply emits_bind; [apply emits_superblock_type, Hh|]. intros sbt.
    apply emits_bind.
    { apply emits_when. apply emits_bind; [apply emits_emit; reflexivity | intros _].
      apply (emits_quiet_call (prepares dev) Hh), prepares_pvremove. }
    intros _. apply emits_bind; [apply emits_require, Hh|]. intros _.
    apply emits_bind_run; [apply emits_choose_vg, Hh|].
    intros s2 s3 [[vgname pe_size] join_name] Hvg. apply Hname in Hvg.
    apply emits_bind; [apply emits_assert|]. intros _.
    apply emits_bind_run; [apply emits_assert|].
    intros s4 s5 u Ha. apply assert_ok in Ha. destruct Ha as [Ha _]. congruence.
Qed.

(** X22.  to-lvm --join stops at its own check of the VG name.  With --join
    the temporary VG is named after a fresh UUID, in the text form of
    [uuid_unparse_lower], which has hyphens; the hyphen is not in
    ASCII_ALNUM_WHITELIST, so the assertion on the name fails.  No such run
    returns, and all it has done by then is look at the device and, on a
    physical volume, run pvremove. *)
Theorem cmd_to_lvm_join_stops_at_vgname (E : Env) (args : LvmOps.CommandArgs) (s : sys) :
  LvmOps.join args <> "" ->
  (forall asked, mem_ascii "-"%char (uuid_generate E asked) = true) ->
  let r := LvmOps.cmd_to_lvm E args s in
  ~ returned r /\
  exists tl, log (fst r) = log s ++ tl /\ forallb (prepares (LvmOps.device args)) tl = true.
Proof.
  intros Hjoin Huuid. apply cmd_to_lvm_name_gate.
  intros s1 s2 vg pe jn H. unfold LvmOps.choose_vg in H.
  destruct (LvmOps.join args) as [|c j]; [contradiction|]. cbn [string_empty negb] in H.
  step H as s3 r Hr. destruct r as [[join_name join_uuid] pe_size_str].
  step H as s4 u Hu. unfold ask in Hu. apply ok_inj in Hu. destruct Hu as [_ Hu].
  destruct pe_size_str as [pe_size|]; [|discriminate].
  apply ok_inj in H. destruct H as [_ H]. inversion H; subst.
  apply hyphen_not_whitelisted, Huuid.
Qed.

Lemma cmd_to_lvm_join_stops_at_vgname_witness :
  let args := LvmOps.Args "to-lvm" "/dev/sdb1" "" "vg0" false false false 0 in
  let r := LvmOps.cmd_to_lvm env_ext4 args no_disks in
  ~ returned r /\
  exists tl, log (fst r) = log no_disks ++ tl /\ forallb (prepares "/dev/sdb1") tl = true.
Proof.
  cbv zeta.
  apply (@cmd_to_lvm_join_stops_at_vgname
           env_ext4 (LvmOps.Args "to-lvm" "/dev/sdb1" "" "vg0" false false false 0) no_disks).
  - discriminate.
  - intros asked. reflexivity.
Defined.

(** X23.  The default VG name is checked, not cleaned.  Without --vgname and
    --join the VG is named "vg." and the file name of the device; when that
    name has a character outside ASCII_ALNUM_WHITELIST (the hyphen of
    /dev/mapper/vg0-home, say) the run stops in the assertion on the name.
    It does not return, and has only looked at the device (and run pvremove
    on a physical volume) by then. *)
Theorem cmd_to_lvm_default_vgname_checked (E : Env) (args : LvmOps.CommandArgs) (s : sys) :
  LvmOps.join args = "" -> LvmOps.vgname args = "" ->
  all_whitelisted ("vg." +++ LvmOps.filename (LvmOps.device args)) = false ->
  let r := LvmOps.cmd_to_lvm E args s in
  ~ returned r /\
  exists tl, log (fst r) = log s ++ tl /\ forallb (prepares (LvmOps.device args)) tl = true.
Proof.
  intros Hjoin Hvg Hname. apply cmd_to_lvm_name_gate.
  intros s1 s2 vg pe jn H. unfold LvmOps.choose_vg in H. rewrite Hjoin, Hvg in H.
  cbn [string_empty negb] in H. apply ok_inj in H. destruct H as [_ H].
  inversion H; subst. exact Hname.
Qed.

Lemma cmd_to_lvm_default_vgname_checked_witness :
  let r := LvmOps.cmd_to_lvm env_ext4 (to_lvm "/dev/mapper/vg0-home") no_disks in
  ~ returned r /\
  exists tl, log (fst r) = log no_disks ++ tl /\
             forallb (prepares "/dev/mapper/vg0-home") tl = true.
Proof.
  cbv zeta.
  apply (@cmd_to_lvm_default_vgname_checked env_ext4 (to_lvm "/dev/mapper/vg0-home") no_disks);
    reflexivity.
Defined.

(** ** lvm_operations.cpp and main.cpp: the rotation *)

Lemma rotate_aug_stub_stops (forward : bool) (size : Z) (s : sys) :
  exists what, @LvmRotate.rotate_aug unit Augeas.Stub tt forward size s = (s, Abort what).
Proof.
  unfold LvmRotate.rotate_aug, bytes_to_sector, bind, assert, ret, abort.
  cbn [Augeas.get_int Augeas.Stub Augeas.incr LvmRotate.range Z.sub Z.add Z.opp
       Z.to_nat Z.pos_sub seq map fold_m].
  unfold ret.
  destruct (size mod 512 =? 0).
  - destruct (u64 (0 * 0) =? size / 512).
    + cbn. eexists. reflexivity.
    + eexists. reflexivity.
  - eexists. reflexivity.
Qed.

Lemma rotate_prelude_also (e : event) : is_query e = true -> rotate_prelude e = true.
Proof. destruct e; cbn; congruence. Qed.

Lemma emits_prelude_call (E : Env) (cmd : list string) :
  rotate_prelude (Call cmd "") = true -> emits rotate_prelude (quiet_call E cmd "").
Proof.
  intros Hc. unfold quiet_call.
  apply emits_bind; [apply emits_emit, Hc|]. intros _.
  apply emits_bind; [exact (emits_nothing rotate_prelude (fun s => Ok (call_status E (log s) cmd)))|].
  intros status. destruct (status =? 0); [apply emits_ret|].
  apply emits_bind; [apply emits_weaken with (P := is_query);
                     [exact rotate_prelude_also | apply emits_query]|].
  intros out. apply emits_bind; [apply emits_emit; reflexivity | intros _; apply emits_throw].
Qed.

Lemma rotate_lv_stops (E : Env) (device : string) (size : Z) (debug forward : bool) (s : sys) :
  ~ returned (LvmRotate.rotate_lv E device size debug forward s).
Proof.
  intros Hret. apply returned_run in Hret. destruct Hret as (s' & u & H).
  unfold LvmRotate.rotate_lv in H. cbv zeta in H.
  step H as s1 info Hinfo. destruct info as [[vgname lvname] lv_attr].
  step H as s2 u2 H2. step H as s3 td H3. destruct td as [tdname|]; [|discriminate].
  step H as s4 u4 H4. step H as s5 u5 H5. step H as s6 u6 H6.
  step H as s7 aug Haug.
  destruct (rotate_aug_stub_stops forward size s6) as (what & Hstop).
  rewrite Hstop in Haug. discriminate.
Qed.

(** X24.  [rotate_lv] takes the volume offline and leaves it there.  On the
    Augeas handle of this repository the first [rotate_aug] fails an
    assertion, so no run of [rotate_lv] returns; and all a run gets to do is
    ask questions, run lvchange -an and vgcfgbackup, and report a command
    that failed: the configuration is never restored and the volume never
    activated again. *)
Theorem rotate_lv_leaves_volume_offline (E : Env) (device : string) (size : Z)
        (debug forward : bool) (s : sys) :
  let r := LvmRotate.rotate_lv E device size debug forward s in
  ~ returned r /\
  exists tl, log (fst r) = log s ++ tl /\ forallb rotate_prelude tl = true.
Proof.
  cbv zeta. split.
  - apply rotate_lv_stops.
  - revert s. change (emits rotate_prelude (LvmRotate.rotate_lv E device size debug forward)).
    unfold LvmRotate.rotate_lv. cbv zeta.
    apply emits_bind; [apply emits_weaken with (P := is_query);
                       [exact rotate_prelude_also | apply emits_query]|].
    intros [[vgname lvname] lv_attr].
    apply emits_bind; [apply emits_prelude_call; reflexivity|]. intros _.
    apply emits_bind; [apply emits_weaken with (P := is_query);
                       [exact rotate_prelude_also | apply emits_query]|].
    intros [tdname|]; [|apply emits_throw].
    apply emits_bind; [apply emits_prelude_call; reflexivity|]. intros _.
    apply emits_bind; [apply emits_assert|]. intros _.
    apply emits_bind; [apply emits_assert|]. intros _.
    apply emits_bind_run.
    + intros s0. destruct (rotate_aug_stub_stops forward size s0) as (what & ->).
      exists []. cbn. rewrite app_nil_r. auto.
    + intros s0 s1 aug Haug.
      destruct (rotate_aug_stub_stops forward size s0) as (what & Hstop).
      rewrite Hstop in Haug. discriminate.
Qed.

Lemma string_empty_true (x : string) : string_empty x = true -> x = "".
Proof. destruct x; [reflexivity | discriminate]. Qed.

(** X25.  The rotate command never reports success and changes nothing
    before it gives up.  A run of [cmd_rotate] that returns, returns 1 with
    every device as it was, after the existence check of the device, the one
    [popen] and at most one probe: either [popen] gave no stream and the
    run said "Failed to execute command", or blkid found no superblock at
    the extent size and the run said so.  With a superblock there the run
    goes into [rotate_lv], which does not return. *)
Theorem cmd_rotate_never_succeeds (E : Env) (args : LvmOps.CommandArgs) (s s' : sys) (z : Z) :
  Main.cmd_rotate E args s = (s', Ok z) ->
  let dev := LvmOps.device args in
  let l := log s ++ [Query ("exists " +++ dev); Query "lvm"] in
  z = 1 /\ disks s' = disks s /\
  ((popen_ok E l "lvm" = false /\ log s' = l ++ [Stderr "Failed to execute command"]) \/
   (popen_ok E l "lvm" = true /\
    exists pe_size question,
      popen_number E l "lvm" = Some pe_size /\
      blkid_type E (l ++ [Query question]) dev pe_size = "" /\
      log s' = l ++ [Query question; Stderr "No superblock on the second PE, exiting"])).
Proof.
  unfold Main.cmd_rotate. intros H. cbv zeta.
  step H as s1 device Hmake. apply make_run in Hmake. destruct Hmake as (-> & _ & ->).
  step H as s2 r Hask. unfold ask in Hask. cbn [log disks] in Hask.
  apply ok_inj in Hask. destruct Hask as [<- <-].
  rewrite <- app_assoc in H. cbn [app] in H.
  set (l := log s ++ [Query ("exists " +++ LvmOps.device args); Query "lvm"]) in *.
  destruct (popen_ok E l "lvm") eqn:Hpipe; cbn [negb] in H.
  - destruct (popen_number E l "lvm") as [pe_size|] eqn:Hnum; [|discriminate].
    step H as s3 sb Hsb. unfold superblock_at, ask in Hsb. cbn [log disks] in Hsb.
    apply ok_inj in Hsb. destruct Hsb as [<- <-].
    destruct (string_empty _) eqn:Hempty.
    + step H as s4 u Hemit. apply ok_inj in H. destruct H as [<- <-].
      unfold emit in Hemit. apply ok_inj in Hemit. destruct Hemit as [<- _]. cbn [log disks].
      split; [reflexivity|]. split; [reflexivity|]. right. split; [reflexivity|].
      eexists pe_size, _. split; [reflexivity|]. split.
      * apply string_empty_true. exact Hempty.
      * rewrite <- app_assoc. reflexivity.
    + step H as s4 dsize Hsize. step H as s5 u Hrot. exfalso.
      exact (@rotate_lv_stops E (LvmOps.device args) dsize (LvmOps.debug args) true s4
                              (run_returned Hrot)).
  - step H as s4 u Hemit. apply ok_inj in H. destruct H as [<- <-].
    unfold emit in Hemit. apply ok_inj in Hemit. destruct Hemit as [<- _]. cbn [log disks].
    split; [reflexivity|]. split; [reflexivity|]. left. split; reflexivity.
Qed.

Lemma cmd_rotate_never_succeeds_witness :
  let E := calm (fun _ => 16777216) (fun _ _ => "") (fun _ _ => None) in
  let s' := fst (Main.cmd_rotate E (to_lvm "/dev/sdb1") no_disks) in
  let dev := LvmOps.device (to_lvm "/dev/sdb1") in
  let l := log no_disks ++ [Query ("exists " +++ dev); Query "lvm"] in
  1 = 1 /\ disks s' = disks no_disks /\
  ((popen_ok E l "lvm" = false /\ log s' = l ++ [Stderr "Failed to execute command"]) \/
   (popen_ok E l "lvm" = true /\
    exists pe_size question,
      popen_number E l "lvm" = Some pe_size /\
      blkid_type E (l ++ [Query question]) dev pe_size = "" /\
      log s' = l ++ [Query question; Stderr "No superblock on the second PE, exiting"])).
Proof.
  cbv zeta.
  apply (@cmd_rotate_never_succeeds
           (calm (fun _ => 16777216) (fun _ _ => "") (fun _ _ => None))
           (to_lvm "/dev/sdb1") no_disks).
  vm_compute. reflexivity.
Defined.

(** ** bcache_operations.cpp: to-bcache *)

Lemma context_create_ok (E : Env) (hdr rz wend : Z) (s s' : sys)
      (ctx : SyntheticDeviceContext.t) :
  SyntheticDeviceContext.create E hdr rz wend s = (s', Ok ctx) ->
  let d := SyntheticDeviceContext.device ctx in
  SyntheticDevice.data d = [] /\ SyntheticDevice.writable_hdr_size d = hdr /\
  SyntheticDevice.rz_size d = rz /\ SyntheticDevice.writable_end_size d = wend.
Proof.
  unfold SyntheticDeviceContext.create. intros H.
  step H as s1 hex H1. step H as s2 f H2. destruct f as [f|]; [|discriminate].
  step H as s3 u3 H3. step H as s4 lo H4. destruct lo as [status lo_dev_path].
  destruct (negb (status =? 0)); [step H as s5 u5 H5; discriminate|].
  destruct (negb (SyntheticDeviceContext.starts_with_slash lo_dev_path));
    [step H as s5 u5 H5; discriminate|].
  step H as s5 u1 H5. step H as s6 u2 H6. step H as s7 ws H7. step H as s8 es H8.
  step H as s9 rs H9. step H as s10 re H10. step H as s11 se H11. step H as s12 p H12.
  apply ok_inj in H. destruct H as [_ <-]. cbn. auto.
Qed.

Lemma make_bcache_sb_ok (E : Env) (bsb_size data_size : Z) (join : string) (s s' : sys)
      (d : SyntheticDevice.t) :
  BcacheOps.make_bcache_sb E bsb_size data_size join s = (s', Ok d) ->
  SyntheticDevice.data d = [] /\ SyntheticDevice.writable_hdr_size d = bsb_size /\
  SyntheticDevice.rz_size d = data_size /\ SyntheticDevice.writable_end_size d = 0.
Proof.
  unfold BcacheOps.make_bcache_sb. intros H.
  step H as s1 ctx Hctx. apply context_create_ok in Hctx. cbv zeta in Hctx.
  destruct Hctx as (Hdata & Hhdr & Hrz & Hwend).
  apply finally_ok_inv in H. destruct H as (s2 & H).
  step H as s3 sectors H3. step H as s4 u4 H4. step H as s5 p H5. step H as s6 b H6.
  step H as s7 u7 H7. step H as s8 p' H8.
  apply ok_inj in H. destruct H as [_ <-]. cbn. auto.
Qed.

(** The copy handed out by [make_bcache_sb] cannot be copied anywhere: its
    [data] is empty while its header size is not. *)
Lemma copy_of_empty_stops (E : Env) (d : SyntheticDevice.t) (dev_fd : fd)
      (shift_by reserved_area : Z) (other_device : bool) (s : sys) :
  SyntheticDevice.data d = [] ->
  u64 (SyntheticDevice.writable_hdr_size d + SyntheticDevice.writable_end_size d) <> 0 ->
  ~ returned (SyntheticDevice.copy_to_physical E d dev_fd shift_by reserved_area other_device s).
Proof.
  intros Hdata Hsize Hret. apply returned_run in Hret. destruct Hret as (s' & u & H).
  unfold SyntheticDevice.copy_to_physical in H. cbv zeta in H. rewrite Hdata in H.
  step H as s1 u1 Ha. apply assert_ok in Ha. destruct Ha as [Ha _].
  apply Z.eqb_eq in Ha. cbn in Ha. congruence.
Qed.

(** A run of [lv_to_bcache] that returns had no stream from its first
    [popen]. *)
Lemma lv_to_bcache_inv (E : Env) (device : string) (debug : bool)
      (progress : ProgressListener) (join : string) (s s' : sys) (z : Z) :
  (forall asked what v, popen_number E asked what = Some v -> 0 <= v < two64) ->
  BcacheOps.lv_to_bcache E device debug progress join s = (s', Ok z) ->
  let l := log s ++ [Query "lvm"] in
  popen_ok E l "lvm" = false /\ z = 1 /\
  s' = Sys (disks s) (l ++ [Stderr "Error executing command"]).
Proof.
  intros Hrange H. cbv zeta. unfold BcacheOps.lv_to_bcache in H.
  step H as s1 r Hask. unfold ask in Hask. apply ok_inj in Hask. destruct Hask as [<- <-].
  cbn [log disks] in H |- *.
  destruct (popen_ok E (log s ++ [Query "lvm"]) "lvm"); cbn [negb] in H.
  - exfalso.
    destruct (popen_number E (log s ++ [Query "lvm"]) "lvm") as [pe_size|] eqn:Hout;
      [|discriminate].
    apply Hrange in Hout.
    step H as s2 dsize H2. step H as s3 u3 H3.
    destruct (Z.eqb_spec pe_size 0) as [|Hpe]; [discriminate|].
    step H as s4 u4 H4. step H as s5 dsize' H5. step H as s6 stack H6. step H as s7 stack' H7.
    step H as s8 u8 H8. step H as s9 u9 H9. step H as s10 fd_ H10.
    step H as s11 synth_bdev Hsb. step H as s12 u12 Hcopy.
    apply make_bcache_sb_ok in Hsb. destruct Hsb as (Hdata & Hhdr & _ & Hwend).
    apply (@copy_of_empty_stops E synth_bdev fd_ (- pe_size) 0 false s11 Hdata);
      [|exact (run_returned Hcopy)].
    rewrite Hhdr, Hwend, Z.add_0_r, u64_small by exact Hout. exact Hpe.
  - step H as s2 u Hemit. apply ok_inj in H. destruct H as [<- <-].
    unfold emit in Hemit. apply ok_inj in Hemit. destruct Hemit as [<- _].
    auto.
Qed.

Lemma luks_to_bcache_stops (E : Env) (device : string) (debug : bool)
      (progress : ProgressListener) (join : string) (s : sys) :
  ~ returned (BcacheOps.luks_to_bcache E device debug progress join s).
Proof.
  intros Hret. apply returned_run in Hret. destruct Hret as (s' & z & H).
  unfold BcacheOps.luks_to_bcache in H.
  step H as s1 luks Hde.
  exact (@deactivate_loop_stops E 64 (LUKS.create device) s (run_returned Hde)).
Qed.

Lemma part_to_bcache_fails (E : Env) (device : string) (debug : bool)
      (progress : ProgressListener) (join : string) (s s' : sys) (z : Z) :
  BcacheOps.part_to_bcache E device debug progress join s = (s', Ok z) -> z = 1.
Proof.
  unfold BcacheOps.part_to_bcache. intros H.
  step H as s1 data_size H1. step H as s2 r H2. destruct r as [ptable part_start].
  step H as s3 a H3. step H as s4 b H4. step H as s5 u H5.
  apply ok_inj in H. destruct H as [_ <-]. reflexivity.
Qed.

Lemma select_variant_fails (E : Env) (device : string) (debug : bool)
      (progress : ProgressListener) (join : string) (s s' : sys) (z : Z) :
  (forall asked what v, popen_number E asked what = Some v -> 0 <= v < two64) ->
  BcacheOps.select_variant E device debug progress join s = (s', Ok z) -> z = 1.
Proof.
  intros Hrange H. unfold BcacheOps.select_variant in H.
  step H as s1 part Hpart. destruct part; [exact (@part_to_bcache_fails E device debug progress join s1 s' z H)|].
  step H as s2 lv Hlv. destruct lv.
  { exact (proj1 (proj2 (@lv_to_bcache_inv E device debug progress join s2 s' z Hrange H))). }
  step H as s3 sbt Hsbt. destruct (sbt =? "crypto_LUKS")%string.
  { exfalso. exact (@luks_to_bcache_stops E device debug progress join s3 (run_returned H)). }
  step H as s4 u Hemit. apply ok_inj in H. destruct H as [_ <-]. reflexivity.
Qed.

(** X26.  [lv_to_bcache] returns only where its first [popen] gives no
    stream: it then says "Error executing command" and returns 1, nothing
    else done.  With a stream it cannot get past the copy of the
    superblock.  The device handed back by [make_bcache_sb] is a copy made
    while the context lives, and [data] is filled by the destructor of the
    context only: the copy has no data and a header of one extent, so the
    first assertion of [copy_to_physical] fails and no run returns.  (The
    extent size is what [std::stoull] can return, a 64-bit number.) *)
Theorem lv_to_bcache_returns_only_without_pipe (E : Env) (device : string) (debug : bool)
        (progress : ProgressListener) (join : string) (s : sys) :
  (forall asked what v, popen_number E asked what = Some v -> 0 <= v < two64) ->
  let r := BcacheOps.lv_to_bcache E device debug progress join s in
  let l := log s ++ [Query "lvm"] in
  if popen_ok E l "lvm" then ~ returned r
  else r = (Sys (disks s) (l ++ [Stderr "Error executing command"]), Ok 1).
Proof.
  intros Hrange. cbv zeta.
  destruct (popen_ok E (log s ++ [Query "lvm"]) "lvm") eqn:Hpipe.
  - intros Hret. apply returned_run in Hret. destruct Hret as (s' & z & H).
    apply lv_to_bcache_inv in H; [|exact Hrange]. cbv zeta in H.
    destruct H as [H _]. congruence.
  - unfold BcacheOps.lv_to_bcache, bind, ask. cbn [log disks]. rewrite Hpipe. reflexivity.
Qed.

Lemma lv_to_bcache_returns_only_without_pipe_witness :
  ~ returned (BcacheOps.lv_to_bcache env_layers "/dev/vg0/lv0" false CLIProgressHandler ""
                                     no_disks) /\
  BcacheOps.lv_to_bcache (no_pipe env_layers) "/dev/vg0/lv0" false CLIProgressHandler ""
                         no_disks
  = (Sys (disks no_disks) ((log no_disks ++ [Query "lvm"]) ++ [Stderr "Error executing command"]),
     Ok 1).
Proof.
  split.
  - apply (@lv_to_bcache_returns_only_without_pipe
             env_layers "/dev/vg0/lv0" false CLIProgressHandler "" no_disks).
    intros asked what v H. inversion H. unfold two64. lia.
  - apply (@lv_to_bcache_returns_only_without_pipe
             (no_pipe env_layers) "/dev/vg0/lv0" false CLIProgressHandler "" no_disks).
    intros asked what v H. inversion H. unfold two64. lia.
Defined.

(** X27.  [luks_to_bcache] does not return: its first step is
    [LUKS::deactivate]. *)
Theorem luks_to_bcache_never_returns (E : Env) (device : string) (debug : bool)
        (progress : ProgressListener) (join : string) (s : sys) :
  ~ returned (BcacheOps.luks_to_bcache E device debug progress join s).
Proof. exact (@luks_to_bcache_stops E device debug progress join s). Qed.

(** X28.  to-bcache never reports success.  Every run of [cmd_to_bcache] that
    returns, returns 1: the usage and refusal paths do so by design, the
    partition variant because the partition lookup is a placeholder, the
    logical-volume variant only where [popen] gives no stream, and then 1,
    and the LUKS variant does not return at all.  (The extent size
    is what [std::stoull] can return.) *)
Theorem cmd_to_bcache_never_succeeds (E : Env) (argv : list string) (s s' : sys) (z : Z) :
  (forall asked what v, popen_number E asked what = Some v -> 0 <= v < two64) ->
  BcacheOps.cmd_to_bcache E argv s = (s', Ok z) -> z = 1.
Proof.
  intros Hrange H. unfold BcacheOps.cmd_to_bcache in H.
  destruct argv as [|prog rest]; [discriminate|].
  destruct rest as [|word rest].
  { step H as s1 u Hemit. apply ok_inj in H. destruct H as [_ <-]. reflexivity. }
  destruct (BcacheOps.parse_args (word :: rest) ("", false, "", false))
    as [[[device_path debug] join] maintboot].
  destruct (string_empty device_path).
  { step H as s1 u Hemit. apply ok_inj in H. destruct H as [_ <-]. reflexivity. }
  step H as s1 device Hmake. step H as s2 has Hhas. destruct has.
  { step H as s3 u Hemit. apply ok_inj in H. destruct H as [_ <-]. reflexivity. }
  step H as s3 u Hreq.
  exact (@select_variant_fails E device debug CLIProgressHandler join s3 s' z Hrange H).
Qed.

Lemma cmd_to_bcache_never_succeeds_witness : 1 = 1.
Proof.
  apply (@cmd_to_bcache_never_succeeds
           env_layers ["blocks"; "/dev/sdb1"] no_disks
           (fst (BcacheOps.cmd_to_bcache env_layers ["blocks"; "/dev/sdb1"] no_disks)) 1).
  - intros asked what v H. inversion H. unfold two64. lia.
  - vm_compute. reflexivity.
Defined.

(** ** block_device.cpp and resize_operations.cpp: resizing *)

Lemma asks_is_partition (E : Env) (p : string) : emits is_query (is_partition E p).
Proof. unfold is_partition, sysfspath, exists_, devnum. asks. Qed.

Lemma asks_is_lv (E : Env) (p : string) : emits is_query (is_lv E p).
Proof. unfold is_lv, is_dm, sysfspath, exists_, devnum. asks. Qed.

Lemma asks_ptable_context (E : Env) (p : string) : emits is_query (ptable_context E p).
Proof.
  unfold ptable_context, devpath_from_sysdir, sysfspath, devnum.
  pose proof (asks_is_partition E). pose proof (asks_make E). asks.
Qed.

Lemma emits_run {A} (P : event -> bool) (m : M A) (s s' : sys) (o : outcome A) :
  emits P m -> m s = (s', o) -> exists tl, log s' = log s ++ tl /\ forallb P tl = true.
Proof. intros Hm Hrun. destruct (Hm s) as (tl & Hl & Hp). rewrite Hrun in Hl. eauto. Qed.

Lemma dev_resize_inv (E : Env) (devpath : string) (newsize : Z) (shrink : bool)
      (s s' : sys) (u : unit) :
  dev_resize E devpath newsize shrink s = (s', Ok u) ->
  exists s1 part asked,
    is_partition E devpath s = (s1, Ok part) /\
    forallb is_query asked = true /\
    if part then log s' = log s ++ asked
    else log s' = log s ++ asked
                  ++ [Call (resize_cmd shrink (align_up newsize 512) devpath) ""].
Proof.
  unfold dev_resize. cbv zeta. intros H.
  step H as s1 part Hpart.
  destruct (@emits_run _ _ _ _ _ _ (asks_is_partition E devpath) Hpart) as (tl1 & Hl1 & Hq1).
  exists s1, part. destruct part.
  - step H as s2 r Hctx.
    destruct (@emits_run _ _ _ _ _ _ (asks_ptable_context E devpath) Hctx) as (tl2 & Hl2 & Hq2).
    apply ok_inj in H. destruct H as [<- _].
    exists (tl1 ++ tl2). split; [exact Hpart|]. split; [apply forallb_app_true; assumption|].
    rewrite Hl2, Hl1, <- app_assoc. reflexivity.
  - step H as s2 lv Hlv.
    destruct (@emits_run _ _ _ _ _ _ (asks_is_lv E devpath) Hlv) as (tl2 & Hl2 & Hq2).
    destruct lv; [|discriminate].
    apply quiet_call_done in H. destruct H as [Hlog _].
    exists (tl1 ++ tl2). split; [exact Hpart|]. split; [apply forallb_app_true; assumption|].
    rewrite Hlog, Hl2, Hl1, <- !app_assoc. reflexivity.
Qed.

(** X29.  What [dev_resize] does.  The size is rounded up to whole sectors
    first (for a size of at least 1 that leaves room for it in 64 bits: a
    multiple of 512, at least the size asked for and less than 512 above it).
    A call that returns has either found a partition and run no command at
    all -- [PartitionTable::part_resize] is a placeholder, the partition
    keeps its size -- or found no partition and ended on the one lvm
    lvreduce -f or lvm lvextend for the rounded size in bytes; all the rest
    it does is ask questions. *)
Theorem dev_resize_result (E : Env) (devpath : string) (newsize : Z) (shrink : bool)
        (s s' : sys) :
  1 <= newsize -> newsize + 512 <= two64 ->
  dev_resize E devpath newsize shrink s = (s', Ok tt) ->
  let n := align_up newsize 512 in
  n mod 512 = 0 /\ newsize <= n < newsize + 512 /\
  exists s1 part asked,
    is_partition E devpath s = (s1, Ok part) /\
    forallb is_query asked = true /\
    if part then log s' = log s ++ asked
    else log s' = log s ++ asked ++ [Call (resize_cmd shrink n devpath) ""].
Proof.
  intros Hpos Hfit H. cbv zeta.
  destruct (@align_up_bounds newsize 512) as [Hmod Hn]; try lia.
  split; [exact Hmod|]. split; [exact Hn|]. exact (@dev_resize_inv E devpath newsize shrink s s' tt H).
Qed.

Lemma dev_resize_result_witness :
  let s' := fst (dev_resize env_lv "/dev/vg0/home" 1000 false no_disks) in
  let n := align_up 1000 512 in
  n mod 512 = 0 /\ 1000 <= n < 1000 + 512 /\
  exists s1 part asked,
    is_partition env_lv "/dev/vg0/home" no_disks = (s1, Ok part) /\
    forallb is_query asked = true /\
    if part then log s' = log no_disks ++ asked
    else log s' = log no_disks ++ asked ++ [Call (resize_cmd false n "/dev/vg0/home") ""].
Proof.
  cbv zeta.
  apply (@dev_resize_result env_lv "/dev/vg0/home" 1000 false no_disks
                            (fst (dev_resize env_lv "/dev/vg0/home" 1000 false no_disks))).
  - lia.
  - unfold two64. lia.
  - vm_compute. reflexivity.
Defined.

(** *** The stack operations with and without the objects: the same runs *)

Lemma forget_bind {A B} (m : M A) (k : A -> M B) (s : sys) :
  forget (bind m k) s = bind m (fun a => forget (k a)) s.
Proof. unfold forget, bind. destruct (m s) as [s1 [a|w|w|c]]; reflexivity. Qed.

Lemma bind_ext {A B} (m : M A) (k k' : A -> M B) (s : sys) :
  (forall a s1, k a s1 = k' a s1) -> bind m k s = bind m k' s.
Proof. intros H. unfold bind. destruct (m s) as [s1 [a|w|w|c]]; auto. Qed.

Lemma fs_reserve_same (E : Env) (i : nat) (f : Filesystem.t) (pos : Z) (s : sys) :
  Filesystem.reserve_end_area_nonrec E i f pos s
  = bind (ResizeOps.fs_reserve_end_area_nonrec E i f pos) (fun r => ret (snd r)) s.
Proof.
  unfold Filesystem.reserve_end_area_nonrec, ResizeOps.fs_reserve_end_area_nonrec.
  unfold bind at 1 3 4. unfold emit.
  destruct (Filesystem.block_size f =? 0); [reflexivity|]. cbv zeta.
  unfold bind. destruct (Filesystem.fssize f _) as [s1 [sz|w|w|c]]; try reflexivity.
  destruct (sz <=? _); [reflexivity|]. destruct (negb _); [reflexivity|].
  destruct (Filesystem._mount_and_resize E f _ s1) as [s2 [f'|w|w|c]]; reflexivity.
Qed.

Lemma fs_grow_same (E : Env) (i : nat) (f : Filesystem.t) (ub : Z) (s : sys) :
  Filesystem.grow_nonrec E i f ub s
  = bind (ResizeOps.fs_grow_nonrec E i f ub) (fun r => ret (snd r)) s.
Proof.
  unfold Filesystem.grow_nonrec, ResizeOps.fs_grow_nonrec.
  unfold bind at 1 3 4. unfold emit.
  destruct (Filesystem.block_size f =? 0); [reflexivity|]. cbv zeta.
  unfold bind. destruct (Filesystem.fssize f _) as [s1 [sz|w|w|c]]; try reflexivity.
  destruct (assert _ _ s1) as [s2 [u|w|w|c]]; try reflexivity.
  destruct (sz =? _); [reflexivity|].
  destruct (Filesystem._mount_and_resize E f _ s2) as [s3 [f'|w|w|c]]; reflexivity.
Qed.

Lemma reserve_layer_same (E : Env) (p : Z * (nat * BlockStack.BlockData)) (s : sys) :
  BlockStack.reserve_layer E p s = forget (ResizeOps.reserve_layer E p) s.
Proof.
  destruct p as [inner_pos [i [l|b|f]]];
    unfold BlockStack.reserve_layer, ResizeOps.reserve_layer, forget.
  - unfold bind. destruct (LuksLayer.reserve_end_area_nonrec E i l inner_pos s)
      as [s1 [r|w|w|c]]; reflexivity.
  - reflexivity.
  - unfold bind. rewrite fs_reserve_same. unfold bind.
    destruct (ResizeOps.fs_reserve_end_area_nonrec E i f inner_pos s) as [s1 [r|w|w|c]];
      reflexivity.
Qed.

Lemma reserve_loop_same (E : Env) (l : list (Z * (nat * BlockStack.BlockData))) :
  forall (done : list BlockStack.BlockData) (s : sys),
    for_each l (BlockStack.reserve_layer E) s
    = forget (fold_m l done
                     (fun done p => block_data <- ResizeOps.reserve_layer E p ;;
                                    ret (block_data :: done))) s.
Proof.
  induction l as [|p l IH]; intros done s; cbn [for_each fold_m]; [reflexivity|].
  rewrite forget_bind. unfold bind at 1. rewrite reserve_layer_same.
  unfold forget at 1. unfold bind at 1 2 3.
  destruct (ResizeOps.reserve_layer E p s) as [s1 [bd|w|w|c]]; try reflexivity.
  cbn. apply IH.
Qed.

Lemma stack_reserve_same (E : Env) (progress : ProgressListener) (stack : BlockStack.t)
      (pos : Z) (s : sys) :
  BlockStack.stack_reserve_end_area E progress stack pos s
  = forget (ResizeOps.stack_reserve_end_area E progress stack pos) s.
Proof.
  unfold BlockStack.stack_reserve_end_area, ResizeOps.stack_reserve_end_area.
  assert (Hbail : forall msg s0, @bail unit progress msg s0
                                 = forget (@bail BlockStack.t progress msg) s0).
  { intros msg s0. destruct progress; reflexivity. }
  destruct (BlockStack.topmost stack) as [[l|b|fs]|]; try apply Hbail.
  destruct (Filesystem.block_size fs =? 0); [reflexivity|]. cbv zeta.
  rewrite forget_bind. apply bind_ext. intros sz s1.
  rewrite forget_bind. apply bind_ext. intros fstype s2.
  rewrite forget_bind. apply bind_ext. intros u s3.
  apply reserve_loop_same.
Qed.

Lemma bind_assoc {A B C} (m : M A) (k : A -> M B) (h : B -> M C) (s : sys) :
  bind (bind m k) h s = bind m (fun a => bind (k a) h) s.
Proof. unfold bind. destruct (m s) as [s1 [a|w|w|c]]; reflexivity. Qed.

Lemma bind_ret_l {A B} (a : A) (k : A -> M B) (s : sys) : bind (ret a) k s = k a s.
Proof. reflexivity. Qed.

Ltac monad_step :=
  repeat first [ rewrite bind_assoc | rewrite bind_ret_l | progress cbv beta iota ].

Lemma grow_wrappers_same (E : Env) (ws : list BlockStack.BlockData) :
  forall (i : nat) (current_size : Z) (s : sys),
    BlockStack.grow_wrappers E ws i current_size s
    = bind (ResizeOps.grow_wrappers E ws i current_size) (fun r => ret (snd r)) s.
Proof.
  induction ws as [|bd ws IH]; intros i current_size s;
    cbn [BlockStack.grow_wrappers ResizeOps.grow_wrappers]; [reflexivity|].
  assert (Hrest : forall (bd' : BlockStack.BlockData) cs s1,
             BlockStack.grow_wrappers E ws (S i) cs s1
             = bind (ResizeOps.grow_wrappers E ws (S i) cs)
                    (fun a => bind (let '(rest, c) := a in ret (bd' :: rest, c))
                                   (fun r => ret (snd r))) s1).
  { intros bd' cs s1. rewrite IH. apply bind_ext. intros [rest c] s2. reflexivity. }
  destruct bd as [l|b|f]; monad_step.
  - apply bind_ext. intros [l' c] s1. monad_step. apply Hrest.
  - apply bind_ext. intros c s1. monad_step. apply Hrest.
  - apply Hrest.
Qed.

Lemma stack_grow_same (E : Env) (stack : BlockStack.t) (newsize : Z) (s : sys) :
  BlockStack.stack_grow E stack newsize s = forget (ResizeOps.stack_grow E stack newsize) s.
Proof.
  unfold BlockStack.stack_grow, ResizeOps.stack_grow, forget.
  rewrite bind_assoc.
  unfold bind at 1. rewrite grow_wrappers_same. unfold bind at 1 2 3.
  destruct (ResizeOps.grow_wrappers E (BlockStack.wrappers stack) 0 newsize s)
    as [s1 [[ws c]|w|w|c]]; try reflexivity.
  cbn [snd ret]. cbv beta iota.
  destruct (BlockStack.topmost stack) as [[l|b|fs]|]; try reflexivity.
  rewrite bind_assoc. unfold bind at 1. rewrite fs_grow_same. unfold bind.
  destruct (ResizeOps.fs_grow_nonrec E _ fs c s1) as [s2 [r|w|w|c2]]; reflexivity.
Qed.

(** Followed with or without the objects, [stack_resize] is the same run:
    the same log, the same devices, the same way out. *)
Lemma stack_resize_same (E : Env) (progress : ProgressListener) (stack : BlockStack.t)
      (pos : Z) (shrink : bool) (s : sys) :
  BlockStack.stack_resize E progress stack pos shrink s
  = forget (ResizeOps.stack_resize E progress stack pos shrink) s.
Proof.
  unfold BlockStack.stack_resize, ResizeOps.stack_resize.
  destruct shrink; [apply stack_reserve_same | apply stack_grow_same].
Qed.

Lemma total_data_size_pure (stack : BlockStack.t) (s s' : sys) (tds : Z) :
  BlockStack.total_data_size stack s = (s', Ok tds) ->
  s' = s /\ forall s0, BlockStack.total_data_size stack s0 = (s0, Ok tds).
Proof.
  unfold BlockStack.total_data_size. intros H.
  step H as s1 fs_size Hfs. apply ok_inj in H. destruct H as [<- <-].
  destruct (BlockStack.topmost stack) as [[l|b|fs]|].
  1,2,4: apply ok_inj in Hfs; destruct Hfs as [<- <-]; split; [reflexivity | intros; reflexivity].
  pose proof (fssize_quiet _ _ Hfs) as ->. split; [reflexivity|].
  intros s0. unfold bind. rewrite (fssize_pure _ _ Hfs s0). reflexivity.
Qed.


